(* ===== verification/_CoqProject ===== *)
-Q . S2P
Prelude.v
RustStr.v
Crates.v
Permits.v
Decimal.v
Evm.v
Proto.v
DateTime.v
Venue.v
Jcs.v
Ledger.v
Registry.v
Intent.v
PolicyGate.v
Caps.v
Generic.v
Asterdex.v
Allowance.v
Stores.v
DekCache.v
Limiter.v
Eip712.v
Receipt.v
PolicyCli.v
Program.v
Handler.v
Enclave.v
Replay.v
Provision.v
Scenario.v
KmsClient.v
GwProto.v
GwWire.v
Framing.v
Server.v
GwHost.v
ParentClient.v
GwLimits.v
GwTenant.v
GwReconcile.v
GwAuth.v
GwBackoff.v
GwCalls.v
GwHandlers.v
GwHedge.v
GwGates.v
GwServe.v
GwFront.v
GwHedgeFacts.v
GwHandoff.v
GwPayments.v
GwAws.v
GwBlobs.v
GwArchive.v
GwUnwind.v
GwUnwindFacts.v
GwUnwindLive.v
GwProbe.v
GwBoot.v
GwWorld.v
GwExecution.v
GwAnswers.v
System.v
