(* ===== verification/Prelude.v ===== *)
(** * A verification library for the Usenami signer

    The program under src/poc is a signing service: agents hold no exchange
    keys; an AWS Nitro enclave does, and signs a request only when the tenant's
    registry entry and the policy sealed beside the key allow it.  A gateway
    outside the enclave authenticates tenants, keeps their limits and kill
    switches and forwards requests; a command-line tool signs policies and
    registry entries offline; a client on the enclave's host delivers them.  This
    library models all four and proves what a signature implies, what the gateway
    lets through, and that the parts fit together.

    ** The program

    A connection to the enclave carries one [SignRequest] (enclave/src/proto.rs).
    [handle] (handler.rs) answers the operator actions (ping, registry challenge
    and refresh, provisioning, attestation), and for everything else resolves the
    opaque token in the registry (registry.rs), spends a token of the tenant's
    bucket (rate_limiter.rs), applies the tenant's signed mode and dispatches on
    the action.  A signing handler opens the sealed blob (envelope.rs, with data
    keys from KMS through kms_client.rs or from dek_cache.rs), checks who signed
    the policy inside (the baked authority, or tofu.rs), enforces the policy and
    the caps, checks the agent's intent against the replay ledger
    (intent_ledger.rs), and signs (signer.rs).  Every decision gets a numbered
    receipt (receipt.rs).  Connections run concurrently and share the registry,
    the limiter, the cache, the pins, the ledger and the receipt counters, each
    behind a lock.

    The gateway (gateway/src) takes HTTP requests: main.rs accepts connections
    and puts each request through the layers of its tier; auth.rs finds the
    tenant; tenant_state.rs holds the kill switch; limits.rs counts orders and
    payments in files; handlers.rs and hedge.rs build the message to the enclave,
    send it (vsock.rs) and make the answer; reconcile.rs unwinds the orders of a
    stopped tenant; backoff.rs, aws.rs and receipts.rs keep the breaker, the
    credentials and the receipt archive.  The tool is policy-cli/src, the client
    parent/src.

    ** The files: foundations

    - [Prelude]: [result], its monad, tactics.  [RustStr]: byte strings and the
      [str] functions the code uses.  [Crates]: third-party code as a class of
      functions, with the laws the proofs use as further classes ([HexLaws],
      [HashLaws], [SecpLaws], [AeadLaws], [UnicodeLaws]) and one concrete
      instance of all of them.  [Permits]: tokio's semaphore, likewise.

    ** The files: the enclave

    - [Decimal] (signer.rs: [decimal_digits] to [notional_sum_exceeds]): digit
      vectors with u8 and u32 carries; [operand] is the rational a string
      denotes.  [Evm]: the uint256, address, bytes32 and key parsers.
    - [Proto]: requests, responses, policies, secrets, error codes.
    - [DateTime]: [okx_iso8601_from_ms].  [Venue]: canonical strings, headers
      and structured order bodies of KuCoin, Binance, Bybit and OKX.  [Jcs]:
      [canonical_v1].  [Eip712]: the typed-data digests and signatures.
    - [Ledger], [Registry], [Stores] (pins, envelopes), [DekCache], [Limiter],
      [Receipt]: one file per store, its state a record and each operation a
      function of it.
    - [Intent], [PolicyGate], [Caps], [Generic], [Asterdex], [Allowance]: the
      checks of handler.rs.
    - [Program]: the atomic accesses to the stores ([call]), handlers as trees of
      calls ([prog]), one enclave state, the step relation [cstep] that
      interleaves any number of requests, and a weakest-precondition calculus
      whose rule [interleaving_sound] transfers to every interleaving.
    - [Handler]: [handle] and the handler of every action as programs.
    - [Enclave]: what [call]s promise ([call_pre], [call_post], [enclave_inv])
      and the theorems about the whole enclave.  [Replay]: one intent, one
      signature.  [Provision]: keys minted inside.  [Scenario]: a booted enclave
      with a signed registry that signs, evaluated, as an instance of them.
    - [KmsClient]: kms_client.rs and, at the other end of the pipe, the vendored
      child process (secrets_stdin.h, main.c); their composition satisfies the
      interface [Kms] the handlers are proved against.
    - [Framing]: the frames of the channel at both ends.  [Server]: the accept
      loop (vsock_server.rs), the NSM device's caller (attestation.rs), main.rs.

    ** The files: tool and client

    - [PolicyCli] (policy-cli/src): registry and policy commands, the static
      check, envelopes, composed with the enclave's own checks.
    - [ParentClient] (parent/src/main.rs): the requests it builds, the round trip,
      the key files it writes; the registry ceremony through all three programs.

    ** The files: the gateway

    - [GwHost]: environment and files with failing calls and crashes; a rename is
      sure to survive a crash only after a directory sync.  [GwProto], [GwWire]: codes,
      statuses, request and response types, the message to the enclave.
    - [GwLimits], [GwTenant], [GwAuth], [GwBackoff], [GwAws], [GwArchive],
      [GwBlobs]: one file per store or input; each operation under a lock is a
      function, a history a list of operations with restarts among them.
    - [GwCalls]: handlers as programs ([gprog]) whose calls may be answered
      arbitrarily, since other requests run in between; [gall] speaks about all
      answers.  [GwHandlers], [GwHedge]: every route.  [GwGates]: what the
      handlers may send and answer.  [GwServe]: the middleware of the tenant tier
      around them.  [GwHedgeFacts], [GwPayments], [GwHandoff]: both halves of a
      hedge, payments, and the bytes the venue checks.
    - [GwReconcile]: the unwind job, its claims and restarts.  [GwUnwind],
      [GwUnwindFacts]: the job over the real venue operations, under every
      answer.  [GwUnwindLive]: when it succeeds.
    - [GwProbe]: the signing probe.  [GwBoot]: [main] up to serving, with the
      operator's socket.  [GwFront]: connections, tiers, pools and timeouts.
    - [GwWorld]: any number of requests, switches, crashes and restarts at once,
      with the executions that hedges spawn ([tokio::spawn]) as tasks of their
      own, which outlive their requests and can panic.  [GwExecution]: hedges in
      that world.  [GwAnswers]: what an HTTP 200 of the order and payment routes is made of.

    ** The files: the whole

    - [System]: [GwWorld] and [Program] as one transition system joined by
      [Framing]; other clients may use the enclave, and either side may restart.

    ** What the theorems show

    - Whole enclave ([Enclave], [Replay], [Provision]): for every interleaving
      since boot, a signing request is answered without an error only with the
      authority described in [signature_needs_authority]; structured orders, x402
      payments, Permit2 allowances, Asterdex bodies and Hyperliquid mainnet
      batches are signed only within the sealed policy, over exactly the fields
      that were checked, with the sealed key; an intent is signed once; minted
      keys open only for their own tenant and venue.
    - Gates: the policy gate, order caps and x402 caps decide exactly the
      stated predicates; batch totals per asset stay within the Hyperliquid
      caps; the Asterdex scans see what the venue will see; capped keys get
      only reads on the generic routes; tenant modes block exposure.
    - Stores: the registry only ever holds what the control plane signed, at
      increasing versions; the ledger refines a sliding window; receipts are
      numbered without gaps; pins are permanent; the cache serves only fresh
      keys; the limiter keeps its budget; state files are never torn, and which
      content a crash can leave is known exactly.
    - Encodings: digests, intent messages, sealed identities, request
      preimages and canonical JSON determine the data they encode (for hashes:
      or exhibit a collision); order bodies parse back to the order; sealing,
      signing, archiving and parsing round-trip.
    - Arithmetic: decimals are exact rationals, uint256 never wraps, timestamps
      are Gregorian.
    - Whole gateway ([GwWorld]): under every interleaving, restart and disk
      failure, orders and payments stay within their caps, a stopped tenant sends
      nothing that creates exposure (until a restart that finds the store's file
      behind), every message carries its own tenant's token and key, and every
      answer, hedges included, says truthfully what happened and who decided.
    - A hedge executes both legs or none, once both are signed, however its
      request ends, unless its execution panics or the process dies; then nothing
      is claimed.  An unwind ends after a bounded effort with every pause counted,
      stays in its bounds, and reports done only on the venues' own word; with
      venues that execute what was signed it clears the books, or says it failed
      exactly when a policy's intent gate or an unsupported venue stands in the
      way.
    - Availability: both accept loops keep their bounds and keep serving, on
      arrival a request is shed only by its own pool and the halt never is; the
      gateway serves only after every boot check passed.
    - End to end ([System]): an order or payment the gateway hands back as signed
      was granted by its limits, admitted by the enclave under the same token, and
      found within the sealed policy; the client holds the enclave's bytes, signed
      as the venue checks them, and the amount counted is the amount signed.
    - Composition: the channel, the KMS child and the registry ceremony are
      transparent; what the tool signs the enclave accepts and installs, except
      for the two disagreements found: grants of the data-signing venue, and
      intent keys without order caps, which the tool lets through.

    ** Choices and bounds

    Loops are structural recursions over the data they scan.  Those with fuel
    get the length of their input, and a lemma shows that this is enough:
    [trim_start] ([trim_start_stops]), the flag scan of [Asterdex]
    ([flag_loop_rounds]), the reference JSON reader of [Venue]
    ([read_object_text]), [from_utf8] and [from_utf8_lossy] ([utf8_valid_enough],
    [utf8_lossy_enough]), and the child's line reader ([read_lines_enough]).
    Loops that never return (the accept loops, the probe task) are transition
    systems or bounded prefixes, and their theorems hold after every number of
    turns.  Machine integers are [Z] with wrap-around written out where the code
    can reach it (digit carries, the constant-time selects, sequence numbers).
    Instants are integers in nanoseconds, milliseconds where the probe sleeps.
    The limiter counts tokens exactly where the code uses [f64].  Hashes,
    signatures, AES-GCM, base64, msgpack, serde's derived code and its JSON
    parser, axum, tower, hyper, the HTTP client and the AWS SDK under the KMS
    tool are parameters; what is assumed of them is a law of a named class with
    a concrete instance.  KMS, the NSM device, venues, clocks, disks, randomness
    and schedulers enter as arguments and may answer anything.  Whether the
    framework gives a tier one pool or each of its routes one is a parameter
    ([Tower]); the theorems hold for both.

    ** Not modelled

    The driver behind the NSM descriptor, sockets and the metadata service's
    transport, HTTP parsing and the writing of responses (a response counts as
    written at once), axum's extractors, command-line parsing, logging,
    zeroization and lock poisoning: I/O, third-party code, or without effect on
    an answer.  File permissions other than those of the operator's socket and of
    minted keys.  The attestation registry contract, which is Solidity and which
    neither program calls. *)

From Stdlib Require Export Ascii String ZArith Lia.
From stdpp Require Export base list gmap strings sorting.

Set Default Proof Using "Type".
Open Scope Z_scope.

(** ** Results: Rust's [Result<A, E>] *)

Inductive result (E A : Type) : Type :=
| Ok (a : A)
| Err (e : E).
Arguments Ok {E A} a.
Arguments Err {E A} e.

Global Instance result_ret E : MRet (result E) := fun A a => Ok a.
Global Instance result_bind E : MBind (result E) :=
  fun A B f r => match r with Ok a => f a | Err e => Err e end.
Global Instance result_eq_dec `{EqDecision E, EqDecision A} : EqDecision (result E A).
Proof. solve_decision. Defined.

Definition is_ok {E A} (r : result E A) : bool :=
  match r with Ok _ => true | Err _ => false end.

Definition ok_or {E A} (o : option A) (e : E) : result E A :=
  match o with Some a => Ok a | None => Err e end.

Definition map_err {E F A} (f : E -> F) (r : result E A) : result F A :=
  match r with Ok a => Ok a | Err e => Err (f e) end.

Lemma bind_ok_inv {E A B} (r : result E A) (f : A -> result E B) b :
  (r ≫= f) = Ok b -> exists a, r = Ok a /\ f a = Ok b.
Proof. destruct r; simpl; [eauto | discriminate]. Qed.

Lemma ok_or_inv {E A} (o : option A) (e : E) a : ok_or o e = Ok a -> o = Some a.
Proof. destruct o; simpl; congruence. Qed.

(** ** Boolean list predicates *)

Lemma forallb_Forall {A} (f : A -> bool) l : forallb f l = true <-> Forall (fun x => f x = true) l.
Proof.
  induction l as [|x l IH]; [by split|]. cbn [forallb].
  rewrite andb_true_iff, Forall_cons, IH. done.
Qed.

Lemma existsb_Exists {A} (f : A -> bool) l : existsb f l = true <-> Exists (fun x => f x = true) l.
Proof.
  induction l as [|x l IH]; [split; [done|by intros ?%Exists_nil]|]. cbn [existsb].
  rewrite orb_true_iff, Exists_cons, IH. done.
Qed.

(** ** Tactics *)

(** Peel one layer of [match]/[if]/bind in a hypothesis [H : _ = Ok _]
    (or any other constructor), discarding the branches that contradict it. *)
Ltac step_in H :=
  match type of H with
  | (?r ≫= _) = Ok _ =>
      let a := fresh "a" in let E := fresh "E" in
      apply bind_ok_inv in H as (a & E & H)
  | context [match ?x with _ => _ end] =>
      let E := fresh "E" in destruct x eqn:E; try discriminate H
  end.

Ltac inv_ok H := repeat (step_in H; simplify_eq); simplify_eq.

(** Case analysis on the outermost discriminee of the goal. *)
Ltac case_goal :=
  match goal with
  | |- context [match ?x with _ => _ end] => let E := fresh "E" in destruct x eqn:E
  end.
