(* ===== verification/RustStr.v ===== *)
(** * Rust byte strings

    [&str] and [Vec<u8>] text values are modelled as Stdlib [string], one
    [ascii] per byte.  This file holds the operations of Rust's [str] that the
    signer uses ([split], [split_once], [find], [starts_with], [trim], decimal
    formatting, big-endian integers) with the facts the components share. *)

From stdpp Require Import pretty.
From S2P Require Import Prelude.

Open Scope Z_scope.

(** ** Bytes *)

Definition byte_val (c : ascii) : Z := Z.of_N (N_of_ascii c).
Definition byte_of (z : Z) : ascii := ascii_of_N (Z.to_N (z mod 256)).

Definition in_range (lo hi : Z) (c : ascii) : bool :=
  (lo <=? byte_val c) && (byte_val c <=? hi).

Definition is_ascii_digit (c : ascii) : bool := in_range 48 57 c.
Definition is_ascii_uppercase (c : ascii) : bool := in_range 65 90 c.
Definition is_ascii_lowercase (c : ascii) : bool := in_range 97 122 c.
Definition is_ascii_alphabetic (c : ascii) : bool :=
  is_ascii_uppercase c || is_ascii_lowercase c.
Definition is_ascii_alphanumeric (c : ascii) : bool :=
  is_ascii_alphabetic c || is_ascii_digit c.
Definition is_ascii_hexdigit (c : ascii) : bool :=
  is_ascii_digit c || in_range 65 70 c || in_range 97 102 c.

Definition ascii_upper (c : ascii) : ascii :=
  if is_ascii_lowercase c then byte_of (byte_val c - 32) else c.
Definition ascii_lower (c : ascii) : ascii :=
  if is_ascii_uppercase c then byte_of (byte_val c + 32) else c.

(** ** Strings *)

Fixpoint bytes_all (p : ascii -> bool) (s : string) : bool :=
  match s with
  | EmptyString => true
  | String c s' => p c && bytes_all p s'
  end.

Definition bytes_any (p : ascii -> bool) (s : string) : bool :=
  negb (bytes_all (fun c => negb (p c)) s).

Fixpoint str_map (f : ascii -> ascii) (s : string) : string :=
  match s with
  | EmptyString => EmptyString
  | String c s' => String (f c) (str_map f s')
  end.

Definition to_ascii_uppercase : string -> string := str_map ascii_upper.
Definition to_ascii_lowercase : string -> string := str_map ascii_lower.
Definition eq_ignore_ascii_case (a b : string) : bool :=
  bool_decide (to_ascii_lowercase a = to_ascii_lowercase b).

Definition is_empty (s : string) : bool :=
  match s with EmptyString => true | _ => false end.

(** [s.strip_prefix(p)] *)
Fixpoint strip_prefix (p s : string) : option string :=
  match p, s with
  | EmptyString, _ => Some s
  | String a p', String b s' => if decide (a = b) then strip_prefix p' s' else None
  | String _ _, EmptyString => None
  end.

Definition starts_with (p s : string) : bool := bool_decide (is_Some (strip_prefix p s)).

(** [s.split_once(c)] for a one-byte separator. *)
Fixpoint split_once (c : ascii) (s : string) : option (string * string) :=
  match s with
  | EmptyString => None
  | String b s' =>
      if decide (b = c) then Some (EmptyString, s')
      else match split_once c s' with
           | Some (l, r) => Some (String b l, r)
           | None => None
           end
  end.

(** [s.split(c)]: always at least one segment. *)
Fixpoint split (c : ascii) (s : string) : list string :=
  match s with
  | EmptyString => [EmptyString]
  | String b s' =>
      if decide (b = c) then EmptyString :: split c s'
      else match split c s' with
           | seg :: rest => String b seg :: rest
           | [] => [String b EmptyString]
           end
  end.

(** [s.find(pat)]: byte offset of the first occurrence. *)
Fixpoint find (pat s : string) : option nat :=
  if starts_with pat s then Some 0%nat
  else match s with
       | EmptyString => None
       | String _ s' => S <$> find pat s'
       end.

Definition contains (pat s : string) : bool := bool_decide (is_Some (find pat s)).

Fixpoint contains_char (c : ascii) (s : string) : bool :=
  match s with
  | EmptyString => false
  | String b s' => bool_decide (b = c) || contains_char c s'
  end.

(** [&s[n..]] and [&s[..n]] (the callers slice on ASCII boundaries). *)
Fixpoint str_drop (n : nat) (s : string) : string :=
  match n, s with
  | S n', String _ s' => str_drop n' s'
  | _, _ => s
  end.
Fixpoint str_take (n : nat) (s : string) : string :=
  match n, s with
  | S n', String c s' => String c (str_take n' s')
  | _, _ => EmptyString
  end.

(** [s.as_bytes().get(n)] *)
Definition byte_at (n : nat) (s : string) : option ascii := String.get n s.

(** [s.ends_with(p)] *)
Fixpoint ends_with (p s : string) : bool :=
  if decide (p = s) then true
  else match s with EmptyString => false | String _ s' => ends_with p s' end.

(** [s.trim()]: strips the UTF-8 encodings of Unicode's White_Space. *)
Definition utf8_2 (a b : Z) : string := String (byte_of a) (String (byte_of b) EmptyString).
Definition utf8_3 (a b c : Z) : string := String (byte_of a) (utf8_2 b c).
Definition white_space : list string :=
  ((fun z => String (byte_of z) EmptyString) <$> [9; 10; 11; 12; 13; 32]) ++
  [utf8_2 194 133; utf8_2 194 160; utf8_3 225 154 128] ++
  ((fun z => utf8_3 226 128 z) <$> [128; 129; 130; 131; 132; 133; 134; 135; 136; 137; 138; 168; 169; 175]) ++
  [utf8_3 226 129 159; utf8_3 227 128 128].

(** [String::from_utf8_lossy]: a maximal ill-formed prefix becomes U+FFFD. *)
Definition replacement : string := utf8_3 239 191 189.
(** The continuation ranges a lead byte asks for. *)
Definition lead_plan (c : ascii) : option (list (Z * Z)) :=
  let b := byte_val c in
  if b <? 128 then Some []
  else if (194 <=? b) && (b <=? 223) then Some [(128, 191)]
  else if b =? 224 then Some [(160, 191); (128, 191)]
  else if b =? 237 then Some [(128, 159); (128, 191)]
  else if (225 <=? b) && (b <=? 239) then Some [(128, 191); (128, 191)]
  else if b =? 240 then Some [(144, 191); (128, 191); (128, 191)]
  else if (241 <=? b) && (b <=? 243) then Some [(128, 191); (128, 191); (128, 191)]
  else if b =? 244 then Some [(128, 143); (128, 191); (128, 191)]
  else None.
Fixpoint take_plan (plan : list (Z * Z)) (acc s : string) : option string * string :=
  match plan with
  | [] => (Some acc, s)
  | (lo, hi) :: plan' =>
      match s with
      | String c s' => if in_range lo hi c then take_plan plan' (acc +:+ String c "") s' else (None, s)
      | EmptyString => (None, s)
      end
  end.
Fixpoint utf8_lossy_fuel (fuel : nat) (s : string) : string :=
  match fuel, s with
  | S fuel, String c s' =>
      match lead_plan c with
      | None => replacement +:+ utf8_lossy_fuel fuel s'
      | Some plan =>
          let '(char, rest) := take_plan plan (String c "") s' in
          default replacement char +:+ utf8_lossy_fuel fuel rest
      end
  | _, _ => ""
  end.
Definition from_utf8_lossy (s : string) : string := utf8_lossy_fuel (String.length s) s.

(** [str::from_utf8] *)
Fixpoint utf8_valid_fuel (fuel : nat) (s : string) : bool :=
  match fuel, s with
  | S fuel, String c s' =>
      match lead_plan c with
      | None => false
      | Some plan => let '(char, rest) := take_plan plan (String c "") s' in bool_decide (is_Some char) && utf8_valid_fuel fuel rest
      end
  | _, _ => true
  end.
Definition from_utf8 (s : string) : option string := if utf8_valid_fuel (String.length s) s then Some s else None.

(** [str]'s order: by bytes. *)
Definition str_le (a b : string) : Prop := String.leb a b = true.
#[global] Instance str_le_dec : RelDecision str_le.
Proof. intros a b. unfold str_le. apply _. Defined.

Definition is_continuation (c : ascii) : bool := in_range 128 191 c.
(** [s.is_char_boundary(n)] for a position inside the text or at its end. *)
Definition at_boundary (s : string) (n : nat) : bool :=
  match byte_at n s with Some c => negb (is_continuation c) | None => true end.

(** [s.get(..n)] *)
Definition get_to (n : nat) (s : string) : option string :=
  if (n <=? String.length s)%nat && at_boundary s n then Some (str_take n s) else None.

(** [s.lines()] *)
Definition strip_cr (line : string) : string :=
  if ends_with (String "013" "") line then str_take (String.length line - 1) line else line.
Definition lines (s : string) : list string :=
  let parts := split "010" s in
  let closed := take (length parts - 1) parts in
  (strip_cr <$> closed) ++ filter (fun rest => rest <> "") (drop (length parts - 1) parts).

Fixpoint first_some {A B} (f : A -> option B) (l : list A) : option B :=
  match l with
  | [] => None
  | a :: l' => match f a with Some b => Some b | None => first_some f l' end
  end.

Fixpoint trim_start_fuel (fuel : nat) (s : string) : string :=
  match fuel with
  | O => s
  | S fuel' =>
      match first_some (fun w => strip_prefix w s) white_space with
      | Some s' => trim_start_fuel fuel' s'
      | None => s
      end
  end.
Definition trim_start (s : string) : string := trim_start_fuel (String.length s) s.

(** The longest prefix of [s] that is not followed only by white space. *)
Fixpoint trim_end (s : string) : string :=
  if is_empty (trim_start s) then EmptyString
  else match s with
       | EmptyString => EmptyString
       | String c s' => String c (trim_end s')
       end.
Definition trim (s : string) : string := trim_end (trim_start s).

(** [n.to_string()] / [{}] on an unsigned integer. *)
Definition u64_to_string (n : Z) : string := pretty (Z.to_N n).

(** [{:0w}]: zero-padded decimal. *)
Fixpoint zeros (n : nat) : string :=
  match n with O => EmptyString | S n' => String "0" (zeros n') end.
Definition pad_u64 (w : nat) (n : Z) : string :=
  let s := u64_to_string n in (zeros (w - String.length s) +:+ s)%string.

(** Big-endian and little-endian integers: [n.to_be_bytes()]. *)
Fixpoint be_bytes (w : nat) (n : Z) : string :=
  match w with
  | O => EmptyString
  | S w' => String (byte_of (n / 256 ^ Z.of_nat w')) (be_bytes w' n)
  end.
Definition u32_be (n : Z) : string := be_bytes 4 n.
Definition u64_be (n : Z) : string := be_bytes 8 n.

(** ** Facts about bytes *)

Lemma byte_val_range c : 0 <= byte_val c < 256.
Proof.
  unfold byte_val. pose proof (N_ascii_bounded c). lia.
Qed.

Lemma byte_val_inj c d : byte_val c = byte_val d -> c = d.
Proof.
  unfold byte_val. intros H. rewrite <- (ascii_N_embedding c), <- (ascii_N_embedding d).
  f_equal. lia.
Qed.

Lemma byte_val_of z : byte_val (byte_of z) = z mod 256.
Proof.
  unfold byte_val, byte_of. pose proof (Z.mod_pos_bound z 256 eq_refl).
  rewrite N_ascii_embedding; lia.
Qed.

Lemma byte_of_inj a b : 0 <= a < 256 -> 0 <= b < 256 -> byte_of a = byte_of b -> a = b.
Proof.
  intros Ha Hb H. apply (f_equal byte_val) in H.
  rewrite !byte_val_of, !Z.mod_small in H; lia.
Qed.

(** ** Facts about concatenation *)

Open Scope string_scope.

#[global] Arguments String.append : simpl nomatch.

Lemma length_append s t :
  String.length (s +:+ t) = (String.length s + String.length t)%nat.
Proof. induction s; simpl; lia. Qed.

Lemma append_assoc s t u : (s +:+ t) +:+ u = s +:+ (t +:+ u).
Proof. induction s; simpl; congruence. Qed.

Lemma append_nil_r s : s +:+ "" = s.
Proof. induction s; simpl; congruence. Qed.

Lemma append_inj_length s1 s2 t1 t2 :
  String.length s1 = String.length s2 ->
  s1 +:+ t1 = s2 +:+ t2 -> s1 = s2 /\ t1 = t2.
Proof.
  revert s2; induction s1 as [|c s1 IH]; intros [|d s2]; simpl; try lia; auto.
  intros Hl He. injection He as -> He. destruct (IH s2) as [-> ->]; auto; lia.
Qed.

Lemma str_take_app s t : str_take (String.length s) (s +:+ t) = s.
Proof. induction s as [|c s IH]; [by destruct t|]. cbn. by rewrite IH. Qed.

Lemma str_drop_app s t : str_drop (String.length s) (s +:+ t) = t.
Proof. induction s as [|c s IH]; [done|]. cbn. by rewrite IH. Qed.

Lemma str_split_at n s :
  (n <= String.length s)%nat ->
  s = str_take n s +:+ str_drop n s /\ String.length (str_take n s) = n /\
  (String.length s = n + String.length (str_drop n s))%nat.
Proof.
  revert s. induction n as [|n IH]; intros s Hn; [by destruct s|].
  destruct s as [|c s]; cbn in *; [lia|]. destruct (IH s) as (E & L1 & L2); [lia|]. split; [by f_equal|]. lia.
Qed.

Lemma str_drop_length n s : String.length (str_drop n s) = (String.length s - n)%nat.
Proof. revert s. induction n as [|n IH]; intros s; [cbn; lia|]. destruct s; cbn; [done|]. apply IH. Qed.

Lemma append_inj_prefix s t1 t2 : s +:+ t1 = s +:+ t2 -> t1 = t2.
Proof. intros H. by apply append_inj_length in H as [_ ?]. Qed.

Lemma bytes_all_app p s t : bytes_all p (s +:+ t) = bytes_all p s && bytes_all p t.
Proof. induction s; simpl; [done|]. rewrite IHs. by rewrite andb_assoc. Qed.

Lemma bytes_all_impl (p q : ascii -> bool) s :
  (forall c, p c = true -> q c = true) -> bytes_all p s = true -> bytes_all q s = true.
Proof. intros Hpq. induction s; simpl; [done|]. rewrite !andb_true_iff. intros [? ?]; auto. Qed.

Lemma bytes_any_false p s : bytes_any p s = false -> bytes_all (fun c => negb (p c)) s = true.
Proof. unfold bytes_any. by destruct (bytes_all _ s). Qed.

(** ** Facts about prefixes, [split_once] and [split] *)

Lemma strip_prefix_app p s : strip_prefix p (p +:+ s) = Some s.
Proof. induction p; simpl; [done|]. by rewrite decide_True. Qed.

Lemma strip_prefix_Some p s r : strip_prefix p s = Some r <-> s = p +:+ r.
Proof.
  split; [|intros ->; apply strip_prefix_app].
  revert s; induction p as [|c p IH]; intros [|b s]; simpl; try congruence.
  case_decide as Hc; [|done]. intros Hs. subst. f_equal. auto.
Qed.

Lemma first_some_None {A B} (f : A -> option B) l : first_some f l = None <-> Forall (fun a => f a = None) l.
Proof.
  induction l as [|x l IH]; cbn [first_some]; [by split|]. rewrite Forall_cons, <- IH.
  destruct (f x); [split; [done|by intros [? _]]|naive_solver].
Qed.

Lemma first_some_Some {A B} (f : A -> option B) l b : first_some f l = Some b -> exists a, a ∈ l /\ f a = Some b.
Proof.
  induction l as [|x l IH]; cbn [first_some]; [done|]. destruct (f x) eqn:E.
  - intros [= <-]. exists x. split; [by left|done].
  - intros (a & Ha & Hf)%IH. exists a. split; [by right|done].
Qed.

(** Visible ASCII text has nothing to trim. *)
(** The length of the text is fuel enough: every turn takes a byte. *)
Lemma take_plan_length plan acc s : (String.length (take_plan plan acc s).2 <= String.length s)%nat.
Proof.
  revert acc s. induction plan as [|[lo hi] plan IH]; intros acc s; [done|]. cbn [take_plan].
  destruct s as [|c s]; [done|]. destruct (in_range lo hi c); cbn [String.length snd]; [|lia]. specialize (IH (acc +:+ String c "") s). lia.
Qed.
Lemma utf8_lossy_enough f1 f2 s : (String.length s <= f1)%nat -> (String.length s <= f2)%nat -> utf8_lossy_fuel f1 s = utf8_lossy_fuel f2 s.
Proof.
  revert f2 s. induction f1 as [|f1 IH]; intros [|f2] [|c s] H1 H2; cbn in H1, H2; try lia; try done. cbn [utf8_lossy_fuel].
  destruct (lead_plan c) as [plan|]; [|f_equal; apply IH; lia]. pose proof (take_plan_length plan (String c "") s) as Hl.
  destruct (take_plan _ _ _) as [char rest]. cbn [snd] in Hl. f_equal. apply IH; lia.
Qed.
Lemma utf8_valid_enough f1 f2 s : (String.length s <= f1)%nat -> (String.length s <= f2)%nat -> utf8_valid_fuel f1 s = utf8_valid_fuel f2 s.
Proof.
  revert f2 s. induction f1 as [|f1 IH]; intros [|f2] [|c s] H1 H2; cbn in H1, H2; try lia; try done. cbn [utf8_valid_fuel].
  destruct (lead_plan c) as [plan|]; [|done]. pose proof (take_plan_length plan (String c "") s) as Hl.
  destruct (take_plan _ _ _) as [char rest]. cbn [snd] in Hl. f_equal. apply IH; lia.
Qed.

Lemma white_space_bytes :
  Forall (fun w => match w with String a _ => in_range 33 127 a = false | EmptyString => False end) white_space.
Proof. repeat (apply Forall_cons; split; [by vm_compute|]). apply Forall_nil_2. Qed.

Lemma trim_start_head c s : in_range 33 127 c = true -> trim_start (String c s) = String c s.
Proof.
  intros Hc. unfold trim_start. cbn [String.length trim_start_fuel].
  destruct (first_some _ white_space) as [r|] eqn:E; [|done]. apply first_some_Some in E as (w & Hin & Hp%strip_prefix_Some).
  apply (proj1 (Forall_forall _ _) white_space_bytes) in Hin. destruct w as [|a w]; [done|]. cbn in Hp. injection Hp as <- _.
  congruence.
Qed.

Lemma trim_start_visible s : bytes_all (in_range 33 127) s = true -> trim_start s = s.
Proof. destruct s as [|c s]; [done|]. cbn [bytes_all]. intros [Hc _]%andb_true_iff. by apply trim_start_head. Qed.

Lemma trim_end_after t s : bytes_all (in_range 33 127) t = true -> trim_end (t +:+ s) = t +:+ trim_end s.
Proof.
  induction t as [|c t IH]; [done|]. cbn [bytes_all String.append trim_end]. intros [Hc Ht]%andb_true_iff.
  rewrite trim_start_head by done. cbn [is_empty]. by rewrite IH.
Qed.

Lemma trim_visible s : bytes_all (in_range 33 127) s = true -> trim s = s.
Proof.
  intros Hs. unfold trim. rewrite trim_start_visible by done. induction s as [|c s IH]; [done|]. cbn [trim_end].
  rewrite trim_start_visible by done. cbn [is_empty]. f_equal. apply IH.
  cbn [bytes_all] in Hs. by apply andb_true_iff in Hs as [_ ?].
Qed.

(** [trim_start] stops at a character that is not white space. *)
Lemma trim_start_stops s : Forall (fun w => strip_prefix w (trim_start s) = None) white_space.
Proof.
  assert (forall fuel s, (String.length s <= fuel)%nat ->
    Forall (fun w => strip_prefix w (trim_start_fuel fuel s) = None) white_space) as Hfuel; [|by apply Hfuel].
  assert (Forall (fun w => (0 < String.length w)%nat) white_space) as Hw.
  { repeat (apply Forall_cons; split; [vm_compute; lia|]). apply Forall_nil_2. }
  clear s. induction fuel as [|fuel IH]; intros s Hs; cbn [trim_start_fuel];
    destruct (first_some (fun w => strip_prefix w s) white_space) as [r|] eqn:E.
  - apply first_some_Some in E as (w & Hin & Hp%strip_prefix_Some). exfalso.
    apply (f_equal String.length) in Hp. rewrite length_append in Hp.
    apply (proj1 (Forall_forall _ _) Hw) in Hin. lia.
  - by apply first_some_None.
  - apply IH. apply first_some_Some in E as (w & Hin & Hp%strip_prefix_Some).
    apply (f_equal String.length) in Hp. rewrite length_append in Hp.
    apply (proj1 (Forall_forall _ _) Hw) in Hin. lia.
  - by apply first_some_None.
Qed.

Lemma starts_with_spec p s : starts_with p s = true <-> exists r, s = p +:+ r.
Proof.
  unfold starts_with. rewrite bool_decide_eq_true. unfold is_Some.
  by setoid_rewrite strip_prefix_Some.
Qed.

Lemma contains_char_app c s t :
  contains_char c (s +:+ t) = contains_char c s || contains_char c t.
Proof. induction s; simpl; [done|]. by rewrite IHs, orb_assoc. Qed.

Lemma contains_char_all c p s :
  p c = false -> bytes_all p s = true -> contains_char c s = false.
Proof.
  intros Hc. induction s as [|b s IH]; simpl; [done|].
  rewrite andb_true_iff, orb_false_iff. intros [Hb Hs]. split; [|auto].
  apply bool_decide_eq_false. congruence.
Qed.

Lemma split_once_app c l r :
  contains_char c l = false -> split_once c (l +:+ String c r) = Some (l, r).
Proof.
  induction l as [|b l IH]; simpl; [by rewrite decide_True|].
  rewrite orb_false_iff, bool_decide_eq_false. intros [Hb Hl].
  rewrite decide_False by done. by rewrite IH.
Qed.

Lemma split_once_Some c s l r :
  split_once c s = Some (l, r) -> s = l +:+ String c r /\ contains_char c l = false.
Proof.
  revert l; induction s as [|b s IH]; intros l; simpl; [done|].
  case_decide as Hb; [intros [= <- <-]; by subst|].
  destruct (split_once c s) as [[l' r']|]; [|done]. intros [= <- <-].
  destruct (IH l') as [-> ?]; [done|]. simpl. rewrite bool_decide_eq_false_2 by done. auto.
Qed.

Lemma split_once_None c s : split_once c s = None <-> contains_char c s = false.
Proof.
  induction s as [|b s IH]; simpl; [done|].
  case_decide; [by rewrite bool_decide_eq_true_2 by done|].
  rewrite bool_decide_eq_false_2 by done. simpl. rewrite <- IH.
  destruct (split_once c s) as [[]|]; naive_solver.
Qed.

Lemma split_not_nil c s : split c s <> [].
Proof. destruct s; simpl; [done|]. case_decide; [done|]. by destruct (split c s). Qed.

Lemma split_no_sep c s : contains_char c s = false -> split c s = [s].
Proof.
  induction s as [|b s IH]; simpl; [done|].
  rewrite orb_false_iff, bool_decide_eq_false. intros [Hb Hs].
  rewrite decide_False by done. by rewrite IH.
Qed.

Lemma split_app c l r :
  contains_char c l = false -> split c (l +:+ String c r) = l :: split c r.
Proof.
  induction l as [|b l IH]; simpl; [by rewrite decide_True|].
  rewrite orb_false_iff, bool_decide_eq_false. intros [Hb Hl].
  rewrite decide_False by done. by rewrite IH.
Qed.

Lemma split_cat c l r : split c (l +:+ String c r) = (split c l ++ split c r)%list.
Proof.
  induction l as [|b l IH]; cbn [String.append split]; [by rewrite decide_True|].
  case_decide; [by rewrite IH|]. rewrite IH. pose proof (split_not_nil c l). by destruct (split c l).
Qed.

Lemma split_segment_no_sep c s seg : seg ∈ split c s -> contains_char c seg = false.
Proof.
  revert seg; induction s as [|b s IH]; intros seg; simpl.
  { by intros ->%list_elem_of_singleton. }
  case_decide as Hb.
  { rewrite elem_of_cons. intros [->|?]; auto. }
  pose proof (split_not_nil c s). destruct (split c s) as [|s0 rest]; [done|].
  rewrite elem_of_cons. intros [->|?].
  - simpl. rewrite bool_decide_eq_false_2 by done. apply IH. by left.
  - apply IH. by right.
Qed.

(** ** Decimal formatting and fixed-width integers *)

Lemma u64_to_string_inj a b : 0 <= a -> 0 <= b -> u64_to_string a = u64_to_string b -> a = b.
Proof. unfold u64_to_string. intros ?? H%pretty_N_inj. lia. Qed.

Lemma pretty_N_go_digits x s :
  bytes_all is_ascii_digit s = true -> bytes_all is_ascii_digit (pretty_N_go x s) = true.
Proof.
  revert s. induction (N.lt_wf_0 x) as [x _ IH]. intros s Hs.
  assert (x = 0 \/ 0 < x)%N as [->|?] by lia; [by rewrite pretty_N_go_0|].
  rewrite pretty_N_go_step by done. apply IH; [apply N.div_lt; lia|].
  simpl. rewrite Hs, andb_true_r. unfold pretty_N_char. by repeat case_match.
Qed.

Lemma u64_to_string_digits n : bytes_all is_ascii_digit (u64_to_string n) = true.
Proof.
  unfold u64_to_string, pretty, pretty_N. case_decide; [done|]. by apply pretty_N_go_digits.
Qed.

Lemma pretty_N_go_length x s : (String.length s <= String.length (pretty_N_go x s))%nat.
Proof.
  revert s. induction (N.lt_wf_0 x) as [x _ IH]. intros s.
  assert (x = 0 \/ 0 < x)%N as [->|?] by lia; [by rewrite pretty_N_go_0|].
  rewrite pretty_N_go_step by done. etrans; [|apply IH, N.div_lt; lia]. simpl. lia.
Qed.

Lemma u64_to_string_nonempty n : is_empty (u64_to_string n) = false.
Proof.
  unfold u64_to_string, pretty, pretty_N. case_decide; [done|]. rewrite pretty_N_go_step by lia.
  pose proof (pretty_N_go_length (Z.to_N n `div` 10) (String (pretty_N_char (Z.to_N n `mod` 10)) "")) as Hl.
  by destruct (pretty_N_go _ _); [cbn in Hl; lia|].
Qed.

Lemma length_be_bytes w n : String.length (be_bytes w n) = w.
Proof. induction w; simpl; congruence. Qed.

Lemma be_bytes_mod w x : be_bytes w x = be_bytes w (x mod 256 ^ Z.of_nat w).
Proof.
  revert x. induction w as [|w IH]; intros x; [done|]. cbn [be_bytes].
  rewrite Nat2Z.inj_succ, Z.pow_succ_r by lia.
  set (Q := 256 ^ Z.of_nat w) in *. assert (0 < Q) by (apply Z.pow_pos_nonneg; lia).
  f_equal.
  - unfold byte_of. f_equal. f_equal.
    rewrite (Z.mul_comm 256 Q), Z.rem_mul_r, (Z.mul_comm Q), Z.div_add by lia.
    rewrite (Z.div_small (x mod Q)) by (apply Z.mod_pos_bound; lia).
    rewrite Z.add_0_l, Z.mod_mod by lia. done.
  - rewrite (IH x), (IH (x mod (256 * Q))). f_equal.
    rewrite (Z.mul_comm 256 Q), Z.rem_mul_r, (Z.mul_comm Q), Z.mod_add, Z.mod_mod by lia. done.
Qed.

Lemma be_bytes_inj w a b :
  0 <= a < 256 ^ Z.of_nat w -> 0 <= b < 256 ^ Z.of_nat w ->
  be_bytes w a = be_bytes w b -> a = b.
Proof.
  revert a b; induction w as [|w IH]; intros a b; [simpl; lia|].
  rewrite Nat2Z.inj_succ, Z.pow_succ_r by lia. cbn [be_bytes].
  set (P := 256 ^ Z.of_nat w). assert (0 < P) by (apply Z.pow_pos_nonneg; lia).
  intros Ha Hb [= H1 H2].
  rewrite (be_bytes_mod w a), (be_bytes_mod w b) in H2. fold P in H2. apply IH in H2; try (apply Z.mod_pos_bound; lia).
  apply byte_of_inj in H1.
  - rewrite (Z.div_mod a P), (Z.div_mod b P) by lia. congruence.
  - split; [apply Z.div_pos; lia | apply Z.div_lt_upper_bound; lia].
  - split; [apply Z.div_pos; lia | apply Z.div_lt_upper_bound; lia].
Qed.

Lemma u32_be_inj a b : 0 <= a < 2 ^ 32 -> 0 <= b < 2 ^ 32 -> u32_be a = u32_be b -> a = b.
Proof. intros. apply (be_bytes_inj 4); auto. Qed.

Lemma u64_be_inj a b : 0 <= a < 2 ^ 64 -> 0 <= b < 2 ^ 64 -> u64_be a = u64_be b -> a = b.
Proof. intros. apply (be_bytes_inj 8); auto. Qed.

(** Membership in a list of literals, the shape of a [matches!] on strings. *)
Definition str_in (s : string) (l : list string) : bool := existsb (fun x => bool_decide (x = s)) l.

Lemma str_in_spec s l : str_in s l = true <-> s ∈ l.
Proof.
  unfold str_in. rewrite existsb_exists. setoid_rewrite bool_decide_eq_true. split.
  - intros (x & Hx & ->). by apply list_elem_of_In.
  - intros Hs. exists s. split; [by apply list_elem_of_In|done].
Qed.
