(* ===== verification/Crates.v ===== *)
(** * Third-party code as an interface

    Functions of crates and services the enclave calls and whose code is not
    part of the repository: hashing, signatures, base64/hex, AES-GCM, KMS and
    [serde_json]'s parser and printer.  They are fields of the class [Crates];
    what the proofs rely on is stated in separate law classes, each a
    documented property of the crate.  [demo_crates] is a concrete instance
    that satisfies every law, used to evaluate the model. *)

From S2P Require Import Prelude RustStr.

Open Scope Z_scope.

Class Crates := {
  (** [hex] *)
  hex_encode : string -> string;
  hex_decode : string -> option string;
  (** [base64], STANDARD engine *)
  b64_encode : string -> string;
  b64_decode : string -> option string;
  (** [sha2], [tiny_keccak], [hmac] *)
  sha256 : string -> string;
  keccak256 : string -> string;
  hmac_sha256 : string -> string -> string;
  (** [ed25519_dalek]: is this a curve point; does the signature verify *)
  ed25519_key_ok : string -> bool;
  ed25519_verify : string -> string -> string -> bool;
  (** [k256]: scalar check, recoverable signature (r||s, recovery id), and the
      SEC1 encodings of the public key *)
  secp_key_ok : string -> bool;
  secp_sign : string -> string -> option (string * Z);
  secp_pub_uncompressed : string -> string;
  secp_pub_compressed : string -> string;
  (** [VerifyingKey::recover_from_prehash], SEC1 uncompressed *)
  secp_recover : string -> string -> Z -> option string;
  (** [aes_gcm]: key, nonce, aad, message *)
  aes_gcm_decrypt : string -> string -> string -> string -> option string;
  aes_gcm_encrypt : string -> string -> string -> string -> option string;
  (** [char::to_uppercase] applied to every char of a string *)
  to_uppercase : string -> string
}.

(** [hex]: two hex digits per byte, and decoding inverts encoding. *)
Class HexLaws `{Crates} := {
  hex_decode_length s b : hex_decode s = Some b -> String.length s = (2 * String.length b)%nat;
  hex_encode_hex s : bytes_all is_ascii_hexdigit (hex_encode s) = true;
  hex_decode_encode s : hex_decode (hex_encode s) = Some s
}.

(** The hashes have fixed output lengths. *)
Class HashLaws `{Crates} := {
  sha256_length m : String.length (sha256 m) = 32%nat;
  keccak256_length m : String.length (keccak256 m) = 32%nat
}.

(** secp256k1: a valid scalar has a 65-byte SEC1 public key tagged 0x04; a
    recoverable signature is 64 bytes with a recovery id in 0..3, and recovery
    inverts signing. *)
Class SecpLaws `{Crates} := {
  secp_pub_sec1 k : secp_key_ok k = true ->
    String.length (secp_pub_uncompressed k) = 65%nat /\
    exists xy, secp_pub_uncompressed k = String (byte_of 4) xy;
  secp_sign_shape k d rs recid :
    secp_sign k d = Some (rs, recid) -> String.length rs = 64%nat /\ 0 <= recid <= 3;
  secp_recover_sign k d rs recid :
    secp_key_ok k = true -> secp_sign k d = Some (rs, recid) ->
    secp_recover d rs recid = Some (secp_pub_uncompressed k)
}.

(** Base64 decoding inverts encoding; AES-GCM decryption inverts encryption
    under the same key, nonce and additional data. *)
Class AeadLaws `{Crates} := {
  b64_decode_encode s : b64_decode (b64_encode s) = Some s;
  aes_gcm_inverse k n aad m c : aes_gcm_encrypt k n aad m = Some c -> aes_gcm_decrypt k n aad c = Some m
}.

(** Unicode uppercasing leaves upper-case ASCII alone. *)
Class UnicodeLaws `{Crates} := {
  to_uppercase_ascii s :
    bytes_all (fun c => is_ascii_uppercase c) s = true -> to_uppercase s = s
}.

(** ** A concrete instance *)

Definition nibble (n : Z) : ascii := byte_of (if n <? 10 then n + 48 else n + 87).
Definition unnibble (c : ascii) : option Z :=
  let v := byte_val c in
  if is_ascii_digit c then Some (v - 48)
  else if in_range 97 102 c then Some (v - 87)
  else if in_range 65 70 c then Some (v - 55)
  else None.

Fixpoint demo_hex_encode (s : string) : string :=
  match s with
  | EmptyString => EmptyString
  | String c s' => String (nibble (byte_val c / 16)) (String (nibble (byte_val c mod 16)) (demo_hex_encode s'))
  end.

Fixpoint demo_hex_decode (s : string) : option string :=
  match s with
  | EmptyString => Some EmptyString
  | String a (String b s') =>
      hi ← unnibble a; lo ← unnibble b; r ← demo_hex_decode s';
      Some (String (byte_of (16 * hi + lo)) r)
  | String _ EmptyString => None
  end.

(** A toy 32-byte digest: a position-weighted checksum of the message. *)
Fixpoint checksum (acc : Z) (s : string) : Z :=
  match s with
  | EmptyString => acc
  | String c s' => checksum ((acc * 257 + byte_val c + 1) mod 2 ^ 64) s'
  end.
Definition demo_digest (s : string) : string := "checksum of the message:" +:+ be_bytes 8 (checksum 7 s).
Lemma length_demo_digest s : String.length (demo_digest s) = 32%nat.
Proof. unfold demo_digest. by rewrite length_append, length_be_bytes. Qed.

(** The instance, for a given Ed25519 verifier. *)
Definition demo_with_verify (verify : string -> string -> string -> bool) : Crates := {|
  hex_encode := demo_hex_encode;
  hex_decode := demo_hex_decode;
  b64_encode := demo_hex_encode;
  b64_decode := demo_hex_decode;
  sha256 := demo_digest;
  keccak256 := demo_digest;
  hmac_sha256 k m := demo_digest (k +:+ m);
  ed25519_key_ok _ := true;
  ed25519_verify := verify;
  secp_key_ok k := (String.length k =? 32)%nat;
  secp_sign k d := if (String.length k =? 32)%nat then Some (k +:+ demo_digest d, 0) else None;
  secp_recover d rs recid :=
    Some (let k := str_take 32 rs in String (byte_of 4) (demo_digest k +:+ demo_digest (k +:+ k)));
  secp_pub_uncompressed k := String (byte_of 4) (demo_digest k +:+ demo_digest (k +:+ k));
  secp_pub_compressed k := String (byte_of 2) (demo_digest k);
  aes_gcm_decrypt k n aad m :=
    strip_prefix (demo_digest (k +:+ n +:+ aad)) m;
  aes_gcm_encrypt k n aad m := Some (demo_digest (k +:+ n +:+ aad) +:+ m);
  to_uppercase := to_ascii_uppercase
|}.

Definition demo_crates : Crates :=
  demo_with_verify (fun vk msg sig => bool_decide (sig = demo_digest (vk +:+ msg) +:+ demo_digest msg)).

Fixpoint demo_hex_decode_length s : forall b,
  demo_hex_decode s = Some b -> String.length s = (2 * String.length b)%nat.
Proof.
  destruct s as [|x [|y s]]; intros b; cbn [demo_hex_decode].
  - by intros [= <-].
  - done.
  - destruct (unnibble x); [|done]. destruct (unnibble y); [|done].
    destruct (demo_hex_decode s) as [r|] eqn:E; [|done]. intros [= <-].
    apply demo_hex_decode_length in E. cbn [String.length]. lia.
Qed.

Lemma demo_hex_encode_hex s : bytes_all is_ascii_hexdigit (demo_hex_encode s) = true.
Proof.
  induction s as [|c s IH]; [done|]. cbn [demo_hex_encode bytes_all]. rewrite IH, andb_true_r.
  by destruct c as [[] [] [] [] [] [] [] []].
Qed.

Lemma demo_hex_decode_encode s : demo_hex_decode (demo_hex_encode s) = Some s.
Proof.
  induction s as [|c s IH]; [done|]. cbn [demo_hex_encode demo_hex_decode]. rewrite IH.
  by destruct c as [[] [] [] [] [] [] [] []].
Qed.

#[global] Instance demo_hex_laws : @HexLaws demo_crates.
Proof. constructor; [exact demo_hex_decode_length|exact demo_hex_encode_hex|exact demo_hex_decode_encode]. Qed.

#[global] Instance demo_aead_laws : @AeadLaws demo_crates.
Proof.
  constructor; [exact demo_hex_decode_encode|]. intros k n aad m c Hc.
  assert (c = demo_digest (k +:+ n +:+ aad) +:+ m) as -> by (by injection Hc).
  exact (strip_prefix_app (demo_digest (k +:+ n +:+ aad)) m).
Qed.

#[global] Instance demo_hash_laws : @HashLaws demo_crates.
Proof. constructor; intros; apply length_demo_digest. Qed.

#[global] Instance demo_secp_laws : @SecpLaws demo_crates.
Proof.
  constructor.
  - intros k _. split; [|eexists; reflexivity].
    change (String.length (String (byte_of 4) (demo_digest k +:+ demo_digest (k +:+ k))) = 65%nat).
    cbn [String.length]. by rewrite length_append, !length_demo_digest.
  - intros k d rs recid Hs.
    change ((if (String.length k =? 32)%nat then Some (k +:+ demo_digest d, 0) else None) = Some (rs, recid)) in Hs.
    destruct (Nat.eqb_spec (String.length k) 32) as [Hk|]; [|done]. injection Hs as <- <-.
    rewrite length_append, length_demo_digest. lia.
  - intros k d rs recid _ Hs.
    change ((if (String.length k =? 32)%nat then Some (k +:+ demo_digest d, 0) else None) = Some (rs, recid)) in Hs.
    destruct (Nat.eqb_spec (String.length k) 32) as [Hk|]; [|done]. injection Hs as <- <-.
    change (@secp_recover demo_crates) with (fun (d rs : string) (recid : Z) =>
      Some (let k := str_take 32 rs in String (byte_of 4) (demo_digest k +:+ demo_digest (k +:+ k)))).
    cbv beta. rewrite <- Hk, str_take_app. reflexivity.
Qed.

#[global] Instance demo_unicode_laws : @UnicodeLaws demo_crates.
Proof.
  constructor. intros s. change (@to_uppercase demo_crates) with to_ascii_uppercase.
  unfold to_ascii_uppercase. induction s as [|c s IH]; [done|].
  cbn [bytes_all str_map]. rewrite andb_true_iff. intros [Hc Hs]. rewrite IH by done. f_equal.
  unfold ascii_upper. destruct (is_ascii_lowercase c) eqn:E; [|done].
  unfold is_ascii_lowercase, is_ascii_uppercase, in_range in *.
  rewrite andb_true_iff, !Z.leb_le in *. lia.
Qed.

(** [hex::decode] into a fixed-size array ([decode_to_slice], [try_into]). *)
Definition decode_array `{Crates} (n : nat) (s : string) : option string :=
  b ← hex_decode s; if decide (String.length b = n) then Some b else None.

Lemma decode_array_length `{Crates} n s b : decode_array n s = Some b -> String.length b = n.
Proof. unfold decode_array. destruct (hex_decode s); simpl; [|done]. case_decide; [|done]. by intros [= <-]. Qed.
