(* ===== verification/Permits.v ===== *)
(** * Permits (tokio's [Semaphore])

    The interface the accept loops and the request pools are written against: a
    semaphore with a number of free permits.  tokio is third-party; what the
    code relies on are the laws of [PermitLaws], and [nat] is an instance. *)

From S2P Require Import Prelude.

Class Permits := {
  Sem : Type;
  sem_new : nat -> Sem;
  (** [try_acquire_owned]; [acquire_owned] returns once this does *)
  sem_try : Sem -> option Sem;
  (** dropping an [OwnedSemaphorePermit] *)
  sem_release : Sem -> Sem;
  sem_available : Sem -> nat
}.

Class PermitLaws `{Permits} := {
  sem_new_available n : sem_available (sem_new n) = n;
  sem_try_some s s' : sem_try s = Some s' -> sem_available s = S (sem_available s');
  sem_try_none s : sem_try s = None <-> sem_available s = 0%nat;
  sem_release_available s : sem_available (sem_release s) = S (sem_available s)
}.

#[global] Instance nat_permits : Permits := {|
  Sem := nat; sem_new n := n; sem_try n := match n with O => None | S m => Some m end; sem_release := S; sem_available n := n
|}.
#[global] Instance nat_permit_laws : PermitLaws.
Proof. split; cbn; [done|by intros [|s] s' [= ->]|by intros [|s]|done]. Qed.

(** A semaphore of [total] permits of which [used] are out. *)
Definition accounts_for `{Permits} (total used : nat) (s : Sem) : Prop := (sem_available s + used = total)%nat.

Section Accounts.
Context `{PermitLaws}.

Lemma accounts_new n : accounts_for n 0 (sem_new n).
Proof using All. unfold accounts_for. rewrite sem_new_available. lia. Qed.
Lemma accounts_try n used s s' : accounts_for n used s -> sem_try s = Some s' -> accounts_for n (S used) s'.
Proof using All. unfold accounts_for. intros Ha Ht%sem_try_some. lia. Qed.
Lemma accounts_full n used s : accounts_for n used s -> sem_try s = None <-> used = n.
Proof using All. unfold accounts_for. intros Ha. rewrite sem_try_none. lia. Qed.
Lemma accounts_release n used s : accounts_for n (S used) s -> accounts_for n used (sem_release s).
Proof using All. unfold accounts_for. rewrite sem_release_available. lia. Qed.
Lemma accounts_le n used s : accounts_for n used s -> (used <= n)%nat.
Proof using. unfold accounts_for. lia. Qed.
End Accounts.
