(* ===== verification/Decimal.v ===== *)
(** * Exact decimal arithmetic of the policy caps (enclave/src/signer.rs)

    [decimal_digits], [mul_digits], [add_digits], [cmp_scaled] and the three
    cap predicates built from them.  A parsed decimal is a vector of digits,
    most significant first, with a fractional scale; its value is the rational
    [dec_value].  The theorems say that the digit routines compute exactly that
    rational arithmetic, without leaving the machine widths the code uses. *)

From Stdlib Require Import QArith.
From S2P Require Import Prelude RustStr.

Open Scope list_scope.
Open Scope Z_scope.

(** ** Definitions *)

Definition u32_wrap (z : Z) : Z := z mod 2 ^ 32.
Definition u8_wrap (z : Z) : Z := z mod 2 ^ 8.

Definition MAX_NOTIONAL_OPERAND_LEN : nat := 64.

Definition dot : ascii := "."%char.

Fixpoint count_byte (c : ascii) (s : string) : nat :=
  match s with
  | EmptyString => 0
  | String b s' => (if decide (b = c) then 1 else 0) + count_byte c s'
  end%nat.

(** [b - b'0'] on a byte already known to be a digit. *)
Definition digit_of (c : ascii) : Z := u8_wrap (byte_val c - 48).

Fixpoint str_digits (s : string) : list Z :=
  match s with
  | EmptyString => []
  | String c s' => digit_of c :: str_digits s'
  end.

(** [position(|d| *d != 0).unwrap_or(len)] followed by [drain(..nz)]. *)
Fixpoint strip_zeros (ds : list Z) : list Z :=
  match ds with
  | [] => []
  | d :: ds' => if decide (d = 0) then strip_zeros ds' else ds
  end.

Definition decimal_digits (s : string) : result string (list Z * nat) :=
  if is_empty s then Err "decimal is empty"%string
  else if (MAX_NOTIONAL_OPERAND_LEN <? String.length s)%nat then
    Err "decimal operand too long"%string
  else if bytes_any (fun c => negb (is_ascii_digit c) && negb (bool_decide (c = dot))) s then
    Err "decimal has non-digit/non-dot byte"%string
  else if (1 <? count_byte dot s)%nat then Err "decimal has more than one dot"%string
  else if negb (bytes_any is_ascii_digit s) then Err "decimal has no digits"%string
  else
    let '(int, frac) :=
      match split_once dot s with Some (i, f) => (i, f) | None => (s, ""%string) end in
    Ok (strip_zeros (str_digits int ++ str_digits frac), String.length frac).

(** The inner loop of [mul_digits]: [acc[i + j] += da * db] for increasing [j]. *)
Fixpoint mul_row (da : Z) (bs : list Z) (k : nat) (acc : list Z) : list Z :=
  match bs with
  | [] => acc
  | db :: bs' => mul_row da bs' (S k) (alter (fun x => u32_wrap (x + da * db)) k acc)
  end.

Fixpoint mul_rows (as_ bs : list Z) (i : nat) (acc : list Z) : list Z :=
  match as_ with
  | [] => acc
  | da :: as' => mul_rows as' bs (S i) (mul_row da bs i acc)
  end.

(** The carry pass over the cells, least significant first. *)
Fixpoint propagate (carry : Z) (cells : list Z) : list Z :=
  match cells with
  | [] => []
  | cell :: cells' =>
      let v := u32_wrap (cell + carry) in
      v mod 10 :: propagate (v / 10) cells'
  end.

Definition mul_digits (a b : list Z) : list Z :=
  if decide (a = []) then []
  else if decide (b = []) then []
  else
    let acc := replicate (length a + length b) 0 in
    let acc := mul_rows (reverse a) (reverse b) 0 acc in
    strip_zeros (reverse (propagate 0 acc)).

(** [if !v.is_empty() { v.extend(repeat_n(0, n)) }] *)
Definition extend_zeros (v : list Z) (n : nat) : list Z :=
  if decide (v = []) then [] else v ++ replicate n 0.

(** [for _ in 0..n]: both iterators advance, an exhausted one yields zero. *)
Fixpoint add_loop (n : nat) (xi yi : list Z) (carry : Z) : list Z * Z :=
  match n with
  | O => ([], carry)
  | S n' =>
      let s := u8_wrap (u8_wrap (default 0 (head xi) + default 0 (head yi)) + carry) in
      let '(out, c) := add_loop n' (tail xi) (tail yi) (s / 10) in
      (s mod 10 :: out, c)
  end.

Definition add_digits (a : list Z) (a_scale : nat) (b : list Z) (b_scale : nat)
    : list Z * nat :=
  let scale := Nat.max a_scale b_scale in
  let x := extend_zeros a (scale - a_scale) in
  let y := extend_zeros b (scale - b_scale) in
  let n := Nat.max (length x) (length y) in
  let '(out, carry) := add_loop n (reverse x) (reverse y) 0 in
  let out := if decide (0 < carry) then out ++ [carry] else out in
  (strip_zeros (reverse out), scale).

(** [Vec<u8>::cmp]: lexicographic. *)
Fixpoint lex_cmp (l r : list Z) : comparison :=
  match l, r with
  | [], [] => Eq
  | [], _ :: _ => Lt
  | _ :: _, [] => Gt
  | x :: l', y :: r' => match x ?= y with Eq => lex_cmp l' r' | c => c end
  end.

Definition cmp_scaled (l : list Z) (l_scale : nat) (r : list Z) (r_scale : nat) : comparison :=
  let '(lft, rgt) :=
    match (l_scale ?= r_scale)%nat with
    | Lt => (extend_zeros l (r_scale - l_scale), r)
    | Gt => (l, extend_zeros r (l_scale - r_scale))
    | Eq => (l, r)
    end in
  match (length lft ?= length rgt)%nat with
  | Eq => lex_cmp lft rgt
  | c => c
  end.

Definition cmp_positive_decimals (a b : string) : result string comparison :=
  '(ad, a_scale) ← decimal_digits a;
  '(bd, b_scale) ← decimal_digits b;
  Ok (cmp_scaled ad a_scale bd b_scale).

Definition is_gt (c : comparison) : bool := match c with Gt => true | _ => false end.

Definition notional_exceeds (qty price max_notional : string) : result string bool :=
  '(qd, qs) ← decimal_digits qty;
  '(pd, ps) ← decimal_digits price;
  '(cd, cs) ← decimal_digits max_notional;
  Ok (is_gt (cmp_scaled (mul_digits qd pd) (qs + ps) cd cs)).

Fixpoint sum_loop (values : list string) (acc : list Z) (acc_scale : nat)
    : result string (list Z * nat) :=
  match values with
  | [] => Ok (acc, acc_scale)
  | v :: values' =>
      '(d, s) ← decimal_digits v;
      let '(next, next_scale) := add_digits acc acc_scale d s in
      sum_loop values' next next_scale
  end.

Definition sum_exceeds (values : list string) (cap : string) : result string bool :=
  '(cd, cs) ← decimal_digits cap;
  '(acc, acc_scale) ← sum_loop values [] 0;
  Ok (is_gt (cmp_scaled acc acc_scale cd cs)).

Fixpoint notional_loop (pairs : list (string * string)) (acc : list Z) (acc_scale : nat)
    : result string (list Z * nat) :=
  match pairs with
  | [] => Ok (acc, acc_scale)
  | (qty, price) :: pairs' =>
      '(qd, qs) ← decimal_digits qty;
      '(pd, ps) ← decimal_digits price;
      let '(next, next_scale) := add_digits acc acc_scale (mul_digits qd pd) (qs + ps) in
      notional_loop pairs' next next_scale
  end.

Definition notional_sum_exceeds (pairs : list (string * string)) (max_notional : string)
    : result string bool :=
  '(cd, cs) ← decimal_digits max_notional;
  '(acc, acc_scale) ← notional_loop pairs [] 0;
  Ok (is_gt (cmp_scaled acc acc_scale cd cs)).

Example cmp_tail : cmp_positive_decimals "0.00000001" "0.00000002" = Ok Lt.
Proof. vm_compute. reflexivity. Qed.
Example notional_equal : notional_exceeds "0.5" "200" "100.00" = Ok false.
Proof. vm_compute. reflexivity. Qed.
Example notional_over : notional_exceeds "0.51" "200" "100" = Ok true.
Proof. vm_compute. reflexivity. Qed.
Example sum_over : sum_exceeds ["0.1"; "0.2"; "0.3"]%string "0.6" = Ok false.
Proof. vm_compute. reflexivity. Qed.

(** ** Values of digit vectors *)

(** Least-significant-first value of a cell vector. *)
Fixpoint le_val (l : list Z) : Z :=
  match l with [] => 0 | d :: l' => d + 10 * le_val l' end.

(** Value of a digit vector as the code stores it, most significant first. *)
Definition msf_val (ds : list Z) : Z := le_val (reverse ds).

Definition is_digits (ds : list Z) : Prop := Forall (fun d => 0 <= d <= 9) ds.

(** What [decimal_digits], [mul_digits] and [add_digits] all return: decimal
    digits without a leading zero, zero being the empty vector. *)
Definition canonical (ds : list Z) : Prop := is_digits ds /\ head ds <> Some 0.

Lemma le_val_app l1 l2 : le_val (l1 ++ l2) = le_val l1 + 10 ^ Z.of_nat (length l1) * le_val l2.
Proof.
  induction l1 as [|d l1 IH]; cbn [app le_val length]; [lia|].
  rewrite IH, Nat2Z.inj_succ, Z.pow_succ_r by lia. lia.
Qed.

Lemma le_val_zeros n : le_val (replicate n 0) = 0.
Proof. induction n; cbn [replicate le_val]; lia. Qed.

Lemma msf_val_cons d ds : msf_val (d :: ds) = d * 10 ^ Z.of_nat (length ds) + msf_val ds.
Proof.
  unfold msf_val. rewrite reverse_cons, le_val_app, length_reverse. cbn [le_val]. lia.
Qed.

Lemma msf_val_app_zeros ds n : msf_val (ds ++ replicate n 0) = msf_val ds * 10 ^ Z.of_nat n.
Proof.
  unfold msf_val. rewrite reverse_app, le_val_app, reverse_replicate, le_val_zeros, length_replicate.
  lia.
Qed.

Lemma msf_val_bound ds : is_digits ds -> 0 <= msf_val ds < 10 ^ Z.of_nat (length ds).
Proof.
  induction 1 as [|d ds Hd Hds IH]; [unfold msf_val; simpl; lia|].
  rewrite msf_val_cons. cbn [length]. rewrite Nat2Z.inj_succ, Z.pow_succ_r by lia. nia.
Qed.

Lemma strip_zeros_val ds : msf_val (strip_zeros ds) = msf_val ds.
Proof.
  induction ds as [|d ds IH]; cbn [strip_zeros]; [done|].
  case_decide; [|done]. subst. rewrite IH, msf_val_cons. lia.
Qed.

Lemma strip_zeros_digits ds : is_digits ds -> is_digits (strip_zeros ds).
Proof.
  induction 1; cbn [strip_zeros]; [constructor|]. case_decide; [done|]. by constructor.
Qed.

Lemma strip_zeros_canonical ds : is_digits ds -> canonical (strip_zeros ds).
Proof.
  intros H. split; [by apply strip_zeros_digits|].
  induction H as [|d ds]; cbn [strip_zeros]; [done|]. case_decide; [done|]. simpl. congruence.
Qed.

Lemma strip_zeros_length ds : (length (strip_zeros ds) <= length ds)%nat.
Proof. induction ds; cbn [strip_zeros length]; [lia|]. case_decide; cbn [length]; lia. Qed.

(** ** Comparison *)

Lemma lex_cmp_spec l r :
  is_digits l -> is_digits r -> length l = length r ->
  lex_cmp l r = (msf_val l ?= msf_val r).
Proof.
  intros Hl; revert r; induction Hl as [|x l Hx Hl IH]; intros [|y r] Hr Hlen; try done.
  inversion_clear Hr as [|?? Hy Hr']. cbn [lex_cmp]. rewrite !msf_val_cons.
  injection Hlen as Hlen. rewrite (IH r) by done. rewrite <- Hlen.
  pose proof (msf_val_bound _ Hl) as Bl. pose proof (msf_val_bound _ Hr') as Br.
  rewrite <- Hlen in Br. set (P := 10 ^ Z.of_nat (length l)) in *.
  destruct (Z.compare_spec x y) as [->|Hxy|Hxy].
  - by rewrite Z.add_compare_mono_l.
  - symmetry. apply Z.compare_lt_iff. nia.
  - symmetry. apply Z.compare_gt_iff. nia.
Qed.

Lemma canonical_lower ds :
  canonical ds -> ds <> [] -> 10 ^ (Z.of_nat (length ds) - 1) <= msf_val ds.
Proof.
  intros [Hd Hh] Hne. destruct ds as [|d ds]; [done|]. clear Hne.
  inversion_clear Hd as [|?? Hd0 Hds]. rewrite msf_val_cons. cbn [length].
  rewrite Nat2Z.inj_succ. replace (Z.succ (Z.of_nat (length ds)) - 1) with (Z.of_nat (length ds)) by lia.
  pose proof (msf_val_bound _ Hds). assert (d <> 0) by (simpl in Hh; congruence). nia.
Qed.

Lemma canonical_shorter l r :
  canonical l -> canonical r -> (length l < length r)%nat -> msf_val l < msf_val r.
Proof.
  intros Hl Hr Hlen. pose proof (msf_val_bound _ (proj1 Hl)).
  assert (r <> []) by (intros ->; simpl in Hlen; lia).
  pose proof (canonical_lower r Hr H0).
  pose proof (Z.pow_le_mono_r 10 (Z.of_nat (length l)) (Z.of_nat (length r) - 1)). lia.
Qed.

Lemma length_cmp_spec l r :
  canonical l -> canonical r ->
  match (length l ?= length r)%nat with Eq => lex_cmp l r | c => c end = (msf_val l ?= msf_val r).
Proof.
  intros Hl Hr. destruct (Nat.compare_spec (length l) (length r)) as [He|Hlt|Hgt].
  - by apply lex_cmp_spec; [apply Hl|apply Hr|].
  - symmetry. by apply Z.compare_lt_iff, canonical_shorter.
  - symmetry. by apply Z.compare_gt_iff, canonical_shorter.
Qed.

Lemma extend_zeros_val v n : msf_val (extend_zeros v n) = msf_val v * 10 ^ Z.of_nat n.
Proof. unfold extend_zeros. case_decide; [subst; unfold msf_val; simpl; lia|]. apply msf_val_app_zeros. Qed.

Lemma extend_zeros_canonical v n : canonical v -> canonical (extend_zeros v n).
Proof.
  intros [Hd Hh]. unfold extend_zeros. case_decide; [split; [constructor|done]|]. split.
  - apply Forall_app; split; [done|]. apply Forall_replicate. lia.
  - destruct v; [done|]. done.
Qed.

(** The rational a scaled digit vector denotes. *)
Definition dec_value (ds : list Z) (scale : nat) : Q :=
  Qmake (msf_val ds) (Z.to_pos (10 ^ Z.of_nat scale)).

Lemma pow10_pos n : 0 < 10 ^ Z.of_nat n.
Proof. apply Z.pow_pos_nonneg; lia. Qed.

Lemma dec_compare l ls r rs :
  Qcompare (dec_value l ls) (dec_value r rs) =
  (msf_val l * 10 ^ Z.of_nat rs ?= msf_val r * 10 ^ Z.of_nat ls).
Proof.
  unfold Qcompare, dec_value. cbn [Qnum Qden].
  by rewrite !Z2Pos.id by apply pow10_pos.
Qed.

Lemma cmp_scaled_spec l ls r rs :
  canonical l -> canonical r ->
  cmp_scaled l ls r rs = Qcompare (dec_value l ls) (dec_value r rs).
Proof.
  intros Hl Hr. rewrite dec_compare. unfold cmp_scaled.
  pose proof (pow10_pos ls). pose proof (pow10_pos rs).
  destruct (Nat.compare_spec ls rs) as [->|Hlt|Hgt].
  - rewrite length_cmp_spec by done. apply Zmult_compare_compat_r; lia.
  - rewrite length_cmp_spec by (auto using extend_zeros_canonical).
    rewrite extend_zeros_val.
    replace (10 ^ Z.of_nat rs) with (10 ^ Z.of_nat (rs - ls) * 10 ^ Z.of_nat ls).
    + rewrite Z.mul_assoc. apply Zmult_compare_compat_r; lia.
    + rewrite <- Z.pow_add_r by lia. f_equal. lia.
  - rewrite length_cmp_spec by (auto using extend_zeros_canonical).
    rewrite extend_zeros_val.
    replace (10 ^ Z.of_nat ls) with (10 ^ Z.of_nat (ls - rs) * 10 ^ Z.of_nat rs).
    + rewrite Z.mul_assoc. apply Zmult_compare_compat_r; lia.
    + rewrite <- Z.pow_add_r by lia. f_equal. lia.
Qed.

(** ** Multiplication *)

(** Cells that stay far below [u32::MAX]. *)
Definition cells_le (b : Z) (l : list Z) : Prop := Forall (fun x => 0 <= x <= b) l.

Lemma le_val_alter f k l x :
  l !! k = Some x ->
  le_val (alter f k l) = le_val l + (f x - x) * 10 ^ Z.of_nat k.
Proof.
  revert k; induction l as [|y l IH]; intros [|k] Hk; try done.
  - injection Hk as ->. cbn [alter list_alter le_val]. lia.
  - change (alter f (S k) (y :: l)) with (y :: alter f k l). cbn [le_val].
    rewrite (IH k) by done. rewrite Nat2Z.inj_succ, Z.pow_succ_r by lia. lia.
Qed.

(** One row adds [da * bs] shifted by [k]; cells in [k, k + |bs|) grow by at most 81. *)
Lemma mul_row_spec da bs k acc B :
  0 <= da <= 9 -> is_digits bs -> (k + length bs <= length acc)%nat ->
  (forall i x, acc !! i = Some x -> 0 <= x <= (if decide (i < k)%nat then B + 81 else B)) ->
  0 <= B -> B + 81 < 2 ^ 32 ->
  le_val (mul_row da bs k acc) = le_val acc + da * le_val bs * 10 ^ Z.of_nat k /\
  length (mul_row da bs k acc) = length acc /\
  cells_le (B + 81) (mul_row da bs k acc).
Proof.
  intros Hda Hbs; revert k acc; induction Hbs as [|db bs Hdb Hbs IH];
    intros k acc Hlen Hcells HB HB32; cbn [mul_row length] in *.
  { split; [cbn [le_val]; lia|]. split; [done|].
    apply Forall_lookup. intros i x Hx. specialize (Hcells i x Hx). case_decide; lia. }
  destruct (lookup_lt_is_Some_2 acc k) as [x Hx]; [lia|].
  assert (Hxk : 0 <= x <= B) by (specialize (Hcells k x Hx); rewrite decide_False in Hcells; lia).
  assert (Hw : u32_wrap (x + da * db) = x + da * db).
  { unfold u32_wrap. apply Z.mod_small. nia. }
  destruct (IH (S k) (alter (fun y => u32_wrap (y + da * db)) k acc)) as (Hv & Hl & Hc); auto.
  { rewrite length_alter. lia. }
  { intros i y. rewrite list_lookup_alter. case_decide as Hik.
    - subst. rewrite Hx. intros [= <-]. cbn beta. rewrite Hw. rewrite decide_True by lia. nia.
    - intros Hy. specialize (Hcells i y Hy). repeat case_decide; lia. }
  split; [|split; [by rewrite Hl, length_alter|done]].
  rewrite Hv, (le_val_alter _ _ _ x) by done. cbn beta. rewrite Hw. cbn [le_val].
  rewrite Nat2Z.inj_succ, Z.pow_succ_r by lia. lia.
Qed.

Lemma mul_rows_spec as_ bs i acc B :
  is_digits as_ -> is_digits bs -> (i + length as_ + length bs <= length acc)%nat ->
  cells_le B acc -> 0 <= B -> B + 81 * Z.of_nat (length as_) < 2 ^ 32 ->
  le_val (mul_rows as_ bs i acc) = le_val acc + le_val as_ * le_val bs * 10 ^ Z.of_nat i /\
  length (mul_rows as_ bs i acc) = length acc /\
  cells_le (B + 81 * Z.of_nat (length as_)) (mul_rows as_ bs i acc).
Proof.
  intros Has Hbs; revert i acc B; induction Has as [|da as_ Hda Has IH];
    intros i acc B Hlen Hc HB HB32; cbn [mul_rows length le_val] in *.
  { split; [lia|]. split; [done|]. by replace (B + 81 * Z.of_nat 0) with B by lia. }
  destruct (mul_row_spec da bs i acc B) as (Hv & Hl & Hc'); auto; try lia.
  { intros j x Hx. pose proof (Forall_lookup_1 _ _ _ _ Hc Hx) as Hj. cbn beta in Hj. case_decide; lia. }
  destruct (IH (S i) (mul_row da bs i acc) (B + 81)) as (Hv' & Hl' & Hc''); auto; try lia.
  split; [|split; [lia|]].
  - rewrite Hv', Hv, Nat2Z.inj_succ, Z.pow_succ_r by lia. lia.
  - by replace (B + 81 * Z.of_nat (S (length as_))) with (B + 81 + 81 * Z.of_nat (length as_)) by lia.
Qed.

(** The carry pass normalises every cell to a digit; what does not fit in the
    cells would be the final carry. *)
Lemma propagate_spec cells carry B :
  cells_le B cells -> 0 <= carry -> carry <= B -> 2 * B < 2 ^ 32 ->
  is_digits (propagate carry cells) /\
  length (propagate carry cells) = length cells /\
  exists final, 0 <= final /\
    le_val (propagate carry cells) + final * 10 ^ Z.of_nat (length cells) = carry + le_val cells.
Proof.
  intros Hc; revert carry; induction Hc as [|c cells Hcell Hc IH]; intros carry H0 HB HB32;
    cbn [propagate length le_val].
  { split; [constructor|]. split; [done|]. exists carry. lia. }
  assert (Hw : u32_wrap (c + carry) = c + carry) by (unfold u32_wrap; apply Z.mod_small; lia).
  rewrite Hw. pose proof (Z.mod_pos_bound (c + carry) 10 eq_refl).
  pose proof (Z.div_mod (c + carry) 10 ltac:(lia)) as Hdm.
  assert (Hq : 0 <= (c + carry) / 10 <= B).
  { split; [apply Z.div_pos; lia|]. apply Z.div_le_upper_bound; lia. }
  destruct (IH ((c + carry) / 10)) as (Hd & Hl & final & Hf & He); try lia.
  split; [constructor; [lia|done]|]. split; [by rewrite Hl|].
  exists final. split; [done|]. rewrite Nat2Z.inj_succ, Z.pow_succ_r by lia. lia.
Qed.

Lemma is_digits_reverse l : is_digits l -> is_digits (reverse l).
Proof. apply Forall_reverse. Qed.

(** [mul_digits] is exact on operands of up to 2^20 digits; parsed operands
    have at most 64. *)
Lemma mul_digits_spec a b :
  is_digits a -> is_digits b -> Z.of_nat (length a) <= 2 ^ 20 ->
  canonical (mul_digits a b) /\ msf_val (mul_digits a b) = msf_val a * msf_val b.
Proof.
  intros Ha Hb Hlen. unfold mul_digits.
  case_decide as Ea; [subst; split; [split; [constructor|done]|unfold msf_val; simpl; lia]|].
  case_decide as Eb; [subst; split; [split; [constructor|done]|unfold msf_val; simpl; lia]|].
  cbv zeta.
  destruct (mul_rows_spec (reverse a) (reverse b) 0 (replicate (length a + length b) 0) 0)
    as (Hv & Hl & Hc); auto using is_digits_reverse; rewrite ?length_reverse, ?length_replicate; try lia.
  { apply Forall_replicate. lia. }
  rewrite length_reverse in Hc. rewrite length_replicate in Hl.
  set (acc := mul_rows _ _ _ _) in *.
  destruct (propagate_spec acc 0 (0 + 81 * Z.of_nat (length a))) as (Hd & Hpl & final & Hf & He);
    auto; try lia.
  split; [apply strip_zeros_canonical; auto using is_digits_reverse|].
  rewrite strip_zeros_val. unfold msf_val at 1. rewrite reverse_involutive.
  rewrite Hl in He. rewrite Hv, le_val_zeros in He.
  change (le_val (reverse a)) with (msf_val a) in He. change (le_val (reverse b)) with (msf_val b) in He.
  pose proof (msf_val_bound a Ha). pose proof (msf_val_bound b Hb).
  assert (msf_val a * msf_val b < 10 ^ Z.of_nat (length a + length b)).
  { rewrite Nat2Z.inj_add, Z.pow_add_r by lia. nia. }
  assert (0 <= le_val (propagate 0 acc)).
  { rewrite <- (reverse_involutive (propagate 0 acc)). apply msf_val_bound.
    by apply is_digits_reverse. }
  assert (final = 0) by nia. subst final. lia.
Qed.

(** ** Addition *)

Lemma le_val_head_tail l : le_val l = default 0 (head l) + 10 * le_val (tail l).
Proof. by destruct l. Qed.

Lemma digit_head l : is_digits l -> 0 <= default 0 (head l) <= 9.
Proof. destruct 1; simpl; lia. Qed.

Lemma digits_tail l : is_digits l -> is_digits (tail l).
Proof. by destruct 1; [constructor|]. Qed.

Lemma add_loop_spec n x y carry out c :
  is_digits x -> is_digits y -> 0 <= carry <= 1 ->
  (length x <= n)%nat -> (length y <= n)%nat ->
  add_loop n x y carry = (out, c) ->
  is_digits out /\ length out = n /\ 0 <= c <= 1 /\
  le_val out + c * 10 ^ Z.of_nat n = le_val x + le_val y + carry.
Proof.
  revert x y carry out c; induction n as [|n IH]; intros x y carry out c Hx Hy Hc Lx Ly.
  { destruct x, y; simpl in Lx, Ly; try lia. cbn [add_loop]. intros [= <- <-].
    repeat split; [constructor|lia..|cbn [le_val]; lia]. }
  cbn [add_loop].
  pose proof (digit_head x Hx). pose proof (digit_head y Hy).
  set (s := u8_wrap _). assert (Hs : s = default 0 (head x) + default 0 (head y) + carry).
  { subst s. unfold u8_wrap. rewrite (Z.mod_small (default 0 (head x) + default 0 (head y))) by lia.
    apply Z.mod_small. lia. }
  destruct (add_loop n (tail x) (tail y) (s / 10)) as [out' c'] eqn:E. intros [= <- <-].
  pose proof (Z.mod_pos_bound s 10 eq_refl). pose proof (Z.div_mod s 10 ltac:(lia)).
  destruct (IH (tail x) (tail y) (s / 10) out' c') as (Ho & Hl & Hc' & He);
    auto using digits_tail.
  { split; [apply Z.div_pos; lia|]. apply Z.lt_succ_r, Z.div_lt_upper_bound; lia. }
  { destruct x; simpl in *; lia. } { destruct y; simpl in *; lia. }
  split; [constructor; [lia|done]|]. split; [simpl; lia|]. split; [done|].
  cbn [le_val]. rewrite (le_val_head_tail x), (le_val_head_tail y), Nat2Z.inj_succ, Z.pow_succ_r by lia.
  lia.
Qed.

Lemma add_digits_spec a asc b bsc out scale :
  canonical a -> canonical b -> add_digits a asc b bsc = (out, scale) ->
  canonical out /\ scale = Nat.max asc bsc /\
  msf_val out = msf_val a * 10 ^ Z.of_nat (scale - asc) + msf_val b * 10 ^ Z.of_nat (scale - bsc).
Proof.
  intros Ha Hb. unfold add_digits. cbv zeta. set (sc := Nat.max asc bsc).
  set (x := extend_zeros a _). set (y := extend_zeros b _).
  assert (Hx : canonical x) by by apply extend_zeros_canonical.
  assert (Hy : canonical y) by by apply extend_zeros_canonical.
  destruct (add_loop _ _ _ _) as [o c] eqn:E. intros [= <- <-].
  destruct (add_loop_spec (Nat.max (length x) (length y)) (reverse x) (reverse y) 0 o c)
    as (Ho & Hl & Hc & He); rewrite ?length_reverse; try lia;
    [by apply is_digits_reverse, Hx|by apply is_digits_reverse, Hy|done|].
  change (le_val (reverse x)) with (msf_val x) in He. change (le_val (reverse y)) with (msf_val y) in He.
  subst x y. rewrite !extend_zeros_val in He.
  assert (is_digits (if decide (0 < c) then o ++ [c] else o)).
  { case_decide; [|done]. apply Forall_app; split; [done|]. constructor; [lia|constructor]. }
  split; [by apply strip_zeros_canonical, is_digits_reverse|]. split; [done|].
  rewrite strip_zeros_val. unfold msf_val at 1. rewrite reverse_involutive.
  case_decide.
  - rewrite le_val_app, Hl. cbn [le_val]. lia.
  - assert (c = 0) by lia. subst c. lia.
Qed.

Lemma add_digits_value a asc b bsc out scale :
  canonical a -> canonical b -> add_digits a asc b bsc = (out, scale) ->
  canonical out /\ (dec_value out scale == dec_value a asc + dec_value b bsc)%Q.
Proof.
  intros Ha Hb E. destruct (add_digits_spec _ _ _ _ _ _ Ha Hb E) as (Hc & Hs & Hv).
  split; [done|]. unfold Qeq, Qplus, dec_value. cbn [Qnum Qden].
  rewrite Pos2Z.inj_mul, !Z2Pos.id by apply pow10_pos. rewrite Hv.
  assert (forall k, (k <= scale)%nat ->
    10 ^ Z.of_nat scale = 10 ^ Z.of_nat (scale - k) * 10 ^ Z.of_nat k) as Hp.
  { intros k Hk. rewrite <- Z.pow_add_r by lia. f_equal. lia. }
  pose proof (Hp asc ltac:(lia)) as Ea. pose proof (Hp bsc ltac:(lia)) as Eb.
  transitivity (msf_val a * (10 ^ Z.of_nat (scale - asc) * 10 ^ Z.of_nat asc) * 10 ^ Z.of_nat bsc +
                msf_val b * (10 ^ Z.of_nat (scale - bsc) * 10 ^ Z.of_nat bsc) * 10 ^ Z.of_nat asc).
  - ring.
  - rewrite <- Ea, <- Eb. ring.
Qed.

(** ** The parser against a one-pass reference reader *)

(** Reads a decimal left to right: [frac] counts the fractional digits once
    the dot has been seen, [any] records whether a digit was seen. *)
Fixpoint read_dec (s : string) (frac : option nat) (n : Z) (any : bool) : option (Z * nat) :=
  match s with
  | EmptyString => if any then Some (n, default 0%nat frac) else None
  | String c s' =>
      if is_ascii_digit c then read_dec s' (S <$> frac) (10 * n + (byte_val c - 48)) true
      else if decide (c = dot) then
        match frac with None => read_dec s' (Some 0%nat) n any | Some _ => None end
      else None
  end.

Definition q_of (p : Z * nat) : Q := Qmake (fst p) (Z.to_pos (10 ^ Z.of_nat (snd p))).

(** The rational an operand denotes, [None] when it is not a decimal of at
    most 64 bytes. *)
Definition operand (s : string) : option Q :=
  if (MAX_NOTIONAL_OPERAND_LEN <? String.length s)%nat then None
  else q_of <$> read_dec s None 0 false.

Lemma digit_of_spec c : is_ascii_digit c = true -> digit_of c = byte_val c - 48 /\ 0 <= digit_of c <= 9.
Proof.
  unfold is_ascii_digit, in_range, digit_of, u8_wrap. rewrite andb_true_iff, !Z.leb_le. intros.
  rewrite Z.mod_small; lia.
Qed.

Lemma str_digits_is_digits s : bytes_all is_ascii_digit s = true -> is_digits (str_digits s).
Proof.
  induction s; cbn [bytes_all str_digits]; [intros _; constructor|].
  rewrite andb_true_iff. intros [Hc Hs]. constructor; [by apply digit_of_spec|by apply IHs].
Qed.

Lemma length_str_digits s : length (str_digits s) = String.length s.
Proof. induction s; simpl; congruence. Qed.

Lemma is_ascii_digit_dot : is_ascii_digit dot = false.
Proof. reflexivity. Qed.

Lemma read_dec_digits s rest frac n any :
  bytes_all is_ascii_digit s = true ->
  read_dec (s +:+ rest) frac n any =
  read_dec rest ((Nat.add (String.length s)) <$> frac)
    (n * 10 ^ Z.of_nat (String.length s) + msf_val (str_digits s))
    (any || negb (is_empty s)).
Proof.
  revert frac n any; induction s as [|c s IH]; intros frac n any.
  { intros _. cbn [str_digits String.length String.append]. unfold msf_val. simpl le_val.
    rewrite orb_false_r. f_equal; [by destruct frac|lia]. }
  cbn [bytes_all]. rewrite andb_true_iff. intros [Hc Hs].
  cbn [String.append read_dec str_digits]. rewrite Hc, IH by done.
  destruct (digit_of_spec c Hc) as [<- _]. rewrite msf_val_cons, length_str_digits.
  cbn [String.length is_empty]. rewrite Nat2Z.inj_succ, Z.pow_succ_r, orb_true_r by lia.
  f_equal; [destruct frac; simpl; f_equal; lia|lia].
Qed.

Lemma read_dec_valid s frac n any r :
  read_dec s frac n any = Some r ->
  bytes_all (fun c => is_ascii_digit c || bool_decide (c = dot)) s = true /\
  (count_byte dot s <= match frac with None => 1 | Some _ => 0 end)%nat /\
  any || bytes_any is_ascii_digit s = true.
Proof.
  revert frac n any; induction s as [|c s IH]; intros frac n any; cbn [read_dec].
  { destruct any; [|done]. intros _. cbn [bytes_all count_byte]. split; [done|]. split; [lia|done]. }
  destruct (is_ascii_digit c) eqn:Hc.
  - intros H%IH. destruct H as (H1 & H2 & H3). cbn [bytes_all count_byte].
    rewrite Hc, H1. split; [done|]. split.
    + rewrite decide_False; [by destruct frac|]. intros ->. by rewrite is_ascii_digit_dot in Hc.
    + unfold bytes_any. cbn [bytes_all]. rewrite Hc. simpl. by rewrite orb_true_r.
  - case_decide as Hd; [|done]. destruct frac; [done|]. intros H%IH. destruct H as (H1 & H2 & H3).
    cbn [bytes_all count_byte]. rewrite Hc, H1, bool_decide_eq_true_2, decide_True by done.
    split; [done|]. split; [lia|]. unfold bytes_any in *. cbn [bytes_all]. by rewrite Hc.
Qed.

Lemma count_byte_app c s t : count_byte c (s +:+ t) = (count_byte c s + count_byte c t)%nat.
Proof. induction s; cbn [count_byte String.append]; [done|]. rewrite IHs. lia. Qed.

Lemma digits_of_nodot s :
  bytes_all (fun c => is_ascii_digit c || bool_decide (c = dot)) s = true ->
  count_byte dot s = 0%nat -> bytes_all is_ascii_digit s = true.
Proof.
  induction s as [|c s IH]; cbn [bytes_all count_byte]; [done|].
  rewrite !andb_true_iff, orb_true_iff, bool_decide_eq_true. intros [[Hc|Hc] Hs]; case_decide; try lia.
  - auto.
  - done.
Qed.

Lemma count_byte_contains c s : contains_char c s = false -> count_byte c s = 0%nat.
Proof.
  induction s as [|b s IH]; cbn [contains_char count_byte]; [done|].
  rewrite orb_false_iff, bool_decide_eq_false. intros [Hb Hs]. rewrite decide_False by done. auto.
Qed.

(** On a valid operand the code's split at the dot and the reader agree. *)
Lemma decimal_split_value s :
  bytes_all (fun c => is_ascii_digit c || bool_decide (c = dot)) s = true ->
  (count_byte dot s <= 1)%nat -> bytes_any is_ascii_digit s = true ->
  let '(i, f) := match split_once dot s with Some (i, f) => (i, f) | None => (s, ""%string) end in
  bytes_all is_ascii_digit i = true /\ bytes_all is_ascii_digit f = true /\
  read_dec s None 0 false = Some (msf_val (str_digits i ++ str_digits f), String.length f).
Proof.
  intros Hall Hcnt Hany. destruct (split_once dot s) as [[i f]|] eqn:E.
  - apply split_once_Some in E as [-> Hi].
    rewrite bytes_all_app in Hall. cbn [bytes_all] in Hall. rewrite !andb_true_iff in Hall.
    destruct Hall as (Hi' & _ & Hf').
    rewrite count_byte_app in Hcnt. cbn [count_byte] in Hcnt. rewrite decide_True in Hcnt by done.
    apply digits_of_nodot in Hi'; [|by apply count_byte_contains].
    apply digits_of_nodot in Hf'; [|lia].
    split; [done|]. split; [done|].
    rewrite read_dec_digits by done. cbn [read_dec]. rewrite is_ascii_digit_dot, decide_True by done.
    cbn [fmap option_fmap option_map].
    rewrite <- (append_nil_r f) at 1. rewrite read_dec_digits by done. cbn [read_dec].
    cbn [fmap option_fmap option_map default]. rewrite Nat.add_0_r.
    destruct (negb (is_empty i) || negb (is_empty f)) eqn:En.
    + change (false || negb (is_empty i)) with (negb (is_empty i)). rewrite En. f_equal. f_equal.
      unfold msf_val at 3. rewrite reverse_app, le_val_app, length_reverse, length_str_digits.
      fold (msf_val (str_digits f)) (msf_val (str_digits i)). lia.
    + exfalso. by destruct i, f.
  - apply split_once_None, count_byte_contains in E. apply digits_of_nodot in Hall; [|done].
    split; [done|]. split; [done|].
    rewrite <- (append_nil_r s) at 1. rewrite read_dec_digits by done. cbn [read_dec str_digits].
    rewrite app_nil_r. by destruct s.
Qed.

Lemma bad_byte_spec s :
  bytes_any (fun c => negb (is_ascii_digit c) && negb (bool_decide (c = dot))) s =
  negb (bytes_all (fun c => is_ascii_digit c || bool_decide (c = dot)) s).
Proof.
  unfold bytes_any. f_equal. induction s as [|c s IH]; cbn [bytes_all]; [done|].
  rewrite IH. f_equal. by destruct (is_ascii_digit c), (bool_decide (c = dot)).
Qed.

(** The parser accepts exactly the operands the reference reads, with the same
    value, and returns canonical digits. *)
Lemma decimal_digits_operand s :
  match operand s with
  | Some q => exists ds k, decimal_digits s = Ok (ds, k) /\ canonical ds /\
      q = dec_value ds k /\ (length ds <= 64)%nat
  | None => exists e, decimal_digits s = Err e
  end.
Proof.
  unfold operand, decimal_digits. destruct (is_empty s) eqn:Ee.
  { destruct s; [|done]. simpl. eauto. }
  destruct (_ <? String.length s)%nat eqn:El; [eauto|].
  rewrite bad_byte_spec.
  destruct (bytes_all _ s) eqn:Ea; cbn [negb];
    [|destruct (read_dec s None 0 false) as [r|] eqn:Er;
      [apply read_dec_valid in Er as (? & _); congruence | simpl; eauto]].
  destruct (1 <? count_byte dot s)%nat eqn:Ed.
  { apply Nat.ltb_lt in Ed. destruct (read_dec s None 0 false) as [r|] eqn:Er;
      [apply read_dec_valid in Er as (_ & ? & _); lia | simpl; eauto]. }
  apply Nat.ltb_ge in Ed. destruct (bytes_any is_ascii_digit s) eqn:Eg; cbn [negb].
  2:{ destruct (read_dec s None 0 false) as [r|] eqn:Er;
      [apply read_dec_valid in Er as (_ & _ & ?); simpl in *; congruence | simpl; eauto]. }
  pose proof (decimal_split_value s Ea Ed Eg) as Hsplit.
  assert (Hlen : (String.length s <= 64)%nat) by (apply Nat.ltb_ge in El; done).
  assert (Hpair : forall i f, bytes_all is_ascii_digit i = true ->
    bytes_all is_ascii_digit f = true -> (String.length i + String.length f <= 64)%nat ->
    let ds := strip_zeros (str_digits i ++ str_digits f) in
    canonical ds /\ q_of (msf_val (str_digits i ++ str_digits f), String.length f) =
      dec_value ds (String.length f) /\ (length ds <= 64)%nat).
  { intros i f Hi Hf Hl. cbv zeta. split; [|split].
    - apply strip_zeros_canonical, Forall_app. split; by apply str_digits_is_digits.
    - unfold q_of, dec_value. cbn [fst snd]. by rewrite strip_zeros_val.
    - etransitivity; [apply strip_zeros_length|]. rewrite length_app, !length_str_digits. lia. }
  destruct (split_once dot s) as [[i f]|] eqn:Es; destruct Hsplit as (Hi & Hf & ->);
    cbn [fmap option_fmap option_map]; eexists _, _; (split; [reflexivity|]); apply Hpair; auto.
  - apply split_once_Some in Es as [-> _]. rewrite length_append in Hlen. simpl in Hlen. lia.
  - simpl. lia.
Qed.

(** ** The cap predicates are exact rational arithmetic *)

Fixpoint Qsum (qs : list Q) : Q :=
  match qs with [] => 0%Q | q :: qs' => (q + Qsum qs')%Q end.

(** Product of a pair of operands, when both parse. *)
Definition operand_pair (p : string * string) : option Q :=
  q ← operand p.1; r ← operand p.2; Some (q * r)%Q.

Lemma is_gt_Qcompare x y : is_gt (Qcompare x y) = true <-> (y < x)%Q.
Proof. rewrite Qgt_alt. destruct (Qcompare x y); simpl; split; congruence. Qed.

Ltac case_operand s :=
  let H := fresh "Hop" in let q := fresh "q" in let ds := fresh "ds" in
  let k := fresh "sc" in let E := fresh "Ed" in
  let C := fresh "Hcan" in let L := fresh "Hlen" in
  pose proof (decimal_digits_operand s) as H;
  destruct (operand s) as [q|];
  [destruct H as (ds & k & E & C & -> & L) | destruct H as (? & E)];
  rewrite ?E; cbn [mbind result_bind].

Lemma dec_value_mul a ka b kb :
  is_digits a -> is_digits b -> (length a <= 64)%nat ->
  canonical (mul_digits a b) /\
  (dec_value (mul_digits a b) (ka + kb) == dec_value a ka * dec_value b kb)%Q.
Proof.
  intros Ha Hb Hl. destruct (mul_digits_spec a b Ha Hb) as [Hc Hv]; [lia|]. split; [done|].
  unfold Qeq, Qmult, dec_value. cbn [Qnum Qden].
  rewrite Pos2Z.inj_mul, !Z2Pos.id by apply pow10_pos.
  rewrite Hv, Nat2Z.inj_add, Z.pow_add_r by lia. ring.
Qed.

Lemma sum_loop_spec values acc k :
  canonical acc ->
  match mapM operand values with
  | Some qs => exists out k', sum_loop values acc k = Ok (out, k') /\ canonical out /\
      (dec_value out k' == dec_value acc k + Qsum qs)%Q
  | None => exists e, sum_loop values acc k = Err e
  end.
Proof.
  revert acc k; induction values as [|v values IH]; intros acc k Hacc; cbn [mapM sum_loop].
  { exists acc, k. split; [done|]. split; [done|]. cbn [Qsum]. ring. }
  case_operand v; [|cbn [mbind option_bind]; eauto].
  destruct (add_digits acc k ds sc) as [next k'] eqn:Ea.
  destruct (add_digits_value _ _ _ _ _ _ Hacc Hcan Ea) as [Hn Hv].
  specialize (IH next k' Hn). cbn [mbind option_bind].
  destruct (mapM operand values) as [qs|]; cbn [mret option_ret]; [|done].
  destruct IH as (out & k'' & Es & Hc & Hq). exists out, k''. split; [done|]. split; [done|].
  rewrite Hq, Hv. cbn [Qsum]. ring.
Qed.

Lemma notional_loop_spec pairs acc k :
  canonical acc ->
  match mapM operand_pair pairs with
  | Some qs => exists out k', notional_loop pairs acc k = Ok (out, k') /\ canonical out /\
      (dec_value out k' == dec_value acc k + Qsum qs)%Q
  | None => exists e, notional_loop pairs acc k = Err e
  end.
Proof.
  revert acc k; induction pairs as [|[a b] pairs IH]; intros acc k Hacc; cbn [mapM notional_loop].
  { exists acc, k. split; [done|]. split; [done|]. cbn [Qsum]. ring. }
  change (operand_pair (a, b)) with (q ← operand a; r ← operand b; Some (q * r)%Q).
  case_operand a; [|cbn [mbind option_bind]; eauto].
  case_operand b; [|cbn [mbind option_bind]; eauto].
  destruct (dec_value_mul ds sc ds0 sc0) as [Hm Hmv]; [by apply Hcan|by apply Hcan0|done|].
  destruct (add_digits acc k (mul_digits ds ds0) (sc + sc0)) as [next k'] eqn:Ea.
  destruct (add_digits_value _ _ _ _ _ _ Hacc Hm Ea) as [Hn Hv].
  specialize (IH next k' Hn). cbn [mbind option_bind].
  destruct (mapM operand_pair pairs) as [qs|]; cbn [mret option_ret]; [|done].
  destruct IH as (out & k'' & Es & Hc & Hq). exists out, k''. split; [done|]. split; [done|].
  rewrite Hq, Hv, Hmv. cbn [Qsum]. ring.
Qed.

Lemma dec_value_nil k : (dec_value [] k == 0)%Q.
Proof. unfold Qeq, dec_value, msf_val. reflexivity. Qed.

Lemma canonical_nil : canonical [].
Proof. split; [constructor|done]. Qed.

(** [cmp_positive_decimals] is the order of the rationals the operands denote,
    and fails exactly when an operand is not a decimal of at most 64 bytes. *)
Lemma cmp_positive_decimals_spec a b :
  match operand a, operand b with
  | Some x, Some y => cmp_positive_decimals a b = Ok (Qcompare x y)
  | _, _ => exists e, cmp_positive_decimals a b = Err e
  end.
Proof.
  unfold cmp_positive_decimals. case_operand a; [|eauto]. case_operand b; [|eauto].
  by rewrite cmp_scaled_spec.
Qed.

(** [notional_exceeds] answers [true] exactly when qty * price > cap. *)
Lemma notional_exceeds_spec qty price cap :
  match operand qty, operand price, operand cap with
  | Some q, Some p, Some c =>
      exists b, notional_exceeds qty price cap = Ok b /\ (b = true <-> (c < q * p)%Q)
  | _, _, _ => exists e, notional_exceeds qty price cap = Err e
  end.
Proof.
  unfold notional_exceeds. case_operand qty; [|eauto]. case_operand price; [|eauto].
  case_operand cap; [|eauto]. eexists; split; [reflexivity|].
  destruct (dec_value_mul ds sc ds0 sc0) as [Hm Hv]; [by apply Hcan|by apply Hcan0|done|].
  rewrite cmp_scaled_spec, is_gt_Qcompare by done. by rewrite Hv.
Qed.

(** [sum_exceeds] answers [true] exactly when the exact sum is over the cap. *)
Lemma sum_exceeds_spec values cap :
  match mapM operand values, operand cap with
  | Some qs, Some c => exists b, sum_exceeds values cap = Ok b /\ (b = true <-> (c < Qsum qs)%Q)
  | _, _ => exists e, sum_exceeds values cap = Err e
  end.
Proof.
  unfold sum_exceeds. case_operand cap; [|destruct (mapM operand values); eauto].
  pose proof (sum_loop_spec values [] 0 canonical_nil) as Hs.
  destruct (mapM operand values) as [qs|].
  - destruct Hs as (out & k' & -> & Hc & Hq). cbn [mbind result_bind].
    eexists; split; [reflexivity|]. rewrite cmp_scaled_spec, is_gt_Qcompare by done.
    by rewrite Hq, dec_value_nil, Qplus_0_l.
  - destruct Hs as (e & ->). simpl. eauto.
Qed.

(** [notional_sum_exceeds] answers [true] exactly when the exact sum of the
    products is over the cap. *)
Lemma notional_sum_exceeds_spec pairs cap :
  match mapM operand_pair pairs, operand cap with
  | Some qs, Some c =>
      exists b, notional_sum_exceeds pairs cap = Ok b /\ (b = true <-> (c < Qsum qs)%Q)
  | _, _ => exists e, notional_sum_exceeds pairs cap = Err e
  end.
Proof.
  unfold notional_sum_exceeds. case_operand cap; [|destruct (mapM operand_pair pairs); eauto].
  pose proof (notional_loop_spec pairs [] 0 canonical_nil) as Hs.
  destruct (mapM operand_pair pairs) as [qs|].
  - destruct Hs as (out & k' & -> & Hc & Hq). cbn [mbind result_bind].
    eexists; split; [reflexivity|]. rewrite cmp_scaled_spec, is_gt_Qcompare by done.
    by rewrite Hq, dec_value_nil, Qplus_0_l.
  - destruct Hs as (e & ->). simpl. eauto.
Qed.

(** The batch notional check is exact: for operands it accepts,
    [notional_sum_exceeds] answers true exactly when the rational sum of the
    products is over the cap, whatever the scales and lengths, and it errs
    exactly when an operand is malformed or longer than 64 bytes. *)
Theorem notional_sum_exceeds_exact pairs cap :
  match mapM operand_pair pairs, operand cap with
  | Some qs, Some c =>
      exists b, notional_sum_exceeds pairs cap = Ok b /\ (b = true <-> (c < Qsum qs)%Q)
  | _, _ => exists e, notional_sum_exceeds pairs cap = Err e
  end.
Proof. apply notional_sum_exceeds_spec. Qed.
