(* ===== verification/Evm.v ===== *)
(** * EVM words and addresses (enclave/src/signer.rs)

    [parse_u256_be_decimal], [parse_evm_address], [parse_bytes32_hex],
    [parse_evm_private_key].  A [[u8; 32]] is a list of 32 bytes, most
    significant first; [be_val] is the integer it denotes. *)

From S2P Require Import Prelude RustStr Crates Decimal.

Open Scope list_scope.
Open Scope Z_scope.

(** ** [parse_u256_be_decimal] *)

(** [for byte in acc.iter_mut().rev()]: [acc = acc * 10 + digit], least
    significant byte first, in u16 arithmetic. *)
Fixpoint mul10_add (carry : Z) (lsf : list Z) : list Z * Z :=
  match lsf with
  | [] => ([], carry)
  | byte :: rest =>
      let v := (byte * 10 + carry) mod 2 ^ 16 in
      let '(rest', c) := mul10_add (Z.shiftr v 8) rest in
      (Z.land v 255 :: rest', c)
  end.

Fixpoint u256_loop (s : string) (acc : list Z) : result string (list Z) :=
  match s with
  | EmptyString => Ok acc
  | String ch s' =>
      let '(lsf, carry) := mul10_add (digit_of ch) (reverse acc) in
      if decide (carry = 0) then u256_loop s' (reverse lsf)
      else Err "uint256 value overflows 32 bytes"%string
  end.

Definition parse_u256_be_decimal (s0 : string) : result string (list Z) :=
  let s := trim s0 in
  if is_empty s || negb (bytes_all is_ascii_digit s) then
    Err "uint256 value must be a non-empty decimal string"%string
  else u256_loop s (replicate 32 0).

Example u256_max : parse_u256_be_decimal
  "115792089237316195423570985008687907853269984665640564039457584007913129639935" =
  Ok (replicate 32 255).
Proof. vm_compute. reflexivity. Qed.
Example u256_over : is_ok (parse_u256_be_decimal
  "115792089237316195423570985008687907853269984665640564039457584007913129639936") = false.
Proof. vm_compute. reflexivity. Qed.
Example u256_trim : parse_u256_be_decimal " 258 " = Ok (replicate 30 0 ++ [1; 2]).
Proof. vm_compute. reflexivity. Qed.

(** ** Hex-encoded fixed-size values *)

Section Hex.
Context `{Crates}.

(** [s.strip_prefix("0x").unwrap_or(s)] *)
Definition strip_0x (s : string) : string := default s (strip_prefix "0x" s).

(** [out.copy_from_slice(&bytes)] panics on a length mismatch; the length
    guard and [hex_decode_length] rule it out (see [parse_fixed_hex_length]). *)
Definition parse_fixed_hex (chars : nat) (err_len err_hex : string) (s : string)
    : result string string :=
  let stripped := strip_0x s in
  if decide (String.length stripped = chars) then ok_or (hex_decode stripped) err_hex
  else Err err_len.

Definition parse_evm_private_key (s : string) : result string string :=
  parse_fixed_hex 64 "private key must be 32 bytes (64 hex chars)"
    "private key is not valid hex" s.

Definition parse_evm_address (s : string) : result string string :=
  parse_fixed_hex 40 "address must be 20 bytes (40 hex chars)" "address is not valid hex" s.

Definition parse_bytes32_hex (s : string) : result string string :=
  parse_fixed_hex 64 "bytes32 must be 32 bytes (64 hex chars)" "bytes32 is not valid hex" s.

Lemma parse_fixed_hex_length `{!HexLaws} n e1 e2 s b :
  parse_fixed_hex (2 * n) e1 e2 s = Ok b -> String.length b = n.
Proof.
  unfold parse_fixed_hex. case_decide as Hl; [|done]. intros E%ok_or_inv.
  apply hex_decode_length in E. lia.
Qed.

(** A parsed address has the 20 bytes [copy_from_slice] needs. *)
Lemma parse_evm_address_length `{!HexLaws} s a :
  parse_evm_address s = Ok a -> String.length a = 20%nat.
Proof. apply (parse_fixed_hex_length 20). Qed.
End Hex.

(** ** Values *)

Definition is_byte (z : Z) : Prop := 0 <= z < 256.
Definition is_bytes (l : list Z) : Prop := Forall is_byte l.

Fixpoint le256 (l : list Z) : Z :=
  match l with [] => 0 | b :: l' => b + 256 * le256 l' end.
Definition be_val (l : list Z) : Z := le256 (reverse l).

Lemma mul10_add_spec lsf carry out c :
  is_bytes lsf -> 0 <= carry <= 9 -> mul10_add carry lsf = (out, c) ->
  is_bytes out /\ length out = length lsf /\ 0 <= c <= 9 /\
  le256 out + c * 256 ^ Z.of_nat (length lsf) = 10 * le256 lsf + carry.
Proof.
  intros Hb; revert carry out c; induction Hb as [|b lsf Hb Hl IH]; intros carry out c Hc;
    cbn [mul10_add].
  { intros [= <- <-]. repeat split; [constructor|lia..|cbn [le256 length]; lia]. }
  unfold is_byte in Hb. rewrite (Z.mod_small (b * 10 + carry)) by lia.
  rewrite Z.shiftr_div_pow2 by lia. change (2 ^ 8) with 256.
  change 255 with (Z.ones 8). rewrite Z.land_ones by lia. change (2 ^ 8) with 256.
  destruct (mul10_add _ lsf) as [rest c'] eqn:E. intros [= <- <-].
  pose proof (Z.mod_pos_bound (b * 10 + carry) 256 eq_refl).
  pose proof (Z.div_mod (b * 10 + carry) 256 ltac:(lia)).
  destruct (IH ((b * 10 + carry) / 256) rest c') as (Ho & Hlen & Hc' & He); auto.
  { split; [apply Z.div_pos; lia|]. apply Z.lt_succ_r, Z.div_lt_upper_bound; lia. }
  split; [constructor; [unfold is_byte; lia|done]|]. split; [simpl; lia|]. split; [done|].
  cbn [le256 length]. rewrite Nat2Z.inj_succ, Z.pow_succ_r by lia. lia.
Qed.

Lemma le256_bound l : is_bytes l -> 0 <= le256 l < 256 ^ Z.of_nat (length l).
Proof.
  induction 1 as [|b l Hb Hl IH]; cbn [le256 length]; [lia|].
  rewrite Nat2Z.inj_succ, Z.pow_succ_r by lia. unfold is_byte in Hb. lia.
Qed.

Lemma is_bytes_reverse l : is_bytes l -> is_bytes (reverse l).
Proof. apply Forall_reverse. Qed.

Lemma be_val_bound l : is_bytes l -> 0 <= be_val l < 256 ^ Z.of_nat (length l).
Proof.
  intros Hb. unfold be_val. rewrite <- (length_reverse l). by apply le256_bound, is_bytes_reverse.
Qed.

(** The value the remaining digits give to a prefix of value [v]. *)
Definition numeral_from (v : Z) (s : string) : Z :=
  v * 10 ^ Z.of_nat (String.length s) + msf_val (str_digits s).

Lemma u256_loop_spec s acc :
  bytes_all is_ascii_digit s = true -> is_bytes acc -> length acc = 32%nat ->
  if decide (numeral_from (be_val acc) s < 2 ^ 256)
  then exists out, u256_loop s acc = Ok out /\ is_bytes out /\ length out = 32%nat /\
         be_val out = numeral_from (be_val acc) s
  else exists e, u256_loop s acc = Err e.
Proof.
  revert acc; induction s as [|c s IH]; intros acc; cbn [bytes_all u256_loop].
  { intros _ Hb Hl. unfold numeral_from. cbn [str_digits String.length].
    pose proof (be_val_bound acc Hb) as Hv. rewrite Hl in Hv.
    replace (be_val acc * 10 ^ Z.of_nat 0 + msf_val []) with (be_val acc) by (unfold msf_val; simpl; lia).
    rewrite decide_True by (change (2 ^ 256) with (256 ^ Z.of_nat 32); lia). eauto. }
  rewrite andb_true_iff. intros [Hc Hs] Hb Hl.
  destruct (digit_of_spec c Hc) as [_ Hd].
  destruct (mul10_add (digit_of c) (reverse acc)) as [lsf carry] eqn:E.
  destruct (mul10_add_spec _ _ _ _ (is_bytes_reverse _ Hb) Hd E) as (Ho & Hlen & Hcar & He).
  rewrite length_reverse in Hlen, He. fold (be_val acc) in He.
  assert (Hnum : numeral_from (be_val acc) (String c s) = numeral_from (10 * be_val acc + digit_of c) s).
  { unfold numeral_from. cbn [str_digits String.length]. rewrite msf_val_cons, length_str_digits.
    rewrite Nat2Z.inj_succ, Z.pow_succ_r by lia. ring. }
  rewrite Hnum. pose proof (pow10_pos (String.length s)).
  pose proof (msf_val_bound _ (str_digits_is_digits s Hs)) as [Hn _].
  pose proof (le256_bound lsf Ho) as Hle. rewrite Hlen, Hl in Hle. rewrite Hl in He.
  change (256 ^ Z.of_nat 32) with (2 ^ 256) in *.
  destruct (decide (carry = 0)) as [->|Hcz].
  - assert (Hbe : be_val (reverse lsf) = 10 * be_val acc + digit_of c).
    { unfold be_val at 1. rewrite reverse_involutive. lia. }
    rewrite <- Hbe.
    apply IH; [done|by apply is_bytes_reverse|rewrite length_reverse; lia].
  - rewrite decide_False; [eauto|]. unfold numeral_from. nia.
Qed.

(** [parse_u256_be_decimal] accepts exactly the decimal strings (after
    [trim]) below 2^256 and returns their 32-byte big-endian encoding. *)
Lemma parse_u256_spec s0 :
  let s := trim s0 in
  if decide (is_empty s = false /\ bytes_all is_ascii_digit s = true /\
             msf_val (str_digits s) < 2 ^ 256)
  then exists w, parse_u256_be_decimal s0 = Ok w /\ is_bytes w /\ length w = 32%nat /\
         be_val w = msf_val (str_digits s)
  else exists e, parse_u256_be_decimal s0 = Err e.
Proof.
  cbv zeta. unfold parse_u256_be_decimal. set (s := trim s0).
  destruct (is_empty s) eqn:Ee; cbn [orb]; [rewrite decide_False by naive_solver; eauto|].
  destruct (bytes_all is_ascii_digit s) eqn:Ed; cbn [negb];
    [|rewrite decide_False by naive_solver; eauto].
  assert (Hz : is_bytes (replicate 32 0)) by (apply Forall_replicate; unfold is_byte; lia).
  pose proof (u256_loop_spec s (replicate 32 0) Ed Hz (length_replicate _ _)) as Hl.
  replace (be_val (replicate 32 0)) with 0 in Hl by reflexivity.
  unfold numeral_from in Hl. rewrite Z.mul_0_l, Z.add_0_l in Hl.
  case_decide; case_decide; naive_solver.
Qed.

(** [[u8; 32]] ordering is big-endian numeric ordering. *)
Lemma lex_cmp_be l r :
  is_bytes l -> is_bytes r -> length l = length r -> lex_cmp l r = (be_val l ?= be_val r).
Proof.
  assert (Hcons : forall b l, be_val (b :: l) = b * 256 ^ Z.of_nat (length l) + be_val l).
  { intros b l0. unfold be_val. rewrite reverse_cons.
    assert (forall x y, le256 (x ++ [y]) = le256 x + y * 256 ^ Z.of_nat (length x)) as Happ.
    { induction x as [|z x IH]; intros y; cbn [app le256 length]; [lia|].
      rewrite IH, Nat2Z.inj_succ, Z.pow_succ_r by lia. ring. }
    rewrite Happ, length_reverse. lia. }
  intros Hl; revert r; induction Hl as [|x l Hx Hl IH]; intros [|y r] Hr Hlen; try done.
  inversion_clear Hr as [|?? Hy Hr']. cbn [lex_cmp]. rewrite !Hcons.
  injection Hlen as Hlen. rewrite (IH r) by done. rewrite <- Hlen.
  pose proof (be_val_bound _ Hl) as Bl. pose proof (be_val_bound _ Hr') as Br.
  rewrite <- Hlen in Br. set (P := 256 ^ Z.of_nat (length l)) in *.
  destruct (Z.compare_spec x y) as [->|Hxy|Hxy].
  - by rewrite Z.add_compare_mono_l.
  - symmetry. apply Z.compare_lt_iff. nia.
  - symmetry. apply Z.compare_gt_iff. nia.
Qed.

(** The uint256 parser accepts exactly the decimal strings (after
    trimming) below 2^256 and returns their 32-byte big-endian encoding; it
    never wraps. *)
Theorem parse_u256_exact s0 :
  let s := trim s0 in
  if decide (is_empty s = false /\ bytes_all is_ascii_digit s = true /\
             msf_val (str_digits s) < 2 ^ 256)
  then exists w, parse_u256_be_decimal s0 = Ok w /\ is_bytes w /\ length w = 32%nat /\
         be_val w = msf_val (str_digits s)
  else exists e, parse_u256_be_decimal s0 = Err e.
Proof. apply parse_u256_spec. Qed.
