(* ===== verification/Proto.v ===== *)
(** * Wire types and policies (enclave/src/proto.rs)

    [SignRequest], [SignResponse], the policy schema, the per-venue secrets and
    their completeness checks, and the error codes.  JSON values follow
    [serde_json::Value] built with [preserve_order]: an object is a list of
    fields in insertion order. *)

From S2P Require Import Prelude RustStr.

Open Scope Z_scope.

(** ** JSON values *)

Inductive json_number :=
| PosInt (n : Z)
| NegInt (n : Z)
| Float (repr : string).

Inductive json :=
| JNull
| JBool (b : bool)
| JNum (n : json_number)
| JStr (s : string)
| JArr (elems : list json)
| JObj (fields : list (string * json)).

Fixpoint assoc {A} (k : string) (l : list (string * A)) : option A :=
  match l with
  | [] => None
  | (k', v) :: l' => if decide (k' = k) then Some v else assoc k l'
  end.

(** [value.get(key)], [as_array], [as_str], [as_u64], [as_object]. *)
Definition jget (k : string) (v : json) : option json :=
  match v with JObj fields => assoc k fields | _ => None end.
Definition as_array (v : json) : option (list json) :=
  match v with JArr l => Some l | _ => None end.
Definition as_str (v : json) : option string :=
  match v with JStr s => Some s | _ => None end.
Definition as_u64 (v : json) : option Z :=
  match v with JNum (PosInt n) => Some n | _ => None end.
Definition as_object (v : json) : option (list (string * json)) :=
  match v with JObj fields => Some fields | _ => None end.

(** ** Error codes *)

Module err_code.
Definition BAD_REQUEST := "bad_request"%string.
Definition PAYLOAD_TOO_LARGE := "payload_too_large"%string.
Definition INTERNAL_ERROR := "internal_error"%string.
Definition KMS_DECRYPT_DENIED := "kms_decrypt_denied"%string.
Definition POLICY_DENIED := "policy_denied"%string.
Definition POLICY_REQUIRED := "policy_required"%string.
Definition RATE_LIMITED := "rate_limited"%string.
Definition UNIMPLEMENTED_POLICY_FIELD := "unimplemented_policy_field"%string.
Definition RECEIPTS_UNAVAILABLE := "receipts_unavailable"%string.
Definition VERIFY_FAILED := "verify_failed"%string.
Definition REGISTRY_NONCE_REJECTED := "registry_nonce_rejected"%string.
Definition REGISTRY_SIGNATURE_REJECTED := "registry_signature_rejected"%string.
Definition REGISTRY_ENTRIES_REJECTED := "registry_entries_rejected"%string.
Definition REGISTRY_VERSION_REJECTED := "registry_version_rejected"%string.
Definition PROVISION_KEY_DERIVATION_FAILED := "provision_key_derivation_failed"%string.
Definition PROVISION_WRAP_FAILED := "provision_wrap_failed"%string.
Definition PROVISION_SEAL_FAILED := "provision_seal_failed"%string.
Definition ACTION_NOT_ALLOWED := "action_not_allowed"%string.
Definition SIZE_OVER_CAP := "size_over_cap"%string.
Definition NOTIONAL_OVER_CAP := "notional_over_cap"%string.
Definition WITHDRAWAL_NOT_SIGNABLE := "withdrawal_not_signable"%string.
Definition MODE_CANCEL_ONLY := "mode_cancel_only"%string.
Definition MODE_HALTED := "mode_halted"%string.
End err_code.

(** ** Policy schema *)

Record X402Policy := {
  xp_chain_id : option Z;
  xp_token_address : option string;
  xp_max_value : option string;
  xp_allowed_recipients : option (list string)
}.

Record Permit2Policy := {
  pp_chain_id : option Z;
  pp_verifying_contract : option string;
  pp_allowed_tokens : option (list string);
  pp_allowed_spenders : option (list string);
  pp_max_amount : option string;
  pp_max_expiration : option Z
}.

Record OrderAssetCap := {
  oc_symbol : string;
  oc_max_qty : string;
  oc_max_notional : option string
}.

Record HlOrderCap := {
  hc_asset : Z;
  hc_max_size : string;
  hc_max_notional : option string
}.

Record Policy := {
  p_allowed_actions : option (list string);
  p_allowed_methods : option (list string);
  p_allowed_path_prefixes : option (list string);
  p_denied_path_prefixes : option (list string);
  p_max_requests_per_minute : option Z;
  p_label : option string;
  p_allowed_asterdex_endpoints : option (list string);
  p_x402 : option X402Policy;
  p_permit2 : option Permit2Policy;
  p_order_caps : option (list OrderAssetCap);
  p_allowed_vaults : option (list string);
  p_hl_order_caps : option (list HlOrderCap);
  p_signer_pubkey : option string;
  p_policy_signature : option string;
  p_policy_authority_sig : option string;
  p_intent_pubkey : option string
}.

(** [Policy::default()]: every field absent. *)
Definition default_policy : Policy :=
  {| p_allowed_actions := None; p_allowed_methods := None; p_allowed_path_prefixes := None;
     p_denied_path_prefixes := None; p_max_requests_per_minute := None; p_label := None;
     p_allowed_asterdex_endpoints := None; p_x402 := None; p_permit2 := None;
     p_order_caps := None; p_allowed_vaults := None; p_hl_order_caps := None;
     p_signer_pubkey := None; p_policy_signature := None; p_policy_authority_sig := None;
     p_intent_pubkey := None |}.

(** ** Requests *)

Record AwsCredentials := {
  access_key_id : string;
  secret_access_key : string;
  session_token : string
}.

Record OrderRequest := {
  o_symbol : string;
  o_side : string;
  o_qty : string;
  o_ord_type : string;
  o_price : option string;
  o_reduce_only : bool;
  o_client_order_id : option string
}.

Record CancelRequest := {
  c_symbol : string;
  c_order_id : string
}.

Record X402Request := {
  x_token_name : string;
  x_token_version : string;
  x_chain_id : Z;
  x_token_address : string;
  x_from : string;
  x_to : string;
  x_value : string;
  x_valid_after : Z;
  x_valid_before : Z;
  x_nonce : string
}.

Record Permit2Request := {
  q_chain_id : Z;
  q_verifying_contract : string;
  q_token : string;
  q_amount : string;
  q_expiration : Z;
  q_nonce : Z;
  q_spender : string;
  q_sig_deadline : string
}.

Record RegistryRefreshParams := {
  rr_nonce_hex : string;
  rr_version : Z;
  rr_signature_hex : string
}.

Record SignRequest := {
  r_action : string;
  r_proto_version : Z;
  r_opaque_token : option string;
  r_method : option string;
  r_path : option string;
  r_body : option string;
  r_timestamp_ms : option Z;
  r_key_blob_s3_key : option string;
  r_key_id : option string;
  r_aws_credentials : option AwsCredentials;
  r_ciphertext_blob_base64 : option string;
  r_query : option string;
  r_op : option string;
  r_payload : option string;
  r_hl_action : option json;
  r_nonce : option Z;
  r_vault_address : option string;
  r_x402 : option X402Request;
  r_permit2 : option Permit2Request;
  r_order : option OrderRequest;
  r_cancel : option CancelRequest;
  r_data : option string;
  r_registry_refresh : option RegistryRefreshParams;
  r_intent_signature : option string;
  r_intent_nonce : option string;
  r_attestation_nonce : option string;
  r_attestation_user_data : option string;
  r_client_nonce : option string;
  r_provision_venue : option string;
  r_provision_customer_id : option string;
  r_provision_policy : option string
}.

(** ** Responses *)

Record HlSignature := { hs_r : string; hs_s : string; hs_v : Z }.

Record AttestedDataResponse := {
  ad_signature : HlSignature;
  ad_pubkey_compressed : string;
  ad_pubkey_address : string
}.

Record ProvisionDataKeyResponse := {
  pk_envelope_b64 : string;
  pk_pubkey_compressed : string;
  pk_pubkey_address : string
}.

Record DecisionReceipt := {
  dr_v : string;
  dr_decision : string;
  dr_reason_code : string;
  dr_customer_id : string;
  dr_action : string;
  dr_request_hash : string;
  dr_intent_sig_hash : string;
  dr_policy_hash : string;
  dr_supplied_ts_ms : string;
  dr_boot_id : string;
  dr_seq : string;
  dr_signature : HlSignature
}.

Record ReceiptHeartbeat := {
  hb_v : string;
  hb_boot_id : string;
  hb_customer_id : string;
  hb_seq_next : string;
  hb_client_nonce : string;
  hb_registry_version : string;
  hb_entry_hash : string;
  hb_signature : HlSignature
}.

(** Header maps ([BTreeMap<String, String>]). *)
Abbreviation headers := (gmap string string).

Record SignResponse := {
  s_signature_base64 : string;
  s_headers : option headers;
  s_hl_signature : option HlSignature;
  s_attested : option AttestedDataResponse;
  s_provision : option ProvisionDataKeyResponse;
  s_error : option string;
  s_receipt : option DecisionReceipt;
  s_policy_hash : option string;
  s_plaintext_sha256 : option string;
  s_plaintext_len : option Z;
  s_canonical_body : option string;
  s_heartbeat : option ReceiptHeartbeat;
  s_attestation_document_b64 : option string
}.

Definition resp_ok (signature_base64 : string) : SignResponse :=
  {| s_signature_base64 := signature_base64; s_headers := None; s_hl_signature := None;
     s_attested := None; s_provision := None; s_error := None; s_receipt := None;
     s_policy_hash := None; s_plaintext_sha256 := None; s_plaintext_len := None;
     s_canonical_body := None; s_heartbeat := None; s_attestation_document_b64 := None |}.

Definition resp_err (code : string) : SignResponse :=
  {| s_signature_base64 := ""; s_headers := None; s_hl_signature := None;
     s_attested := None; s_provision := None; s_error := Some code; s_receipt := None;
     s_policy_hash := None; s_plaintext_sha256 := None; s_plaintext_len := None;
     s_canonical_body := None; s_heartbeat := None; s_attestation_document_b64 := None |}.

Definition ok_headers (h : headers) : SignResponse :=
  {| s_signature_base64 := ""; s_headers := Some h; s_hl_signature := None;
     s_attested := None; s_provision := None; s_error := None; s_receipt := None;
     s_policy_hash := None; s_plaintext_sha256 := None; s_plaintext_len := None;
     s_canonical_body := None; s_heartbeat := None; s_attestation_document_b64 := None |}.

Definition ok_hl_signature (sig : HlSignature) : SignResponse :=
  {| s_signature_base64 := ""; s_headers := None; s_hl_signature := Some sig;
     s_attested := None; s_provision := None; s_error := None; s_receipt := None;
     s_policy_hash := None; s_plaintext_sha256 := None; s_plaintext_len := None;
     s_canonical_body := None; s_heartbeat := None; s_attestation_document_b64 := None |}.

Definition ok_verify_blob (plaintext_sha256_hex : string) (plaintext_len : Z) : SignResponse :=
  {| s_signature_base64 := EmptyString; s_headers := None; s_hl_signature := None; s_attested := None;
     s_provision := None; s_error := None; s_receipt := None; s_policy_hash := None; s_plaintext_sha256
     := Some plaintext_sha256_hex; s_plaintext_len := Some plaintext_len; s_canonical_body := None;
     s_heartbeat := None; s_attestation_document_b64 := None |}.

Definition ok_attestation (attestation_document_b64 : string) : SignResponse :=
  {| s_signature_base64 := EmptyString; s_headers := None; s_hl_signature := None; s_attested := None;
     s_provision := None; s_error := None; s_receipt := None; s_policy_hash := None; s_plaintext_sha256
     := None; s_plaintext_len := None; s_canonical_body := None; s_heartbeat := None;
     s_attestation_document_b64 := Some attestation_document_b64 |}.

Definition ok_attested_data (attested : AttestedDataResponse) : SignResponse :=
  {| s_signature_base64 := EmptyString; s_headers := None; s_hl_signature := None; s_attested := Some
     attested; s_provision := None; s_error := None; s_receipt := None; s_policy_hash := None;
     s_plaintext_sha256 := None; s_plaintext_len := None; s_canonical_body := None; s_heartbeat := None;
     s_attestation_document_b64 := None |}.

Definition ok_provision (provision : ProvisionDataKeyResponse) : SignResponse :=
  {| s_signature_base64 := EmptyString; s_headers := None; s_hl_signature := None; s_attested := None;
     s_provision := Some provision; s_error := None; s_receipt := None; s_policy_hash := None;
     s_plaintext_sha256 := None; s_plaintext_len := None; s_canonical_body := None; s_heartbeat := None;
     s_attestation_document_b64 := None |}.

Definition with_policy_hash (h : option string) (r : SignResponse) : SignResponse :=
  {| s_signature_base64 := s_signature_base64 r; s_headers := s_headers r;
     s_hl_signature := s_hl_signature r; s_attested := s_attested r;
     s_provision := s_provision r; s_error := s_error r; s_receipt := s_receipt r;
     s_policy_hash := h; s_plaintext_sha256 := s_plaintext_sha256 r;
     s_plaintext_len := s_plaintext_len r; s_canonical_body := s_canonical_body r;
     s_heartbeat := s_heartbeat r;
     s_attestation_document_b64 := s_attestation_document_b64 r |}.

Definition with_canonical_body (b : string) (r : SignResponse) : SignResponse :=
  {| s_signature_base64 := s_signature_base64 r; s_headers := s_headers r;
     s_hl_signature := s_hl_signature r; s_attested := s_attested r;
     s_provision := s_provision r; s_error := s_error r; s_receipt := s_receipt r;
     s_policy_hash := s_policy_hash r; s_plaintext_sha256 := s_plaintext_sha256 r;
     s_plaintext_len := s_plaintext_len r; s_canonical_body := Some b;
     s_heartbeat := s_heartbeat r;
     s_attestation_document_b64 := s_attestation_document_b64 r |}.

(** ** Secrets *)

Record KucoinSecret := { kc_key : string; kc_secret : string; kc_passphrase : string }.
Record BinanceSecret := { bn_key : string; bn_secret : string }.
Record BybitSecret := { by_key : string; by_secret : string }.
Record OkxSecret := { ok_key : string; ok_secret : string; ok_passphrase : string }.
Record HyperliquidSecret := {
  hl_exchange : string;
  hl_private_key : string;
  hl_wallet_address : string;
  hl_vault_address : option string
}.
Record AsterdexSecret := {
  as_exchange : string;
  as_private_key : string;
  as_signer_address : string
}.

Definition kucoin_is_complete (s : KucoinSecret) : bool :=
  negb (is_empty (kc_key s)) && negb (is_empty (kc_secret s)) && negb (is_empty (kc_passphrase s)).
Definition binance_is_complete (s : BinanceSecret) : bool :=
  negb (is_empty (bn_key s)) && negb (is_empty (bn_secret s)).
Definition bybit_is_complete (s : BybitSecret) : bool :=
  negb (is_empty (by_key s)) && negb (is_empty (by_secret s)).
Definition okx_is_complete (s : OkxSecret) : bool :=
  negb (is_empty (ok_key s)) && negb (is_empty (ok_secret s)) && negb (is_empty (ok_passphrase s)).

(** ["0x"] followed by exactly [n - 2] hex digits. *)
Definition is_0x_hex (n : nat) (s : string) : bool :=
  bool_decide (String.length s = n) && starts_with "0x" s &&
  bytes_all is_ascii_hexdigit (str_drop 2 s).

Definition hyperliquid_is_complete (s : HyperliquidSecret) : bool :=
  is_0x_hex 66 (hl_private_key s) && is_0x_hex 42 (hl_wallet_address s) &&
  match hl_vault_address s with
  | Some v => is_empty v || is_0x_hex 42 v
  | None => true
  end.

Definition asterdex_is_complete (s : AsterdexSecret) : bool :=
  is_0x_hex 66 (as_private_key s) && is_0x_hex 42 (as_signer_address s).
