(* ===== verification/DateTime.v ===== *)
(** * OKX timestamps (enclave/src/signer.rs, [okx_iso8601_from_ms])

    The enclave converts the caller's epoch milliseconds to the ISO 8601 text
    OKX signs, with Howard Hinnant's [civil_from_days].  The reference is the
    Gregorian calendar itself: 1970-01-01 is day 0 and each day is followed by
    [next_day].  The conversion is proved to agree with it on every day, with
    every intermediate [u32] in range. *)

From S2P Require Import Prelude RustStr Decimal.

Open Scope Z_scope.

(** The day part: days since the epoch to (year, month, day). *)
Definition civil_from_days (days : Z) : Z * Z * Z :=
  let z := days + 719468 in
  let era := Z.quot (if 0 <=? z then z else z - 146096) 146097 in
  let doe := u32_wrap (z - era * 146097) in
  let yoe := u32_wrap (u32_wrap (u32_wrap (u32_wrap (doe - doe / 1460) + doe / 36524) - doe / 146096) / 365) in
  let y := yoe + era * 400 in
  let doy := u32_wrap (doe - u32_wrap (u32_wrap (u32_wrap (365 * yoe) + yoe / 4) - yoe / 100)) in
  let mp := u32_wrap (u32_wrap (5 * doy) + 2) / 153 in
  let d := u32_wrap (u32_wrap (doy - u32_wrap (u32_wrap (153 * mp) + 2) / 5) + 1) in
  let m := if mp <? 10 then u32_wrap (mp + 3) else u32_wrap (mp - 9) in
  let year := if m <=? 2 then y + 1 else y in
  (year, m, d).

Definition okx_iso8601_from_ms (timestamp_ms : Z) : string :=
  let total_secs := timestamp_ms / 1000 in
  let millis := timestamp_ms mod 1000 in
  let days := total_secs / 86400 in
  let seconds_of_day := total_secs mod 86400 in
  let '(year, m, d) := civil_from_days days in
  let h := seconds_of_day / 3600 in
  let min := (seconds_of_day mod 3600) / 60 in
  let s := seconds_of_day mod 60 in
  (pad_u64 4 year +:+ "-" +:+ pad_u64 2 m +:+ "-" +:+ pad_u64 2 d +:+ "T" +:+
   pad_u64 2 h +:+ ":" +:+ pad_u64 2 min +:+ ":" +:+ pad_u64 2 s +:+ "." +:+
   pad_u64 3 millis +:+ "Z")%string.

(** ** The Gregorian calendar *)

Definition is_leap (y : Z) : bool :=
  ((y mod 4 =? 0) && negb (y mod 100 =? 0)) || (y mod 400 =? 0).

Definition days_in_month (y m : Z) : Z :=
  if m =? 2 then (if is_leap y then 29 else 28)
  else if (m =? 4) || (m =? 6) || (m =? 9) || (m =? 11) then 30 else 31.

Definition next_day (date : Z * Z * Z) : Z * Z * Z :=
  let '(y, m, d) := date in
  if d <? days_in_month y m then (y, m, d + 1)
  else if m <? 12 then (y, m + 1, 1)
  else (y + 1, 1, 1).

(** The date [n] days after 1970-01-01. *)
Definition gregorian (n : nat) : Z * Z * Z := Nat.iter n next_day (1970, 1, 1).

(** ** Closed forms: the March-based year *)

(** First day of the March-based year [y] of a 400-year era. *)
Definition year_start (y : Z) : Z := 365 * y + y / 4 - y / 100.

(** The same conversion without machine arithmetic, from (era, year of era,
    day of year). *)
Definition month_of (doy : Z) : Z := (5 * doy + 2) / 153.
Definition civil_of (era yoe doy : Z) : Z * Z * Z :=
  let mp := month_of doy in
  let d := doy - (153 * mp + 2) / 5 + 1 in
  let m := if mp <? 10 then mp + 3 else mp - 9 in
  (if m <=? 2 then yoe + era * 400 + 1 else yoe + era * 400, m, d).

(** Length of the March-based year [yoe]: its February is in year [yoe + 1]. *)
Definition year_len (yoe : Z) : Z := if is_leap (yoe + 1) then 366 else 365.

Ltac zdiv := Z.to_euclidean_division_equations; lia.

Lemma u32_wrap_id x : 0 <= x < 2 ^ 32 -> u32_wrap x = x.
Proof. intros. by apply Z.mod_small. Qed.

Lemma year_len_spec y :
  0 <= y <= 399 -> year_len y = year_start (y + 1) - year_start y + (if y =? 399 then 1 else 0).
Proof.
  intros Hy. unfold year_len, year_start, is_leap.
  destruct (_ || _) eqn:E; destruct (y =? 399) eqn:E399; zdiv.
Qed.

(** ** The year of a day of the era *)

Definition yoe_of (doe : Z) : Z := (doe - doe / 1460 + doe / 36524 - doe / 146096) / 365.

(** Split the era into centuries (four of 36524 days, the last one day
    longer), a century into 4-year cycles and a cycle into years. *)
Lemma yoe_of_spec doe :
  0 <= doe <= 146096 ->
  0 <= yoe_of doe <= 399 /\ 0 <= doe - year_start (yoe_of doe) < year_len (yoe_of doe).
Proof.
  intros H. unfold yoe_of, year_start.
  set (q := doe / 36524). set (r := doe / 146096). set (p := doe / 1460).
  assert (0 <= q <= 4 /\ 36524 * q <= doe < 36524 * q + 36524) by (subst q; zdiv).
  assert (0 <= r <= 1 /\ 146096 * r <= doe < 146096 * r + 146096) by (subst r; zdiv).
  assert (0 <= p <= 100 /\ 1460 * p <= doe < 1460 * p + 1460) by (subst p; zdiv).
  set (y := (doe - p + q - r) / 365).
  assert (365 * y <= doe - p + q - r < 365 * y + 365) by (subst y; zdiv).
  clearbody p q r y.
  assert (0 <= y <= 399) by lia. split; [done|].
  rewrite year_len_spec by done. unfold year_start.
  assert (y / 100 <= 3) by zdiv.
  destruct (y =? 399) eqn:E399.
  - apply Z.eqb_eq in E399 as ->. zdiv.
  - apply Z.eqb_neq in E399. zdiv.
Qed.

Lemma civil_from_days_closed days :
  0 <= days < 2 ^ 50 ->
  let z := days + 719468 in
  let era := z / 146097 in
  let yoe := yoe_of (z mod 146097) in
  civil_from_days days = civil_of era yoe (z mod 146097 - year_start yoe).
Proof.
  intros Hd z era yoe. unfold civil_from_days. fold z.
  rewrite (proj2 (Z.leb_le 0 z)) by lia. rewrite Z.quot_div_nonneg by lia. fold era.
  assert (z - era * 146097 = z mod 146097) as -> by (unfold era; rewrite Z.mod_eq; lia).
  assert (0 <= z mod 146097 <= 146096) as Hdoe by (pose proof (Z.mod_pos_bound z 146097); lia).
  destruct (yoe_of_spec _ Hdoe) as [Hy Hdoy]. fold yoe in Hy, Hdoy.
  set (doe := z mod 146097) in *. rewrite (u32_wrap_id doe) by lia.
  assert (0 <= doe / 1460 <= doe) by zdiv. assert (0 <= doe / 36524 <= 4) by zdiv.
  assert (0 <= doe / 146096 <= doe - doe / 1460 + doe / 36524) by zdiv.
  rewrite (u32_wrap_id (doe - doe / 1460)) by lia.
  rewrite (u32_wrap_id (_ + doe / 36524)) by lia.
  rewrite (u32_wrap_id (_ - doe / 146096)) by lia.
  change ((doe - doe / 1460 + doe / 36524 - doe / 146096) / 365) with yoe.
  rewrite (u32_wrap_id yoe), (u32_wrap_id (365 * yoe)) by lia.
  assert (0 <= yoe / 4 <= 100) by zdiv. assert (0 <= yoe / 100 <= yoe / 4) by zdiv.
  rewrite (u32_wrap_id (365 * yoe + _)), (u32_wrap_id (365 * yoe + _ - _)) by lia.
  fold (year_start yoe). set (doy := doe - year_start yoe) in *.
  assert (0 <= doy <= 365) by (unfold year_len in Hdoy; destruct (is_leap _) in Hdoy; lia).
  rewrite (u32_wrap_id doy), (u32_wrap_id (5 * doy)), (u32_wrap_id (5 * doy + 2)) by lia.
  unfold civil_of. fold (month_of doy). set (mp := month_of doy) in *.
  assert (0 <= mp <= 11 /\ 153 * mp <= 5 * doy + 2) by (unfold mp, month_of; zdiv).
  rewrite (u32_wrap_id (153 * mp)), (u32_wrap_id (153 * mp + 2)) by lia.
  assert (0 <= (153 * mp + 2) / 5 <= doy) by zdiv.
  rewrite (u32_wrap_id (doy - _)), (u32_wrap_id (doy - _ + 1)) by lia.
  destruct (mp <? 10) eqn:E; rewrite (u32_wrap_id (mp + _)) || rewrite (u32_wrap_id (mp - _)); done || lia.
Qed.

(** ** One day later *)

(** [next_day] reads the year only through the leap rule and the December
    carry; this is the month/day part with the leap year as a flag. *)
Definition month_day (doy : Z) : Z * Z :=
  let mp := month_of doy in
  (if mp <? 10 then mp + 3 else mp - 9, doy - (153 * mp + 2) / 5 + 1).
Definition dim (leap : bool) (m : Z) : Z :=
  if m =? 2 then (if leap then 29 else 28)
  else if (m =? 4) || (m =? 6) || (m =? 9) || (m =? 11) then 30 else 31.

Definition month_step_ok (leap : bool) (doy : Z) : bool :=
  let '(m, d) := month_day doy in
  let '(m', d') := month_day (doy + 1) in
  let last := negb (d <? dim leap m) in
  if doy + 1 <? (if leap then 366 else 365) then
    if last then negb (m =? 2) && (d' =? 1) && (m' =? (if m =? 12 then 1 else m + 1)) else (m' =? m) && (d' =? d + 1)
  else (m =? 2) && last.

Lemma month_steps doy (leap : bool) : 0 <= doy <= (if leap then 365 else 364) -> month_step_ok leap doy = true.
Proof.
  intros H.
  assert (forallb (fun b : bool => forallb (fun n => month_step_ok b (Z.of_nat n))
            (seq 0 (if b then 366 else 365))) [true; false] = true) as C by (vm_compute; reflexivity).
  rewrite forallb_forall in C. specialize (C leap).
  rewrite forallb_forall in C by (destruct leap; simpl; auto).
  replace doy with (Z.of_nat (Z.to_nat doy)) by lia. apply C; [destruct leap; simpl; auto|].
  apply in_seq. destruct leap; lia.
Qed.

Lemma month_day_range doy : 0 <= doy <= 365 -> 1 <= fst (month_day doy) <= 12 /\ 1 <= snd (month_day doy).
Proof. unfold month_day, month_of. intros. destruct (_ <? 10) eqn:E; simpl; zdiv. Qed.

Lemma is_leap_era era y : is_leap (y + era * 400) = is_leap y.
Proof.
  unfold is_leap. assert (forall k, 400 mod k = 0 -> 0 < k -> (y + era * 400) mod k = y mod k) as R.
  { intros k Hk Hp. rewrite (Z.div_mod 400 k), Hk by lia. rewrite Z.add_0_r, (Z.mul_comm k), Z.mul_assoc.
    apply Z.mod_add. lia. }
  by rewrite !R by done.
Qed.

Lemma civil_of_month_day era yoe doy :
  civil_of era yoe doy =
  let '(m, d) := month_day doy in (if m <=? 2 then yoe + era * 400 + 1 else yoe + era * 400, m, d).
Proof. reflexivity. Qed.

Lemma dim_year y m leap : (m = 2 -> is_leap y = leap) -> days_in_month y m = dim leap m.
Proof. unfold days_in_month, dim. destruct (m =? 2) eqn:E; [|done]. apply Z.eqb_eq in E. intros ->; auto. Qed.

Lemma next_day_civil era yoe doy :
  0 <= doy < year_len yoe ->
  next_day (civil_of era yoe doy) =
  if doy + 1 <? year_len yoe then civil_of era yoe (doy + 1) else civil_of era (yoe + 1) 0.
Proof.
  intros H. pose proof (month_steps doy (is_leap (yoe + 1))) as S.
  unfold month_step_ok in S. unfold year_len in *. rewrite !civil_of_month_day.
  destruct (month_day_range doy) as [Rm Rd]; [destruct (is_leap _); lia|].
  destruct (month_day doy) as [m d] eqn:E1, (month_day (doy + 1)) as [m' d'] eqn:E2. simpl in Rm, Rd.
  set (leap := is_leap (yoe + 1)) in *. specialize (S ltac:(destruct leap; lia)).
  unfold next_day. rewrite (dim_year _ m leap).
  2:{ intros ->. unfold leap. rewrite <- (is_leap_era era (yoe + 1)). f_equal. simpl. lia. }
  assert (Q : month_day 0 = (3, 1)) by reflexivity. rewrite Q.
  destruct (doy + 1 <? _) eqn:E3, (d <? dim leap m) eqn:E4; simpl in S;
    rewrite ?andb_true_iff, ?negb_true_iff, ?Z.eqb_eq, ?Z.eqb_neq in S; destruct_and?; subst;
    try discriminate; try done.
  - destruct (m =? 12) eqn:E5; [apply Z.eqb_eq in E5; subst m; done|].
    apply Z.eqb_neq in E5. rewrite (proj2 (Z.ltb_lt m 12)) by lia.
    destruct (m <=? 2) eqn:E6, (m + 1 <=? 2) eqn:E7; try done; lia.
  - cbn -[Z.add Z.mul]. f_equal. f_equal. lia.
Qed.

Lemma yoe_of_unique doe y :
  0 <= doe <= 146096 -> 0 <= y <= 399 -> 0 <= doe - year_start y < year_len y -> yoe_of doe = y.
Proof.
  intros Hd Hy H. destruct (yoe_of_spec doe Hd) as [Hy' H'].
  rewrite year_len_spec in H, H' by done. unfold year_start in *.
  destruct (y =? 399) eqn:E1, (yoe_of doe =? 399) eqn:E2; zdiv.
Qed.

Lemma civil_from_days_step n :
  0 <= n < 2 ^ 50 - 1 -> civil_from_days (n + 1) = next_day (civil_from_days n).
Proof.
  intros Hn. rewrite (civil_from_days_closed n), (civil_from_days_closed (n + 1)) by lia. cbv zeta.
  set (z := n + 719468). replace (n + 1 + 719468) with (z + 1) by lia.
  set (doe := z mod 146097).
  assert (0 <= doe <= 146096) as Hdoe by (pose proof (Z.mod_pos_bound z 146097); lia).
  destruct (yoe_of_spec doe Hdoe) as [Hy Hdoy]. set (y := yoe_of doe) in *.
  rewrite next_day_civil by done.
  assert (year_start 399 = 145731 /\ year_start 0 = 0) as [S399 S0] by done.
  pose proof (year_len_spec y Hy) as Hlen.
  destruct (decide (doe = 146096)) as [Hlast|Hmore].
  - assert ((z + 1) mod 146097 = 0 /\ (z + 1) / 146097 = z / 146097 + 1) as [-> ->] by (unfold doe in *; zdiv).
    assert (y = 399) as Hy9 by (apply yoe_of_unique; try lia; rewrite S399; change (year_len 399) with 366; lia).
    rewrite Hy9, S399, Hlast. change (year_len 399) with 366.
    change (146096 - 145731 + 1 <? 366) with false. cbv iota.
    change (yoe_of 0) with 0. rewrite S0, !civil_of_month_day. simpl. f_equal. f_equal. lia.
  - assert ((z + 1) mod 146097 = doe + 1 /\ (z + 1) / 146097 = z / 146097) as [-> ->] by (unfold doe in *; zdiv).
    destruct (doe - year_start y + 1 <? year_len y) eqn:E.
    + rewrite (yoe_of_unique (doe + 1) y) by lia. f_equal. lia.
    + destruct (decide (y = 399)) as [->|Hne].
      { change (year_len 399) with 366 in *. lia. }
      rewrite (proj2 (Z.eqb_neq y 399)) in Hlen by done.
      assert (365 <= year_len (y + 1)) by (unfold year_len; destruct (is_leap _); lia).
      rewrite (yoe_of_unique (doe + 1) (y + 1)) by lia. f_equal. lia.
Qed.

Lemma civil_from_days_gregorian n :
  Z.of_nat n < 2 ^ 50 -> civil_from_days (Z.of_nat n) = gregorian n.
Proof.
  induction n as [|n IH]; [reflexivity|]. intros H.
  replace (Z.of_nat (S n)) with (Z.of_nat n + 1) by lia.
  rewrite civil_from_days_step, IH by lia. reflexivity.
Qed.

(** ** The text *)

Definition iso8601 (date : Z * Z * Z) (h min s ms : Z) : string :=
  let '(y, m, d) := date in
  (pad_u64 4 y +:+ "-" +:+ pad_u64 2 m +:+ "-" +:+ pad_u64 2 d +:+ "T" +:+
   pad_u64 2 h +:+ ":" +:+ pad_u64 2 min +:+ ":" +:+ pad_u64 2 s +:+ "." +:+
   pad_u64 3 ms +:+ "Z")%string.

(** For every [u64] of epoch milliseconds, the text OKX signs names the
    Gregorian date that many days after 1970-01-01 and the exact time of that
    day, each clock field within its range. *)
Theorem okx_timestamp_calendar ts :
  0 <= ts < 2 ^ 64 ->
  exists h min s ms,
    okx_iso8601_from_ms ts = iso8601 (gregorian (Z.to_nat (ts / 86400000))) h min s ms /\
    0 <= h < 24 /\ 0 <= min < 60 /\ 0 <= s < 60 /\ 0 <= ms < 1000 /\
    ((h * 60 + min) * 60 + s) * 1000 + ms = ts mod 86400000.
Proof.
  intros Hts. assert (ts / 1000 / 86400 = ts / 86400000) as Hday by (rewrite Z.div_div by lia; f_equal; lia).
  assert (0 <= ts / 86400000 < 2 ^ 50) as Hr by zdiv.
  assert (civil_from_days (ts / 86400000) = gregorian (Z.to_nat (ts / 86400000))) as Hc.
  { rewrite <- civil_from_days_gregorian by lia. f_equal. lia. }
  eexists _, _, _, _. split.
  { unfold okx_iso8601_from_ms. rewrite Hday, Hc. unfold iso8601. case_goal. case_goal. reflexivity. }
  repeat split; zdiv.
Qed.

Lemma okx_timestamp_calendar_witness :
  0 <= 1709210096789 < 2 ^ 64 /\
  exists h min s ms,
    okx_iso8601_from_ms 1709210096789 =
      iso8601 (gregorian (Z.to_nat (1709210096789 / 86400000))) h min s ms /\
    0 <= h < 24 /\ 0 <= min < 60 /\ 0 <= s < 60 /\ 0 <= ms < 1000 /\
    ((h * 60 + min) * 60 + s) * 1000 + ms = 1709210096789 mod 86400000.
Proof. split; [lia|]. apply (okx_timestamp_calendar 1709210096789). lia. Defined.

Example okx_leap_day : okx_iso8601_from_ms 1709210096789 = "2024-02-29T12:34:56.789Z"%string.
Proof. vm_compute. reflexivity. Qed.
