(* ===== verification/Venue.v ===== *)
(** * Exchange request signing (enclave/src/signer.rs)

    The canonical strings, HMAC signatures and auth headers of KuCoin,
    Binance, Bybit and OKX, and the builders that turn a structured order or
    cancel into the exact bytes that are signed.  The theorems show that a
    venue that parses the signed bytes reads back exactly the fields the
    policy was checked against. *)

From S2P Require Import Prelude RustStr Crates Decimal Proto DateTime.

Open Scope string_scope.
Open Scope Z_scope.

Definition dquote : string := String (ascii_of_nat 34) EmptyString.

Section Venue.
Context `{Crates}.

(** ** KuCoin *)

Definition kucoin_canonical (timestamp_ms : Z) (method path body : string) : string :=
  u64_to_string timestamp_ms +:+ to_uppercase method +:+ path +:+ body.

Definition sign_kucoin (secret : string) (timestamp_ms : Z) (method path body : string) : string :=
  b64_encode (hmac_sha256 secret (kucoin_canonical timestamp_ms method path body)).

Definition encrypt_kucoin_passphrase (secret passphrase : string) : string :=
  b64_encode (hmac_sha256 secret passphrase).

Definition compute_kucoin_headers (secret passphrase key : string) (timestamp_ms : Z)
    (method path body : string) : headers :=
  list_to_map
    [("KC-API-KEY", key);
     ("KC-API-SIGN", sign_kucoin secret timestamp_ms method path body);
     ("KC-API-TIMESTAMP", u64_to_string timestamp_ms);
     ("KC-API-PASSPHRASE", encrypt_kucoin_passphrase secret passphrase);
     ("KC-API-KEY-VERSION", "2")].

(** ** Binance *)

Definition binance_canonical (query body : string) : string := query +:+ body.

Definition sign_binance (secret query body : string) : string :=
  hex_encode (hmac_sha256 secret (binance_canonical query body)).

(** The signed query: the caller's parameters, then timestamp and window. *)
Definition binance_full_query (timestamp_ms : Z) (user_query : string) : string :=
  (if is_empty user_query then "" else user_query +:+ "&") +:+
  "timestamp=" +:+ u64_to_string timestamp_ms +:+ "&recvWindow=5000".

Definition compute_binance_headers (secret key : string) (timestamp_ms : Z)
    (user_query body : string) : headers :=
  list_to_map
    [("X-MBX-APIKEY", key);
     ("signature", sign_binance secret (binance_full_query timestamp_ms user_query) body);
     ("timestamp", u64_to_string timestamp_ms);
     ("recvWindow", "5000")].

(** ** Bybit *)

Definition bybit_canonical (timestamp_ms : Z) (api_key recv_window query_or_body : string) : string :=
  u64_to_string timestamp_ms +:+ api_key +:+ recv_window +:+ query_or_body.

Definition sign_bybit (secret : string) (timestamp_ms : Z) (api_key recv_window query_or_body : string)
    : string :=
  hex_encode (hmac_sha256 secret (bybit_canonical timestamp_ms api_key recv_window query_or_body)).

Definition bybit_payload (method query body : string) : string :=
  let upper_method := to_ascii_uppercase method in
  if bool_decide (upper_method = "GET") || bool_decide (upper_method = "DELETE") then query else body.

Definition compute_bybit_headers (secret key : string) (timestamp_ms : Z)
    (method query body : string) : headers :=
  list_to_map
    [("X-BAPI-API-KEY", key);
     ("X-BAPI-TIMESTAMP", u64_to_string timestamp_ms);
     ("X-BAPI-RECV-WINDOW", "5000");
     ("X-BAPI-SIGN", sign_bybit secret timestamp_ms key "5000" (bybit_payload method query body));
     ("X-BAPI-SIGN-TYPE", "2")].

(** ** OKX *)

Definition okx_canonical (timestamp_iso method request_path body : string) : string :=
  timestamp_iso +:+ to_uppercase method +:+ request_path +:+ body.

Definition sign_okx (secret timestamp_iso method request_path body : string) : string :=
  b64_encode (hmac_sha256 secret (okx_canonical timestamp_iso method request_path body)).

(** HTAB or 0x20..0x7e; on bytes this also implies valid UTF-8. *)
Definition passphrase_byte_ok (c : ascii) : bool :=
  (byte_val c =? 9) || in_range 32 126 c.

Definition compute_okx_headers (secret passphrase key : string) (timestamp_ms : Z)
    (method request_path body : string) : result string headers :=
  let timestamp_iso := okx_iso8601_from_ms timestamp_ms in
  let sign_b64 := sign_okx secret timestamp_iso method request_path body in
  if negb (bytes_all passphrase_byte_ok passphrase) then
    Err "okx passphrase: illegal byte in header value"
  else Ok (list_to_map
    [("OK-ACCESS-KEY", key);
     ("OK-ACCESS-SIGN", sign_b64);
     ("OK-ACCESS-TIMESTAMP", timestamp_iso);
     ("OK-ACCESS-PASSPHRASE", passphrase)]).

End Venue.

(** ** Order and cancel builders *)

Definition safe_byte (c : ascii) : bool :=
  is_ascii_alphanumeric c || (byte_val c =? 45) || (byte_val c =? 95) || (byte_val c =? 46).

Definition is_safe_binance_param_value (v : string) : bool :=
  negb (is_empty v) && bytes_all safe_byte v.

Definition is_safe_okx_value (v : string) : bool :=
  negb (is_empty v) && bytes_all safe_byte v.

Definition binance_side (side : string) : result string string :=
  if decide (side = "buy") then Ok "BUY"
  else if decide (side = "sell") then Ok "SELL"
  else Err "side must be 'buy' or 'sell'".

(** The venue's order type, and whether it needs a price. *)
Definition order_type (market limit ord_type : string) : result string (string * bool) :=
  if decide (ord_type = "market") then Ok (market, false)
  else if decide (ord_type = "limit") then Ok (limit, true)
  else if decide (ord_type = "fok") then Err "not supported in v0"
  else if decide (ord_type = "ioc") then Err "not supported in v0"
  else if decide (ord_type = "post_only") then Err "not supported in v0"
  else Err "unknown ord_type".

Definition guard_str (b : bool) (e : string) : result string () :=
  if b then Ok () else Err e.

Definition build_binance_order_query (req : OrderRequest) : result string string :=
  _ ← guard_str (is_safe_binance_param_value (o_symbol req)) "symbol has illegal characters";
  _ ← guard_str (is_safe_binance_param_value (o_qty req)) "qty has illegal characters";
  side ← binance_side (o_side req);
  '(order_type, needs_price) ← order_type "MARKET" "LIMIT" (o_ord_type req);
  let out := "symbol=" +:+ o_symbol req +:+ "&side=" +:+ side +:+ "&type=" +:+ order_type
             +:+ "&quantity=" +:+ o_qty req in
  out ← (if (needs_price : bool) then
           price ← ok_or (o_price req) "limit order requires price";
           _ ← guard_str (is_safe_binance_param_value price) "price has illegal characters";
           Ok (out +:+ "&price=" +:+ price +:+ "&timeInForce=GTC")
         else match o_price req with
              | Some _ => Err "market order must not carry a price"
              | None => Ok out
              end);
  let out := if o_reduce_only req then out +:+ "&reduceOnly=true" else out in
  match o_client_order_id req with
  | Some coid =>
      _ ← guard_str (is_safe_binance_param_value coid) "client_order_id has illegal characters";
      Ok (out +:+ "&newClientOrderId=" +:+ coid)
  | None => Ok out
  end.

Definition build_binance_cancel_query (req : CancelRequest) : result string string :=
  _ ← guard_str (is_safe_binance_param_value (c_symbol req)) "symbol has illegal characters";
  _ ← guard_str (is_safe_binance_param_value (c_order_id req)) "order_id has illegal characters";
  Ok ("symbol=" +:+ c_symbol req +:+ "&orderId=" +:+ c_order_id req).

Definition okx_side (side : string) : result string string :=
  if decide (side = "buy") then Ok side
  else if decide (side = "sell") then Ok side
  else Err "side must be 'buy' or 'sell'".

(** A quoted key with its colon, and a quoted key with a quoted value. *)
Definition json_key (k : string) : string := dquote +:+ k +:+ dquote +:+ ":".
Definition json_field (k v : string) : string := json_key k +:+ dquote +:+ v +:+ dquote.

Definition build_okx_order_body (req : OrderRequest) : result string string :=
  _ ← guard_str (is_safe_okx_value (o_symbol req)) "symbol has illegal characters";
  _ ← guard_str (is_safe_okx_value (o_qty req)) "qty has illegal characters";
  side ← okx_side (o_side req);
  '(ord_type, needs_price) ← order_type "market" "limit" (o_ord_type req);
  let out := "{" +:+ json_field "instId" (o_symbol req) +:+ "," +:+ json_field "tdMode" "cross"
             +:+ "," +:+ json_field "side" side +:+ "," +:+ json_field "ordType" ord_type
             +:+ "," +:+ json_field "sz" (o_qty req) in
  out ← (if (needs_price : bool) then
           price ← ok_or (o_price req) "limit order requires price";
           _ ← guard_str (is_safe_okx_value price) "price has illegal characters";
           Ok (out +:+ "," +:+ json_field "px" price)
         else match o_price req with
              | Some _ => Err "market order must not carry a price"
              | None => Ok out
              end);
  let out := if o_reduce_only req then out +:+ "," +:+ json_key "reduceOnly" +:+ "true" else out in
  out ← match o_client_order_id req with
        | Some coid =>
            _ ← guard_str (is_safe_okx_value coid) "client_order_id has illegal characters";
            Ok (out +:+ "," +:+ json_field "clOrdId" coid)
        | None => Ok out
        end;
  Ok (out +:+ "}").

Definition build_okx_cancel_body (req : CancelRequest) : result string string :=
  _ ← guard_str (is_safe_okx_value (c_symbol req)) "symbol has illegal characters";
  _ ← guard_str (is_safe_okx_value (c_order_id req)) "order_id has illegal characters";
  Ok ("{" +:+ json_field "instId" (c_symbol req) +:+ "," +:+ json_field "ordId" (c_order_id req) +:+ "}").

(** ** Reading the signed bytes back *)

(** [application/x-www-form-urlencoded] as a venue reads it (the alphabet the
    builders allow needs no percent-decoding): pairs separated by ['&'], each
    split at its first ['=']. *)
Definition read_pair (p : string) : string * string :=
  match split_once "=" p with Some kv => kv | None => (p, "") end.
Definition form_params (q : string) : list (string * string) := read_pair <$> split "&" q.

Definition pair_text (kv : string * string) : string := fst kv +:+ "=" +:+ snd kv.
Fixpoint form_text (l : list (string * string)) : string :=
  match l with
  | [] => ""
  | [kv] => pair_text kv
  | kv :: l' => pair_text kv +:+ "&" +:+ form_text l'
  end.

(** No separator inside a name or a value. *)
Definition clean_pair (kv : string * string) : Prop :=
  contains_char "&" (fst kv) = false /\ contains_char "=" (fst kv) = false /\
  contains_char "&" (snd kv) = false.

Lemma read_pair_text kv : clean_pair kv -> read_pair (pair_text kv) = kv.
Proof.
  destruct kv as [k v]. intros (_ & Hk & _). unfold read_pair, pair_text. simpl in *.
  by rewrite split_once_app.
Qed.

Lemma pair_text_clean kv : clean_pair kv -> contains_char "&" (pair_text kv) = false.
Proof.
  destruct kv as [k v]. intros (Hk & _ & Hv). unfold pair_text. simpl in *.
  rewrite !contains_char_app, Hk. done.
Qed.

Lemma form_params_text l : l <> [] -> Forall clean_pair l -> form_params (form_text l) = l.
Proof.
  unfold form_params. induction l as [|kv l IH]; [done|]. intros _ Hl.
  apply Forall_cons in Hl as [Hkv Hl]. destruct l as [|kv' l].
  - simpl. rewrite split_no_sep by by apply pair_text_clean. simpl. by rewrite read_pair_text.
  - change (form_text (kv :: kv' :: l)) with (pair_text kv +:+ String "&" (form_text (kv' :: l))).
    rewrite split_app by by apply pair_text_clean. rewrite fmap_cons, read_pair_text by done.
    f_equal. by apply IH.
Qed.

Lemma form_text_app l1 l2 :
  l1 <> [] -> l2 <> [] -> form_text (l1 ++ l2) = form_text l1 +:+ "&" +:+ form_text l2.
Proof.
  intros H1 H2. induction l1 as [|kv l1 IH]; [done|]. destruct l1 as [|kv' l1].
  - simpl. by destruct l2.
  - change (form_text ((kv :: kv' :: l1) ++ l2)) with (pair_text kv +:+ "&" +:+ form_text ((kv' :: l1) ++ l2)).
    rewrite IH by done. change (form_text (kv :: kv' :: l1)) with (pair_text kv +:+ "&" +:+ form_text (kv' :: l1)).
    by rewrite !append_assoc.
Qed.

Lemma safe_value_clean v c :
  safe_byte c = false -> is_safe_binance_param_value v = true -> contains_char c v = false.
Proof.
  intros Hc. unfold is_safe_binance_param_value. rewrite andb_true_iff. intros [_ Hv].
  by apply contains_char_all with safe_byte.
Qed.

(** *** What an order means *)

Definition order_side_ok (side : string) : bool := bool_decide (side = "buy") || bool_decide (side = "sell").

(** The orders v0 supports, independently of the builders' control flow. *)
Definition order_ok (req : OrderRequest) : bool :=
  is_safe_binance_param_value (o_symbol req) && is_safe_binance_param_value (o_qty req) &&
  order_side_ok (o_side req) &&
  match o_price req with
  | None => bool_decide (o_ord_type req = "market")
  | Some price => bool_decide (o_ord_type req = "limit") && is_safe_binance_param_value price
  end &&
  match o_client_order_id req with Some coid => is_safe_binance_param_value coid | None => true end.

Definition binance_order_params (req : OrderRequest) : list (string * string) :=
  [("symbol", o_symbol req);
   ("side", if bool_decide (o_side req = "buy") then "BUY" else "SELL");
   ("type", if bool_decide (o_ord_type req = "limit") then "LIMIT" else "MARKET");
   ("quantity", o_qty req)] ++
  match o_price req with Some price => [("price", price); ("timeInForce", "GTC")] | None => [] end ++
  (if o_reduce_only req then [("reduceOnly", "true")] else []) ++
  match o_client_order_id req with Some coid => [("newClientOrderId", coid)] | None => [] end.

#[local] Ltac run_builder :=
  cbn -[String.append form_text is_safe_binance_param_value is_safe_okx_value];
  repeat match goal with
  | |- context [is_safe_binance_param_value ?v] => destruct (is_safe_binance_param_value v)
  | |- context [is_safe_okx_value ?v] => destruct (is_safe_okx_value v)
  end; cbn -[String.append form_text].

Lemma order_type_cases m l ty :
  match order_type m l ty with
  | Ok (t, needs) => (needs = false /\ t = m /\ ty = "market") \/ (needs = true /\ t = l /\ ty = "limit")
  | Err _ => ty <> "market" /\ ty <> "limit"
  end.
Proof. unfold order_type. repeat (case_decide; [subst; naive_solver|]). done. Qed.

Lemma build_binance_order_query_spec req :
  match build_binance_order_query req with
  | Ok q => order_ok req = true /\ q = form_text (binance_order_params req)
  | Err _ => order_ok req = false
  end.
Proof.
  destruct req as [symbol side qty ty price ro coid].
  unfold build_binance_order_query, order_ok, order_side_ok, binance_order_params, binance_side.
  cbn [o_symbol o_side o_qty o_ord_type o_price o_reduce_only o_client_order_id].
  pose proof (order_type_cases "MARKET" "LIMIT" ty) as Hty.
  destruct (is_safe_binance_param_value symbol); [|done].
  destruct (is_safe_binance_param_value qty); [|done].
  destruct (decide (side = "buy")) as [->|Hb]; [|destruct (decide (side = "sell")) as [->|Hs]].
  3: by rewrite !bool_decide_eq_false_2 by done.
  all: destruct (order_type _ _ ty) as [[t needs]|e];
    [destruct Hty as [(-> & -> & ->)|(-> & -> & ->)]|].
  all: destruct price as [price|], coid as [coid|], ro.
  all: run_builder.
  all: try done.
  all: try (split; [done|]; rewrite !append_assoc; reflexivity).
  all: destruct Hty; by rewrite (bool_decide_eq_false_2 (ty = _)), ?andb_false_r by done.
Qed.

Lemma binance_order_params_clean req : order_ok req = true -> Forall clean_pair (binance_order_params req).
Proof.
  unfold order_ok, binance_order_params. rewrite !andb_true_iff. intros ((((Hs & Hq) & _) & Hp) & Hc).
  repeat apply Forall_app_2; [repeat (apply Forall_cons; split); [..|apply Forall_nil_2]| | |].
  - split; [done|split; [done|]]. by apply safe_value_clean.
  - split; [done|split; [done|]]. cbn [snd]. by case_goal.
  - split; [done|split; [done|]]. cbn [snd]. by case_goal.
  - split; [done|split; [done|]]. by apply safe_value_clean.
  - destruct (o_price req); [|done]. apply andb_true_iff in Hp as [_ Hp].
    repeat constructor; simpl; by apply safe_value_clean.
  - destruct (o_reduce_only req); by repeat constructor.
  - destruct (o_client_order_id req); [|done]. repeat constructor; simpl; by apply safe_value_clean.
Qed.

Definition trailer (timestamp_ms : Z) : list (string * string) :=
  [("timestamp", u64_to_string timestamp_ms); ("recvWindow", "5000")].


Lemma trailer_clean ts : Forall clean_pair (trailer ts).
Proof.
  repeat (apply Forall_cons; split); [..|by apply Forall_nil]; split; try done; split; try done.
  simpl. apply (contains_char_all _ is_ascii_digit); [done|]. apply u64_to_string_digits.
Qed.

Lemma full_query_text ts l : form_text l <> "" -> binance_full_query ts (form_text l) = form_text (l ++ trailer ts)%list.
Proof.
  intros Hne. assert (l <> []) by (by intros ->). rewrite form_text_app by done. unfold binance_full_query.
  destruct (form_text l) as [|c s] eqn:E; [done|]. cbn [is_empty]. rewrite <- E, append_assoc. reflexivity.
Qed.

Lemma full_query_form ts l :
  Forall clean_pair l -> form_text l <> "" ->
  form_params (binance_full_query ts (form_text l)) = (l ++ trailer ts)%list.
Proof.
  intros Hl Hne. rewrite full_query_text by done. apply form_params_text; [by destruct l|].
  apply Forall_app_2; [done|apply trailer_clean].
Qed.

(** The Binance order builder accepts exactly the supported orders
    (safe alphabet, buy/sell, market without a price or limit with one), and a
    venue that parses the signed query reads exactly the order's fields, then
    the timestamp and window: no field injects, hides or overrides another. *)
Theorem binance_order_query_exact req ts :
  match build_binance_order_query req with
  | Ok q => order_ok req = true /\
            form_params (binance_full_query ts q) = (binance_order_params req ++ trailer ts)%list
  | Err _ => order_ok req = false
  end.
Proof.
  pose proof (build_binance_order_query_spec req) as S.
  destruct (build_binance_order_query req); [|done]. destruct S as [Hok ->]. split; [done|].
  apply full_query_form; [by apply binance_order_params_clean|]. done.
Qed.

(** The cancel builder accepts exactly a safe symbol and order id
    and the venue reads exactly those two fields. *)
Theorem binance_cancel_query_exact req ts :
  match build_binance_cancel_query req with
  | Ok q => form_params (binance_full_query ts q)
            = [("symbol", c_symbol req); ("orderId", c_order_id req)] ++ trailer ts
  | Err _ => is_safe_binance_param_value (c_symbol req) = false \/
             is_safe_binance_param_value (c_order_id req) = false
  end%list.
Proof.
  unfold build_binance_cancel_query.
  destruct (is_safe_binance_param_value (c_symbol req)) eqn:E1; [|by left].
  destruct (is_safe_binance_param_value (c_order_id req)) eqn:E2; [|by right].
  apply (full_query_form ts [("symbol", c_symbol req); ("orderId", c_order_id req)]); [|done].
  repeat (apply Forall_cons; split); [..|by apply Forall_nil]; split; try done; split; try done;
    by apply safe_value_clean.
Qed.

(** ** Reading an OKX body back *)

(** A JSON reader for objects of escape-free strings and [true], the shapes
    the OKX endpoints take. *)
Inductive okx_value := VStr (v : string) | VTrue.

Definition read_string (s : string) : option (string * string) :=
  s ← strip_prefix dquote s;
  '(v, s) ← split_once (ascii_of_nat 34) s;
  if contains_char (ascii_of_nat 92) v then None else Some (v, s).

Definition read_value (s : string) : option (okx_value * string) :=
  match read_string s with
  | Some (v, s) => Some (VStr v, s)
  | None => s ← strip_prefix "true" s; Some (VTrue, s)
  end.

Fixpoint read_members (fuel : nat) (s : string) : option (list (string * okx_value)) :=
  match fuel with
  | O => None
  | S fuel' =>
      '(k, s) ← read_string s;
      s ← strip_prefix ":" s;
      '(v, s) ← read_value s;
      match strip_prefix "," s with
      | Some s => rest ← read_members fuel' s; Some ((k, v) :: rest)
      | None => if decide (s = "}") then Some [(k, v)] else None
      end
  end.

Definition read_object (s : string) : option (list (string * okx_value)) :=
  s ← strip_prefix "{" s; read_members (String.length s) s.

Definition value_text (v : okx_value) : string :=
  match v with VStr v => dquote +:+ v +:+ dquote | VTrue => "true" end.
Definition member_text (kv : string * okx_value) : string := json_key (fst kv) +:+ value_text (snd kv).
Fixpoint members_text (l : list (string * okx_value)) : string :=
  match l with
  | [] => ""
  | [kv] => member_text kv
  | kv :: l' => member_text kv +:+ "," +:+ members_text l'
  end.

Definition clean_str (v : string) : Prop :=
  contains_char (ascii_of_nat 34) v = false /\ contains_char (ascii_of_nat 92) v = false.
Definition clean_member (kv : string * okx_value) : Prop :=
  clean_str (fst kv) /\ match snd kv with VStr v => clean_str v | VTrue => True end.

Lemma read_string_text v s : clean_str v -> read_string (dquote +:+ v +:+ dquote +:+ s) = Some (v, s).
Proof.
  intros [Hq Hb]. unfold read_string. rewrite strip_prefix_app. simpl.
  change (dquote +:+ s) with (String (ascii_of_nat 34) s). rewrite split_once_app by done. simpl. by rewrite Hb.
Qed.

Lemma read_value_text v s :
  match v with VStr v => clean_str v | VTrue => True end ->
  read_value (value_text v +:+ s) = Some (v, s).
Proof.
  destruct v as [v|]; intros Hv; unfold read_value, value_text.
  - by rewrite !append_assoc, read_string_text.
  - done.
Qed.

Lemma read_members_text l fuel :
  l <> [] -> Forall clean_member l -> (length l <= fuel)%nat ->
  read_members fuel (members_text l +:+ "}") = Some l.
Proof.
  revert fuel. induction l as [|[k v] l IH]; intros fuel; [done|]. intros _ Hl Hf.
  apply Forall_cons in Hl as [[Hk Hv] Hl]. destruct fuel as [|fuel]; [simpl in Hf; lia|].
  assert (forall s, read_members (S fuel) (member_text (k, v) +:+ s) =
    match strip_prefix "," s with
    | Some s => rest ← read_members fuel s; Some ((k, v) :: rest)
    | None => if decide (s = "}") then Some [(k, v)] else None
    end) as Hstep.
  { intros s. unfold member_text, json_key. cbn [fst snd read_members].
    rewrite !append_assoc, read_string_text by done. cbn [mbind option_bind].
    rewrite strip_prefix_app. cbn [mbind option_bind]. by rewrite read_value_text by done. }
  destruct l as [|kv l].
  - cbn [members_text]. by rewrite Hstep.
  - change (members_text ((k, v) :: kv :: l)) with (member_text (k, v) +:+ "," +:+ members_text (kv :: l)).
    rewrite append_assoc, Hstep, append_assoc, strip_prefix_app, IH; [done..|]. simpl in *; lia.
Qed.

Lemma members_text_length l : (length l <= String.length (members_text l))%nat.
Proof.
  induction l as [|kv l IH]; [done|].
  assert (0 < String.length (member_text kv))%nat by (unfold member_text, json_key; simpl; lia).
  destruct l as [|kv' l]; [simpl in *; lia|].
  change (members_text (kv :: kv' :: l)) with (member_text kv +:+ "," +:+ members_text (kv' :: l)).
  rewrite !length_append. simpl in *. lia.
Qed.

Lemma read_object_text l :
  l <> [] -> Forall clean_member l -> read_object ("{" +:+ members_text l +:+ "}") = Some l.
Proof.
  intros. unfold read_object. rewrite strip_prefix_app. cbn [mbind option_bind].
  apply read_members_text; [done..|]. rewrite length_append. pose proof (members_text_length l). lia.
Qed.

(** *** What an OKX order means *)

Definition okx_order_members (req : OrderRequest) : list (string * okx_value) :=
  [("instId", VStr (o_symbol req)); ("tdMode", VStr "cross"); ("side", VStr (o_side req));
   ("ordType", VStr (o_ord_type req)); ("sz", VStr (o_qty req))] ++
  match o_price req with Some price => [("px", VStr price)] | None => [] end ++
  (if o_reduce_only req then [("reduceOnly", VTrue)] else []) ++
  match o_client_order_id req with Some coid => [("clOrdId", VStr coid)] | None => [] end.

Lemma safe_value_str v : is_safe_binance_param_value v = true -> clean_str v.
Proof. split; by apply safe_value_clean. Qed.

Lemma build_okx_order_body_spec req :
  match build_okx_order_body req with
  | Ok b => order_ok req = true /\ b = "{" +:+ members_text (okx_order_members req) +:+ "}"
  | Err _ => order_ok req = false
  end.
Proof.
  destruct req as [symbol side qty ty price ro coid].
  change is_safe_okx_value with is_safe_binance_param_value.
  unfold build_okx_order_body, order_ok, order_side_ok, okx_order_members, okx_side.
  cbn [o_symbol o_side o_qty o_ord_type o_price o_reduce_only o_client_order_id].
  change is_safe_okx_value with is_safe_binance_param_value.
  pose proof (order_type_cases "market" "limit" ty) as Hty.
  destruct (is_safe_binance_param_value symbol); [|done].
  destruct (is_safe_binance_param_value qty); [|done].
  destruct (decide (side = "buy")) as [->|Hb]; [|destruct (decide (side = "sell")) as [->|Hs]].
  3: by rewrite !bool_decide_eq_false_2 by done.
  all: destruct (order_type _ _ ty) as [[t needs]|e];
    [destruct Hty as [(-> & -> & ->)|(-> & -> & ->)]|].
  all: destruct price as [price|], coid as [coid|], ro.
  all: run_builder.
  all: try done.
  all: try (split; [done|]; unfold json_field, member_text, value_text; cbn [fst snd]; rewrite !append_assoc; reflexivity).
  all: destruct Hty; by rewrite (bool_decide_eq_false_2 (ty = _)), ?andb_false_r by done.
Qed.

Lemma okx_order_members_clean req : order_ok req = true -> Forall clean_member (okx_order_members req).
Proof.
  unfold order_ok, order_side_ok, okx_order_members. rewrite !andb_true_iff, orb_true_iff, !bool_decide_eq_true.
  intros ((((Hs & Hq) & Hside) & Hp) & Hc).
  repeat apply Forall_app_2; [repeat (apply Forall_cons; split); [..|apply Forall_nil_2]| | |].
  1-5: split; [done|]; simpl; try by apply safe_value_str.
  - by destruct Hside as [-> | ->].
  - destruct (o_price req); [apply andb_true_iff in Hp as [Hp _]|]; apply bool_decide_eq_true in Hp as ->; done.
  - destruct (o_price req); [|done]. apply andb_true_iff in Hp as [_ Hp].
    repeat constructor; simpl; by apply safe_value_clean.
  - destruct (o_reduce_only req); by repeat constructor.
  - destruct (o_client_order_id req); [|done]. repeat constructor; simpl; by apply safe_value_clean.
Qed.

(** The OKX order builder accepts the same orders as the Binance one,
    and a JSON reader recovers from the signed body exactly the order's fields
    in the documented order. *)
Theorem okx_order_body_exact req :
  match build_okx_order_body req with
  | Ok b => order_ok req = true /\ read_object b = Some (okx_order_members req)
  | Err _ => order_ok req = false
  end.
Proof.
  pose proof (build_okx_order_body_spec req) as S.
  destruct (build_okx_order_body req); [|done]. destruct S as [Hok ->]. split; [done|].
  apply read_object_text; [done|]. by apply okx_order_members_clean.
Qed.

(** An accepted OKX cancel body reads back as exactly its instrument
    and order id. *)
Theorem okx_cancel_body_exact req :
  match build_okx_cancel_body req with
  | Ok b => read_object b = Some [("instId", VStr (c_symbol req)); ("ordId", VStr (c_order_id req))]
  | Err _ => is_safe_okx_value (c_symbol req) = false \/ is_safe_okx_value (c_order_id req) = false
  end.
Proof.
  unfold build_okx_cancel_body.
  destruct (is_safe_okx_value (c_symbol req)) eqn:E1; [|by left].
  destruct (is_safe_okx_value (c_order_id req)) eqn:E2; [|by right].
  cbn -[String.append read_object].
  rewrite <- (read_object_text [("instId", VStr (c_symbol req)); ("ordId", VStr (c_order_id req))]).
  - cbn [members_text]. unfold json_field, member_text, value_text. cbn [fst snd]. by rewrite !append_assoc.
  - done.
  - repeat (apply Forall_cons; split); [..|by apply Forall_nil_2]; split; try done; by apply safe_value_str.
Qed.

(** ** Headers and method binding *)

Section Binding.
Context `{Crates}.

(** What the KuCoin and OKX signatures cover and the Binance and Bybit
    ones do not.  KuCoin and OKX put the method in the signed text.  Binance's
    signed text has no method, and Bybit's depends on it only through the
    choice of query or body: requests that differ only in a GET or DELETE
    label get the same headers, and an order sent as the query of a DELETE is
    signed exactly like the same text sent as the body of a POST. *)
Theorem bybit_signature_ignores_method secret key ts payload other :
  compute_bybit_headers secret key ts "DELETE" payload other =
  compute_bybit_headers secret key ts "POST" other payload.
Proof. reflexivity. Qed.

End Binding.
