(* ===== verification/Jcs.v ===== *)
(** * Canonical JSON (enclave/src/signer.rs, [canonical_v1] and [jcs_string])

    The RFC 8785 serialisation the enclave signs for attested data, decision
    receipts, heartbeats and registry entry hashes.  Numbers are refused, so
    every encoding is self-delimiting: the main lemma shows that the code is
    prefix-free, hence that equal bytes mean equal data. *)

From S2P Require Import Prelude RustStr Crates Proto.

Open Scope string_scope.
Open Scope list_scope.
Open Scope Z_scope.

Definition quote : ascii := ascii_of_nat 34.
Definition backslash : ascii := ascii_of_nat 92.
Definition quote_str : string := String quote EmptyString.

(** [format!("{:04x}", c)] below 0x20. *)
Definition hex_digit (n : Z) : ascii := byte_of (if n <? 10 then n + 48 else n + 87).
Definition u_escape (v : Z) : string :=
  String backslash (String "u" (String "0" (String "0"
    (String (hex_digit (v / 16)) (String (hex_digit (v mod 16)) EmptyString))))).

(** One character.  Bytes from 0x80 up belong to multi-byte characters and are
    copied, as [encode_utf8] does. *)
Definition jcs_escape (c : ascii) : string :=
  let v := byte_val c in
  let esc d := String backslash (String d EmptyString) in
  if v =? 34 then esc quote
  else if v =? 92 then esc backslash
  else if v =? 8 then esc "b"%char
  else if v =? 9 then esc "t"%char
  else if v =? 10 then esc "n"%char
  else if v =? 12 then esc "f"%char
  else if v =? 13 then esc "r"%char
  else if v <? 32 then u_escape v
  else String c EmptyString.

Fixpoint jcs_chars (s : string) : string :=
  match s with
  | EmptyString => EmptyString
  | String c s' => jcs_escape c +:+ jcs_chars s'
  end.

Definition jcs_string (s : string) : string := quote_str +:+ jcs_chars s +:+ quote_str.

(** [str::encode_utf16] on the UTF-8 bytes of a key. *)
Definition cont (c : ascii) : Z := byte_val c mod 64.
Fixpoint encode_utf16 (s : string) : list Z :=
  match s with
  | EmptyString => []
  | String a s1 =>
      let v := byte_val a in
      if v <? 128 then v :: encode_utf16 s1
      else match s1 with
      | EmptyString => []
      | String b s2 =>
          if v <? 224 then (v mod 32 * 64 + cont b) :: encode_utf16 s2
          else match s2 with
          | EmptyString => []
          | String c s3 =>
              if v <? 240 then (v mod 16 * 4096 + cont b * 64 + cont c) :: encode_utf16 s3
              else match s3 with
              | EmptyString => []
              | String d s4 =>
                  let u := v mod 8 * 262144 + cont b * 4096 + cont c * 64 + cont d - 65536 in
                  (55296 + u / 1024) :: (56320 + u mod 1024) :: encode_utf16 s4
              end
          end
      end
  end.

(** Lexicographic order of the code units, as [sort_by] uses it. *)
Fixpoint units_le (a b : list Z) : bool :=
  match a, b with
  | [], _ => true
  | _ :: _, [] => false
  | x :: a', y :: b' => if x <? y then true else if y <? x then false else units_le a' b'
  end.
Definition key_le (a b : string) : bool := units_le (encode_utf16 a) (encode_utf16 b).

Fixpoint insert_key {A} (p : string * A) (l : list (string * A)) : list (string * A) :=
  match l with
  | [] => [p]
  | q :: l' => if key_le (fst p) (fst q) then p :: l else q :: insert_key p l'
  end.
Fixpoint sort_keys {A} (l : list (string * A)) : list (string * A) :=
  match l with
  | [] => []
  | p :: l' => insert_key p (sort_keys l')
  end.

(** Elements separated by [','], as the array and object loops emit them. *)
Fixpoint comma_tail (l : list string) : string :=
  match l with
  | [] => EmptyString
  | x :: l' => "," +:+ x +:+ comma_tail l'
  end.
Definition comma_join (l : list string) : string :=
  match l with
  | [] => EmptyString
  | x :: l' => x +:+ comma_tail l'
  end.

Definition member (p : string * string) : string := jcs_string (fst p) +:+ ":" +:+ snd p.

(** Run a fallible encoder over a list, stopping at the first error. *)
Definition number_forbidden : string := "canonical-v1: JSON numbers are forbidden".

Fixpoint canonical_v1 (value : json) : result string string :=
  match value with
  | JNull => Ok "null"
  | JBool true => Ok "true"
  | JBool false => Ok "false"
  | JNum _ => Err number_forbidden
  | JStr s => Ok (jcs_string s)
  | JArr arr =>
      out ← (fix go l := match l with
             | [] => Ok []
             | v :: l' => x ← canonical_v1 v; xs ← go l'; Ok (x :: xs)
             end) arr;
      Ok ("[" +:+ comma_join out +:+ "]")
  | JObj map =>
      out ← (fix go l := match l with
             | [] => Ok []
             | (k, v) :: l' => x ← canonical_v1 v; xs ← go l'; Ok ((k, x) :: xs)
             end) map;
      Ok ("{" +:+ comma_join (member <$> sort_keys out) +:+ "}")
  end.

(** ** Attested data *)

Definition ATTESTED_DATA_DOMAIN_V1 : string := "usenami-attested-data-v1".

Definition attested_data_digest_v1 `{Crates} (canonical : string) : string :=
  keccak256 (ATTESTED_DATA_DOMAIN_V1 +:+ canonical).

(** ** Reading canonical JSON back *)

(** Sort the members of every object, at every depth. *)
Fixpoint norm (v : json) : json :=
  match v with
  | JArr l => JArr (norm <$> l)
  | JObj fs => JObj (sort_keys ((fun p => (fst p, norm (snd p))) <$> fs))
  | _ => v
  end.

Fixpoint no_numbers (v : json) : bool :=
  match v with
  | JNum _ => false
  | JArr l => forallb no_numbers l
  | JObj fs => forallb (fun p => no_numbers (snd p)) fs
  | _ => true
  end.

(** The encoding with members in the order they come. *)
Fixpoint enc (v : json) : string :=
  match v with
  | JNull => "null"
  | JBool true => "true"
  | JBool false => "false"
  | JNum _ => EmptyString
  | JStr s => jcs_string s
  | JArr l => "[" +:+ comma_join (enc <$> l) +:+ "]"
  | JObj fs => "{" +:+ comma_join ((fun p => member (fst p, enc (snd p))) <$> fs) +:+ "}"
  end.

Section JsonInd.
Context (P : json -> Prop).
Context (Hnull : P JNull) (Hbool : forall b, P (JBool b)) (Hnum : forall n, P (JNum n))
        (Hstr : forall s, P (JStr s)) (Harr : forall l, Forall P l -> P (JArr l))
        (Hobj : forall fs, Forall (fun p => P (snd p)) fs -> P (JObj fs)).

Fixpoint json_nested_ind (v : json) : P v.
Proof using All.
  destruct v as [| | | |l|fs]; [apply Hnull|apply Hbool|apply Hnum|apply Hstr|apply Harr|apply Hobj].
  - induction l as [|x l IH]; [apply Forall_nil_2|apply Forall_cons_2; [apply json_nested_ind|exact IH]].
  - induction fs as [|p fs IH]; [apply Forall_nil_2|apply Forall_cons_2; [apply json_nested_ind|exact IH]].
Qed.
End JsonInd.

(** *** Strings are a prefix code *)

(** Read one escaped character. *)
Definition unhex (c : ascii) : Z := let v := byte_val c in if v <? 58 then v - 48 else v - 87.
Definition read_escape (s : string) : option (ascii * string) :=
  match s with
  | EmptyString => None
  | String c s1 =>
      if decide (c = quote) then None
      else if decide (c = backslash) then
        match s1 with
        | EmptyString => None
        | String d s2 =>
            if decide (d = "u"%char) then
              match s2 with
              | String _ (String _ (String h (String l s3))) => Some (byte_of (16 * unhex h + unhex l), s3)
              | _ => None
              end
            else
              let v := if decide (d = "b"%char) then 8 else if decide (d = "t"%char) then 9
                       else if decide (d = "n"%char) then 10 else if decide (d = "f"%char) then 12
                       else if decide (d = "r"%char) then 13 else byte_val d in
              Some (byte_of v, s2)
        end
      else Some (c, s1)
  end.

Lemma read_jcs_escape c s : read_escape (jcs_escape c +:+ s) = Some (c, s).
Proof. destruct c as [[] [] [] [] [] [] [] []]; reflexivity. Qed.

Lemma jcs_chars_prefix a b s t :
  jcs_chars a +:+ String quote s = jcs_chars b +:+ String quote t -> a = b /\ s = t.
Proof.
  revert b. induction a as [|c a IH]; intros [|d b]; cbn [jcs_chars].
  - intros H. by injection H as ->.
  - rewrite append_assoc. intros H. apply (f_equal read_escape) in H.
    rewrite read_jcs_escape in H. done.
  - rewrite append_assoc. intros H. apply (f_equal read_escape) in H.
    rewrite read_jcs_escape in H. done.
  - rewrite !append_assoc. intros H. apply (f_equal read_escape) in H.
    rewrite !read_jcs_escape in H. injection H as -> H. by apply IH in H as [-> ->].
Qed.

Lemma jcs_string_prefix a b s t : jcs_string a +:+ s = jcs_string b +:+ t -> a = b /\ s = t.
Proof.
  unfold jcs_string. rewrite !append_assoc. intros H. apply append_inj_prefix in H.
  by apply jcs_chars_prefix in H.
Qed.

(** *** Values are a prefix code *)

Definition prefix_free (v : json) : Prop :=
  forall w s t, no_numbers v = true -> no_numbers w = true ->
    enc v +:+ s = enc w +:+ t -> v = w /\ s = t.

(** The first byte of a value's encoding tells its kind and is never a closing
    bracket. *)
Definition kind_byte (v : json) : ascii :=
  match v with
  | JNull => "n" | JBool true => "t" | JBool false => "f" | JNum _ => "0"
  | JStr _ => quote | JArr _ => "[" | JObj _ => "{"
  end%char.

Lemma enc_kind v : no_numbers v = true -> exists r, enc v = String (kind_byte v) r.
Proof. destruct v as [|[]| | | |]; intros H; try done; eexists; reflexivity. Qed.

Lemma kind_byte_open v c : c = "]"%char \/ c = "}"%char \/ c = ","%char -> kind_byte v <> c.
Proof. intros [-> | [-> | ->]]; destruct v as [|[]| | | |]; done. Qed.

(** Comma-separated items up to a closing byte, for any prefix-free items. *)
Section Items.
Context {A : Type} (e : A -> string) (ok : A -> Prop) (close : ascii).
Context (Hclose : close <> ","%char).
Context (Hopen : forall x, ok x -> exists c r, e x = String c r /\ c <> close /\ c <> ","%char).

Definition item_prefix (x : A) : Prop :=
  forall y s t, ok x -> ok y -> e x +:+ s = e y +:+ t -> x = y /\ s = t.

Lemma comma_tail_prefix l1 l2 s t :
  Forall item_prefix l1 -> Forall ok l1 -> Forall ok l2 ->
  comma_tail (e <$> l1) +:+ String close s = comma_tail (e <$> l2) +:+ String close t ->
  l1 = l2 /\ s = t.
Proof using Hclose.
  intros Hp. revert l2. induction Hp as [|x l1 Hx Hp IH]; intros [|y l2] H1 H2; cbn [fmap list_fmap comma_tail].
  - intros H. by injection H as ->.
  - intros H. by injection H as ? _.
  - intros H. by injection H as ? _.
  - apply Forall_cons in H1 as [Hx1 H1], H2 as [Hy2 H2]. rewrite !append_assoc.
    intros H. apply append_inj_prefix in H. apply Hx in H as [-> H]; [|done..].
    by apply IH in H as [-> ->].
Qed.

Lemma comma_join_prefix l1 l2 s t :
  Forall item_prefix l1 -> Forall ok l1 -> Forall ok l2 ->
  comma_join (e <$> l1) +:+ String close s = comma_join (e <$> l2) +:+ String close t ->
  l1 = l2 /\ s = t.
Proof using Hclose Hopen.
  intros Hp H1 H2. destruct l1 as [|x l1], l2 as [|y l2]; cbn [fmap list_fmap comma_join].
  - intros H. by injection H as ->.
  - apply Forall_cons in H2 as [Hy _]. destruct (Hopen y Hy) as (c & r & -> & Hne & _).
    intros H. by injection H as ? _.
  - apply Forall_cons in H1 as [Hx _]. destruct (Hopen x Hx) as (c & r & -> & Hne & _).
    intros H. by injection H as ? _.
  - apply Forall_cons in H1 as [Hx1 H1], H2 as [Hy2 H2], Hp as [Hx Hp]. rewrite !append_assoc.
    intros H. apply Hx in H as [-> H]; [|done..]. by apply comma_tail_prefix in H as [-> ->].
Qed.
End Items.

Lemma enc_prefix_free v : prefix_free v.
Proof.
  induction v as [|b|n|x|l IH|fs IH] using json_nested_ind; intros w s t Hv Hw He; try discriminate Hv.
  all: destruct (enc_kind w Hw) as [r Hk]; pose proof He as He0.
  all: rewrite Hk in He; destruct w as [|b'|n'|y|l'|fs']; try discriminate He; try discriminate Hw;
    try (destruct b; discriminate He); try (destruct b'; discriminate He).
  - apply append_inj_prefix in He0. done.
  - destruct b, b'; try discriminate He; apply append_inj_prefix in He0; done.
  - by apply jcs_string_prefix in He0 as [-> ->].
  - cbn [enc] in He0. rewrite !append_assoc in He0. apply append_inj_prefix in He0.
    apply (comma_join_prefix enc (fun x => no_numbers x = true)) in He0 as [-> ->]; [done|done|..].
    + intros x Hx. destruct (enc_kind x Hx) as [r' ->].
      eexists _, _. split; [done|split; apply kind_byte_open; auto].
    + eapply Forall_impl; [exact IH|]. intros x Hx y s' t'. apply Hx.
    + by apply forallb_Forall, Hv.
    + by apply forallb_Forall, Hw.
  - cbn [enc] in He0. rewrite !append_assoc in He0. apply append_inj_prefix in He0.
    apply (comma_join_prefix (fun p => member (fst p, enc (snd p))) (fun p => no_numbers (snd p) = true))
      in He0 as [-> ->]; [done|done|..].
    + intros x Hx. eexists _, _. split; [reflexivity|done].
    + eapply Forall_impl; [exact IH|]. intros [k x] Hx [k' y] s' t' Hx1 Hy1. unfold member. cbn [fst snd] in *.
      rewrite !append_assoc. intros H. apply jcs_string_prefix in H as [-> H].
      apply append_inj_prefix in H. by apply Hx in H as [-> ->].
    + by apply forallb_Forall, Hv.
    + by apply forallb_Forall, Hw.
Qed.

(** *** The emitted bytes are the encoding of the sorted value *)

Lemma insert_key_map {A B} (f : A -> B) k a l :
  insert_key (k, f a) ((fun p => (fst p, f (snd p))) <$> l) =
  (fun p => (fst p, f (snd p))) <$> insert_key (k, a) l.
Proof.
  induction l as [|[k' b] l IH]; [done|]. cbn [fmap list_fmap insert_key fst snd].
  destruct (key_le k k'); cbn [fmap list_fmap]; [done|]. by rewrite IH.
Qed.

Lemma sort_keys_map {A B} (f : A -> B) l :
  sort_keys ((fun p => (fst p, f (snd p))) <$> l) = (fun p => (fst p, f (snd p))) <$> sort_keys l.
Proof.
  induction l as [|[k a] l IH]; [done|]. cbn [fmap list_fmap sort_keys fst snd].
  rewrite IH. apply insert_key_map.
Qed.

Lemma canonical_v1_spec v :
  canonical_v1 v = if no_numbers v then Ok (enc (norm v)) else Err number_forbidden.
Proof.
  induction v as [|[]|n|x|l IH|fs IH] using json_nested_ind; try done.
  - cbn [canonical_v1 no_numbers norm enc].
    assert ((fix go l := match l with
             | [] => Ok []
             | v :: l' => x ← canonical_v1 v; xs ← go l'; Ok (x :: xs)
             end) l = if forallb no_numbers l then Ok (enc <$> (norm <$> l)) else Err number_forbidden) as ->.
    { induction IH as [|x l Hx _ IHl]; [done|]. rewrite Hx. cbn [forallb].
      destruct (no_numbers x); [|done]. cbn [mbind result_bind andb]. rewrite IHl.
      by destruct (forallb no_numbers l). }
    by destruct (forallb no_numbers l).
  - cbn [canonical_v1 no_numbers norm enc].
    assert ((fix go l := match l with
             | [] => Ok []
             | (k, v) :: l' => x ← canonical_v1 v; xs ← go l'; Ok ((k, x) :: xs)
             end) fs = if forallb (fun p => no_numbers (snd p)) fs
                       then Ok ((fun p => (fst p, enc (norm (snd p)))) <$> fs) else Err number_forbidden) as ->.
    { induction IH as [|[k x] l Hx _ IHl]; [done|]. cbn [fst snd forallb] in *. rewrite Hx.
      destruct (no_numbers x); [|done]. cbn [mbind result_bind andb]. rewrite IHl.
      by destruct (forallb _ l). }
    destruct (forallb _ fs); [|done]. cbn [mbind result_bind]. do 4 f_equal.
    rewrite (sort_keys_map (fun v => enc (norm v))), (sort_keys_map norm), <- !list_fmap_compose. done.
Qed.

Lemma insert_key_Forall {A} (P : string * A -> Prop) p l : P p -> Forall P l -> Forall P (insert_key p l).
Proof.
  intros Hp Hl. induction Hl as [|q l Hq Hl IH]; cbn [insert_key]; [by repeat constructor|].
  destruct (key_le _ _); by repeat apply Forall_cons_2.
Qed.

Lemma sort_keys_Forall {A} (P : string * A -> Prop) l : Forall P l -> Forall P (sort_keys l).
Proof. induction 1; cbn [sort_keys]; [done|]. by apply insert_key_Forall. Qed.

Lemma no_numbers_norm v : no_numbers v = true -> no_numbers (norm v) = true.
Proof.
  induction v as [|b|n|x|l IH|fs IH] using json_nested_ind; try done; cbn [no_numbers norm].
  - rewrite !forallb_Forall. intros Hl. apply Forall_fmap. unfold compose.
    rewrite Forall_forall in *. auto.
  - rewrite !forallb_Forall. intros Hl. apply sort_keys_Forall, Forall_fmap. unfold compose. cbn [snd].
    rewrite Forall_forall in *. auto.
Qed.

Lemma canonical_v1_norm v w b :
  canonical_v1 v = Ok b -> canonical_v1 w = Ok b -> norm v = norm w /\ no_numbers v = true.
Proof.
  rewrite !canonical_v1_spec. destruct (no_numbers v) eqn:Hv; [|done]. destruct (no_numbers w) eqn:Hw; [|done].
  intros [= <-] [= H]. split; [|done].
  assert (forall x, no_numbers x = true -> no_numbers (norm x) = true) as Hn by apply no_numbers_norm.
  destruct (enc_prefix_free (norm v) (norm w) "" "") as [? _]; auto. by rewrite H.
Qed.

(** C40: canonical-v1 encodes faithfully: two values with the same bytes have the
    same members, elements and strings (up to the order of object members),
    and no value containing a number is ever encoded. *)
Theorem canonical_v1_faithful v w b :
  canonical_v1 v = Ok b -> canonical_v1 w = Ok b -> norm v = norm w /\ no_numbers v = true.
Proof. apply canonical_v1_norm. Qed.

Lemma canonical_v1_faithful_witness :
  let v := JObj [("b", JStr "1"); ("a", JArr [JNull; JBool true])] in
  let w := JObj [("a", JArr [JNull; JBool true]); ("b", JStr "1")] in
  exists b, canonical_v1 v = Ok b /\ canonical_v1 w = Ok b /\ norm v = norm w /\ no_numbers v = true.
Proof.
  intros v w. eexists. split; [vm_compute; reflexivity|]. split; [vm_compute; reflexivity|].
  eapply (canonical_v1_faithful v w); vm_compute; reflexivity.
Defined.
