(* ===== verification/Ledger.v ===== *)
(** * The replay ledger (enclave/src/intent_ledger.rs)

    A bounded FIFO set of intent digests.  It is refined to its contract: a
    sliding window over the digests accepted so far. *)

From S2P Require Import Prelude RustStr.

Open Scope string_scope.
Open Scope list_scope.
Open Scope Z_scope.

Definition MAX_TRACKED_NONCES : Z := 100000.

Record LedgerState := {
  seen : gset string;
  order : list string        (* front = oldest *)
}.

Definition ledger_new : LedgerState := {| seen := ∅; order := [] |}.

Definition record_if_new (key : string) (state : LedgerState) : bool * LedgerState :=
  if decide (key ∈ seen state) then (false, state)
  else
    let state :=
      if MAX_TRACKED_NONCES <=? Z.of_nat (size (seen state)) then
        match order state with
        | oldest :: rest => {| seen := seen state ∖ {[oldest]}; order := rest |}
        | [] => state
        end
      else state in
    (true, {| seen := {[key]} ∪ seen state; order := order state ++ [key] |}).

(** ** The contract: a window over the accepted digests, newest first *)

Definition window : nat := Z.to_nat MAX_TRACKED_NONCES.

Definition spec_record (key : string) (accepted : list string) : bool * list string :=
  if decide (key ∈ take window accepted) then (false, accepted) else (true, key :: accepted).

(** The ledger holds exactly the window. *)
Definition ledger_rep (accepted : list string) (st : LedgerState) : Prop :=
  order st = reverse (take window accepted) /\ seen st = list_to_set (take window accepted) /\
  NoDup (take window accepted).

Lemma ledger_new_rep : ledger_rep [] ledger_new.
Proof. unfold ledger_rep. rewrite take_nil. repeat split; try done. constructor. Qed.

Lemma window_pos : (0 < window)%nat.
Proof. unfold window, MAX_TRACKED_NONCES. lia. Qed.

Lemma size_window_list (l : list string) : NoDup l -> size (list_to_set l : gset string) = length l.
Proof. apply size_list_to_set. Qed.

(** The window after an acceptance: the key, then all but the oldest. *)
Lemma take_window_cons (key : string) accepted :
  take window (key :: accepted) = key :: take (window - 1) (take window accepted).
Proof.
  pose proof window_pos. destruct window as [|w]; [lia|]. cbn [take].
  rewrite take_take. do 2 f_equal. lia.
Qed.

(** Each call refines the contract. *)
Lemma record_if_new_refines key accepted st :
  ledger_rep accepted st ->
  let '(b, st') := record_if_new key st in
  let '(b', accepted') := spec_record key accepted in
  b = b' /\ ledger_rep accepted' st'.
Proof.
  intros (Ho & Hs & Hnd). unfold record_if_new, spec_record.
  set (w := take window accepted) in *.
  assert (key ∈ seen st <-> key ∈ w) as Hin by (rewrite Hs; apply elem_of_list_to_set).
  destruct (decide (key ∈ seen st)) as [Hk|Hk], (decide (key ∈ w)) as [Hk'|Hk']; try tauto.
  { split; [done|]. by split. }
  split; [done|]. unfold ledger_rep. rewrite take_window_cons. fold w.
  rewrite Hs, size_window_list by done. pose proof window_pos as Hpos.
  assert (length w <= window)%nat as Hlen by (unfold w; rewrite length_take; lia).
  destruct (MAX_TRACKED_NONCES <=? Z.of_nat (length w)) eqn:E.
  - assert (length w = window) as Hfull by (unfold window in *; lia).
    destruct (List.exists_last (l := w)) as (rest & oldest & Hw).
    { intros Hnil. rewrite Hnil in Hfull. simpl in Hfull. lia. }
    rewrite Ho, Hw, reverse_snoc. rewrite Hw in Hnd, Hfull, Hk'. rewrite length_app in Hfull. simpl in Hfull.
    apply NoDup_app in Hnd as (Hr & Hro & _).
    assert (take (window - 1) (rest ++ [oldest]) = rest) as ->.
    { rewrite take_app_le by lia. apply take_ge. lia. }
    cbn [seen order]. split; [by rewrite reverse_cons|split].
    + rewrite list_to_set_app_L. cbn [list_to_set]. set_solver.
    + constructor; set_solver.
  - assert (take (window - 1) w = w) as -> by (apply take_ge; unfold window in *; lia).
    rewrite Ho. split; [by rewrite reverse_cons|split].
    + cbn [seen list_to_set]. by rewrite Hs.
    + by constructor.
Qed.

(** ** Sequences of calls *)

Fixpoint record_all (keys : list string) (st : LedgerState) : list bool * LedgerState :=
  match keys with
  | [] => ([], st)
  | k :: keys' =>
      let '(b, st) := record_if_new k st in
      let '(bs, st) := record_all keys' st in (b :: bs, st)
  end.

Fixpoint spec_all (keys accepted : list string) : list bool * list string :=
  match keys with
  | [] => ([], accepted)
  | k :: keys' =>
      let '(b, accepted) := spec_record k accepted in
      let '(bs, accepted) := spec_all keys' accepted in (b :: bs, accepted)
  end.

Lemma record_all_refines keys accepted st :
  ledger_rep accepted st ->
  let '(bs, st') := record_all keys st in
  let '(bs', accepted') := spec_all keys accepted in
  bs = bs' /\ ledger_rep accepted' st'.
Proof.
  revert accepted st. induction keys as [|k keys IH]; intros accepted st Hr; cbn [record_all spec_all]; [done|].
  pose proof (record_if_new_refines k accepted st Hr) as H.
  destruct (record_if_new k st) as [b st1], (spec_record k accepted) as [b' accepted1]. destruct H as [-> H].
  specialize (IH _ _ H). destruct (record_all keys st1), (spec_all keys accepted1). naive_solver.
Qed.

Lemma spec_all_suffix keys accepted :
  exists new, snd (spec_all keys accepted) = new ++ accepted /\ (length new <= length keys)%nat.
Proof.
  revert accepted. induction keys as [|k keys IH]; intros accepted; cbn [spec_all]; [by exists []|].
  unfold spec_record. case_decide; specialize (IH (k :: accepted)) as IH1; specialize (IH accepted) as IH2.
  - destruct (spec_all keys accepted). destruct IH2 as (new & Hn & ?). exists new. simpl in *. split; [done|lia].
  - destruct (spec_all keys (k :: accepted)). destruct IH1 as (new & Hn & ?).
    exists (new ++ [k]). rewrite <- app_assoc, length_app. simpl in *. split; [done|lia].
Qed.

(** C26: the ledger implements its contract from boot on: over any sequence of
    calls it answers like a set of the last 100,000 accepted digests. *)
Theorem ledger_refines_window keys :
  fst (record_all keys ledger_new) = fst (spec_all keys []) /\
  ledger_rep (snd (spec_all keys [])) (snd (record_all keys ledger_new)).
Proof.
  pose proof (record_all_refines keys [] ledger_new ledger_new_rep) as H.
  by destruct (record_all keys ledger_new), (spec_all keys []).
Qed.

(** A digest that was accepted is refused on every later presentation
    with fewer than 100,000 calls in between, whatever those calls are. *)
Theorem no_replay_within_window past key between :
  Z.of_nat (length between) < MAX_TRACKED_NONCES ->
  let st0 := snd (record_all past ledger_new) in
  let '(accepted, st1) := record_if_new key st0 in
  let st2 := snd (record_all between st1) in
  accepted = true -> fst (record_if_new key st2) = false.
Proof.
  intros Hlen. cbv zeta. pose proof (record_all_refines past [] ledger_new ledger_new_rep) as H0.
  destruct (record_all past ledger_new) as [b0 st0], (spec_all past []) as [s0 acc0]. destruct H0 as [_ H0]. cbn [snd].
  pose proof (record_if_new_refines key acc0 st0 H0) as H1. unfold spec_record in H1.
  destruct (record_if_new key st0) as [b1 st1]. intros ->.
  destruct (decide (key ∈ take window acc0)); [by destruct H1|]. destruct H1 as [_ H1].
  set (acc1 := key :: acc0) in *. pose proof (record_all_refines between acc1 st1 H1) as H2.
  destruct (spec_all_suffix between acc1) as (new & Hn & Hl).
  destruct (record_all between st1) as [b2 st2], (spec_all between acc1) as [s2 acc2]. destruct H2 as [_ H2].
  cbn [snd] in *. pose proof (record_if_new_refines key acc2 st2 H2) as H3. subst acc2.
  unfold spec_record in H3. destruct (record_if_new key st2) as [b3 st3].
  destruct (decide (key ∈ take window (new ++ acc1))) as [|Hno]; [by destruct H3 as [-> _]|].
  destruct Hno. rewrite take_app, elem_of_app. right. subst acc1.
  destruct (window - length new)%nat eqn:E; [unfold window in *; lia|]. cbn [take]. by left.
Qed.

Lemma no_replay_within_window_witness :
  Z.of_nat (length ["b"; "c"]%string) < MAX_TRACKED_NONCES /\
  fst (record_if_new "a" (snd (record_all ["b"; "c"] (snd (record_if_new "a" ledger_new))))) = false.
Proof.
  split; [vm_compute; reflexivity|].
  exact (no_replay_within_window [] "a" ["b"; "c"]%string eq_refl eq_refl).
Defined.
