(* ===== verification/Registry.v ===== *)
(** * Tenant registry (enclave/src/registry.rs)

    Opaque tokens resolve to a tenant identity through a registry installed by
    the control plane: a challenge issues a nonce, a refresh signed over
    (nonce, version, hash) replaces the registry.  [refresh] is split where the
    code releases its locks, so the step relation [reg_step] interleaves
    challenges and refreshes the way concurrent requests do. *)

From S2P Require Import Prelude RustStr Crates Proto Jcs.

Open Scope string_scope.
Open Scope list_scope.
Open Scope Z_scope.

(** ** Tenants *)

Inductive TenantMode := Active | CancelOnly | Halted.
#[global] Instance tenant_mode_eq_dec : EqDecision TenantMode.
Proof. solve_decision. Defined.

Definition mode_parse (s : string) : option TenantMode :=
  if decide (s = "active") then Some Active
  else if decide (s = "cancel_only") then Some CancelOnly
  else if decide (s = "halted") then Some Halted
  else None.

Definition mode_as_str (m : TenantMode) : string :=
  match m with Active => "active" | CancelOnly => "cancel_only" | Halted => "halted" end.

Record ResolvedIdentity := {
  id_customer_id : string;
  id_allowed_venues : list string;
  id_mode : TenantMode
}.

Record TenantEntry := {
  te_token_hmac : string;
  te_customer_id : string;
  te_allowed_venues : list string;
  te_mode : TenantMode
}.

Record RefreshEntry := {
  re_token : string;
  re_customer_id : string;
  re_allowed_venues : list string;
  re_mode : option string
}.

Definition venue_allowed (id : ResolvedIdentity) (venue : string) : bool :=
  existsb (fun v => bool_decide (v = venue)) (id_allowed_venues id).

Definition encryption_context (id : ResolvedIdentity) (venue : string) : gmap string string :=
  <["venue_id" := venue]> (<["customer_id" := id_customer_id id]> ∅).

Definition newline : string := String (ascii_of_nat 10) EmptyString.

Definition sealed_aad (id : ResolvedIdentity) (venue : string) (key_version : Z) : string :=
  "customer_id=" +:+ id_customer_id id +:+ newline +:+ "venue_id=" +:+ venue +:+ newline +:+
  "key_version=" +:+ u64_to_string key_version.

Definition for_data_signing : ResolvedIdentity :=
  {| id_customer_id := "attested-data"; id_allowed_venues := ["data-signing"]; id_mode := Active |}.

Definition for_provisioned_agent (customer_id venue : string) : ResolvedIdentity :=
  {| id_customer_id := customer_id; id_allowed_venues := [venue]; id_mode := Active |}.

(** [Vec<String>::sort]: bytewise. *)
Fixpoint byte_units (s : string) : list Z :=
  match s with EmptyString => [] | String c s' => byte_val c :: byte_units s' end.
Fixpoint insert_str (x : string) (l : list string) : list string :=
  match l with
  | [] => [x]
  | y :: l' => if units_le (byte_units x) (byte_units y) then x :: l else y :: insert_str x l'
  end.
Fixpoint sort_strings (l : list string) : list string :=
  match l with [] => [] | x :: l' => insert_str x (sort_strings l') end.

Definition entry_value (id : ResolvedIdentity) : json :=
  JObj [("customer_id", JStr (id_customer_id id));
        ("allowed_venues", JArr (JStr <$> sort_strings (id_allowed_venues id)));
        ("mode", JStr (mode_as_str (id_mode id)))].

Definition entry_hash `{Crates} (id : ResolvedIdentity) : option string :=
  match canonical_v1 (entry_value id) with
  | Ok canonical => Some (hex_encode (sha256 canonical))
  | Err _ => None
  end.

(** ** Errors *)

Inductive RegistryError :=
| NoPubkey | BadPubkey | NoPendingNonce | NonceMismatch | BadNonceHex | BadSignature
| SignatureInvalid | ContentHashMismatch | NonMonotonicVersion (got max_known : Z)
| Empty | MalformedEntries | UnsafeId | ReservedVenue | BadMode.

Definition wire_code (e : RegistryError) : string :=
  match e with
  | NoPendingNonce | NonceMismatch | BadNonceHex => err_code.REGISTRY_NONCE_REJECTED
  | NoPubkey | BadPubkey | BadSignature | SignatureInvalid | ContentHashMismatch =>
      err_code.REGISTRY_SIGNATURE_REJECTED
  | MalformedEntries | Empty | UnsafeId | ReservedVenue | BadMode => err_code.REGISTRY_ENTRIES_REJECTED
  | NonMonotonicVersion _ _ => err_code.REGISTRY_VERSION_REJECTED
  end.

(** ** Install-time checks *)

Definition safe_id_byte (c : ascii) : bool :=
  is_ascii_alphanumeric c || (byte_val c =? 45) || (byte_val c =? 95).

Definition is_safe_id (s : string) : bool :=
  negb (is_empty s) && (String.length s <=? 64)%nat && bytes_all safe_id_byte s.

Definition X402_CUSTOMER_ID : string := "x402-00000000-0000-0000-0000-0000000x402".
Definition RESERVED_X402_VENUE : string := "x402".
Definition RESERVED_DATA_SIGNING_VENUE : string := "data-signing".
Definition DATA_SIGNING_OWNER : string := "attested-data".

Definition reserved_venue_owner (venue : string) : option string :=
  if eq_ignore_ascii_case venue RESERVED_X402_VENUE then Some X402_CUSTOMER_ID
  else if eq_ignore_ascii_case venue RESERVED_DATA_SIGNING_VENUE then Some DATA_SIGNING_OWNER
  else None.

Definition grants_reserved_venue_to_non_reserved (customer_id : string) (allowed_venues : list string) : bool :=
  existsb (fun v => match reserved_venue_owner v with
                    | Some owner => negb (bool_decide (owner = customer_id))
                    | None => false
                    end) allowed_venues.

Fixpoint check_entries (entries : list RefreshEntry) : result RegistryError () :=
  match entries with
  | [] => Ok ()
  | e :: rest =>
      if negb (is_safe_id (re_customer_id e)) || existsb (fun v => negb (is_safe_id v)) (re_allowed_venues e)
      then Err UnsafeId
      else if grants_reserved_venue_to_non_reserved (re_customer_id e) (re_allowed_venues e)
      then Err ReservedVenue
      else match re_mode e with
           | Some m => match mode_parse m with None => Err BadMode | Some _ => check_entries rest end
           | None => check_entries rest
           end
  end.

(** [version.to_le_bytes()] *)
Fixpoint le_bytes (w : nat) (n : Z) : string :=
  match w with
  | O => EmptyString
  | S w' => String (byte_of n) (le_bytes w' (n / 256))
  end.

Definition signed_message (nonce : string) (version : Z) (content_hash : string) : string :=
  nonce +:+ le_bytes 8 version +:+ content_hash.

(** ** State and operations *)

(** The registry, its version and the outstanding challenge. *)
Record RegState := {
  rg_entries : list TenantEntry;
  rg_version : Z;
  rg_pending : option string
}.

Definition registry_empty : RegState := {| rg_entries := []; rg_version := 0; rg_pending := None |}.

(** The environment: the baked control-plane key, the boot-time HMAC key, and
    the derived deserialiser of [Vec<RefreshEntry>]. *)
Class RegistryEnv := {
  registry_pubkey_env : option string;
  registry_key : string;
  parse_entries : string -> option (list RefreshEntry)
}.

Section Registry.
Context `{Crates, RegistryEnv}.

(** [hex::decode(s.trim())] into a fixed-size array. *)
Definition decode_trimmed (n : nat) (s : string) : option string := decode_array n (trim s).

Definition control_plane_vk : result RegistryError string :=
  hex ← ok_or registry_pubkey_env NoPubkey;
  vk ← ok_or (decode_trimmed 32 hex) BadPubkey;
  if ed25519_key_ok vk then Ok vk else Err BadPubkey.

Definition token_hmac (token : string) : string := hmac_sha256 registry_key token.

(** [challenge]: [nonce] is the 32 bytes drawn from the OS generator. *)
Definition challenge (nonce : string) (st : RegState) : string * RegState :=
  (hex_encode nonce,
   {| rg_entries := rg_entries st; rg_version := rg_version st; rg_pending := Some nonce |}).

(** Steps 1 to 4 of [refresh]: everything before the write lock.  The pending
    nonce is only read. *)
Definition refresh_check (entries_json nonce_hex : string) (version : Z) (signature_hex : string)
    (pending : option string) : result RegistryError (string * list RefreshEntry) :=
  vk ← control_plane_vk;
  nonce ← ok_or (decode_trimmed 32 nonce_hex) BadNonceHex;
  _ ← match pending with
      | None => Err NoPendingNonce
      | Some issued => if decide (issued = nonce) then Ok () else Err NonceMismatch
      end;
  let content_hash := sha256 entries_json in
  sig ← ok_or (decode_trimmed 64 signature_hex) BadSignature;
  let msg := signed_message nonce version content_hash in
  _ ← (if ed25519_verify vk msg sig then Ok () else Err SignatureInvalid);
  entries ← ok_or (parse_entries entries_json) MalformedEntries;
  _ ← match entries with [] => Err Empty | _ => Ok () end;
  _ ← check_entries entries;
  Ok (nonce, entries).

Definition resident (e : RefreshEntry) : TenantEntry :=
  {| te_token_hmac := token_hmac (re_token e);
     te_customer_id := re_customer_id e;
     te_allowed_venues := re_allowed_venues e;
     te_mode := default Active (re_mode e ≫= mode_parse) |}.

(** Steps 5 to 7: monotonicity, install and compare-and-clear, under the write
    lock. *)
Definition refresh_commit (nonce : string) (version : Z) (entries : list RefreshEntry) (st : RegState)
    : result RegistryError Z * RegState :=
  if version <=? rg_version st then (Err (NonMonotonicVersion version (rg_version st)), st)
  else
    let pending :=
      match rg_pending st with
      | Some p => if decide (p = nonce) then None else Some p
      | None => None
      end in
    (Ok version,
     {| rg_entries := resident <$> entries; rg_version := version; rg_pending := pending |}).

Definition refresh (entries_json nonce_hex : string) (version : Z) (signature_hex : string) (st : RegState)
    : result RegistryError Z * RegState :=
  match refresh_check entries_json nonce_hex version signature_hex (rg_pending st) with
  | Err e => (Err e, st)
  | Ok (nonce, entries) => refresh_commit nonce version entries st
  end.

(** The branch-free index select of [resolve], on 64-bit words. *)
Definition usize_max : Z := 2 ^ 64 - 1.
Definition wrapping_neg (z : Z) : Z := (- z) mod 2 ^ 64.
Definition not64 (z : Z) : Z := Z.lxor z usize_max.

Fixpoint resolve_scan (incoming : string) (entries : list TenantEntry) (i matched : Z) : Z :=
  match entries with
  | [] => matched
  | e :: rest =>
      let eq := if decide (te_token_hmac e = incoming) then 1 else 0 in
      let mask := wrapping_neg eq in
      resolve_scan incoming rest (i + 1) (Z.lor (Z.land matched (not64 mask)) (Z.land i mask))
  end.

Definition identity_of (e : TenantEntry) : ResolvedIdentity :=
  {| id_customer_id := te_customer_id e; id_allowed_venues := te_allowed_venues e; id_mode := te_mode e |}.

Definition resolve (token : string) (st : RegState) : option ResolvedIdentity :=
  let incoming := token_hmac token in
  let matched := resolve_scan incoming (rg_entries st) 0 usize_max in
  if matched =? usize_max then None
  else identity_of <$> (rg_entries st !! Z.to_nat matched).

Definition current_version (st : RegState) : Z := rg_version st.

End Registry.

(** ** Sealed identities *)

Lemma safe_id_no_newline s : is_safe_id s = true -> contains_char (ascii_of_nat 10) s = false.
Proof.
  unfold is_safe_id. rewrite !andb_true_iff. intros [_ Hs].
  by apply contains_char_all with safe_id_byte.
Qed.

(** The additional data a sealed blob is bound to determines the customer,
    the venue and the key version: for ids the registry admits, no two
    identities share it. *)
Theorem sealed_aad_injective id1 v1 k1 id2 v2 k2 :
  is_safe_id (id_customer_id id1) = true -> is_safe_id (id_customer_id id2) = true ->
  is_safe_id v1 = true -> is_safe_id v2 = true -> 0 <= k1 -> 0 <= k2 ->
  sealed_aad id1 v1 k1 = sealed_aad id2 v2 k2 ->
  id_customer_id id1 = id_customer_id id2 /\ v1 = v2 /\ k1 = k2.
Proof.
  intros Hc1%safe_id_no_newline Hc2%safe_id_no_newline Hv1%safe_id_no_newline Hv2%safe_id_no_newline Hk1 Hk2.
  assert (forall s, newline +:+ s = String (ascii_of_nat 10) s) as Enl by done.
  unfold sealed_aad. intros H%append_inj_prefix. rewrite !Enl in H.
  apply (f_equal (split_once (ascii_of_nat 10))) in H.
  rewrite !split_once_app in H by done. injection H as -> H.
  apply (f_equal (split_once (ascii_of_nat 10))) in H.
  rewrite !split_once_app in H by done. injection H as -> H.
  apply u64_to_string_inj in H; auto.
Qed.

Lemma sealed_aad_injective_witness :
  let id := for_provisioned_agent "cust-1" "binance" in
  is_safe_id (id_customer_id id) = true /\
  (id_customer_id id = id_customer_id id /\ "binance" = "binance" /\ 1 = 1).
Proof.
  intros id. split; [reflexivity|].
  apply (sealed_aad_injective id "binance" 1 id "binance" 1); (reflexivity || lia).
Defined.

(** ** Resolving a token *)

(** The reference: the last entry whose keyed hash matches. *)
Fixpoint last_match (incoming : string) (entries : list TenantEntry) (acc : option TenantEntry) : option TenantEntry :=
  match entries with
  | [] => acc
  | e :: rest => last_match incoming rest (if decide (te_token_hmac e = incoming) then Some e else acc)
  end.

Lemma land_ones x : 0 <= x < 2 ^ 64 -> Z.land x usize_max = x.
Proof. intros. change usize_max with (Z.ones 64). rewrite Z.land_ones, Z.mod_small; lia. Qed.

Lemma select_hit m i : 0 <= m < 2 ^ 64 -> 0 <= i < 2 ^ 64 ->
  Z.lor (Z.land m (not64 (wrapping_neg 1))) (Z.land i (wrapping_neg 1)) = i.
Proof.
  intros Hm Hi. change (wrapping_neg 1) with usize_max. change (not64 usize_max) with 0.
  by rewrite Z.land_0_r, Z.lor_0_l, land_ones.
Qed.

Lemma select_miss m i : 0 <= m < 2 ^ 64 ->
  Z.lor (Z.land m (not64 (wrapping_neg 0))) (Z.land i (wrapping_neg 0)) = m.
Proof.
  intros Hm. change (wrapping_neg 0) with 0. change (not64 0) with usize_max.
  by rewrite Z.land_0_r, Z.lor_0_r, land_ones.
Qed.

Lemma resolve_scan_spec incoming all pre rest matched :
  all = pre ++ rest -> Z.of_nat (length all) < usize_max ->
  (matched = usize_max \/ 0 <= matched < Z.of_nat (length pre)) ->
  let m := resolve_scan incoming rest (Z.of_nat (length pre)) matched in
  (m = usize_max \/ 0 <= m < Z.of_nat (length all)) /\
  (if m =? usize_max then None else all !! Z.to_nat m) =
  last_match incoming rest (if matched =? usize_max then None else all !! Z.to_nat matched).
Proof.
  revert pre matched. induction rest as [|e rest IH]; intros pre matched Hall Hlen Hm; cbv zeta.
  { cbn [resolve_scan last_match]. rewrite app_nil_r in Hall. by subst. }
  cbn [resolve_scan last_match].
  assert (length all = length pre + S (length rest))%nat as Hl by (subst; by rewrite length_app).
  replace (Z.of_nat (length pre) + 1) with (Z.of_nat (length (pre ++ [e]))) by (rewrite length_app; simpl; lia).
  assert (0 <= matched < 2 ^ 64) by (unfold usize_max in *; lia).
  destruct (decide (te_token_hmac e = incoming)).
  - rewrite select_hit by (unfold usize_max in *; lia).
    destruct (IH (pre ++ [e]) (Z.of_nat (length pre))) as [H1 H2]; [by rewrite <- app_assoc|done| |].
    { right. rewrite length_app. simpl. lia. }
    split; [done|]. rewrite H2. f_equal. rewrite (proj2 (Z.eqb_neq _ _)) by lia.
    rewrite Nat2Z.id, Hall, lookup_app_r by lia. by rewrite Nat.sub_diag.
  - rewrite select_miss by done. apply IH; [by rewrite <- app_assoc|done|].
    destruct Hm; [by left|right]. rewrite length_app. lia.
Qed.

Lemma resolve_exact_spec `{Crates, RegistryEnv} token st :
  Z.of_nat (length (rg_entries st)) < usize_max ->
  resolve token st = identity_of <$> last_match (token_hmac token) (rg_entries st) None.
Proof.
  intros Hlen. unfold resolve.
  destruct (resolve_scan_spec (token_hmac token) (rg_entries st) [] (rg_entries st) usize_max) as [_ H2]; [done..|by left|].
  change (Z.of_nat (length [])) with 0 in H2. rewrite Z.eqb_refl in H2. rewrite <- H2. by case_goal.
Qed.

(** The constant-time index select resolves a token exactly to the last
    entry with its keyed hash, and to nothing when no entry has it. *)
Theorem resolve_exact `{Crates, RegistryEnv} token st :
  Z.of_nat (length (rg_entries st)) < usize_max ->
  resolve token st = identity_of <$> last_match (token_hmac token) (rg_entries st) None.
Proof. apply resolve_exact_spec. Qed.

Definition demo_env : RegistryEnv := {|
  registry_pubkey_env := Some "0000000000000000000000000000000000000000000000000000000000000000";
  registry_key := "key";
  parse_entries s := if decide (s = "[]") then Some [] else
    Some [{| re_token := "tok"; re_customer_id := "cust"; re_allowed_venues := ["binance"]; re_mode := None |}]
|}.

Definition demo_state : RegState :=
  {| rg_entries := [{| te_token_hmac := @token_hmac demo_crates demo_env "tok"; te_customer_id := "cust";
                       te_allowed_venues := ["binance"]; te_mode := Active |}];
     rg_version := 1; rg_pending := None |}.

Lemma resolve_exact_witness :
  Z.of_nat (length (rg_entries demo_state)) < usize_max /\
  @resolve demo_crates demo_env "tok" demo_state =
    Some {| id_customer_id := "cust"; id_allowed_venues := ["binance"]; id_mode := Active |}.
Proof.
  split; [vm_compute; reflexivity|].
  rewrite (@resolve_exact demo_crates demo_env); vm_compute; reflexivity.
Defined.

(** ** Install-time guarantees *)

Definition venue_ok (customer venue : string) : Prop :=
  is_safe_id venue = true /\
  match reserved_venue_owner venue with Some owner => owner = customer | None => True end.

(** An entry the registry may hold. *)
Definition entry_ok (customer : string) (venues : list string) : Prop :=
  is_safe_id customer = true /\ Forall (venue_ok customer) venues.

Lemma check_entries_ok entries :
  check_entries entries = Ok () ->
  Forall (fun e => entry_ok (re_customer_id e) (re_allowed_venues e) /\
                   (forall m, re_mode e = Some m -> is_Some (mode_parse m))) entries.
Proof.
  induction entries as [|e rest IH]; cbn [check_entries]; [done|].
  destruct (negb _ || _) eqn:E1; [done|]. destruct (grants_reserved_venue_to_non_reserved _ _) eqn:E2; [done|].
  apply orb_false_iff in E1 as [Hc%negb_false_iff Hv]. intros Hrest.
  assert (entry_ok (re_customer_id e) (re_allowed_venues e)) as He.
  { split; [done|]. rewrite Forall_forall. intros v Hin.
    unfold grants_reserved_venue_to_non_reserved in E2.
    assert (forall f, existsb f (re_allowed_venues e) = false -> f v = false) as Hex.
    { intros f Hf. apply not_true_iff_false. intros Ht. apply not_true_iff_false in Hf. apply Hf.
      apply existsb_exists. exists v. split; [by apply list_elem_of_In|done]. }
    apply Hex in Hv, E2. apply negb_false_iff in Hv. split; [done|].
    destruct (reserved_venue_owner v); [|done]. by apply negb_false_iff, bool_decide_eq_true in E2. }
  destruct (re_mode e) as [m|] eqn:Em.
  - destruct (mode_parse m) eqn:Ep; [|done]. constructor; [|auto]. split; [done|]. intros m' Hm. rewrite Em in Hm. injection Hm as <-. eauto.
  - constructor; [|auto]. split; [done|]. congruence.
Qed.

(** ** Interleavings *)

Section Concurrency.
Context `{Crates, RegistryEnv}.

(** A refresh that passed its checks and has not taken the write lock yet,
    with the challenge and the signature it passed them with. *)
Record InFlight := { fl_nonce : string; fl_version : Z; fl_entries : list RefreshEntry }.

Record World := {
  w_reg : RegState;
  w_inflight : list InFlight;
  w_issued : list string;         (* every nonce ever issued *)
  w_installed : list Z            (* versions installed, newest first *)
}.

Definition boot : World :=
  {| w_reg := registry_empty; w_inflight := []; w_issued := []; w_installed := [] |}.

Inductive reg_step : World -> World -> Prop :=
| step_challenge w nonce :
    reg_step w {| w_reg := snd (challenge nonce (w_reg w)); w_inflight := w_inflight w;
                  w_issued := nonce :: w_issued w; w_installed := w_installed w |}
| step_check w entries_json nonce_hex version signature_hex nonce entries :
    0 <= version < 2 ^ 64 ->
    refresh_check entries_json nonce_hex version signature_hex (rg_pending (w_reg w)) = Ok (nonce, entries) ->
    reg_step w {| w_reg := w_reg w;
                  w_inflight := {| fl_nonce := nonce; fl_version := version; fl_entries := entries |} :: w_inflight w;
                  w_issued := w_issued w; w_installed := w_installed w |}
| step_commit w before f after r reg :
    w_inflight w = before ++ f :: after ->
    refresh_commit (fl_nonce f) (fl_version f) (fl_entries f) (w_reg w) = (r, reg) ->
    reg_step w {| w_reg := reg; w_inflight := before ++ after; w_issued := w_issued w;
                  w_installed := match r with Ok v => v :: w_installed w | Err _ => w_installed w end |}.

(** The control plane signed these entries, at this version, for a nonce this
    enclave issued. *)
Definition authorised (issued : list string) (f : InFlight) : Prop :=
  exists vk entries_json sig,
    control_plane_vk = Ok vk /\ fl_nonce f ∈ issued /\
    ed25519_verify vk (signed_message (fl_nonce f) (fl_version f) (sha256 entries_json)) sig = true /\
    parse_entries entries_json = Some (fl_entries f) /\ check_entries (fl_entries f) = Ok ().

Definition world_ok (w : World) : Prop :=
  Forall (authorised (w_issued w)) (w_inflight w) /\
  (forall n, rg_pending (w_reg w) = Some n -> n ∈ w_issued w) /\
  StronglySorted (fun a b => b < a) (w_installed w) /\
  match w_installed w with
  | [] => w_reg w = {| rg_entries := []; rg_version := 0; rg_pending := rg_pending (w_reg w) |}
  | v :: _ => rg_version (w_reg w) = v /\
      exists f, authorised (w_issued w) f /\ fl_version f = v /\
                rg_entries (w_reg w) = resident <$> fl_entries f
  end.

Lemma authorised_mono n issued f : authorised issued f -> authorised (n :: issued) f.
Proof. intros (vk & j & s & ? & ? & ?). exists vk, j, s. split; [done|]. split; [by right|done]. Qed.

Lemma refresh_check_signed entries_json nonce_hex version signature_hex pending nonce entries :
  refresh_check entries_json nonce_hex version signature_hex pending = Ok (nonce, entries) ->
  pending = Some nonce /\ entries <> [] /\ exists vk sig, control_plane_vk = Ok vk /\
    ed25519_verify vk (signed_message nonce version (sha256 entries_json)) sig = true /\
    parse_entries entries_json = Some entries /\ check_entries entries = Ok ().
Proof.
  unfold refresh_check. intros Hc. step_in Hc. step_in Hc. step_in Hc. step_in Hc. step_in Hc. step_in Hc.
  step_in Hc. step_in Hc. injection Hc as -> ->. apply ok_or_inv in E4.
  destruct pending as [issued0|]; [|done]. case_decide; [|done]. subst.
  destruct (ed25519_verify _ _ _) eqn:Ev; [|done].
  split; [done|]. split; [by destruct entries|]. exists a, a2.
  repeat match goal with u : () |- _ => destruct u end. by simpl.
Qed.

Lemma refresh_check_inv entries_json nonce_hex version signature_hex pending nonce entries :
  refresh_check entries_json nonce_hex version signature_hex pending = Ok (nonce, entries) ->
  pending = Some nonce /\ entries <> [] /\
  forall issued, nonce ∈ issued ->
    authorised issued {| fl_nonce := nonce; fl_version := version; fl_entries := entries |}.
Proof.
  intros (Hp & Hne & vk & sig & ? & ? & ? & ?)%refresh_check_signed. split; [done|]. split; [done|].
  intros issued Hn. by exists vk, entries_json, sig.
Qed.

Lemma commit_ok_inv nonce version entries st v st' :
  refresh_commit nonce version entries st = (Ok v, st') ->
  v = version /\ rg_version st < version /\ rg_version st' = version /\
  rg_entries st' = resident <$> entries /\ (forall n, rg_pending st' = Some n -> rg_pending st = Some n).
Proof.
  unfold refresh_commit. destruct (version <=? rg_version st) eqn:E; [done|]. intros [= <- <-].
  repeat split; try done; [lia|]. simpl. intros n. destruct (rg_pending st); [|done]. by case_decide.
Qed.

Lemma commit_err_inv nonce version entries st e st' :
  refresh_commit nonce version entries st = (Err e, st') -> st' = st.
Proof. unfold refresh_commit. destruct (version <=? rg_version st); [|done]. by intros [= _ <-]. Qed.

Lemma boot_ok : world_ok boot.
Proof. split; [done|]. split; [done|]. split; [constructor|done]. Qed.

Lemma installed_below v l : StronglySorted (fun a b => b < a) l ->
  match l with [] => True | x :: _ => x < v end -> StronglySorted (fun a b => b < a) (v :: l).
Proof.
  intros Hs Hx. constructor; [done|]. destruct Hs as [|x l Hs Hall]; [done|].
  constructor; [done|]. eapply Forall_impl; [exact Hall|]. simpl. lia.
Qed.

Lemma reg_step_ok w w' : reg_step w w' -> world_ok w -> world_ok w'.
Proof.
  intros Hstep (Hfl & Hp & Hsort & Hreg). destruct Hstep as
    [w nonce|w json nh version sh nonce entries Hv Hc|w before f after r reg Hw Hc]; unfold world_ok; simpl.
  - split; [eapply Forall_impl; [exact Hfl|]; apply authorised_mono|]. split; [|split; [done|]].
    { intros n [= <-]. by left. }
    destruct (w_installed w); [by rewrite Hreg|]. destruct Hreg as (Hvv & f & Hf & Hrest).
    split; [done|]. exists f. split; [by apply authorised_mono|done].
  - apply refresh_check_inv in Hc as (Hpend & _ & Hauth).
    split; [|done]. constructor; [by apply Hauth, Hp|done].
  - rewrite Hw in Hfl. apply Forall_app in Hfl as [Hb Hfa]. apply Forall_cons in Hfa as [Hf Ha].
    split; [by apply Forall_app|]. destruct r as [v|e].
    + apply commit_ok_inv in Hc as (-> & Hlt & Hver & Hent & Hpend).
      split; [eauto|]. split; [|split; [done|by exists f]].
      apply installed_below; [done|]. destruct (w_installed w); [done|]. destruct Hreg as [<- _]. done.
    + apply commit_err_inv in Hc as ->. done.
Qed.

(** C6: under every interleaving of challenges and refreshes since boot, the
    installed versions strictly increase, and the resident registry is empty
    or exactly the entries the control plane signed, at that version, for a
    nonce this enclave issued, with every id safe and every reserved venue
    held by its owner only. *)
Theorem registry_interleavings w :
  rtc reg_step boot w ->
  StronglySorted (fun a b => b < a) (w_installed w) /\
  Forall (fun e => entry_ok (te_customer_id e) (te_allowed_venues e)) (rg_entries (w_reg w)) /\
  ((rg_entries (w_reg w) = [] /\ rg_version (w_reg w) = 0) \/
   exists f, authorised (w_issued w) f /\ fl_version f = rg_version (w_reg w) /\
             rg_entries (w_reg w) = resident <$> fl_entries f).
Proof.
  intros Hr. assert (world_ok w) as (_ & _ & Hsort & Hreg).
  { revert Hr. generalize boot_ok. generalize boot. induction 2; eauto using reg_step_ok. }
  split; [done|]. destruct (w_installed w) as [|v l].
  - rewrite Hreg. simpl. split; [done|]. by left.
  - destruct Hreg as (Hv & f & Hf & Hfv & Hent). split.
    + rewrite Hent. apply Forall_fmap. destruct Hf as (_ & _ & _ & _ & _ & _ & _ & Hck).
      apply check_entries_ok in Hck. eapply Forall_impl; [exact Hck|]. intros e [He _]. exact He.
    + right. exists f. by rewrite Hv.
Qed.

(** A refresh consumes its nonce: after one succeeds, presenting the same
    nonce again fails with a nonce error until a new challenge is issued. *)
Theorem refresh_nonce_one_shot entries_json nonce_hex version signature_hex st v st' entries2 version2 sig2 :
  refresh entries_json nonce_hex version signature_hex st = (Ok v, st') ->
  refresh entries2 nonce_hex version2 sig2 st' = (Err NoPendingNonce, st') /\
  v = version /\ rg_version st < rg_version st'.
Proof.
  unfold refresh at 1. destruct (refresh_check _ _ _ _ _) as [[nonce entries]|] eqn:Hc; [|done].
  intros Hcommit. pose proof (commit_ok_inv _ _ _ _ _ _ Hcommit) as (-> & Hlt & Hver & _ & _).
  split; [|lia]. pose proof (refresh_check_inv _ _ _ _ _ _ _ Hc) as [Hp _].
  assert (rg_pending st' = None) as Hnone.
  { unfold refresh_commit in Hcommit. destruct (_ <=? _); [done|]. injection Hcommit as <-.
    simpl. rewrite Hp. by rewrite decide_True. }
  unfold refresh, refresh_check in *. rewrite Hnone.
  step_in Hc. rewrite E. simpl. step_in Hc. rewrite E0. done.
Qed.

End Concurrency.

(** A boot-to-install run on concrete input. *)
#[local] Existing Instance demo_crates.
#[local] Existing Instance demo_env.

Definition demo_nonce : string := be_bytes 32 5.
Definition demo_json : string := "[1]".
Definition demo_sig : string :=
  let msg := signed_message demo_nonce 1 (sha256 demo_json) in
  hex_encode (demo_digest (be_bytes 32 0 +:+ msg) +:+ demo_digest msg).
Definition demo_challenged : RegState := snd (challenge demo_nonce registry_empty).
Definition demo_entries : list RefreshEntry :=
  [{| re_token := "tok"; re_customer_id := "cust"; re_allowed_venues := ["binance"]; re_mode := None |}].
Definition demo_world : World :=
  {| w_reg := snd (refresh_commit demo_nonce 1 demo_entries demo_challenged);
     w_inflight := []; w_issued := [demo_nonce]; w_installed := [1] |}.

Lemma demo_run : rtc reg_step boot demo_world.
Proof.
  eapply rtc_l; [apply (step_challenge boot demo_nonce)|].
  eapply rtc_l; [eapply (step_check _ demo_json (hex_encode demo_nonce) 1 demo_sig demo_nonce demo_entries);
    [lia|vm_compute; reflexivity]|].
  eapply rtc_l; [eapply (step_commit _ [] _ [] (Ok 1)); reflexivity|].
  apply rtc_refl.
Qed.

Lemma registry_interleavings_witness :
  rtc reg_step boot demo_world /\ rg_version (w_reg demo_world) = 1 /\
  StronglySorted (fun a b => b < a) (w_installed demo_world).
Proof.
  split; [exact demo_run|]. split; [vm_compute; reflexivity|].
  exact (proj1 (registry_interleavings demo_world demo_run)).
Defined.

Lemma demo_refresh :
  refresh demo_json (hex_encode demo_nonce) 1 demo_sig demo_challenged = (Ok 1, w_reg demo_world).
Proof. vm_compute. reflexivity. Qed.

Lemma refresh_nonce_one_shot_witness :
  fst (refresh demo_json (hex_encode demo_nonce) 2 demo_sig (w_reg demo_world)) = Err NoPendingNonce.
Proof.
  rewrite (proj1 (refresh_nonce_one_shot demo_json (hex_encode demo_nonce) 1 demo_sig demo_challenged 1
    (w_reg demo_world) demo_json 2 demo_sig demo_refresh)).
  reflexivity.
Defined.
