(* ===== verification/Intent.v ===== *)
(** * Agent intents (enclave/src/handler.rs)

    The agent signs the full order or cancel with its own key; the enclave
    rebuilds the signed bytes from the parsed request, verifies them and
    records their digest in the replay ledger.  The theorems show that the
    bytes determine every field, that orders, cancels and policy-authority
    messages never collide, and that an accepted order is field for field one
    the agent signed. *)

From S2P Require Import Prelude RustStr Crates Proto Ledger Registry.

Open Scope string_scope.
Open Scope list_scope.
Open Scope Z_scope.

Definition nul : string := String (ascii_of_nat 0) EmptyString.
Definition AGENT_INTENT_DOMAIN : string := "signer-agent-intent-v1" +:+ nul.
Definition POLICY_AUTHORITY_DOMAIN : string := "signer-policy-authority-v1" +:+ nul.

(** [u32] big-endian length, then the bytes; [u32_be] truncates as the cast
    does. *)
Definition intent_push_lp (buf bytes : string) : string :=
  buf +:+ u32_be (Z.of_nat (String.length bytes)) +:+ bytes.

Definition intent_push_opt (buf : string) (val : option string) : string :=
  match val with
  | None => buf +:+ String (ascii_of_nat 0) EmptyString
  | Some v => intent_push_lp (buf +:+ String (ascii_of_nat 1) EmptyString) v
  end.

Definition policy_authority_message (customer_id venue canonical_policy : string) : string :=
  intent_push_lp (intent_push_lp (intent_push_lp POLICY_AUTHORITY_DOMAIN customer_id) venue) canonical_policy.

Definition u8_from_bool (b : bool) : string :=
  String (ascii_of_nat (if b then 1 else 0)) EmptyString.

Definition build_agent_intent_msg_order (customer_id venue action : string) (timestamp_ms : Z)
    (nonce : string) (order : OrderRequest) : string :=
  let buf := AGENT_INTENT_DOMAIN in
  let buf := intent_push_lp buf customer_id in
  let buf := intent_push_lp buf venue in
  let buf := intent_push_lp buf action in
  let buf := buf +:+ u64_be timestamp_ms in
  let buf := intent_push_lp buf nonce in
  let buf := intent_push_lp buf (o_symbol order) in
  let buf := intent_push_lp buf (o_side order) in
  let buf := intent_push_lp buf (o_qty order) in
  let buf := intent_push_lp buf (o_ord_type order) in
  let buf := intent_push_opt buf (o_price order) in
  buf +:+ u8_from_bool (o_reduce_only order).

Definition build_agent_intent_msg_cancel (customer_id venue action : string) (timestamp_ms : Z)
    (nonce : string) (cancel : CancelRequest) : string :=
  let buf := AGENT_INTENT_DOMAIN in
  let buf := intent_push_lp buf customer_id in
  let buf := intent_push_lp buf venue in
  let buf := intent_push_lp buf action in
  let buf := buf +:+ u64_be timestamp_ms in
  let buf := intent_push_lp buf nonce in
  let buf := intent_push_lp buf (c_symbol cancel) in
  intent_push_lp buf (c_order_id cancel).

Section Verify.
Context `{Crates}.

Definition verify_agent_intent (intent_pubkey_hex : string) (intent_signature_hex : option string)
    (intent_msg : string) (ledger : LedgerState) : result SignResponse () * LedgerState :=
  match decode_array 32 intent_pubkey_hex with
  | None => (Err (resp_err err_code.INTERNAL_ERROR), ledger)
  | Some vk =>
      if negb (ed25519_key_ok vk) then (Err (resp_err err_code.INTERNAL_ERROR), ledger)
      else match intent_signature_hex with
      | None => (Err (resp_err err_code.BAD_REQUEST), ledger)
      | Some sig_hex =>
          match decode_array 64 sig_hex with
          | None => (Err (resp_err err_code.BAD_REQUEST), ledger)
          | Some sig =>
              if negb (ed25519_verify vk intent_msg sig) then (Err (resp_err err_code.BAD_REQUEST), ledger)
              else
                let ledger_key := hex_encode (sha256 intent_msg) in
                let '(is_new, ledger) := record_if_new ledger_key ledger in
                if is_new then (Ok (), ledger) else (Err (resp_err err_code.BAD_REQUEST), ledger)
          end
      end
  end.

Definition enforce_agent_intent_order (policy : option Policy) (identity : ResolvedIdentity)
    (venue action : string) (timestamp_ms : Z) (order : OrderRequest) (req : SignRequest)
    (ledger : LedgerState) : result SignResponse () * LedgerState :=
  match policy ≫= p_intent_pubkey with
  | None => (Ok (), ledger)
  | Some pk =>
      match o_client_order_id order with
      | None => (Err (resp_err err_code.BAD_REQUEST), ledger)
      | Some coid =>
          let intent_msg :=
            build_agent_intent_msg_order (id_customer_id identity) venue action timestamp_ms coid order in
          verify_agent_intent pk (r_intent_signature req) intent_msg ledger
      end
  end.

Definition enforce_agent_intent_cancel (policy : option Policy) (identity : ResolvedIdentity)
    (venue action : string) (timestamp_ms : Z) (cancel : CancelRequest) (req : SignRequest)
    (ledger : LedgerState) : result SignResponse () * LedgerState :=
  match policy ≫= p_intent_pubkey with
  | None => (Ok (), ledger)
  | Some pk =>
      match r_intent_nonce req with
      | None => (Err (resp_err err_code.BAD_REQUEST), ledger)
      | Some nonce =>
          let intent_msg :=
            build_agent_intent_msg_cancel (id_customer_id identity) venue action timestamp_ms nonce cancel in
          verify_agent_intent pk (r_intent_signature req) intent_msg ledger
      end
  end.

End Verify.

(** ** The framing is injective *)

(** Lengths fit the [u32] prefix. *)
Definition fits (s : string) : Prop := Z.of_nat (String.length s) < 2 ^ 32.

Definition lp (s : string) : string := u32_be (Z.of_nat (String.length s)) +:+ s.
Definition lp_opt (o : option string) : string :=
  match o with
  | None => String (ascii_of_nat 0) EmptyString
  | Some v => String (ascii_of_nat 1) EmptyString +:+ lp v
  end.

Lemma push_lp_eq buf s : intent_push_lp buf s = buf +:+ lp s.
Proof. reflexivity. Qed.

Lemma push_opt_eq buf o : intent_push_opt buf o = buf +:+ lp_opt o.
Proof. destruct o; cbn [intent_push_opt lp_opt]; [|done]. by rewrite push_lp_eq, append_assoc. Qed.

Lemma lp_inj a b s t : fits a -> fits b -> lp a +:+ s = lp b +:+ t -> a = b /\ s = t.
Proof.
  unfold lp, fits. rewrite !append_assoc. intros Ha Hb He.
  apply append_inj_length in He as [Hl He]; [|by unfold u32_be, u64_be; rewrite !length_be_bytes].
  apply u32_be_inj in Hl; [|lia..]. apply append_inj_length in He; [done|lia].
Qed.

Definition fits_opt (o : option string) : Prop := match o with Some v => fits v | None => True end.

Lemma lp_opt_inj a b s t : fits_opt a -> fits_opt b -> lp_opt a +:+ s = lp_opt b +:+ t -> a = b /\ s = t.
Proof.
  destruct a as [a|], b as [b|]; cbn [fits_opt lp_opt]; rewrite ?append_assoc; intros Ha Hb He.
  - apply append_inj_prefix in He. by apply lp_inj in He as [-> ->].
  - discriminate He.
  - discriminate He.
  - by apply append_inj_prefix in He.
Qed.

Lemma u64_frame_inj a b s t :
  0 <= a < 2 ^ 64 -> 0 <= b < 2 ^ 64 -> u64_be a +:+ s = u64_be b +:+ t -> a = b /\ s = t.
Proof.
  intros Ha Hb He. apply append_inj_length in He as [Hl He]; [|by unfold u32_be, u64_be; rewrite !length_be_bytes].
  by apply u64_be_inj in Hl.
Qed.

(** Peel one framed field off an equation between messages. *)
Ltac peel H :=
  first [apply lp_inj in H as [? H]; [|done..] | apply u64_frame_inj in H as [? H]; [|done..]
        | apply lp_opt_inj in H as [? H]; [|done..]].

Definition order_fits (cust venue action nonce : string) (ts : Z) (o : OrderRequest) : Prop :=
  fits cust /\ fits venue /\ fits action /\ fits nonce /\ 0 <= ts < 2 ^ 64 /\
  fits (o_symbol o) /\ fits (o_side o) /\ fits (o_qty o) /\ fits (o_ord_type o) /\ fits_opt (o_price o).

Definition cancel_fits (cust venue action nonce : string) (ts : Z) (c : CancelRequest) : Prop :=
  fits cust /\ fits venue /\ fits action /\ fits nonce /\ 0 <= ts < 2 ^ 64 /\
  fits (c_symbol c) /\ fits (c_order_id c).

(** The header every intent starts with. *)
Definition intent_head (cust venue action : string) (ts : Z) (nonce : string) (rest : string) : string :=
  AGENT_INTENT_DOMAIN +:+ lp cust +:+ lp venue +:+ lp action +:+ u64_be ts +:+ lp nonce +:+ rest.

Lemma order_msg_eq cust venue action ts nonce o :
  build_agent_intent_msg_order cust venue action ts nonce o =
  intent_head cust venue action ts nonce
    (lp (o_symbol o) +:+ lp (o_side o) +:+ lp (o_qty o) +:+ lp (o_ord_type o) +:+
     lp_opt (o_price o) +:+ u8_from_bool (o_reduce_only o)).
Proof.
  unfold build_agent_intent_msg_order, intent_head. cbv zeta.
  rewrite push_opt_eq, !push_lp_eq, !append_assoc. done.
Qed.

Lemma cancel_msg_eq cust venue action ts nonce c :
  build_agent_intent_msg_cancel cust venue action ts nonce c =
  intent_head cust venue action ts nonce (lp (c_symbol c) +:+ lp (c_order_id c)).
Proof. unfold build_agent_intent_msg_cancel, intent_head. cbv zeta. rewrite !push_lp_eq, !append_assoc. done. Qed.

Lemma intent_head_inj cust venue action ts nonce rest cust' venue' action' ts' nonce' rest' :
  fits cust -> fits cust' -> fits venue -> fits venue' -> fits action -> fits action' ->
  fits nonce -> fits nonce' -> 0 <= ts < 2 ^ 64 -> 0 <= ts' < 2 ^ 64 ->
  intent_head cust venue action ts nonce rest = intent_head cust' venue' action' ts' nonce' rest' ->
  cust = cust' /\ venue = venue' /\ action = action' /\ ts = ts' /\ nonce = nonce' /\ rest = rest'.
Proof.
  intros. match goal with H : intent_head _ _ _ _ _ _ = _ |- _ => rename H into He end.
  unfold intent_head in He. apply append_inj_prefix in He. do 5 peel He. auto 10.
Qed.

(** The order an intent describes: everything but the client order id, which
    is the nonce. *)
Definition same_order (o o' : OrderRequest) : Prop :=
  o_symbol o = o_symbol o' /\ o_side o = o_side o' /\ o_qty o = o_qty o' /\
  o_ord_type o = o_ord_type o' /\ o_price o = o_price o' /\ o_reduce_only o = o_reduce_only o'.

Lemma order_msg_inj cust venue action ts nonce o cust' venue' action' ts' nonce' o' :
  order_fits cust venue action nonce ts o -> order_fits cust' venue' action' nonce' ts' o' ->
  build_agent_intent_msg_order cust venue action ts nonce o =
  build_agent_intent_msg_order cust' venue' action' ts' nonce' o' ->
  cust = cust' /\ venue = venue' /\ action = action' /\ ts = ts' /\ nonce = nonce' /\ same_order o o'.
Proof.
  unfold order_fits, same_order. intros. destruct_and!. rewrite !order_msg_eq in *.
  match goal with H : intent_head _ _ _ _ _ _ = _ |- _ => rename H into He end.
  apply intent_head_inj in He as (-> & -> & -> & -> & -> & He); [|done..].
  do 5 peel He. destruct (o_reduce_only o), (o_reduce_only o'); try discriminate He; auto 15.
Qed.

Lemma cancel_msg_inj cust venue action ts nonce c cust' venue' action' ts' nonce' c' :
  cancel_fits cust venue action nonce ts c -> cancel_fits cust' venue' action' nonce' ts' c' ->
  build_agent_intent_msg_cancel cust venue action ts nonce c =
  build_agent_intent_msg_cancel cust' venue' action' ts' nonce' c' ->
  cust = cust' /\ venue = venue' /\ action = action' /\ ts = ts' /\ nonce = nonce' /\ c = c'.
Proof.
  unfold cancel_fits. intros. destruct_and!. rewrite !cancel_msg_eq in *.
  match goal with H : intent_head _ _ _ _ _ _ = _ |- _ => rename H into He end.
  apply intent_head_inj in He as (-> & -> & -> & -> & -> & He); [|done..].
  rewrite <- (append_nil_r (lp (c_order_id c))), <- (append_nil_r (lp (c_order_id c'))) in He.
  do 2 peel He. destruct c, c'. simpl in *. subst. auto 10.
Qed.

(** The three kinds of signed message never collide: an order intent
    and a cancel intent for different actions differ, and neither is ever a
    policy-authority message. *)
Theorem intent_domains_disjoint cust venue action ts nonce o cust' venue' action' ts' nonce' c cust'' venue'' pol :
  order_fits cust venue action nonce ts o -> cancel_fits cust' venue' action' nonce' ts' c -> action <> action' ->
  build_agent_intent_msg_order cust venue action ts nonce o
    <> build_agent_intent_msg_cancel cust' venue' action' ts' nonce' c /\
  build_agent_intent_msg_order cust venue action ts nonce o <> policy_authority_message cust'' venue'' pol /\
  build_agent_intent_msg_cancel cust' venue' action' ts' nonce' c <> policy_authority_message cust'' venue'' pol.
Proof.
  unfold order_fits, cancel_fits. intros. destruct_and!. rewrite order_msg_eq, cancel_msg_eq. split; [|split].
  - intros He. by apply intent_head_inj in He as (_ & _ & ? & _); [|done..].
  - unfold intent_head, policy_authority_message. rewrite !push_lp_eq, !append_assoc. by intros [=].
  - unfold intent_head, policy_authority_message. rewrite !push_lp_eq, !append_assoc. by intros [=].
Qed.

Definition demo_order : OrderRequest :=
  {| o_symbol := "BTCUSDT"; o_side := "buy"; o_qty := "0.5"; o_ord_type := "limit"; o_price := Some "100";
     o_reduce_only := false; o_client_order_id := Some "coid-1" |}.
Definition demo_cancel : CancelRequest := {| c_symbol := "BTCUSDT"; c_order_id := "42" |}.

Lemma demo_order_fits : order_fits "cust" "binance" "sign_binance_order" "coid-1" 1700000000000 demo_order.
Proof. repeat split; vm_compute; congruence. Qed.
Lemma demo_cancel_fits : cancel_fits "cust" "binance" "sign_binance_cancel" "n-1" 1700000000000 demo_cancel.
Proof. repeat split; vm_compute; congruence. Qed.

Lemma intent_domains_disjoint_witness :
  order_fits "cust" "binance" "sign_binance_order" "coid-1" 1700000000000 demo_order /\
  build_agent_intent_msg_order "cust" "binance" "sign_binance_order" 1700000000000 "coid-1" demo_order
    <> build_agent_intent_msg_cancel "cust" "binance" "sign_binance_cancel" 1700000000000 "n-1" demo_cancel.
Proof.
  split; [exact demo_order_fits|].
  refine (proj1 (intent_domains_disjoint _ _ _ _ _ _ _ _ _ _ _ _ "" "" "" demo_order_fits demo_cancel_fits _)).
  discriminate.
Defined.

(** ** Accepted intents are the agent's *)

Record OrderIntent := {
  oi_customer : string; oi_venue : string; oi_action : string; oi_ts : Z; oi_nonce : string;
  oi_order : OrderRequest
}.
Record CancelIntent := {
  ci_customer : string; ci_venue : string; ci_action : string; ci_ts : Z; ci_nonce : string;
  ci_cancel : CancelRequest
}.
Definition oi_msg (i : OrderIntent) : string :=
  build_agent_intent_msg_order (oi_customer i) (oi_venue i) (oi_action i) (oi_ts i) (oi_nonce i) (oi_order i).
Definition ci_msg (i : CancelIntent) : string :=
  build_agent_intent_msg_cancel (ci_customer i) (ci_venue i) (ci_action i) (ci_ts i) (ci_nonce i) (ci_cancel i).
Definition oi_fits (i : OrderIntent) : Prop :=
  order_fits (oi_customer i) (oi_venue i) (oi_action i) (oi_nonce i) (oi_ts i) (oi_order i).
Definition ci_fits (i : CancelIntent) : Prop :=
  cancel_fits (ci_customer i) (ci_venue i) (ci_action i) (ci_nonce i) (ci_ts i) (ci_cancel i).

(** Ed25519 is unforgeable for this key: what verifies is what the agent
    signed. *)
Definition agent_signed_only `{Crates} (vk : string) (orders : list OrderIntent) (cancels : list CancelIntent) : Prop :=
  forall msg sig, ed25519_verify vk msg sig = true ->
    (exists i, i ∈ orders /\ msg = oi_msg i) \/ (exists i, i ∈ cancels /\ msg = ci_msg i).

Lemma verify_agent_intent_ok `{Crates} pk sig_hex msg ledger ledger' :
  verify_agent_intent pk sig_hex msg ledger = (Ok (), ledger') ->
  exists vk sig, decode_array 32 pk = Some vk /\ ed25519_verify vk msg sig = true /\
    record_if_new (hex_encode (sha256 msg)) ledger = (true, ledger').
Proof.
  unfold verify_agent_intent. destruct (decode_array 32 pk) as [vk|] eqn:Evk; [|done].
  destruct (ed25519_key_ok vk); [|done]. cbn [negb]. destruct sig_hex as [s|]; [|done].
  destruct (decode_array 64 s) as [sig|]; [|done].
  destruct (ed25519_verify vk msg sig) eqn:Ev; [|done]. cbn [negb].
  destruct (record_if_new _ _) as [[] l'] eqn:Er; [|done]. intros [= <-]. eauto.
Qed.

Lemma verify_agent_intent_err `{Crates} pk sig_hex msg ledger r ledger' :
  verify_agent_intent pk sig_hex msg ledger = (Err r, ledger') -> ledger' = ledger.
Proof.
  unfold verify_agent_intent, record_if_new. intros Hv. repeat case_match; simplify_eq; done.
Qed.

Lemma order_intent_authentic_spec `{Crates} p pk vk orders cancels identity venue action ts order req ledger ledger' :
  p_intent_pubkey p = Some pk -> decode_array 32 pk = Some vk ->
  agent_signed_only vk orders cancels ->
  Forall oi_fits orders -> Forall ci_fits cancels -> Forall (fun i => ci_action i <> action) cancels ->
  order_fits (id_customer_id identity) venue action (default "" (o_client_order_id order)) ts order ->
  enforce_agent_intent_order (Some p) identity venue action ts order req ledger = (Ok (), ledger') ->
  exists coid i, o_client_order_id order = Some coid /\ i ∈ orders /\
    oi_customer i = id_customer_id identity /\ oi_venue i = venue /\ oi_action i = action /\
    oi_ts i = ts /\ oi_nonce i = coid /\ same_order (oi_order i) order /\
    (hex_encode (sha256 (oi_msg i)) ∉ seen ledger) /\ (hex_encode (sha256 (oi_msg i)) ∈ seen ledger').
Proof.
  intros Hpk Hvk Hforge Ho Hc Hca Hfits. unfold enforce_agent_intent_order. cbn [mbind option_bind].
  rewrite Hpk. destruct (o_client_order_id order) as [coid|]; [|done]. cbn [default] in Hfits.
  intros Hv%verify_agent_intent_ok. destruct Hv as (vk' & sig & Hvk' & Hver & Hrec).
  rewrite Hvk in Hvk'. injection Hvk' as <-.
  apply Hforge in Hver as [(i & Hi & Hm)|(i & Hi & Hm)].
  - exists coid, i. rewrite Hm in Hrec. rewrite Forall_forall in Ho. pose proof (Ho i Hi) as Hif.
    pose proof (order_msg_inj _ _ _ _ _ _ _ _ _ _ _ _ Hfits Hif Hm) as (E1 & E2 & E3 & E4 & E5 & Hsame).
    do 7 (split; [by auto|]). split.
    { unfold same_order in *. naive_solver. }
    unfold record_if_new in Hrec. destruct (decide _); [done|]. injection Hrec as <-. simpl. set_solver.
  - exfalso. rewrite Forall_forall in Hc, Hca. specialize (Hc i Hi). specialize (Hca i Hi).
    unfold order_fits, ci_fits, cancel_fits in *. destruct_and!.
    unfold ci_msg in Hm. rewrite order_msg_eq, cancel_msg_eq in Hm.
    by apply intent_head_inj in Hm as (_ & _ & ? & _); [|done..].
Qed.

(** With an intent key in the policy, an order passes only if the agent
    signed exactly that order: same customer, venue, action, timestamp,
    client order id, symbol, side, quantity, type, price and reduce-only flag,
    not seen before and recorded now.  A gateway that edits any field, replays
    an order or substitutes a cancel is refused. *)
Theorem order_intent_authentic `{Crates} p pk vk orders cancels identity venue action ts order req ledger ledger' :
  p_intent_pubkey p = Some pk -> decode_array 32 pk = Some vk ->
  agent_signed_only vk orders cancels ->
  Forall oi_fits orders -> Forall ci_fits cancels -> Forall (fun i => ci_action i <> action) cancels ->
  order_fits (id_customer_id identity) venue action (default "" (o_client_order_id order)) ts order ->
  enforce_agent_intent_order (Some p) identity venue action ts order req ledger = (Ok (), ledger') ->
  exists coid i, o_client_order_id order = Some coid /\ i ∈ orders /\
    oi_customer i = id_customer_id identity /\ oi_venue i = venue /\ oi_action i = action /\
    oi_ts i = ts /\ oi_nonce i = coid /\ same_order (oi_order i) order /\
    (hex_encode (sha256 (oi_msg i)) ∉ seen ledger) /\ (hex_encode (sha256 (oi_msg i)) ∈ seen ledger').
Proof. apply order_intent_authentic_spec. Qed.

Definition demo_intent : OrderIntent :=
  {| oi_customer := "cust"; oi_venue := "binance"; oi_action := "sign_binance_order";
     oi_ts := 1700000000000; oi_nonce := "coid-1"; oi_order := demo_order |}.
Definition demo_agent_key : string := zeros 64.
Definition demo_agent_crates : Crates :=
  demo_with_verify (fun _ msg _ => bool_decide (msg = oi_msg demo_intent)).
Definition demo_policy : Policy :=
  {| p_allowed_actions := None; p_allowed_methods := None; p_allowed_path_prefixes := None;
     p_denied_path_prefixes := None; p_max_requests_per_minute := None; p_label := None;
     p_allowed_asterdex_endpoints := None; p_x402 := None; p_permit2 := None;
     p_order_caps := None; p_allowed_vaults := None; p_hl_order_caps := None;
     p_signer_pubkey := None; p_policy_signature := None; p_policy_authority_sig := None;
     p_intent_pubkey := Some demo_agent_key |}.
Definition empty_request (action : string) : SignRequest :=
  {| r_action := action; r_proto_version := 1; r_opaque_token := None; r_method := None; r_path := None;
     r_body := None; r_timestamp_ms := None; r_key_blob_s3_key := None; r_key_id := None;
     r_aws_credentials := None; r_ciphertext_blob_base64 := None; r_query := None; r_op := None;
     r_payload := None; r_hl_action := None; r_nonce := None; r_vault_address := None; r_x402 := None;
     r_permit2 := None; r_order := None; r_cancel := None; r_data := None; r_registry_refresh := None;
     r_intent_signature := Some (zeros 128); r_intent_nonce := None; r_attestation_nonce := None;
     r_attestation_user_data := None; r_client_nonce := None; r_provision_venue := None;
     r_provision_customer_id := None; r_provision_policy := None |}.
Definition demo_identity : ResolvedIdentity :=
  {| id_customer_id := "cust"; id_allowed_venues := ["binance"]; id_mode := Active |}.

Lemma order_intent_authentic_witness :
  exists coid i, o_client_order_id demo_order = Some coid /\ i ∈ [demo_intent] /\
    same_order (oi_order i) demo_order.
Proof.
  edestruct (@order_intent_authentic demo_agent_crates demo_policy demo_agent_key (be_bytes 32 0)
    [demo_intent] [] demo_identity "binance" "sign_binance_order" 1700000000000 demo_order
    (empty_request "sign_binance_order") ledger_new) as (coid & i & H1 & H2 & _ & _ & _ & _ & _ & H3 & _).
  - reflexivity.
  - vm_compute. reflexivity.
  - intros msg sig Hv. left. exists demo_intent. split; [by left|]. by apply bool_decide_eq_true in Hv.
  - constructor; [apply demo_order_fits|constructor].
  - constructor.
  - constructor.
  - apply demo_order_fits.
  - vm_compute. reflexivity.
  - exists coid, i. auto.
Defined.
