(* ===== verification/PolicyGate.v ===== *)
(** * Policy enforcement (enclave/src/handler.rs)

    The gates a request crosses before any secret is used: the venue map and
    ACL, the tenant mode, the policy co-encrypted with the key, the floor for
    money venues and the policy-authority signature. *)

From S2P Require Import Prelude RustStr Crates Proto Registry Intent.

Open Scope string_scope.
Open Scope list_scope.
Open Scope Z_scope.

Inductive LoadSecretError := LsBadRequest | LsKmsDenied | LsInternal | LsPolicyRequired.

(** ** Venues *)

Definition venue_for_action (action : string) : option string :=
  if str_in action ["sign_binance"; "sign_binance_order"; "sign_binance_cancel"; "sign_binance_request"]
  then Some "binance"
  else if str_in action ["sign_okx"; "sign_okx_order"; "sign_okx_cancel"] then Some "okx"
  else if str_in action ["sign_kucoin"] then Some "kucoin"
  else if str_in action ["sign_bybit"] then Some "bybit"
  else if str_in action ["sign_hyperliquid_main_order"; "sign_hyperliquid_main_cancel"]
  then Some "hyperliquid_main"
  else if str_in action ["sign_hyperliquid_testnet_order"; "sign_hyperliquid_testnet_cancel"]
  then Some "hyperliquid_testnet"
  else if str_in action ["sign_asterdex"] then Some "asterdex"
  else if str_in action ["sign_x402_eip3009"] then Some "x402"
  else if str_in action ["sign_permit2_permit_single"] then Some "permit2"
  else if str_in action ["sign_data"] then Some "data-signing"
  else None.

Definition authorize_venue (identity : ResolvedIdentity) (venue : string) : result LoadSecretError () :=
  if negb (venue_allowed identity venue) then Err LsBadRequest else Ok ().

Definition is_money_venue (venue : string) : bool :=
  str_in venue ["binance"; "binance_futures"; "okx"; "bybit"; "kucoin"; "asterdex";
                "hyperliquid_main"; "hyperliquid_testnet"; "permit2"].

Definition is_hl_venue (venue : string) : bool := str_in venue ["hyperliquid_main"; "hyperliquid_testnet"].

Definition floor_is_unconditional (venue : string) : bool := str_in venue ["hyperliquid_main"].

Definition blob_floor_strict (env_strict : bool) (venue : string) : bool :=
  env_strict || floor_is_unconditional venue.

Definition non_empty {A} (caps : option (list A)) : bool :=
  match caps with Some (_ :: _) => true | _ => false end.

Definition rot3_binding_cap_present (venue : string) (policy : Policy) : bool :=
  if is_hl_venue venue then non_empty (p_hl_order_caps policy) else non_empty (p_order_caps policy).

Definition rot3_uncapped_money_key_rejected (strict : bool) (venue : string) (policy : Policy) : bool :=
  strict && is_money_venue venue && negb (rot3_binding_cap_present venue policy).

(** ** Environment flag *)

Definition TRUTHY_VALUES : list string := ["1"; "true"; "yes"; "on"].
Definition parse_require_policy_env (var : option string) : bool :=
  match var with
  | Some s => existsb (fun v => eq_ignore_ascii_case s v) TRUTHY_VALUES
  | None => false
  end.

(** ** Path prefixes *)

Fixpoint last_byte (s : string) : option ascii :=
  match s with
  | EmptyString => None
  | String c EmptyString => Some c
  | String _ s' => last_byte s'
  end.
Definition boundary_byte (c : ascii) : bool := bool_decide (c = "/"%char) || bool_decide (c = "?"%char).

Definition path_matches_prefix (path prefix : string) : bool :=
  if is_empty prefix then false
  else if negb (starts_with prefix path) then false
  else if match last_byte prefix with Some c => boundary_byte c | None => false end then true
  else match byte_at (String.length prefix) path with
       | None => true
       | Some c => boundary_byte c
       end.

(** ** Policies *)

(** [serde_json::to_vec] on a policy (derived serialiser) and the environment
    variables read at boot. *)
Class PolicyEnv := {
  policy_to_vec : Policy -> option string;
  require_policy_env : option string;
  policy_pubkey_env : option string
}.

Definition policy_required `{PolicyEnv} : bool := parse_require_policy_env require_policy_env.

Definition clear_signatures (p : Policy) : Policy :=
  {| p_allowed_actions := p_allowed_actions p; p_allowed_methods := p_allowed_methods p;
     p_allowed_path_prefixes := p_allowed_path_prefixes p; p_denied_path_prefixes := p_denied_path_prefixes p;
     p_max_requests_per_minute := p_max_requests_per_minute p; p_label := p_label p;
     p_allowed_asterdex_endpoints := p_allowed_asterdex_endpoints p; p_x402 := p_x402 p;
     p_permit2 := p_permit2 p; p_order_caps := p_order_caps p; p_allowed_vaults := p_allowed_vaults p;
     p_hl_order_caps := p_hl_order_caps p; p_signer_pubkey := None; p_policy_signature := None;
     p_policy_authority_sig := None; p_intent_pubkey := p_intent_pubkey p |}.

(** [label.chars().count()]: bytes that are not UTF-8 continuation bytes. *)
Fixpoint char_count (s : string) : nat :=
  match s with
  | EmptyString => 0
  | String c s' => (if in_range 128 191 c then 0 else 1) + char_count s'
  end%nat.

Definition deny_under (policy_hash : option string) (code : string) : SignResponse :=
  with_policy_hash policy_hash (resp_err code).

(** Fail with a response unless the condition holds. *)
Definition require (b : bool) (code : string) : result SignResponse () :=
  if b then Ok () else Err (resp_err code).

Section Gate.
Context `{Crates, PolicyEnv}.

Definition canonical_policy_signable (policy : Policy) : option string :=
  policy_to_vec (clear_signatures policy).

Definition compute_policy_hash (policy : Policy) : option string :=
  bytes ← canonical_policy_signable policy; Some (hex_encode (sha256 bytes)).

(** Rules 1 and 2: the AF-2 shape, the action whitelist and AF-2 on HL. *)
Definition policy_action_rules (p : Policy) (req : SignRequest) : result SignResponse () :=
  _ ← require (negb (bool_decide (is_Some (p_intent_pubkey p)) && negb (bool_decide (is_Some (p_order_caps p)))))
        err_code.POLICY_REQUIRED;
  _ ← match p_allowed_actions p with
      | Some allowed => require (str_in (r_action req) allowed) err_code.ACTION_NOT_ALLOWED
      | None => Ok ()
      end;
  match p_intent_pubkey p, venue_for_action (r_action req) with
  | Some _, Some venue => require (negb (is_hl_venue venue)) err_code.POLICY_REQUIRED
  | _, _ => Ok ()
  end.

(** Methods and paths. *)
Definition policy_path_rules (p : Policy) (req : SignRequest) : result SignResponse () :=
  _ ← match p_allowed_methods p, r_method req with
      | Some allowed, Some method => require (str_in method allowed) err_code.ACTION_NOT_ALLOWED
      | _, _ => Ok ()
      end;
  _ ← match p_allowed_path_prefixes p, r_path req with
      | Some prefixes, Some path =>
          require (existsb (fun prefix => path_matches_prefix path prefix) prefixes) err_code.ACTION_NOT_ALLOWED
      | _, _ => Ok ()
      end;
  match p_denied_path_prefixes p, r_path req with
  | Some prefixes, Some path =>
      require (negb (existsb (fun prefix => starts_with prefix path) prefixes)) err_code.WITHDRAWAL_NOT_SIGNABLE
  | _, _ => Ok ()
  end.

Definition enforce_policy_inner (policy : option Policy) (req : SignRequest)
    : result SignResponse (option string) :=
  match policy with
  | None => Ok None
  | Some p =>
      _ ← policy_action_rules p req;
      _ ← policy_path_rules p req;
      _ ← match p_label p with
          | Some label => require (char_count label <=? 128)%nat err_code.POLICY_DENIED
          | None => Ok ()
          end;
      _ ← require (negb (bool_decide (is_Some (p_max_requests_per_minute p)))) err_code.UNIMPLEMENTED_POLICY_FIELD;
      hash ← ok_or (compute_policy_hash p) (resp_err err_code.INTERNAL_ERROR);
      Ok (Some hash)
  end.

Definition enforce_policy (policy : option Policy) (req : SignRequest)
    : result SignResponse (option string) :=
  match enforce_policy_inner policy req with
  | Ok h => Ok h
  | Err resp =>
      match policy ≫= compute_policy_hash with
      | Some h => Err (with_policy_hash (Some h) resp)
      | None => Err resp
      end
  end.

(** *** The policy authority *)

Definition parse_policy_authority_vk : result string string :=
  hex_str ← ok_or (s ← policy_pubkey_env; if is_empty s then None else Some s) "unset";
  bytes ← ok_or (decode_array 32 hex_str) "malformed";
  if ed25519_key_ok bytes then Ok bytes else Err "malformed".

Definition map_policy_authority_key_err (tag : string) : LoadSecretError :=
  if decide (tag = "unset") then LsPolicyRequired else LsInternal.

Definition policy_authority_vk : result LoadSecretError string :=
  map_err map_policy_authority_key_err parse_policy_authority_vk.

Definition verify_policy_authority (policy : Policy) (customer_id venue : string)
    : result LoadSecretError () :=
  vk ← policy_authority_vk;
  sig_hex ← ok_or (p_policy_authority_sig policy) LsPolicyRequired;
  sig ← ok_or (decode_array 64 sig_hex) LsBadRequest;
  canonical ← ok_or (canonical_policy_signable policy) LsInternal;
  let msg := policy_authority_message customer_id venue canonical in
  if ed25519_verify vk msg sig then Ok () else Err LsBadRequest.

End Gate.

(** ** Tenant mode *)

Definition tenant_mode_gate (identity : ResolvedIdentity) (req : SignRequest) : result SignResponse () :=
  let action := r_action req in
  match id_mode identity with
  | Active => Ok ()
  | Halted =>
      require (bool_decide (action = "verify_blob") || bool_decide (action = "receipt_heartbeat"))
        err_code.MODE_HALTED
  | CancelOnly =>
      let method := match r_method req with Some m => to_ascii_uppercase (trim m) | None => "" end in
      let allowed :=
        bool_decide (action = "verify_blob") || bool_decide (action = "receipt_heartbeat") ||
        ends_with "_cancel" action ||
        (bool_decide (action = "sign_binance_request") &&
         negb (bool_decide (trim <$> r_op req = Some "order"))) ||
        (str_in action ["sign_kucoin"; "sign_binance"; "sign_bybit"; "sign_okx"; "sign_asterdex"] &&
         str_in method ["GET"; "DELETE"]) in
      require allowed err_code.MODE_CANCEL_ONLY
  end.

(** ** Prefix matching *)

(** [prefix] covers [path] up to a path boundary. *)
Definition covers (prefix path : string) : Prop :=
  prefix <> "" /\ exists rest, path = prefix +:+ rest /\
  ((exists init c, prefix = init +:+ String c "" /\ boundary_byte c = true) \/
   rest = "" \/ exists c rest', rest = String c rest' /\ boundary_byte c = true).

Lemma last_byte_spec s c : last_byte s = Some c <-> exists init, s = init +:+ String c "".
Proof.
  split.
  - induction s as [|d s IH]; [done|]. destruct s as [|e s]; cbn [last_byte].
    + intros [= ->]. by exists "".
    + intros Hl. destruct (IH Hl) as [init ->]. by exists (String d init).
  - intros [init ->]. induction init as [|d init IH]; [done|].
    cbn [String.append]. destruct (init +:+ String c "") eqn:E; [by destruct init|]. cbn [last_byte]. done.
Qed.

Lemma get_append s t n : String.get (String.length s + n) (s +:+ t) = String.get n t.
Proof. induction s; [done|]. exact IHs. Qed.

Lemma path_matches_prefix_spec path prefix : path_matches_prefix path prefix = true <-> covers prefix path.
Proof.
  unfold path_matches_prefix, covers. destruct prefix as [|p0 ps]; [split; [done|by intros []]|].
  cbn [is_empty]. set (prefix := String p0 ps). destruct (starts_with prefix path) eqn:Es; cbn [negb].
  2:{ split; [done|]. intros (_ & rest & -> & _). rewrite (proj2 (starts_with_spec _ _)) in Es; eauto. }
  apply starts_with_spec in Es as [rest ->]. unfold byte_at. rewrite <- (Nat.add_0_r (String.length prefix)), get_append.
  split.
  - intros Hm. split; [done|]. exists rest. split; [done|].
    destruct (last_byte prefix) as [c|] eqn:El.
    + destruct (boundary_byte c) eqn:Eb.
      * left. apply last_byte_spec in El as [init El]. eauto.
      * right. destruct rest as [|d rest]; [by left|]. right. eauto.
    + right. destruct rest as [|d rest]; [by left|]. right. eauto.
  - intros (_ & rest' & Heq & Hcase). apply append_inj_prefix in Heq as <-.
    destruct Hcase as [(init & c & Hp & Hb)|[->|(c & rest' & -> & Hb)]].
    + rewrite (proj2 (last_byte_spec prefix c)) by eauto. by rewrite Hb.
    + destruct (last_byte prefix) as [c|]; [destruct (boundary_byte c)|]; done.
    + cbn [String.get]. rewrite Hb. destruct (last_byte prefix) as [d|]; [destruct (boundary_byte d)|]; done.
Qed.

(** ** What a policy permits *)

Record permits (p : Policy) (req : SignRequest) : Prop := {
  pm_intent : is_Some (p_intent_pubkey p) -> is_Some (p_order_caps p);
  pm_action : forall l, p_allowed_actions p = Some l -> r_action req ∈ l;
  pm_intent_hl : is_Some (p_intent_pubkey p) ->
    forall v, venue_for_action (r_action req) = Some v -> is_hl_venue v = false;
  pm_method : forall l m, p_allowed_methods p = Some l -> r_method req = Some m -> m ∈ l;
  pm_allowed : forall l path, p_allowed_path_prefixes p = Some l -> r_path req = Some path ->
    Exists (fun x => covers x path) l;
  pm_denied : forall l path, p_denied_path_prefixes p = Some l -> r_path req = Some path ->
    Forall (fun x => forall rest, path <> x +:+ rest) l;
  pm_label : forall l, p_label p = Some l -> (char_count l <= 128)%nat;
  pm_rpm : p_max_requests_per_minute p = None
}.

Definition refusal (r : SignResponse) : Prop := exists code, r = resp_err code.

Lemma require_cases b code :
  match require b code with Ok () => b = true | Err r => b = false /\ r = resp_err code end.
Proof. by destruct b. Qed.

Lemma deny_list_spec path l :
  negb (existsb (fun prefix => starts_with prefix path) l) = true <->
  Forall (fun x => forall rest, path <> x +:+ rest) l.
Proof.
  rewrite negb_true_iff. induction l as [|x l IH]; [done|]. cbn [existsb]. rewrite orb_false_iff, IH, Forall_cons.
  assert (starts_with x path = false <-> forall rest, path <> x +:+ rest) as ->; [|done].
  rewrite <- not_true_iff_false, starts_with_spec. naive_solver.
Qed.

Lemma allow_list_spec path l :
  existsb (fun prefix => path_matches_prefix path prefix) l = true <-> Exists (fun x => covers x path) l.
Proof.
  rewrite existsb_Exists. split; intros Hx; (eapply Exists_impl; [exact Hx|]); intros x; apply path_matches_prefix_spec.
Qed.

Lemma policy_action_rules_spec p req :
  match policy_action_rules p req with
  | Ok _ => (is_Some (p_intent_pubkey p) -> is_Some (p_order_caps p)) /\
            (forall l, p_allowed_actions p = Some l -> r_action req ∈ l) /\
            (is_Some (p_intent_pubkey p) -> forall v, venue_for_action (r_action req) = Some v -> is_hl_venue v = false)
  | Err r => ~ permits p req /\ refusal r
  end.
Proof.
  unfold policy_action_rules, require.
  destruct (p_intent_pubkey p) as [pk|] eqn:Ei, (p_order_caps p) as [oc|] eqn:Eo; simpl.
  2:{ split; [|eexists; done]. intros [Hp _ _ _ _ _ _ _]. rewrite Ei, Eo in Hp. destruct Hp; [done|]. done. }
  all: destruct (p_allowed_actions p) as [l|] eqn:Ea; simpl;
    [destruct (str_in (r_action req) l) eqn:Es; simpl;
      [apply str_in_spec in Es|split; [|eexists; done]; intros [_ Hp _ _ _ _ _ _];
        apply Hp, str_in_spec in Ea; congruence]|].
  all: try (destruct (venue_for_action (r_action req)) as [v|] eqn:Ev; simpl;
    [destruct (is_hl_venue v) eqn:Eh; simpl;
      [split; [|eexists; done]; intros [_ _ Hp _ _ _ _ _]; rewrite Ei in Hp;
       specialize (Hp ltac:(done) v Ev); congruence|]|]).
  all: naive_solver.
Qed.

Lemma policy_path_rules_spec p req :
  match policy_path_rules p req with
  | Ok _ => (forall l m, p_allowed_methods p = Some l -> r_method req = Some m -> m ∈ l) /\
            (forall l path, p_allowed_path_prefixes p = Some l -> r_path req = Some path ->
               Exists (fun x => covers x path) l) /\
            (forall l path, p_denied_path_prefixes p = Some l -> r_path req = Some path ->
               Forall (fun x => forall rest, path <> x +:+ rest) l)
  | Err r => ~ permits p req /\ refusal r
  end.
Proof.
  unfold policy_path_rules.
  assert (forall b code (Q : Prop), (b = true <-> Q) ->
    match require b code with Ok _ => Q | Err r => ~ Q /\ refusal r end) as Hreq.
  { intros b code Q HQ. destruct b; simpl; [tauto|]. split; [|by eexists]. rewrite <- HQ. done. }
  assert (match (match p_allowed_methods p, r_method req with
      | Some allowed, Some method => require (str_in method allowed) err_code.ACTION_NOT_ALLOWED
      | _, _ => Ok () end) with
    | Ok _ => forall l m, p_allowed_methods p = Some l -> r_method req = Some m -> m ∈ l
    | Err r => ~ permits p req /\ refusal r end) as H1.
  { destruct (p_allowed_methods p) as [l|] eqn:E1, (r_method req) as [m|] eqn:E2; try naive_solver.
    pose proof (Hreq _ err_code.ACTION_NOT_ALLOWED _ (str_in_spec m l)) as Hr.
    destruct (require _ _); [naive_solver|]. split; [|apply Hr]. intros Hp. by apply Hr, (pm_method _ _ Hp). }
  assert (match (match p_allowed_path_prefixes p, r_path req with
      | Some prefixes, Some path =>
          require (existsb (fun prefix => path_matches_prefix path prefix) prefixes) err_code.ACTION_NOT_ALLOWED
      | _, _ => Ok () end) with
    | Ok _ => forall l path, p_allowed_path_prefixes p = Some l -> r_path req = Some path ->
               Exists (fun x => covers x path) l
    | Err r => ~ permits p req /\ refusal r end) as H2.
  { destruct (p_allowed_path_prefixes p) as [l|] eqn:E1, (r_path req) as [m|] eqn:E2; try naive_solver.
    pose proof (Hreq _ err_code.ACTION_NOT_ALLOWED _ (allow_list_spec m l)) as Hr.
    destruct (require _ _); [naive_solver|]. split; [|apply Hr]. intros Hp. by apply Hr, (pm_allowed _ _ Hp). }
  assert (match (match p_denied_path_prefixes p, r_path req with
      | Some prefixes, Some path =>
          require (negb (existsb (fun prefix => starts_with prefix path) prefixes)) err_code.WITHDRAWAL_NOT_SIGNABLE
      | _, _ => Ok () end) with
    | Ok _ => forall l path, p_denied_path_prefixes p = Some l -> r_path req = Some path ->
               Forall (fun x => forall rest, path <> x +:+ rest) l
    | Err r => ~ permits p req /\ refusal r end) as H3.
  { destruct (p_denied_path_prefixes p) as [l|] eqn:E1, (r_path req) as [m|] eqn:E2; try naive_solver.
    pose proof (Hreq _ err_code.WITHDRAWAL_NOT_SIGNABLE _ (deny_list_spec m l)) as Hr.
    destruct (require _ _); [naive_solver|]. split; [|apply Hr]. intros Hp. by apply Hr, (pm_denied _ _ Hp). }
  destruct (match p_allowed_methods p with Some _ => _ | None => _ end) as [u1|]; [|done]. cbn [mbind result_bind].
  destruct (match p_allowed_path_prefixes p with Some _ => _ | None => _ end) as [u2|]; [|done]. cbn [mbind result_bind].
  destruct (match p_denied_path_prefixes p with Some _ => _ | None => _ end) as [u3|]; done.
Qed.

Lemma enforce_policy_inner_spec `{Crates, PolicyEnv} p req h :
  compute_policy_hash p = Some h ->
  match enforce_policy_inner (Some p) req with
  | Ok h' => h' = Some h /\ permits p req
  | Err r => ~ permits p req /\ refusal r
  end.
Proof.
  intros Hh. unfold enforce_policy_inner.
  pose proof (policy_action_rules_spec p req) as HA. destruct (policy_action_rules p req); [|done]. cbn [mbind result_bind].
  pose proof (policy_path_rules_spec p req) as HP. destruct (policy_path_rules p req); [|done]. cbn [mbind result_bind].
  destruct HA as (HA1 & HA2 & HA3), HP as (HP1 & HP2 & HP3).
  destruct (p_label p) as [l|] eqn:El.
  - unfold require. destruct (char_count l <=? 128)%nat eqn:Ec; simpl.
    2:{ split; [|by eexists]. intros Hp. apply (pm_label _ _ Hp) in El. apply Nat.leb_gt in Ec. lia. }
    apply Nat.leb_le in Ec. destruct (p_max_requests_per_minute p) eqn:Er; simpl.
    { split; [|by eexists]. intros Hp. rewrite (pm_rpm _ _ Hp) in Er. done. }
    rewrite Hh. simpl. split; [done|]. split; try done. intros l' Hl'. rewrite El in Hl'. by injection Hl' as <-.
  - destruct (p_max_requests_per_minute p) eqn:Er; simpl.
    { split; [|by eexists]. intros Hp. rewrite (pm_rpm _ _ Hp) in Er. done. }
    rewrite Hh. simpl. split; [done|]. split; try done. congruence.
Qed.

Lemma enforce_policy_exact_spec `{Crates, PolicyEnv} p req h :
  compute_policy_hash p = Some h ->
  match enforce_policy (Some p) req with
  | Ok h' => h' = Some h /\ permits p req
  | Err r => ~ permits p req /\ exists code, r = with_policy_hash (Some h) (resp_err code)
  end.
Proof.
  intros Hh. pose proof (enforce_policy_inner_spec p req h Hh) as Hs. unfold enforce_policy.
  destruct (enforce_policy_inner (Some p) req); [done|]. cbn [mbind option_bind]. rewrite Hh.
  destruct Hs as [? [code ->]]. eauto.
Qed.

(** C10: the policy gate grants exactly the requests the policy permits, and
    both outcomes name the policy by its hash; a refusal never carries a
    signature or headers. *)
Theorem enforce_policy_exact `{Crates, PolicyEnv} p req h :
  compute_policy_hash p = Some h ->
  match enforce_policy (Some p) req with
  | Ok h' => h' = Some h /\ permits p req
  | Err r => ~ permits p req /\ exists code, r = with_policy_hash (Some h) (resp_err code)
  end.
Proof. apply enforce_policy_exact_spec. Qed.

#[local] Existing Instance demo_crates.
Definition demo_policy_env : PolicyEnv :=
  {| policy_to_vec p := Some "{}"; require_policy_env := Some "1"; policy_pubkey_env := Some (zeros 64) |}.
#[local] Existing Instance demo_policy_env.

Definition demo_hash : string := Eval vm_compute in default "" (compute_policy_hash default_policy).

Lemma enforce_policy_exact_witness :
  enforce_policy (Some default_policy) (empty_request "sign_binance") = Ok (Some demo_hash) /\
  permits default_policy (empty_request "sign_binance").
Proof.
  assert (compute_policy_hash default_policy = Some demo_hash) as Hh by (vm_compute; reflexivity).
  assert (enforce_policy (Some default_policy) (empty_request "sign_binance") = Ok (Some demo_hash)) as Hok
    by (vm_compute; reflexivity).
  pose proof (enforce_policy_exact default_policy (empty_request "sign_binance") demo_hash Hh) as Hx.
  rewrite Hok in Hx. split; [exact Hok|apply Hx].
Defined.

(** ** The policy authority *)

Lemma authority_msg_inj c v p c' v' p' :
  fits c -> fits c' -> fits v -> fits v' -> fits p -> fits p' ->
  policy_authority_message c v p = policy_authority_message c' v' p' -> c = c' /\ v = v' /\ p = p'.
Proof.
  intros. match goal with H : policy_authority_message _ _ _ = _ |- _ => rename H into He end.
  unfold policy_authority_message in He. rewrite !push_lp_eq, !append_assoc in He.
  apply append_inj_prefix in He. apply lp_inj in He as [-> He]; [|done..]. apply lp_inj in He as [-> He]; [|done..].
  rewrite <- (append_nil_r (lp p)), <- (append_nil_r (lp p')) in He. by apply lp_inj in He as [-> _].
Qed.

(** A policy passes the authority gate only if the authority signed its
    canonical bytes for exactly this customer and this venue: a policy signed
    for one tenant never loads under another, nor an edited policy at all. *)
Theorem policy_authority_bound `{Crates, PolicyEnv} vk (signed : list (string * string * string)) p customer venue canonical :
  policy_authority_vk = Ok vk ->
  (forall msg sig, ed25519_verify vk msg sig = true ->
     exists c v b, (c, v, b) ∈ signed /\ msg = policy_authority_message c v b) ->
  Forall (fun x => fits (fst (fst x)) /\ fits (snd (fst x)) /\ fits (snd x)) signed ->
  canonical_policy_signable p = Some canonical -> fits customer -> fits venue -> fits canonical ->
  verify_policy_authority p customer venue = Ok () ->
  (customer, venue, canonical) ∈ signed.
Proof.
  intros Hvk Hforge Hfit Hcan Hc Hv Hb. unfold verify_policy_authority. rewrite Hvk, Hcan. simpl.
  destruct (p_policy_authority_sig p) as [s|]; [|done]. simpl. destruct (decode_array 64 s) as [sig|]; [|done]. simpl.
  destruct (ed25519_verify vk _ sig) eqn:E; [|done]. intros _.
  apply Hforge in E as (c & v & b & Hin & Hm). rewrite Forall_forall in Hfit.
  destruct (Hfit _ Hin) as (F1 & F2 & F3). by apply authority_msg_inj in Hm as (-> & -> & ->).
Qed.

Definition demo_authority_crates : Crates :=
  demo_with_verify (fun _ msg _ => bool_decide (msg = policy_authority_message "cust" "okx" "{}")).
Definition demo_signed_policy : Policy :=
  {| p_allowed_actions := None; p_allowed_methods := None; p_allowed_path_prefixes := None;
     p_denied_path_prefixes := None; p_max_requests_per_minute := None; p_label := None;
     p_allowed_asterdex_endpoints := None; p_x402 := None; p_permit2 := None;
     p_order_caps := None; p_allowed_vaults := None; p_hl_order_caps := None;
     p_signer_pubkey := None; p_policy_signature := None; p_policy_authority_sig := Some (zeros 128);
     p_intent_pubkey := None |}.

Lemma policy_authority_bound_witness : ("cust", "okx", "{}") ∈ [("cust", "okx", "{}")].
Proof.
  apply (@policy_authority_bound demo_authority_crates demo_policy_env (be_bytes 32 0)
    [("cust", "okx", "{}")] demo_signed_policy "cust" "okx" "{}").
  - vm_compute. reflexivity.
  - intros msg sig Hm. exists "cust", "okx", "{}". split; [by left|]. by apply bool_decide_eq_true in Hm.
  - constructor; [|constructor]. repeat split; vm_compute; congruence.
  - reflexivity.
  - vm_compute; congruence.
  - vm_compute; congruence.
  - vm_compute; congruence.
  - vm_compute. reflexivity.
Defined.

(** ** Tenant modes *)

(** Every action that opens exposure or moves funds by its own name. *)
Definition exposure_actions : list string :=
  ["sign_binance_order"; "sign_okx_order"; "sign_hyperliquid_main_order"; "sign_hyperliquid_testnet_order";
   "sign_x402_eip3009"; "sign_permit2_permit_single"].

Lemma ends_with_cancel_orders : Forall (fun a => ends_with "_cancel" a = false) exposure_actions.
Proof. by repeat constructor. Qed.

(** A halted tenant gets nothing but the two audit actions, and a
    cancel-only tenant can neither place a structured order on any venue, nor
    sign a transfer or an allowance, nor place an order through the
    parameterised Binance request, whatever the rest of the request says. *)
Theorem tenant_mode_blocks_exposure identity req :
  match id_mode identity with
  | Active => tenant_mode_gate identity req = Ok ()
  | Halted => (tenant_mode_gate identity req = Ok () <-> r_action req ∈ ["verify_blob"; "receipt_heartbeat"])
  | CancelOnly =>
      (r_action req ∈ exposure_actions \/
       (r_action req = "sign_binance_request" /\ trim <$> r_op req = Some "order")) ->
      tenant_mode_gate identity req = Err (resp_err err_code.MODE_CANCEL_ONLY)
  end.
Proof.
  unfold tenant_mode_gate. destruct (id_mode identity); [done| |].
  - intros [Hin|[-> Hop]].
    + pose proof ends_with_cancel_orders as Hc. rewrite Forall_forall in Hc. specialize (Hc _ Hin).
      rewrite Hc. unfold exposure_actions in Hin. repeat (apply elem_of_cons in Hin as [->|Hin]; [reflexivity|]).
      by apply elem_of_nil in Hin.
    + rewrite Hop. reflexivity.
  - unfold require. rewrite !elem_of_cons, elem_of_nil. destruct (bool_decide (r_action req = "verify_blob")) eqn:E1.
    { apply bool_decide_eq_true in E1. simpl. tauto. }
    destruct (bool_decide (r_action req = "receipt_heartbeat")) eqn:E2; simpl.
    { apply bool_decide_eq_true in E2. tauto. }
    apply bool_decide_eq_false in E1, E2. split; [done|]. tauto.
Qed.

(** ** The cap floor *)

(** A policy that caps Permit2 allowances completely, in the only clause that
    governs them. *)
Definition permit2_clause : Permit2Policy :=
  {| pp_chain_id := Some 1; pp_verifying_contract := Some "0x000000000022d473030f116ddee9f6b43ac78ba3";
     pp_allowed_tokens := Some ["0x01"]; pp_allowed_spenders := Some ["0x02"]; pp_max_amount := Some "1";
     pp_max_expiration := Some 1 |}.
Definition with_caps (x : option Permit2Policy) (oc : option (list OrderAssetCap)) : Policy :=
  {| p_allowed_actions := None; p_allowed_methods := None; p_allowed_path_prefixes := None;
     p_denied_path_prefixes := None; p_max_requests_per_minute := None; p_label := None;
     p_allowed_asterdex_endpoints := None; p_x402 := None; p_permit2 := x; p_order_caps := oc;
     p_allowed_vaults := None; p_hl_order_caps := None; p_signer_pubkey := None; p_policy_signature := None;
     p_policy_authority_sig := None; p_intent_pubkey := None |}.

(** The floor looks for [order_caps] on the Permit2 venue, where they bind
    nothing: under the strict regime a fully capped Permit2 policy is refused
    as uncapped, and a policy without any Permit2 clause but with a spot
    symbol cap is let through. *)
Theorem permit2_floor_reads_wrong_caps oc :
  rot3_uncapped_money_key_rejected true "permit2" (with_caps (Some permit2_clause) None) = true /\
  rot3_uncapped_money_key_rejected true "permit2" (with_caps None (Some [oc])) = false.
Proof. by split. Qed.

(** On Hyperliquid mainnet the floor holds on every build: whatever the
    environment says, a policy without a Hyperliquid cap is rejected, and
    symbol caps do not help. *)
Theorem hl_mainnet_floor env p :
  rot3_uncapped_money_key_rejected (blob_floor_strict env "hyperliquid_main") "hyperliquid_main" p
  = negb (non_empty (p_hl_order_caps p)).
Proof. unfold blob_floor_strict. by rewrite orb_true_r. Qed.
