(* ===== verification/Caps.v ===== *)
(** * Spend and order caps (enclave/src/handler.rs)

    The gates that bound what a granted request may move: per-symbol order
    caps, the Hyperliquid per-asset caps with their aggregate pass, and the
    mandatory x402 clause. *)

From Stdlib Require Import QArith.
From S2P Require Import Prelude RustStr Crates Decimal Evm Proto PolicyGate.

Open Scope string_scope.
Open Scope list_scope.
Open Scope Z_scope.

Definition deny {A} (code : string) : result SignResponse A := Err (resp_err code).

(** ** Structured orders *)

Definition find_cap (caps : list OrderAssetCap) (symbol : string) : option OrderAssetCap :=
  List.find (fun c => bool_decide (oc_symbol c = symbol)) caps.

(** The quantity check with its blame attribution. *)
Definition check_max_qty (q max_qty : string) : result SignResponse () :=
  match cmp_positive_decimals q max_qty with
  | Ok Gt => deny err_code.SIZE_OVER_CAP
  | Ok _ => Ok ()
  | Err _ =>
      if negb (is_ok (cmp_positive_decimals max_qty max_qty)) then deny err_code.INTERNAL_ERROR
      else deny err_code.BAD_REQUEST
  end.

Definition check_max_notional (q : string) (price : option string) (max_notional : string)
    : result SignResponse () :=
  match price with
  | None => deny err_code.NOTIONAL_OVER_CAP
  | Some px =>
      match notional_exceeds q px max_notional with
      | Ok true => deny err_code.NOTIONAL_OVER_CAP
      | Ok false => Ok ()
      | Err _ =>
          if negb (is_ok (notional_exceeds "1" "1" max_notional)) then deny err_code.INTERNAL_ERROR
          else deny err_code.BAD_REQUEST
      end
  end.

Definition enforce_order_cap (policy : option Policy) (symbol : string) (qty price : option string)
    : result SignResponse () :=
  match policy ≫= p_order_caps with
  | None => Ok ()
  | Some caps =>
      match find_cap caps symbol with
      | None => deny err_code.POLICY_DENIED
      | Some entry =>
          match qty with
          | None => Ok ()
          | Some q =>
              _ ← check_max_qty q (oc_max_qty entry);
              match oc_max_notional entry with
              | None => Ok ()
              | Some max_notional => check_max_notional q price max_notional
              end
          end
      end
  end.

(** ** x402 transfers *)

Section X402.
Context `{Crates}.

(** The allow-list scan: (some entry matches, some entry is malformed). *)
Fixpoint scan_addresses (target : string) (entries : list string) (ok malformed : bool) : bool * bool :=
  match entries with
  | [] => (ok, malformed)
  | e :: rest =>
      match parse_evm_address e with
      | Ok a => scan_addresses target rest (if decide (a = target) then true else ok) malformed
      | Err _ => scan_addresses target rest ok true
      end
  end.

Definition le_be (a b : list Z) : bool := match lex_cmp a b with Gt => false | _ => true end.

Definition enforce_x402_cap (policy : option Policy) (req_chain_id : Z) (token_address to : string)
    (value : list Z) : result SignResponse () :=
  p ← ok_or policy (resp_err err_code.POLICY_REQUIRED);
  cap ← ok_or (p_x402 p) (resp_err err_code.POLICY_REQUIRED);
  cid ← ok_or (xp_chain_id cap) (resp_err err_code.POLICY_REQUIRED);
  _ ← (if cid =? req_chain_id then Ok () else deny err_code.POLICY_DENIED);
  tok ← ok_or (xp_token_address cap) (resp_err err_code.POLICY_REQUIRED);
  _ ← match parse_evm_address tok with
      | Ok allowed => if decide (allowed = token_address) then Ok () else deny err_code.POLICY_DENIED
      | Err _ => deny err_code.POLICY_DENIED
      end;
  max ← ok_or (xp_max_value cap) (resp_err err_code.POLICY_REQUIRED);
  _ ← match parse_u256_be_decimal max with
      | Ok max_bytes => if le_be value max_bytes then Ok () else deny err_code.POLICY_DENIED
      | Err _ => deny err_code.POLICY_DENIED
      end;
  recipients ← ok_or (xp_allowed_recipients cap) (resp_err err_code.POLICY_REQUIRED);
  let '(recipient_ok, malformed) := scan_addresses to recipients false false in
  if (malformed : bool) then deny err_code.POLICY_DENIED
  else if negb recipient_ok then deny err_code.POLICY_DENIED
  else Ok ().

End X402.

(** ** Hyperliquid *)

Record AssetTotal := {
  at_asset : Z;
  at_cap : HlOrderCap;
  at_sizes : list string;
  at_notionals : list (string * string)
}.

Definition find_hl_cap (caps : list HlOrderCap) (asset : Z) : option HlOrderCap :=
  List.find (fun c => hc_asset c =? asset) caps.

(** The vault allow-list: only an explicit vault is constrained. *)
Definition check_vault `{Crates} (p : Policy) (vault : option string) : result SignResponse () :=
  match p_allowed_vaults p, vault with
  | Some allowed, Some v =>
      let '(ok, malformed) := scan_addresses v allowed false false in
      if (malformed : bool) then deny err_code.POLICY_DENIED
      else if negb ok then deny err_code.POLICY_DENIED
      else Ok ()
  | _, _ => Ok ()
  end.

Definition check_hl_size (size max_size : string) : result SignResponse () :=
  match cmp_positive_decimals size max_size with
  | Ok Gt => deny err_code.POLICY_DENIED
  | Ok _ => Ok ()
  | Err _ =>
      if negb (is_ok (cmp_positive_decimals max_size max_size)) then deny err_code.INTERNAL_ERROR
      else deny err_code.BAD_REQUEST
  end.

(** The notional check of one order: its (size, price) pair under a notional
    cap, nothing otherwise. *)
Definition check_hl_notional (order : json) (size : string) (max_notional : option string)
    : result SignResponse (option (string * string)) :=
  match max_notional with
  | None => Ok None
  | Some mn =>
      match jget "t" order ≫= jget "limit" with
      | None => deny err_code.POLICY_DENIED
      | Some _ =>
          match jget "p" order ≫= as_str with
          | None => deny err_code.BAD_REQUEST
          | Some px =>
              match notional_exceeds size px mn with
              | Ok true => deny err_code.POLICY_DENIED
              | Ok false => Ok (Some (size, px))
              | Err _ =>
                  if negb (is_ok (notional_exceeds "1" "1" mn)) then deny err_code.INTERNAL_ERROR
                  else deny err_code.BAD_REQUEST
              end
          end
      end
  end.

(** Everything the loop checks on one order: its asset, cap, size and pair. *)
Definition check_hl_order (caps : list HlOrderCap) (order : json)
    : result SignResponse (Z * HlOrderCap * string * option (string * string)) :=
  asset ← ok_or (jget "a" order ≫= as_u64) (resp_err err_code.BAD_REQUEST);
  size ← ok_or (jget "s" order ≫= as_str) (resp_err err_code.BAD_REQUEST);
  cap ← ok_or (find_hl_cap caps asset) (resp_err err_code.POLICY_DENIED);
  _ ← check_hl_size size (hc_max_size cap);
  npair ← check_hl_notional order size (hc_max_notional cap);
  Ok (asset, cap, size, npair).

Definition pair_list (npair : option (string * string)) : list (string * string) :=
  match npair with Some p => [p] | None => [] end.

(** Append to the asset's running total, or open one. *)
Fixpoint accumulate (asset : Z) (cap : HlOrderCap) (size : string) (npair : option (string * string))
    (totals : list AssetTotal) : list AssetTotal :=
  match totals with
  | [] => [{| at_asset := asset; at_cap := cap; at_sizes := [size]; at_notionals := pair_list npair |}]
  | t :: rest =>
      if at_asset t =? asset then
        {| at_asset := at_asset t; at_cap := at_cap t; at_sizes := at_sizes t ++ [size];
           at_notionals := at_notionals t ++ pair_list npair |} :: rest
      else t :: accumulate asset cap size npair rest
  end.

Fixpoint hl_order_loop (caps : list HlOrderCap) (orders : list json) (totals : list AssetTotal)
    : result SignResponse (list AssetTotal) :=
  match orders with
  | [] => Ok totals
  | order :: rest =>
      '(asset, cap, size, npair) ← check_hl_order caps order;
      hl_order_loop caps rest (accumulate asset cap size npair totals)
  end.

(** The aggregate pass over one asset. *)
Definition check_total_size (t : AssetTotal) : result SignResponse () :=
  if (1 <? length (at_sizes t))%nat then
    match sum_exceeds (at_sizes t) (hc_max_size (at_cap t)) with
    | Ok true => deny err_code.POLICY_DENIED
    | Ok false => Ok ()
    | Err _ =>
        if negb (is_ok (sum_exceeds ["1"] (hc_max_size (at_cap t)))) then deny err_code.INTERNAL_ERROR
        else deny err_code.BAD_REQUEST
    end
  else Ok ().

Definition check_total_notional (t : AssetTotal) : result SignResponse () :=
  if (1 <? length (at_notionals t))%nat then
    match hc_max_notional (at_cap t) with
    | None => deny err_code.INTERNAL_ERROR
    | Some max_notional =>
        match notional_sum_exceeds (at_notionals t) max_notional with
        | Ok true => deny err_code.POLICY_DENIED
        | Ok false => Ok ()
        | Err _ =>
            if negb (is_ok (notional_sum_exceeds [("1", "1")] max_notional)) then deny err_code.INTERNAL_ERROR
            else deny err_code.BAD_REQUEST
        end
    end
  else Ok ().

Fixpoint hl_totals_loop (totals : list AssetTotal) : result SignResponse () :=
  match totals with
  | [] => Ok ()
  | t :: rest => _ ← check_total_size t; _ ← check_total_notional t; hl_totals_loop rest
  end.

Definition enforce_hl_caps `{Crates} (policy : option Policy) (action : json) (vault : option string)
    : result SignResponse () :=
  match policy with
  | None => Ok ()
  | Some p =>
      _ ← check_vault p vault;
      match p_hl_order_caps p, jget "orders" action ≫= as_array with
      | Some caps, Some orders => totals ← hl_order_loop caps orders []; hl_totals_loop totals
      | _, _ => Ok ()
      end
  end.

(** ** Exactness of the order cap *)

(** What the cap promises, on the rationals the decimals denote. *)
Definition within_order_cap (policy : option Policy) (symbol q : string) (price : option string) : Prop :=
  forall caps, policy ≫= p_order_caps = Some caps ->
  exists e x m, find_cap caps symbol = Some e /\ operand q = Some x /\ operand (oc_max_qty e) = Some m /\
    (x <= m)%Q /\
    forall mn, oc_max_notional e = Some mn ->
      exists px v c, price = Some px /\ operand px = Some v /\ operand mn = Some c /\ (x * v <= c)%Q.

Lemma check_max_qty_spec q m :
  check_max_qty q m = Ok () <-> exists x y, operand q = Some x /\ operand m = Some y /\ (x <= y)%Q.
Proof.
  unfold check_max_qty, deny. pose proof (cmp_positive_decimals_spec q m) as Hc.
  destruct (operand q) as [x|] eqn:Ex, (operand m) as [y|] eqn:Ey.
  2-4: destruct Hc as [e ->]; split; [by destruct (negb _)|naive_solver].
  rewrite Hc. destruct (Qcompare x y) eqn:E.
  - split; [intros _; exists x, y; split; [done|split; [done|]]; apply Qeq_alt in E; by rewrite E; apply Qle_refl|done].
  - split; [intros _; exists x, y|done]. apply Qlt_alt in E. auto using Qlt_le_weak.
  - split; [done|]. intros (x' & y' & [= <-] & [= <-] & Hle). apply Qgt_alt in E. by apply Qlt_not_le in E.
Qed.

Lemma check_max_notional_spec q price mn x :
  operand q = Some x ->
  check_max_notional q price mn = Ok () <->
  exists px v c, price = Some px /\ operand px = Some v /\ operand mn = Some c /\ (x * v <= c)%Q.
Proof.
  intros Hq. unfold check_max_notional, deny. destruct price as [px|]; [|naive_solver].
  pose proof (notional_exceeds_spec q px mn) as Hn. rewrite Hq in Hn.
  destruct (operand px) as [v|] eqn:Ev, (operand mn) as [c|] eqn:Ec.
  2-4: destruct Hn as [e ->]; split; [by destruct (negb _)|naive_solver].
  destruct Hn as (b & -> & Hb). destruct b.
  - split; [done|]. intros (px' & v' & c' & [= <-] & Hv & Hc & Hle). simplify_eq.
    by apply Qlt_not_le in Hle; [|apply Hb].
  - split; [|done]. intros _. exists px, v, c. do 3 (split; [done|]). apply Qnot_lt_le. naive_solver.
Qed.

Lemma enforce_order_cap_spec policy symbol q price :
  enforce_order_cap policy symbol (Some q) price = Ok () <-> within_order_cap policy symbol q price.
Proof.
  unfold enforce_order_cap, within_order_cap.
  destruct (policy ≫= p_order_caps) as [caps|]; [|split; [by intros _ ? [=]|done]].
  assert (forall P : list OrderAssetCap -> Prop, (forall c, Some caps = Some c -> P c) <-> P caps) as ->
    by naive_solver.
  destruct (find_cap caps symbol) as [e|]; [|split; [done|naive_solver]].
  pose proof (check_max_qty_spec q (oc_max_qty e)) as Hq.
  destruct (check_max_qty q (oc_max_qty e)) as [[]|r] eqn:Ec; cbn [mbind result_bind].
  2:{ split; [done|]. intros (e' & x & m & [= <-] & Hx & Hm & Hle & _).
      assert (Err r = Ok ()) by (apply Hq; eauto). done. }
  destruct (proj1 Hq eq_refl) as (x & m & Hx & Hm & Hle).
  destruct (oc_max_notional e) as [mn|] eqn:En.
  - rewrite (check_max_notional_spec q price mn x Hx). split.
    + intros Hn. exists e, x, m. do 4 (split; [done|]). intros mn' Hmn. rewrite En in Hmn. by injection Hmn as <-.
    + intros (e' & x' & m' & [= <-] & Hx' & _ & _ & Hn). rewrite Hx in Hx'. injection Hx' as <-. auto.
  - split; [|done]. intros _. exists e, x, m. do 4 (split; [done|]). congruence.
Qed.

(** C8: a sized order passes the cap gate exactly when its symbol is listed,
    its quantity is at most the cap and, under a notional cap, it carries a
    price and quantity times price is at most that cap, all as exact
    rationals; any malformed number is refused. *)
Theorem order_cap_exact policy symbol q price :
  enforce_order_cap policy symbol (Some q) price = Ok () <-> within_order_cap policy symbol q price.
Proof. apply enforce_order_cap_spec. Qed.

(** ** Exactness of the x402 clause *)

Section X402Spec.
Context `{Crates}.

Lemma scan_addresses_spec target entries ok malformed :
  scan_addresses target entries ok malformed =
  (ok || existsb (fun e => bool_decide (parse_evm_address e = Ok target)) entries,
   malformed || existsb (fun e => negb (is_ok (parse_evm_address e))) entries).
Proof.
  revert ok malformed. induction entries as [|e rest IH]; intros ok malformed; cbn [scan_addresses existsb].
  { by rewrite !orb_false_r. }
  destruct (parse_evm_address e) as [a|err]; rewrite IH; cbn [is_ok negb orb].
  - f_equal. case_decide as Ha.
    + subst. rewrite (bool_decide_eq_true_2 (Ok target = _)) by done. by destruct ok.
    + rewrite (bool_decide_eq_false_2 (Ok a = _)) by congruence. by destruct ok.
  - rewrite (bool_decide_eq_false_2 (Err err = _)) by done. by destruct ok, malformed.
Qed.

(** The list is well formed and names the target. *)
Definition listed (target : string) (entries : list string) : Prop :=
  Forall (fun e => is_ok (parse_evm_address e) = true) entries /\
  Exists (fun e => parse_evm_address e = Ok target) entries.

Lemma scan_listed target entries :
  (let '(ok, malformed) := scan_addresses target entries false false in
   negb malformed && ok = true) <-> listed target entries.
Proof.
  rewrite scan_addresses_spec. cbn [orb]. rewrite andb_true_iff, negb_true_iff. unfold listed.
  f_equiv.
  - rewrite <- forallb_Forall. induction entries as [|e rest IH]; [done|]. cbn [existsb forallb].
    rewrite orb_false_iff, andb_true_iff, IH, negb_false_iff. done.
  - rewrite existsb_Exists. split; intros He; (eapply Exists_impl; [exact He|]); intros e; by rewrite bool_decide_eq_true.
Qed.

(** What the mandatory clause promises. *)
Definition within_x402 (policy : option Policy) (chain_id : Z) (token to : string) (value : list Z) : Prop :=
  exists p cap tok maxs w recipients,
    policy = Some p /\ p_x402 p = Some cap /\ xp_chain_id cap = Some chain_id /\
    xp_token_address cap = Some tok /\ parse_evm_address tok = Ok token /\
    xp_max_value cap = Some maxs /\ parse_u256_be_decimal maxs = Ok w /\ be_val value <= be_val w /\
    xp_allowed_recipients cap = Some recipients /\ listed to recipients.

Lemma u256_bytes s w : parse_u256_be_decimal s = Ok w -> is_bytes w /\ length w = 32%nat.
Proof.
  intros Hw. pose proof (parse_u256_spec s) as Hs. cbv zeta in Hs. case_decide; [|by destruct Hs as [e Hs]; rewrite Hs in Hw].
  destruct Hs as (w' & Hw' & ? & ? & _). rewrite Hw in Hw'. by injection Hw' as <-.
Qed.

Lemma le_be_spec value w :
  is_bytes value -> length value = 32%nat -> is_bytes w -> length w = 32%nat ->
  le_be value w = true <-> be_val value <= be_val w.
Proof.
  intros. unfold le_be. rewrite lex_cmp_be by congruence.
  destruct (Z.compare_spec (be_val value) (be_val w)); split; (done || lia).
Qed.

Lemma x402_cap_exact_spec policy chain_id token to value :
  is_bytes value -> length value = 32%nat ->
  enforce_x402_cap policy chain_id token to value = Ok () <-> within_x402 policy chain_id token to value.
Proof.
  intros Hb Hl. unfold enforce_x402_cap, within_x402, deny. split.
  - intros Hx. apply bind_ok_inv in Hx as (p & Ep%ok_or_inv & Hx). apply bind_ok_inv in Hx as (cap & Ecap%ok_or_inv & Hx).
    apply bind_ok_inv in Hx as (cid & Ecid%ok_or_inv & Hx). apply bind_ok_inv in Hx as (u & Ec & Hx).
    destruct (cid =? chain_id) eqn:Ecc; [|done]. apply Z.eqb_eq in Ecc as ->.
    apply bind_ok_inv in Hx as (tok & Etok%ok_or_inv & Hx). apply bind_ok_inv in Hx as (u2 & Eaddr & Hx).
    destruct (parse_evm_address tok) as [addr|] eqn:Ea; [|done]. destruct (decide (addr = token)) as [->|]; [|done].
    apply bind_ok_inv in Hx as (maxs & Emax%ok_or_inv & Hx). apply bind_ok_inv in Hx as (u3 & Eval & Hx).
    destruct (parse_u256_be_decimal maxs) as [w|] eqn:Ew; [|done]. destruct (le_be value w) eqn:Ele; [|done].
    destruct (u256_bytes _ _ Ew). apply le_be_spec in Ele; [|done..].
    apply bind_ok_inv in Hx as (rs & Ers%ok_or_inv & Hx).
    pose proof (scan_listed to rs) as Hs. destruct (scan_addresses to rs false false) as [ok mal].
    destruct mal, ok; try done. exists p, cap, tok, maxs, w, rs. do 8 (split; [done|]). split; [done|]. by apply Hs.
  - intros (p & cap & tok & maxs & w & rs & Hp & Hcap & Hcid & Htok & Haddr & Hmax & Hw & Hle & Hrs & Hlist).
    rewrite Hp. cbn. rewrite Hcap. cbn. rewrite Hcid. cbn. rewrite Z.eqb_refl. cbn. rewrite Htok. cbn.
    rewrite Haddr, decide_True by done. cbn. rewrite Hmax. cbn. rewrite Hw.
    destruct (u256_bytes _ _ Hw). rewrite (proj2 (le_be_spec value w Hb Hl ltac:(done) ltac:(done))) by done. cbn.
    rewrite Hrs. cbn. apply scan_listed in Hlist. destruct (scan_addresses to rs false false) as [[] []]; done.
Qed.

(** C9: a transfer authorisation is signable exactly when the policy has a
    complete x402 clause for this chain and token, the amount is at most the
    maximum as 256-bit integers, and the recipient is on a fully well-formed
    allow-list: anything missing or malformed refuses. *)
Theorem x402_cap_exact policy chain_id token to value :
  is_bytes value -> length value = 32%nat ->
  enforce_x402_cap policy chain_id token to value = Ok () <-> within_x402 policy chain_id token to value.
Proof. apply x402_cap_exact_spec. Qed.

End X402Spec.

(** ** The Hyperliquid caps bound the whole action *)

Definition order_asset (o : json) : option Z := jget "a" o ≫= as_u64.
Definition order_size (o : json) : option string := jget "s" o ≫= as_str.
Definition order_price (o : json) : option string := jget "p" o ≫= as_str.

(** The sizes, and the (size, price) pairs, of the orders on one asset. *)
Definition on_asset {A} (f : json -> option A) (a : Z) (o : json) : option A :=
  match order_asset o with Some a' => if a' =? a then f o else None | None => None end.
Definition order_sizes (a : Z) (orders : list json) : list string := omap (on_asset order_size a) orders.
Definition order_pair (o : json) : option (string * string) :=
  s ← order_size o; px ← order_price o; Some (s, px).
Definition order_pairs (a : Z) (orders : list json) : list (string * string) :=
  omap (on_asset order_pair a) orders.

Lemma check_hl_order_inv caps o a cap size npair :
  check_hl_order caps o = Ok (a, cap, size, npair) ->
  order_asset o = Some a /\ order_size o = Some size /\ find_hl_cap caps a = Some cap /\
  check_hl_size size (hc_max_size cap) = Ok () /\
  match hc_max_notional cap with
  | None => npair = None
  | Some mn => exists px, npair = Some (size, px) /\ order_price o = Some px /\
                          notional_exceeds size px mn = Ok false
  end.
Proof.
  unfold check_hl_order, order_asset, order_size, order_price. intros Hx.
  apply bind_ok_inv in Hx as (a' & Ea%ok_or_inv & Hx). apply bind_ok_inv in Hx as (s' & Es%ok_or_inv & Hx).
  apply bind_ok_inv in Hx as (cap' & Ec%ok_or_inv & Hx). apply bind_ok_inv in Hx as ([] & Esz & Hx).
  apply bind_ok_inv in Hx as (np & En & Hx). injection Hx as -> -> -> ->.
  do 4 (split; [done|]). unfold check_hl_notional, deny in En.
  destruct (hc_max_notional cap) as [mn|]; [|by injection En as <-].
  destruct (jget "t" o ≫= jget "limit"); [|done]. destruct (jget "p" o ≫= as_str) as [px|]; [|done].
  destruct (notional_exceeds size px mn) as [[]|] eqn:Enx; [done| |by destruct (negb _)]. injection En as <-. by exists px.
Qed.

(** A running total is faithful to the orders seen so far. *)
Definition total_ok (caps : list HlOrderCap) (seen : list json) (t : AssetTotal) : Prop :=
  find_hl_cap caps (at_asset t) = Some (at_cap t) /\
  at_sizes t = order_sizes (at_asset t) seen /\
  Forall (fun s => check_hl_size s (hc_max_size (at_cap t)) = Ok ()) (at_sizes t) /\
  match hc_max_notional (at_cap t) with
  | None => at_notionals t = []
  | Some mn => at_notionals t = order_pairs (at_asset t) seen /\ length (at_notionals t) = length (at_sizes t) /\
               Forall (fun pr => notional_exceeds (fst pr) (snd pr) mn = Ok false) (at_notionals t)
  end.

Definition totals_ok (caps : list HlOrderCap) (seen : list json) (totals : list AssetTotal) : Prop :=
  Forall (total_ok caps seen) totals /\ NoDup (at_asset <$> totals) /\
  forall a, order_sizes a seen <> [] -> a ∈ at_asset <$> totals.

Lemma on_asset_same {A} (f : json -> option A) o a : order_asset o = Some a -> on_asset f a o = f o.
Proof. unfold on_asset. intros ->. by rewrite Z.eqb_refl. Qed.
Lemma on_asset_other {A} (f : json -> option A) o a b : order_asset o = Some a -> a <> b -> on_asset f b o = None.
Proof. unfold on_asset. intros -> Hne. by rewrite (proj2 (Z.eqb_neq a b)). Qed.

Lemma omap_snoc {A B} (f : A -> option B) l x :
  omap f (l ++ [x]) = omap f l ++ match f x with Some y => [y] | None => [] end.
Proof. rewrite omap_app. simpl. by destruct (f x). Qed.

Lemma total_ok_other caps seen o a t :
  order_asset o = Some a -> at_asset t <> a -> total_ok caps seen t -> total_ok caps (seen ++ [o]) t.
Proof.
  intros Ho Hne (H1 & H2 & H3 & H4). unfold total_ok, order_sizes, order_pairs in *.
  rewrite !omap_snoc, !(on_asset_other _ o a) by done. by rewrite !app_nil_r.
Qed.

Lemma accumulate_assets a cap size npair totals :
  at_asset <$> accumulate a cap size npair totals =
  if decide (a ∈ at_asset <$> totals) then at_asset <$> totals else (at_asset <$> totals) ++ [a].
Proof.
  induction totals as [|t rest IH]; [done|]. cbn [accumulate fmap list_fmap].
  destruct (at_asset t =? a) eqn:E.
  - apply Z.eqb_eq in E. rewrite decide_True; [done|]. rewrite E. by left.
  - apply Z.eqb_neq in E. cbn [fmap list_fmap]. rewrite IH. destruct (decide (a ∈ at_asset <$> rest)) as [Hin|Hin].
    + rewrite decide_True; [done|]. by right.
    + rewrite decide_False; [done|]. rewrite elem_of_cons. naive_solver.
Qed.

Section Accumulate.
Context (caps : list HlOrderCap) (seen : list json) (o : json) (a : Z) (cap : HlOrderCap) (size : string)
        (npair : option (string * string)).
Context (Ho : check_hl_order caps o = Ok (a, cap, size, npair)).

Lemma order_pair_checked mn :
  hc_max_notional cap = Some mn -> exists px, npair = Some (size, px) /\ order_pair o = Some (size, px) /\
    notional_exceeds size px mn = Ok false.
Proof using Ho.
  intros Hmn. destruct (check_hl_order_inv _ _ _ _ _ _ Ho) as (_ & Hs & _ & _ & Hn). rewrite Hmn in Hn.
  destruct Hn as (px & -> & Hp & Hne). exists px. split; [done|]. split; [|done].
  unfold order_pair. by rewrite Hs, Hp.
Qed.

Lemma total_ok_append t :
  at_asset t = a -> total_ok caps seen t ->
  total_ok caps (seen ++ [o]) {| at_asset := at_asset t; at_cap := at_cap t; at_sizes := at_sizes t ++ [size];
                                 at_notionals := at_notionals t ++ pair_list npair |}.
Proof using Ho.
  intros Ht (H1 & H2 & H3 & H4). pose proof order_pair_checked as Hopc.
  destruct (check_hl_order_inv _ _ _ _ _ _ Ho) as (Ha & Hs & Hf & Hc & Hn). rewrite Ht, Hf in H1. injection H1 as Hcap. unfold total_ok. cbn [at_asset at_cap at_sizes at_notionals].
  rewrite Ht in H2, H4 |- *. rewrite <- Hcap in H3, H4 |- *. split; [done|].
  assert (order_sizes a (seen ++ [o]) = order_sizes a seen ++ [size]) as ->.
  { unfold order_sizes. by rewrite omap_snoc, on_asset_same, Hs. }
  split; [by rewrite H2|]. split; [apply Forall_app; split; [done|by apply Forall_singleton]|].
  destruct (hc_max_notional cap) as [mn|] eqn:Emn.
  - destruct (Hopc mn) as (px & Hnp & Hop & Hex); [done|]. rewrite Hnp. cbn [pair_list].
    destruct H4 as (H4 & H5 & H6). split; [|split].
    + unfold order_pairs. rewrite omap_snoc, on_asset_same, Hop by done. by rewrite H4.
    + rewrite !length_app, H5. done.
    + apply Forall_app; split; [done|by apply Forall_singleton].
  - rewrite Hn, H4. done.
Qed.

Lemma total_ok_fresh :
  order_sizes a seen = [] -> order_pairs a seen = [] ->
  total_ok caps (seen ++ [o]) {| at_asset := a; at_cap := cap; at_sizes := [size]; at_notionals := pair_list npair |}.
Proof using Ho.
  intros Hno Hnp. destruct (check_hl_order_inv _ _ _ _ _ _ Ho) as (Ha & Hs & Hf & Hc & Hn).
  unfold total_ok. cbn [at_asset at_cap at_sizes at_notionals]. split; [done|].
  assert (order_sizes a (seen ++ [o]) = [size]) as ->.
  { unfold order_sizes in *. by rewrite omap_snoc, on_asset_same, Hs, Hno. }
  split; [done|]. split; [by apply Forall_singleton|].
  destruct (hc_max_notional cap) as [mn|] eqn:Emn.
  - destruct (order_pair_checked mn) as (px & -> & Hop & Hex); [done|]. cbn [pair_list].
    split; [|split; [done|by apply Forall_singleton]].
    unfold order_pairs in *. by rewrite omap_snoc, on_asset_same, Hop, Hnp.
  - by rewrite Hn.
Qed.
End Accumulate.

Lemma order_sizes_nil a seen :
  order_sizes a seen = [] -> Forall (fun o => is_Some (order_asset o) /\ is_Some (order_size o)) seen ->
  order_pairs a seen = [].
Proof.
  unfold order_sizes, order_pairs. induction seen as [|o seen IH]; [done|]. intros Hs Hall.
  apply Forall_cons in Hall as [[[b Hb] [s Hsz]] Hall]. cbn [omap list_omap] in *. unfold on_asset at 1.
  unfold on_asset at 1 in Hs. rewrite Hb in *. destruct (b =? a); [by rewrite Hsz in Hs|]. auto.
Qed.

Lemma accumulate_totals caps seen o a cap size npair totals :
  check_hl_order caps o = Ok (a, cap, size, npair) ->
  Forall (fun o => is_Some (order_asset o) /\ is_Some (order_size o)) seen ->
  totals_ok caps seen totals -> totals_ok caps (seen ++ [o]) (accumulate a cap size npair totals).
Proof.
  intros Ho Hseen (Hall & Hnd & Hcov). pose proof (check_hl_order_inv _ _ _ _ _ _ Ho) as (Ha & Hs & _).
  split; [|split].
  - assert (order_sizes a seen = [] \/ a ∈ at_asset <$> totals) as Hfresh.
    { destruct (order_sizes a seen) eqn:E; [by left|right]. apply Hcov. by rewrite E. }
    clear Hcov. induction totals as [|t rest IH]; cbn [accumulate].
    { destruct Hfresh as [Hnil|Hin]; [|by apply elem_of_nil in Hin].
      apply Forall_singleton. eapply total_ok_fresh; [done|done|]. by apply order_sizes_nil. }
    apply Forall_cons in Hall as [Ht Hall]. apply NoDup_cons in Hnd as [Hni Hnd].
    destruct (at_asset t =? a) eqn:E.
    + apply Z.eqb_eq in E. constructor; [by eapply total_ok_append|].
      rewrite Forall_forall in *. intros t' Ht'. eapply total_ok_other; [done| |by apply Hall].
      intros Heq. apply Hni. rewrite E, <- Heq. by apply list_elem_of_fmap_2.
    + apply Z.eqb_neq in E. constructor; [by eapply total_ok_other|]. apply IH; [done..|].
      destruct Hfresh as [?|Hin]; [by left|]. right. by apply elem_of_cons in Hin as [?|?].
  - rewrite accumulate_assets. destruct (decide _) as [Hin|Hin]; [done|].
    apply NoDup_app. split; [done|]. split; [|apply NoDup_singleton].
    intros x Hx ->%list_elem_of_singleton. done.
  - intros b Hb. rewrite accumulate_assets. destruct (decide (a = b)) as [<-|Hne].
    { destruct (decide _); [done|]. apply elem_of_app. right. by apply list_elem_of_singleton. }
    assert (b ∈ at_asset <$> totals) as Hin.
    { apply Hcov. unfold order_sizes in *. by rewrite omap_snoc, (on_asset_other _ o a), app_nil_r in Hb by done. }
    destruct (decide _); [done|]. apply elem_of_app. by left.
Qed.

Lemma hl_order_loop_ok caps orders : forall seen totals totals',
  hl_order_loop caps orders totals = Ok totals' ->
  Forall (fun o => is_Some (order_asset o) /\ is_Some (order_size o)) seen ->
  totals_ok caps seen totals ->
  Forall (fun o => is_Some (order_asset o) /\ is_Some (order_size o)) (seen ++ orders) /\
  totals_ok caps (seen ++ orders) totals'.
Proof.
  induction orders as [|o orders IH]; intros seen totals totals' Hl Hseen Ht; cbn [hl_order_loop] in Hl.
  { injection Hl as <-. by rewrite app_nil_r. }
  apply bind_ok_inv in Hl as ([[[a cap] size] npair] & Ho & Hl).
  pose proof (check_hl_order_inv _ _ _ _ _ _ Ho) as (Ha & Hs & _).
  replace (seen ++ o :: orders) with ((seen ++ [o]) ++ orders) by by rewrite <- app_assoc.
  eapply IH; [exact Hl| |by apply accumulate_totals].
  apply Forall_app. split; [done|]. apply Forall_singleton. by rewrite Ha, Hs.
Qed.

Lemma check_hl_size_le s m :
  check_hl_size s m = Ok () -> exists x y, operand s = Some x /\ operand m = Some y /\ (x <= y)%Q.
Proof.
  intros Hs. apply check_max_qty_spec. unfold check_hl_size, check_max_qty, deny in *.
  destruct (cmp_positive_decimals s m) as [[]|]; [done..|by destruct (negb _)].
Qed.

Lemma Qsum_single x : (Qsum [x] == x)%Q.
Proof. simpl. apply Qplus_0_r. Qed.

(** The size total of a checked asset is within its cap. *)
Lemma total_size_le caps seen t :
  total_ok caps seen t -> at_sizes t <> [] -> check_total_size t = Ok () ->
  exists m qs, operand (hc_max_size (at_cap t)) = Some m /\ mapM operand (at_sizes t) = Some qs /\ (Qsum qs <= m)%Q.
Proof.
  intros (_ & _ & Hall & _) Hne. unfold check_total_size, deny.
  destruct (at_sizes t) as [|s [|s' rest]] eqn:E; [done| |].
  - intros _. apply Forall_cons in Hall as [Hs _]. apply check_hl_size_le in Hs as (x & y & Hx & Hy & Hle).
    exists y, [x]. split; [done|]. split; [cbn; by rewrite Hx|]. by rewrite Qsum_single.
  - replace (1 <? _)%nat with true by (symmetry; apply Nat.ltb_lt; cbn [length]; lia).
    pose proof (sum_exceeds_spec (s :: s' :: rest) (hc_max_size (at_cap t))) as Hs.
    destruct (mapM operand (s :: s' :: rest)) as [qs|], (operand (hc_max_size (at_cap t))) as [m|].
    2-4: destruct Hs as [e ->]; by destruct (negb _).
    destruct Hs as (b & -> & Hb). destruct b; [done|]. intros _. exists m, qs. do 2 (split; [done|]).
    apply Qnot_lt_le. naive_solver.
Qed.

Lemma total_notional_le caps seen t mn :
  total_ok caps seen t -> at_sizes t <> [] -> hc_max_notional (at_cap t) = Some mn -> check_total_notional t = Ok () ->
  exists c ns, operand mn = Some c /\ mapM operand_pair (at_notionals t) = Some ns /\
    length ns = length (at_sizes t) /\ (Qsum ns <= c)%Q.
Proof.
  intros (_ & _ & _ & Hn) Hne Hmn. rewrite Hmn in Hn. destruct Hn as (_ & Hlen & Hall).
  unfold check_total_notional, deny. rewrite Hmn, <- Hlen.
  destruct (at_notionals t) as [|[s px] [|p' rest]] eqn:E; [by destruct (at_sizes t)| |].
  - intros _. apply Forall_cons in Hall as [Hs _]. cbn [fst snd] in Hs.
    pose proof (notional_exceeds_spec s px mn) as Hx. rewrite Hs in Hx.
    destruct (operand s) as [x|] eqn:Es, (operand px) as [v|] eqn:Ep, (operand mn) as [c|] eqn:Ec; try by destruct Hx.
    destruct Hx as (b & [= <-] & Hb). exists c, [(x * v)%Q]. split; [done|].
    split; [cbn; unfold operand_pair; cbn; by rewrite Es, Ep|]. split; [done|]. rewrite Qsum_single.
    apply Qnot_lt_le. naive_solver.
  - replace (1 <? _)%nat with true by (symmetry; apply Nat.ltb_lt; cbn [length]; lia).
    pose proof (notional_sum_exceeds_spec ((s, px) :: p' :: rest) mn) as Hx.
    destruct (mapM operand_pair ((s, px) :: p' :: rest)) as [ns|] eqn:Em, (operand mn) as [c|].
    2-4: destruct Hx as [e ->]; by destruct (negb _).
    destruct Hx as (b & -> & Hb). destruct b; [done|]. intros _. exists c, ns. do 2 (split; [done|]).
    split; [by apply length_mapM in Em|]. apply Qnot_lt_le. naive_solver.
Qed.

Lemma hl_totals_loop_ok totals :
  hl_totals_loop totals = Ok () ->
  Forall (fun t => check_total_size t = Ok () /\ check_total_notional t = Ok ()) totals.
Proof.
  induction totals as [|t rest IH]; cbn [hl_totals_loop]; [done|]. intros Hl.
  apply bind_ok_inv in Hl as ([] & H1 & Hl). apply bind_ok_inv in Hl as ([] & H2 & Hl). auto.
Qed.

Lemma hl_batch_within_caps_spec `{Crates} p caps orders action vault :
  p_hl_order_caps p = Some caps -> jget "orders" action ≫= as_array = Some orders ->
  enforce_hl_caps (Some p) action vault = Ok () ->
  Forall (fun o => is_Some (order_asset o) /\ is_Some (order_size o)) orders /\
  forall a, order_sizes a orders <> [] ->
    exists cap m qs, find_hl_cap caps a = Some cap /\ operand (hc_max_size cap) = Some m /\
      mapM operand (order_sizes a orders) = Some qs /\ (Qsum qs <= m)%Q /\
      forall mn, hc_max_notional cap = Some mn ->
        exists c ns, operand mn = Some c /\ mapM operand_pair (order_pairs a orders) = Some ns /\
          length ns = length qs /\ (Qsum ns <= c)%Q.
Proof.
  intros Hcaps Horders. unfold enforce_hl_caps. rewrite Hcaps, Horders. intros Hx.
  apply bind_ok_inv in Hx as (u & _ & Hx). apply bind_ok_inv in Hx as (totals & Hl & Hx).
  apply (hl_order_loop_ok caps orders [] []) in Hl as [Hshape (Hall & _ & Hcov)]; cbn [app] in *.
  2: constructor. 2:{ split; [constructor|]. split; [constructor|done]. }
  split; [done|]. intros a Hne. pose proof Hne as Hin. apply Hcov, list_elem_of_fmap in Hin as (t & -> & Ht).
  rewrite Forall_forall in Hall. pose proof (Hall t Ht) as Hok.
  apply hl_totals_loop_ok in Hx. rewrite Forall_forall in Hx. destruct (Hx t Ht) as [Hcs Hcn].
  pose proof Hok as (Hf & Hsz & _ & Hn). rewrite <- Hsz in *.
  destruct (total_size_le _ _ _ Hok Hne Hcs) as (m & qs & Hm & Hqs & Hle).
  exists (at_cap t), m, qs. do 4 (split; [done|]). intros mn Hmn. rewrite Hmn in Hn. destruct Hn as (Hp & _).
  rewrite <- Hp. destruct (total_notional_le _ _ _ _ Hok Hne Hmn Hcn) as (c & ns & Hc & Hns & Hlen & Hle').
  exists c, ns. do 2 (split; [done|]). split; [|done]. rewrite Hlen. by apply length_mapM in Hqs.
Qed.

(** C7: when a Hyperliquid action passes the caps, every order names an asset
    and a size, every asset it touches is capped, and per asset the exact SUM
    of the sizes over the whole batch is at most the cap, and under a notional
    cap the exact sum of size times price is at most that cap: splitting an
    order into many under one signature buys nothing. *)
Theorem hl_batch_within_caps `{Crates} p caps orders action vault :
  p_hl_order_caps p = Some caps -> jget "orders" action ≫= as_array = Some orders ->
  enforce_hl_caps (Some p) action vault = Ok () ->
  Forall (fun o => is_Some (order_asset o) /\ is_Some (order_size o)) orders /\
  forall a, order_sizes a orders <> [] ->
    exists cap m qs, find_hl_cap caps a = Some cap /\ operand (hc_max_size cap) = Some m /\
      mapM operand (order_sizes a orders) = Some qs /\ (Qsum qs <= m)%Q /\
      forall mn, hc_max_notional cap = Some mn ->
        exists c ns, operand mn = Some c /\ mapM operand_pair (order_pairs a orders) = Some ns /\
          length ns = length qs /\ (Qsum ns <= c)%Q.
Proof. apply hl_batch_within_caps_spec. Qed.

Lemma hl_vault_bound_spec `{Crates} p allowed v action :
  p_allowed_vaults p = Some allowed ->
  enforce_hl_caps (Some p) action (Some v) = Ok () -> listed v allowed.
Proof.
  intros Ha. unfold enforce_hl_caps, check_vault. rewrite Ha. intros Hx.
  apply bind_ok_inv in Hx as (u & Hv & _). apply scan_listed.
  destruct (scan_addresses v allowed false false) as [[] []]; done.
Qed.

(** With a vault list in the policy, an action for an explicit vault passes
    only if the vault is listed and every entry of the list is well formed. *)
Theorem hl_vault_bound `{Crates} p allowed v action :
  p_allowed_vaults p = Some allowed ->
  enforce_hl_caps (Some p) action (Some v) = Ok () -> listed v allowed.
Proof. apply hl_vault_bound_spec. Qed.

(** *** Concrete runs *)

#[local] Existing Instance demo_crates.

Definition demo_addr : string := "0x" +:+ zeros 40.
Definition demo_hl_policy : Policy :=
  {| p_allowed_actions := None; p_allowed_methods := None; p_allowed_path_prefixes := None;
     p_denied_path_prefixes := None; p_max_requests_per_minute := None; p_label := None;
     p_allowed_asterdex_endpoints := None;
     p_x402 := Some {| xp_chain_id := Some 8453; xp_token_address := Some demo_addr; xp_max_value := Some "1000000";
                       xp_allowed_recipients := Some [demo_addr] |};
     p_permit2 := None; p_order_caps := None; p_allowed_vaults := Some [demo_addr];
     p_hl_order_caps := Some [{| hc_asset := 0; hc_max_size := "1.5"; hc_max_notional := Some "200" |}];
     p_signer_pubkey := None; p_policy_signature := None; p_policy_authority_sig := None;
     p_intent_pubkey := None |}.
Definition demo_hl_order (size price : string) : json :=
  JObj [("a", JNum (PosInt 0)); ("b", JBool true); ("p", JStr price); ("s", JStr size);
        ("t", JObj [("limit", JObj [("tif", JStr "Gtc")])])].
Definition demo_hl_action (orders : list json) : json := JObj [("type", JStr "order"); ("orders", JArr orders)].

Example hl_two_orders_at_cap :
  enforce_hl_caps (Some demo_hl_policy) (demo_hl_action [demo_hl_order "0.5" "100"; demo_hl_order "1" "100"]) None = Ok ().
Proof. vm_compute. reflexivity. Qed.
Example hl_split_over_cap :
  enforce_hl_caps (Some demo_hl_policy) (demo_hl_action [demo_hl_order "1" "100"; demo_hl_order "1" "90"]) None
  = Err (resp_err err_code.POLICY_DENIED).
Proof. vm_compute. reflexivity. Qed.

Lemma hl_batch_within_caps_witness :
  exists cap m qs, find_hl_cap [{| hc_asset := 0; hc_max_size := "1.5"; hc_max_notional := Some "200" |}] 0 = Some cap /\
    operand (hc_max_size cap) = Some m /\ mapM operand ["0.5"; "1"] = Some qs /\ (Qsum qs <= m)%Q.
Proof.
  edestruct (hl_batch_within_caps demo_hl_policy _ [demo_hl_order "0.5" "100"; demo_hl_order "1" "100"]
    (demo_hl_action [demo_hl_order "0.5" "100"; demo_hl_order "1" "100"]) None eq_refl eq_refl) as [_ Hw].
  - exact hl_two_orders_at_cap.
  - destruct (Hw 0 ltac:(vm_compute; discriminate)) as (cap & m & qs & H1 & H2 & H3 & H4 & _).
    exists cap, m, qs. auto.
Defined.

Lemma hl_vault_bound_witness : listed (be_bytes 20 0) [demo_addr].
Proof.
  apply (hl_vault_bound demo_hl_policy [demo_addr] (be_bytes 20 0) (demo_hl_action [])); vm_compute; reflexivity.
Defined.

Lemma x402_cap_exact_witness :
  within_x402 (Some demo_hl_policy) 8453 (be_bytes 20 0) (be_bytes 20 0) (replicate 32 0).
Proof.
  apply x402_cap_exact; [|reflexivity|vm_compute; reflexivity].
  apply Forall_replicate. unfold is_byte. lia.
Defined.
