(* ===== verification/Generic.v ===== *)
(** * Generic signing routes (enclave/src/handler.rs)

    The parameterised Binance request with its per-operation allow-list, and
    the gate that limits capped keys to vouched read and cancel operations on
    the opaque HMAC routes. *)

From S2P Require Import Prelude RustStr Crates Proto Venue PolicyGate.

Open Scope string_scope.
Open Scope list_scope.
Open Scope Z_scope.

(** ** Binance operations *)

Definition order_params : list string :=
  ["symbol"; "side"; "positionSide"; "type"; "timeInForce"; "quantity"; "reduceOnly"; "price";
   "newClientOrderId"; "stopPrice"; "closePosition"; "activationPrice"; "callbackRate"; "workingType";
   "priceProtect"; "newOrderRespType"; "recvWindow"; "timestamp"].

Definition allowed_params_table : list (string * list string) :=
  [("account", ["recvWindow"; "timestamp"]);
   ("positionRisk", ["symbol"; "recvWindow"; "timestamp"]);
   ("openOrders", ["symbol"; "recvWindow"; "timestamp"]);
   ("orderStatus", ["symbol"; "orderId"; "origClientOrderId"; "recvWindow"; "timestamp"]);
   ("userTrades", ["symbol"; "startTime"; "endTime"; "fromId"; "limit"; "recvWindow"; "timestamp"]);
   ("income", ["symbol"; "incomeType"; "startTime"; "endTime"; "limit"; "recvWindow"; "timestamp"]);
   ("listenKey", ["recvWindow"; "timestamp"]);
   ("order", order_params);
   ("cancel", ["symbol"; "orderId"; "origClientOrderId"; "recvWindow"; "timestamp"]);
   ("allOpenOrders", ["symbol"; "recvWindow"; "timestamp"]);
   ("leverage", ["symbol"; "leverage"; "recvWindow"; "timestamp"]);
   ("positionMode", ["dualSidePosition"; "recvWindow"; "timestamp"])].

Definition binance_request_allowed_params (op : string) : option (list string) :=
  assoc op allowed_params_table.

Definition method_path_table : list (string * (string * string)) :=
  [("account", ("GET", "/fapi/v2/account"));
   ("positionRisk", ("GET", "/fapi/v2/positionRisk"));
   ("openOrders", ("GET", "/fapi/v1/openOrders"));
   ("orderStatus", ("GET", "/fapi/v1/order"));
   ("userTrades", ("GET", "/fapi/v1/userTrades"));
   ("income", ("GET", "/fapi/v1/income"));
   ("positionMode", ("POST", "/fapi/v1/positionSide/dual"));
   ("listenKey", ("POST", "/fapi/v1/listenKey"));
   ("leverage", ("POST", "/fapi/v1/leverage"));
   ("order", ("POST", "/fapi/v1/order"));
   ("cancel", ("DELETE", "/fapi/v1/order"));
   ("allOpenOrders", ("DELETE", "/fapi/v1/allOpenOrders"))].

Definition binance_request_method_path (op : string) : option (string * string) :=
  assoc op method_path_table.

Definition binance_request_order_denied_for_capped (op : string) (policy : option Policy) : bool :=
  bool_decide (op = "order") &&
  match policy with
  | Some p => bool_decide (is_Some (p_order_caps p)) || bool_decide (is_Some (p_intent_pubkey p))
  | None => false
  end.

(** [seg.split('=').next()] *)
Definition param_name (seg : string) : string := fst (read_pair seg).

Fixpoint check_names (op : string) (allowed pairs : list string) : result string () :=
  match pairs with
  | [] => Ok ()
  | seg :: rest =>
      if is_empty seg then check_names op allowed rest
      else if str_in (param_name seg) allowed then check_names op allowed rest
      else Err ("param_not_allowed:" +:+ op +:+ ":" +:+ param_name seg)
  end.

Definition check_binance_request_allow (op payload : string) : result string () :=
  allowed ← ok_or (binance_request_allowed_params op) ("op_not_allowed:" +:+ op);
  check_names op allowed (split "&" payload).

(** ** Capped keys on the opaque routes *)

Definition token_byte (c : ascii) : bool :=
  is_ascii_alphanumeric c || (byte_val c =? 45) || (byte_val c =? 95).
Definition token_value (v : string) : bool := negb (is_empty v) && bytes_all token_byte v.

Fixpoint params_loop (pairs allowed seen : list string) : option (list string) :=
  match pairs with
  | [] => Some seen
  | seg :: rest =>
      match split_once "=" seg with
      | None => None
      | Some (k, v) =>
          if negb (str_in k allowed) || str_in k seen then None
          else if negb (token_value v) then None
          else params_loop rest allowed (seen ++ [k])
      end
  end.

Definition params_subset_of (q : string) (allowed required : list string) : bool :=
  if is_empty q then match required with [] => true | _ => false end
  else match params_loop (split "&" q) allowed [] with
       | None => false
       | Some seen => forallb (fun r => str_in r seen) required
       end.

Definition single_filter (q key : string) : bool :=
  match strip_prefix key q ≫= strip_prefix "=" with
  | Some v => token_value v
  | None => false
  end.

Definition trades_params : list string := ["symbol"; "orderId"; "startTime"; "endTime"; "fromId"; "limit"].
Definition fills_params : list string :=
  ["instType"; "instId"; "ordId"; "after"; "before"; "begin"; "end"; "limit"].

Definition binance_read_op (method path_only q : string) : bool :=
  let op m p := bool_decide (method = m) && bool_decide (path_only = p) in
  if op "GET" "/fapi/v2/account" then is_empty q
  else if op "GET" "/fapi/v1/openOrders" then is_empty q || single_filter q "symbol"
  else if op "GET" "/api/v3/account" then is_empty q
  else if op "GET" "/api/v3/openOrders" then is_empty q || single_filter q "symbol"
  else if op "GET" "/fapi/v1/userTrades" then params_subset_of q trades_params ["symbol"]
  else if op "DELETE" "/fapi/v1/allOpenOrders" then single_filter q "symbol"
  else false.

Definition okx_read_op (method path_only q : string) : bool :=
  let op m p := bool_decide (method = m) && bool_decide (path_only = p) in
  if op "GET" "/api/v5/account/balance" then is_empty q
  else if op "GET" "/api/v5/account/positions" then is_empty q
  else if op "GET" "/api/v5/trade/orders-pending" then is_empty q || single_filter q "instId"
  else if op "GET" "/api/v5/trade/fills-history" then params_subset_of q fills_params ["instType"]
  else false.

Definition generic_capped_op_allowed (venue method path query body : string) : bool :=
  if negb (is_empty body) then false
  else if contains_char "?" path && negb (is_empty query) then false
  else
    let '(path_only, embedded) :=
      match split_once "?" path with Some pq => pq | None => (path, "") end in
    let q := if negb (is_empty embedded) then embedded else query in
    if decide (venue = "binance") then binance_read_op method path_only q
    else if decide (venue = "okx") then okx_read_op method path_only q
    else false.

(** ** What the request allow-list guarantees *)

Lemma check_names_spec op allowed pairs :
  match check_names op allowed pairs with
  | Ok _ => Forall (fun seg => is_empty seg = false -> param_name seg ∈ allowed) pairs
  | Err _ => Exists (fun seg => is_empty seg = false /\ param_name seg ∉ allowed) pairs
  end.
Proof.
  induction pairs as [|seg rest IH]; cbn [check_names]; [done|].
  destruct (is_empty seg) eqn:Ee.
  - destruct (check_names op allowed rest); [|by apply Exists_cons_tl]. constructor; [congruence|done].
  - destruct (str_in (param_name seg) allowed) eqn:Es.
    + apply str_in_spec in Es. destruct (check_names op allowed rest); [|by apply Exists_cons_tl]. by constructor.
    + apply Exists_cons_hd. split; [done|]. intros Hin%str_in_spec. congruence.
Qed.

(** Parameters only funds-moving endpoints take. *)
Definition withdrawal_params : list string :=
  ["address"; "addressTag"; "coin"; "amount"; "asset"; "network"; "withdrawOrderId"; "fromSymbol"; "toSymbol";
   "fromAccountType"; "toAccountType"; "toEmail"; "fromEmail"; "walletType"; "email"; "transactionFeeFlag"].

Lemma table_no_withdrawals :
  forallb (fun e => forallb (fun n => negb (str_in n withdrawal_params)) (snd e)) allowed_params_table = true.
Proof. vm_compute. reflexivity. Qed.

Lemma assoc_Forall {A} (P : string * A -> Prop) k l v : Forall P l -> assoc k l = Some v -> P (k, v).
Proof.
  induction 1 as [|[k' v'] l Hp _ IH]; cbn [assoc]; [done|]. case_decide; [|auto]. subst. by intros [= <-].
Qed.

(** A Binance request is signed only for a listed operation whose every
    parameter, as the venue splits the payload, belongs to that operation; in
    particular no payload that passes, for any operation, carries a
    withdrawal or transfer parameter, and every listed operation has the
    method and path its policy check uses. *)
Theorem binance_request_no_withdrawal op payload :
  match check_binance_request_allow op payload with
  | Ok _ => exists allowed, binance_request_allowed_params op = Some allowed /\
      is_Some (binance_request_method_path op) /\
      forall k v, (k, v) ∈ form_params payload -> k = "" \/ (k ∈ allowed /\ k ∉ withdrawal_params)
  | Err _ => binance_request_allowed_params op = None \/
      exists allowed seg, binance_request_allowed_params op = Some allowed /\
        seg ∈ split "&" payload /\ param_name seg ∉ allowed
  end.
Proof.
  unfold check_binance_request_allow. destruct (binance_request_allowed_params op) as [allowed|] eqn:Eop.
  2: by left.
  cbn [ok_or mbind result_bind]. pose proof (check_names_spec op allowed (split "&" payload)) as Hc.
  destruct (check_names op allowed (split "&" payload)).
  - exists allowed. split; [done|]. split.
    { unfold binance_request_allowed_params in Eop.
      assert (Forall (fun e => is_Some (binance_request_method_path (fst e))) allowed_params_table) as Ht
        by (repeat constructor; eexists; reflexivity).
      exact (assoc_Forall _ _ _ _ Ht Eop). }
    intros k v Hin. unfold form_params in Hin. apply list_elem_of_fmap in Hin as (seg & Hp & Hin).
    rewrite Forall_forall in Hc. specialize (Hc seg Hin). destruct (is_empty seg) eqn:Ee.
    { left. destruct seg; [|done]. by injection Hp as -> _. }
    right. assert (param_name seg = k) as Hk by (unfold param_name; by rewrite <- Hp). rewrite Hk in Hc.
    split; [auto|]. pose proof table_no_withdrawals as Ht. rewrite forallb_Forall in Ht.
    pose proof (assoc_Forall _ _ _ _ Ht Eop) as Ha. cbn [snd] in Ha. rewrite forallb_Forall, Forall_forall in Ha.
    specialize (Ha k (Hc eq_refl)). apply negb_true_iff in Ha. intros Hw%str_in_spec. congruence.
  - right. apply Exists_exists in Hc as (seg & Hin & _ & Hn). eauto.
Qed.

(** ** What a capped key can sign on the opaque routes *)

Lemma form_params_cat q r : form_params (q +:+ "&" +:+ r) = form_params q ++ form_params r.
Proof. unfold form_params. cbn [String.append]. by rewrite split_cat, fmap_app. Qed.

Lemma full_query_params ts q :
  form_params (binance_full_query ts q) = (if is_empty q then [] else form_params q) ++ trailer ts.
Proof.
  assert (form_params ("timestamp=" +:+ u64_to_string ts +:+ "&recvWindow=5000") = trailer ts) as Ht.
  { change ("timestamp=" +:+ u64_to_string ts +:+ "&recvWindow=5000") with (form_text (trailer ts)).
    apply form_params_text; [done|apply trailer_clean]. }
  unfold binance_full_query. destruct q as [|c q]; cbn [is_empty]; [exact Ht|].
  rewrite append_assoc, form_params_cat, Ht. done.
Qed.

Lemma token_value_clean v c : token_byte c = false -> token_value v = true -> contains_char c v = false.
Proof.
  intros Hc. unfold token_value. rewrite andb_true_iff. intros [_ Hv]. by apply contains_char_all with token_byte.
Qed.

Lemma single_filter_params q key :
  contains_char "&" key = false -> contains_char "=" key = false -> single_filter q key = true ->
  exists v, q = key +:+ "=" +:+ v /\ form_params q = [(key, v)].
Proof.
  intros H1 H2. unfold single_filter. destruct (strip_prefix key q) as [r|] eqn:E1; [|done]. cbn [mbind option_bind].
  destruct (strip_prefix "=" r) as [v|] eqn:E2; [|done]. intros Hv.
  apply strip_prefix_Some in E1 as ->. apply strip_prefix_Some in E2 as ->. exists v. split; [done|].
  apply (form_params_text [(key, v)]); [done|]. apply Forall_singleton. split; [done|split; [done|]].
  by apply token_value_clean.
Qed.

Lemma params_loop_names pairs allowed seen out :
  params_loop pairs allowed seen = Some out -> Forall (fun kv => fst kv ∈ allowed) (read_pair <$> pairs).
Proof.
  revert seen. induction pairs as [|seg rest IH]; intros seen; cbn [params_loop fmap list_fmap]; [done|].
  unfold read_pair at 1. destruct (split_once "=" seg) as [[k v]|]; [|done].
  destruct (negb (str_in k allowed) || str_in k seen) eqn:E; [done|]. destruct (negb (token_value v)); [done|].
  intros Hl. constructor; [|by eapply IH]. apply orb_false_iff in E as [E _]. apply negb_false_iff in E.
  by apply str_in_spec.
Qed.

Lemma params_subset_names q allowed required :
  params_subset_of q allowed required = true -> q = "" \/ Forall (fun kv => fst kv ∈ allowed) (form_params q).
Proof.
  unfold params_subset_of. destruct q as [|c q]; [by left|]. cbn [is_empty].
  destruct (params_loop _ allowed []) eqn:E; [|done]. intros _. right. by eapply params_loop_names.
Qed.

Lemma binance_read_op_names method path q :
  binance_read_op method path q = true ->
  str_in method ["GET"; "DELETE"] = true /\ (q = "" \/ Forall (fun kv => fst kv ∈ trades_params) (form_params q)).
Proof.
  assert (single_filter q "symbol" = true -> Forall (fun kv => fst kv ∈ trades_params) (form_params q)) as Hf.
  { intros Hs. apply single_filter_params in Hs as (v & _ & ->); [|done..]. apply Forall_singleton. by left. }
  assert (is_empty q = true -> q = "") as He by by destruct q.
  unfold binance_read_op. cbv zeta.
  destruct (decide (method = "GET")) as [->|Hg]; [|destruct (decide (method = "DELETE")) as [->|Hd]].
  3: by rewrite !(bool_decide_eq_false_2 (method = _)) by done.
  all: intros Hx; split; [done|]; revert Hx.
  all: repeat match goal with |- context [bool_decide (?x = ?p)] => is_var x; destruct (bool_decide (x = p)) end.
  all: change (bool_decide ("GET" = "GET")) with true; change (bool_decide ("GET" = "DELETE")) with false;
    change (bool_decide ("DELETE" = "GET")) with false; change (bool_decide ("DELETE" = "DELETE")) with true.
  all: cbn [andb]; try done; rewrite ?orb_true_iff; intros Hx.
  all: first [by left; auto | by right; auto | by apply params_subset_names in Hx
             | by destruct Hx; [left; auto|right; auto]].
Qed.

Definition okx_read_paths : list string :=
  ["/api/v5/account/balance"; "/api/v5/account/positions"; "/api/v5/trade/orders-pending";
   "/api/v5/trade/fills-history"].

Lemma okx_read_op_paths method path q :
  okx_read_op method path q = true -> method = "GET" /\ path ∈ okx_read_paths.
Proof.
  unfold okx_read_op. cbv zeta. destruct (decide (method = "GET")) as [->|Hg].
  2: by rewrite !(bool_decide_eq_false_2 (method = _)) by done.
  intros Hx. split; [done|]. apply str_in_spec. revert Hx. change (bool_decide ("GET" = "GET")) with true.
  cbn [andb str_in existsb okx_read_paths].
  repeat match goal with |- context [bool_decide (path = ?p)] =>
    destruct (decide (path = p)) as [->|?];
    [reflexivity || (intros _; reflexivity)|rewrite (bool_decide_eq_false_2 (path = p)) by done] end.
  done.
Qed.

(** Names a capped key may have signed into a Binance query. *)
Definition capped_names : list string := trades_params ++ ["timestamp"; "recvWindow"].

(** On the opaque routes a capped key obtains no order signature.  For
    Binance, where the signature covers only the parameters, every name in the
    signed text, as the venue parses it, is a read filter, so no side, type,
    quantity or price can appear.  For OKX, where it covers method and path,
    the body is empty and the method and path are a vouched read.  No other
    venue is allowed at all. *)
Theorem capped_generic_reads_only venue method path query body :
  generic_capped_op_allowed venue method path query body = true ->
  body = "" /\
  ((venue = "binance" /\ forall ts,
      Forall (fun kv => fst kv ∈ capped_names) (form_params (binance_canonical (binance_full_query ts query) body))) \/
   (venue = "okx" /\ method = "GET" /\
      exists path_only rest, path = path_only +:+ rest /\ path_only ∈ okx_read_paths /\
        (rest = "" \/ exists q, rest = "?" +:+ q))).
Proof.
  unfold generic_capped_op_allowed. destruct body as [|? ?]; [|done]. cbn [is_empty negb].
  destruct (contains_char "?" path && negb (is_empty query)) eqn:Eq; [done|]. intros Hx. split; [done|].
  destruct (split_once "?" path) as [[path_only embedded]|] eqn:Ep.
  - apply split_once_Some in Ep as [-> _]. rewrite contains_char_app in Eq. cbn in Eq. rewrite orb_true_r in Eq.
    destruct query; [|done]. destruct (decide (venue = "binance")) as [->|_].
    + left. split; [done|]. intros ts. unfold binance_canonical. rewrite append_nil_r, full_query_params.
      cbn [is_empty app]. repeat constructor; by apply str_in_spec.
    + destruct (decide (venue = "okx")) as [->|]; [|done]. right. apply okx_read_op_paths in Hx as [-> Hp].
      do 2 (split; [done|]). exists path_only, (String "?" embedded). split; [done|]. split; [done|]. right. by exists embedded.
  - cbn [is_empty negb] in Hx. destruct (decide (venue = "binance")) as [->|_].
    + left. split; [done|]. intros ts. unfold binance_canonical. rewrite append_nil_r, full_query_params.
      apply binance_read_op_names in Hx as [_ Hq]. apply Forall_app. split.
      * destruct query as [|c q]; [done|]. cbn [is_empty]. destruct Hq as [?|Hq]; [done|].
        eapply Forall_impl; [exact Hq|]. intros kv Hkv. apply elem_of_app. by left.
      * repeat constructor; by apply str_in_spec.
    + destruct (decide (venue = "okx")) as [->|]; [|done]. right. apply okx_read_op_paths in Hx as [-> Hp].
      do 2 (split; [done|]). exists path, "". rewrite append_nil_r. split; [done|]. split; [done|]. by left.
Qed.

Lemma capped_generic_reads_only_witness :
  generic_capped_op_allowed "binance" "GET" "/fapi/v1/userTrades" "symbol=BTCUSDT&limit=10" "" = true /\
  Forall (fun kv => fst kv ∈ capped_names)
    (form_params (binance_canonical (binance_full_query 1 "symbol=BTCUSDT&limit=10") "")).
Proof.
  split; [vm_compute; reflexivity|].
  destruct (capped_generic_reads_only "binance" "GET" "/fapi/v1/userTrades" "symbol=BTCUSDT&limit=10" "") as [_ [Hx|Hx]].
  - vm_compute. reflexivity.
  - apply Hx.
  - by destruct Hx.
Defined.

Example capped_order_blocked :
  generic_capped_op_allowed "binance" "GET" "/fapi/v1/openOrders" "symbol=BTCUSDT&side=BUY&quantity=9" "" = false.
Proof. vm_compute. reflexivity. Qed.
