(* ===== verification/Asterdex.v ===== *)
(** * Asterdex bodies (enclave/src/handler.rs)

    Asterdex signs the URL-encoded body verbatim, so the owner binding and the
    size cap are byte-level scans of it.  The theorems relate the scans to the
    way the venue splits the body into parameters: a value the scan reads is
    the only value the venue can read. *)

From S2P Require Import Prelude RustStr Crates Decimal Proto Venue PolicyGate Caps.

Open Scope string_scope.
Open Scope list_scope.
Open Scope Z_scope.

Definition ASTERDEX_MAX_BODY_LEN : Z := 8 * 1024.

(** [body.as_bytes().get(i - 1) == Some(b'&')] or [i == 0] *)
Definition at_param_start (body : string) (i : nat) : bool :=
  match i with O => true | S j => bool_decide (byte_at j body = Some "&"%char) end.

(** End of the value starting at [i]: the next ['&'] or the end. *)
Definition value_end (body : string) (i : nat) : nat :=
  match find "&" (str_drop i body) with Some j => (i + j)%nat | None => String.length body end.

Definition str_slice (s : string) (i j : nat) : string := str_take (j - i) (str_drop i s).

Section Asterdex.
Context `{Crates}.

Definition validate_signer (body derived : string) : result string () :=
  let expected_signer := "signer=0x" +:+ hex_encode derived in
  match find "signer=" body with
  | None => Err err_code.BAD_REQUEST
  | Some first =>
      if negb (at_param_start body first) then Err err_code.BAD_REQUEST
      else if negb (starts_with expected_signer (str_drop first body)) then Err err_code.BAD_REQUEST
      else
        let signer_value_end := (first + String.length expected_signer)%nat in
        if negb (signer_value_end =? String.length body)%nat &&
           negb (bool_decide (byte_at signer_value_end body = Some "&"%char)) then Err err_code.BAD_REQUEST
        else if contains "&signer=" (str_drop signer_value_end body) then Err err_code.BAD_REQUEST
        else Ok ()
  end.

Definition validate_nonce (body : string) : result string () :=
  match find "nonce=" body with
  | None => Err err_code.BAD_REQUEST
  | Some first =>
      if negb (at_param_start body first) then Err err_code.BAD_REQUEST
      else
        let nonce_value_start := (first + 6)%nat in
        let nonce_end := value_end body nonce_value_start in
        let nonce_value := str_slice body nonce_value_start nonce_end in
        if (String.length nonce_value <? 13)%nat then Err err_code.BAD_REQUEST
        else if negb (bytes_all is_ascii_digit nonce_value) then Err err_code.BAD_REQUEST
        else if contains "&nonce=" (str_drop nonce_end body) then Err err_code.BAD_REQUEST
        else Ok ()
  end.

Definition validate_asterdex_body (body derived : string) : result string () :=
  if ASTERDEX_MAX_BODY_LEN <? Z.of_nat (String.length body) then Err err_code.BAD_REQUEST
  else _ ← validate_signer body derived; validate_nonce body.

End Asterdex.

(** [key] includes its ['=']; [Err] is the [Err(())] of the source. *)
Definition asterdex_first_param (body key : string) : result () (option string) :=
  match find key body with
  | None => Ok None
  | Some start =>
      if negb (at_param_start body start) then Err ()
      else
        let value_start := (start + String.length key)%nat in
        let vend := value_end body value_start in
        if contains ("&" +:+ key) (str_drop vend body) then Err ()
        else Ok (Some (str_slice body value_start vend))
  end.

Fixpoint flag_loop (fuel : nat) (body name : string) (from : nat) : bool :=
  match fuel with
  | O => false
  | S fuel' =>
      match find name (str_drop from body) with
      | None => false
      | Some rel =>
          let start := (from + rel)%nat in
          let at_boundary := at_param_start body start in
          let terminated :=
            match byte_at (start + String.length name) body with
            | None => true
            | Some c => bool_decide (c = "="%char) || bool_decide (c = "&"%char)
            end in
          if at_boundary && terminated then true
          else flag_loop fuel' body name (start + String.length name)
      end
  end.

(** Each round moves past a non-empty name, so [length body + 1] rounds are
    enough. *)
Definition asterdex_flag_present (body name : string) : bool :=
  flag_loop (S (String.length body)) body name 0.

Definition ASTERDEX_ALLOWED_PARAMS : list string :=
  ["signer"; "nonce"; "symbol"; "side"; "type"; "quantity"; "price"; "timeInForce"; "reduceOnly"; "positionSide";
   "newClientOrderId"; "stopPrice"; "workingType"; "priceProtect"; "newOrderRespType"; "activationPrice";
   "callbackRate"; "orderId"; "origClientOrderId"; "startTime"; "endTime"; "limit"; "fromId"; "incomeType";
   "recvWindow"; "timestamp"].

Fixpoint check_segments (segs : list string) : result string () :=
  match segs with
  | [] => Ok ()
  | seg :: rest =>
      if is_empty seg then check_segments rest
      else match split_once "=" seg with
           | None => Err "asterdex_bare_flag_not_allowed"
           | Some (name, _) =>
               if str_in name ASTERDEX_ALLOWED_PARAMS then check_segments rest
               else Err "asterdex_param_not_allowed"
           end
  end.

Definition check_asterdex_body_allow (body : string) : result string () := check_segments (split "&" body).

Definition asterdex_floor_denies (require_policy : bool) (policy : option Policy) : bool :=
  require_policy && negb (bool_decide (is_Some (policy ≫= p_order_caps))).

Definition body_byte_ok (c : ascii) : bool :=
  is_ascii_alphanumeric c || bool_decide (c = "&"%char) || bool_decide (c = "="%char) || bool_decide (c = "."%char)
  || bool_decide (c = "_"%char) || bool_decide (c = "-"%char) || bool_decide (c = ":"%char) || bool_decide (c = "/"%char).

(** The price the notional cap uses: only a LIMIT order has one. *)
Definition asterdex_price (caps : list OrderAssetCap) (symbol body : string) : result SignResponse (option string) :=
  match find_cap caps symbol ≫= oc_max_notional with
  | None => Ok None
  | Some _ =>
      match asterdex_first_param body "type=" with
      | Ok (Some ty) =>
          if decide (ty = "LIMIT") then
            match asterdex_first_param body "price=" with
            | Ok px => Ok px
            | Err _ => deny err_code.BAD_REQUEST
            end
          else deny err_code.POLICY_DENIED
      | Ok None => deny err_code.POLICY_DENIED
      | Err _ => deny err_code.BAD_REQUEST
      end
  end.

Definition enforce_asterdex_size_cap (policy : option Policy) (body : string) : result SignResponse () :=
  match policy ≫= p_order_caps with
  | None => Ok ()
  | Some caps =>
      if negb (bytes_all body_byte_ok body) then deny err_code.BAD_REQUEST
      else if asterdex_flag_present body "closePosition" then deny err_code.POLICY_DENIED
      else if asterdex_flag_present body "batchOrders" then deny err_code.POLICY_DENIED
      else if negb (is_ok (check_asterdex_body_allow body)) then deny err_code.BAD_REQUEST
      else match asterdex_first_param body "quantity=" with
      | Err _ => deny err_code.BAD_REQUEST
      | Ok None => Ok ()
      | Ok (Some qty) =>
          match asterdex_first_param body "symbol=" with
          | Err _ => deny err_code.BAD_REQUEST
          | Ok None => deny err_code.POLICY_DENIED
          | Ok (Some symbol) =>
              price ← asterdex_price caps symbol body;
              enforce_order_cap policy symbol (Some qty) price
          end
      end
  end.

(** ** Searching *)

Lemma find_Some pat s n :
  find pat s = Some n -> exists a b, s = a +:+ pat +:+ b /\ String.length a = n /\
    forall a' b', s = a' +:+ pat +:+ b' -> (n <= String.length a')%nat.
Proof.
  revert n. induction s as [|c s IH]; intros n; cbn [find].
  - destruct (starts_with pat "") eqn:E; [|done]. intros [= <-]. apply starts_with_spec in E as [r Hr].
    exists "", r. split; [done|]. split; [done|]. intros. lia.
  - destruct (starts_with pat (String c s)) eqn:E.
    + intros [= <-]. apply starts_with_spec in E as [r Hr]. exists "", r. split; [done|]. split; [done|]. intros. lia.
    + destruct (find pat s) as [m|]; [|done]. intros [= <-]. destruct (IH m eq_refl) as (a & b & -> & Ha & Hmin).
      exists (String c a), b. split; [done|]. split; [simpl; lia|]. intros [|d a'] b' Heq.
      * assert (starts_with pat (String c (a +:+ pat +:+ b)) = true); [|congruence].
        apply starts_with_spec. by exists b'.
      * injection Heq as -> Heq. apply Hmin in Heq. simpl. lia.
Qed.

Lemma find_None pat s a b : find pat s = None -> s <> a +:+ pat +:+ b.
Proof.
  revert a. induction s as [|c s IH]; intros a; cbn [find].
  - destruct (starts_with pat "") eqn:E; [done|]. intros _ Heq. destruct a; [|done].
    assert (starts_with pat "" = true); [|congruence]. apply starts_with_spec. by exists b.
  - destruct (starts_with pat (String c s)) eqn:E; [done|]. destruct (find pat s); [done|]. intros _ Heq.
    destruct a as [|d a].
    + assert (starts_with pat (String c s) = true); [|congruence]. apply starts_with_spec. by exists b.
    + injection Heq as _ Heq. by apply (IH a eq_refl).
Qed.

Lemma contains_false pat s a b : contains pat s = false -> s <> a +:+ pat +:+ b.
Proof.
  unfold contains. rewrite bool_decide_eq_false. intros Hn. apply find_None.
  destruct (find pat s); [|done]. exfalso. eauto.
Qed.


(** A segment of a split starts the string or follows a separator. *)
Lemma split_segment_pos c s seg :
  seg ∈ split c s -> exists a b, s = a +:+ seg +:+ b /\ (a = "" \/ exists a0, a = a0 +:+ String c "").
Proof.
  remember (String.length s) as n eqn:Hn. revert s seg Hn.
  induction (lt_wf n) as [n _ IH]. intros s seg -> Hin.
  destruct (split_once c s) as [[l r]|] eqn:E.
  - apply split_once_Some in E as [-> Hl]. rewrite split_app in Hin by done.
    apply elem_of_cons in Hin as [->|Hin].
    + exists "", (String c r). split; [done|by left].
    + destruct (IH (String.length r)) with (s := r) (seg := seg) as (a & b & -> & Ha);
        [rewrite length_append; simpl; lia|done|done|].
      exists (l +:+ String c a), b. split; [by rewrite append_assoc|]. right.
      destruct Ha as [->|[a0 ->]]; [by exists l|]. exists (l +:+ String c a0). by rewrite append_assoc.
  - apply split_once_None in E. rewrite split_no_sep in Hin by done. apply list_elem_of_singleton in Hin as ->.
    exists "", "". rewrite append_nil_r. split; [done|by left].
Qed.

(** The loop never runs out of rounds: past the end of the body every number of
    rounds gives the same answer. *)
Lemma flag_loop_rounds body name f g from :
  name <> "" -> (String.length body < f + from)%nat -> (String.length body < g + from)%nat ->
  flag_loop f body name from = flag_loop g body name from.
Proof.
  intros Hname. assert (0 < String.length name)%nat as Hpos by (destruct name; cbn; [done|lia]).
  assert (forall from, (String.length body < from)%nat -> find name (str_drop from body) = None) as Hpast.
  { intros from' Hf. destruct (find name (str_drop from' body)) as [n|] eqn:E; [|done].
    apply find_Some in E as (a & b & He & _). apply (f_equal String.length) in He.
    rewrite str_drop_length, !length_append in He. lia. }
  revert g from. induction f as [|f IH]; intros [|g] from Hf Hg; cbn [flag_loop]; try rewrite Hpast by lia; try done.
  destruct (find name (str_drop from body)) as [rel|] eqn:E; [|done]. destruct (_ && _); [done|]. apply IH; lia.
Qed.

(** ** The scan agrees with the venue's parser *)

Lemma at_param_start_spec a x :
  at_param_start (a +:+ x) (String.length a) = true -> a = "" \/ exists a0, a = a0 +:+ "&".
Proof.
  destruct a as [|c a]; [by left|]. cbn [String.length at_param_start]. rewrite bool_decide_eq_true. intros Hb. right.
  revert c Hb. induction a as [|d a IH]; intros c Hb.
  - injection Hb as ->. by exists "".
  - destruct (IH d Hb) as [a0 ->]. by exists (String c a0).
Qed.

(** The value at a boundary: up to the next ['&']. *)
Lemma value_end_spec pre b :
  exists v rest, b = v +:+ rest /\ contains_char "&" v = false /\ (rest = "" \/ exists b', rest = "&" +:+ b') /\
    value_end (pre +:+ b) (String.length pre) = (String.length pre + String.length v)%nat.
Proof.
  unfold value_end. rewrite str_drop_app. destruct (find "&" b) as [j|] eqn:Ef.
  - apply find_Some in Ef as (v & b' & -> & <- & Hmin). exists v, ("&" +:+ b'). split; [done|]. split.
    + apply split_once_None. destruct (split_once "&" v) as [[l r]|] eqn:E; [|done].
      apply split_once_Some in E as [-> _]. specialize (Hmin l (r +:+ "&" +:+ b')).
      rewrite append_assoc in Hmin. specialize (Hmin eq_refl). rewrite length_append in Hmin. simpl in Hmin. lia.
    + split; [by right; exists b'|done].
  - exists b, "". rewrite append_nil_r, length_append. split; [done|]. split; [|split; [by left|done]].
    apply split_once_None. destruct (split_once "&" b) as [[l r]|] eqn:E; [|done].
    apply split_once_Some in E as [-> _]. by destruct (find_None "&" _ l r Ef).
Qed.

Lemma no_segment_before key a0 x n :
  (forall a' b', a0 +:+ x = a' +:+ key +:+ b' -> (n <= String.length a')%nat) -> (String.length a0 < n)%nat ->
  Forall (fun seg => starts_with key seg = false) (split "&" a0).
Proof.
  intros Hmin Hlt. apply Forall_forall. intros seg Hin. apply not_true_iff_false. intros [w ->]%starts_with_spec.
  apply split_segment_pos in Hin as (a' & b' & -> & _). specialize (Hmin a' (w +:+ b' +:+ x)).
  rewrite !append_assoc in Hmin. specialize (Hmin eq_refl). rewrite length_append in Hlt. lia.
Qed.

Lemma no_segment_after key b' :
  contains ("&" +:+ key) ("&" +:+ b') = false -> Forall (fun seg => starts_with key seg = false) (split "&" b').
Proof.
  intros Hc. apply Forall_forall. intros seg Hin. apply not_true_iff_false. intros [w ->]%starts_with_spec.
  apply split_segment_pos in Hin as (a & b & -> & [->|[a0 ->]]).
  - refine (contains_false _ _ "" (w +:+ b) Hc _). cbn. by rewrite append_assoc.
  - refine (contains_false _ _ ("&" +:+ a0) (w +:+ b) Hc _). cbn. rewrite !append_assoc. done.
Qed.

Lemma filter_none key segs :
  Forall (fun seg => starts_with key seg = false) segs -> List.filter (starts_with key) segs = [].
Proof. induction 1 as [|seg segs Hs _ IH]; [done|]. cbn. by rewrite Hs. Qed.

Lemma starts_with_app p s : starts_with p (p +:+ s) = true.
Proof. apply starts_with_spec. eauto. Qed.

Lemma asterdex_first_param_spec body key :
  contains_char "&" key = false ->
  match asterdex_first_param body key with
  | Ok None => List.filter (starts_with key) (split "&" body) = []
  | Ok (Some v) => List.filter (starts_with key) (split "&" body) = [key +:+ v] /\ contains_char "&" v = false
  | Err _ => True
  end.
Proof.
  intros Hkey. unfold asterdex_first_param. destruct (find key body) as [start|] eqn:Ef.
  2:{ apply filter_none, Forall_forall. intros seg Hin. apply not_true_iff_false. intros [w ->]%starts_with_spec.
      apply split_segment_pos in Hin as (a & b & Heq & _). rewrite append_assoc in Heq. by apply (find_None _ _ _ _ Ef) in Heq. }
  apply find_Some in Ef as (a & b & -> & <- & Hmin).
  destruct (at_param_start _ _) eqn:Eb; cbn [negb]; [|done]. apply at_param_start_spec in Eb.
  rewrite <- length_append. set (pre := a +:+ key). replace (a +:+ key +:+ b) with (pre +:+ b) in * by apply append_assoc.
  destruct (value_end_spec pre b) as (v & rest & -> & Hv & Hrest & ->).
  assert (str_drop (String.length pre + String.length v) (pre +:+ v +:+ rest) = rest) as ->.
  { rewrite <- length_append, <- append_assoc. apply str_drop_app. }
  assert (str_slice (pre +:+ v +:+ rest) (String.length pre) (String.length pre + String.length v) = v) as ->.
  { unfold str_slice. rewrite str_drop_app. replace (_ + _ - _)%nat with (String.length v) by lia. apply str_take_app. }
  destruct (contains ("&" +:+ key) rest) eqn:Ec; [done|]. split; [|done].
  assert (contains_char "&" (key +:+ v) = false) as Hkv by (by rewrite contains_char_app, Hkey, Hv).
  assert (List.filter (starts_with key) (split "&" (key +:+ v +:+ rest)) = [key +:+ v]) as Htail.
  { rewrite <- append_assoc. destruct Hrest as [->|[b' ->]].
    - rewrite append_nil_r, split_no_sep by done. cbn [List.filter]. by rewrite starts_with_app.
    - change ("&" +:+ b') with (String "&" b'). rewrite split_app by done. cbn [List.filter].
      rewrite starts_with_app, filter_none; [done|].
      by apply no_segment_after. }
  subst pre. rewrite append_assoc. destruct Eb as [->|[a0 ->]]; [exact Htail|].
  rewrite append_assoc. change ("&" +:+ ?x) with (String "&" x).
  rewrite split_cat, List.filter_app, Htail, filter_none; [done|].
  eapply (no_segment_before key a0 (String "&" (key +:+ v +:+ rest)) (S (String.length a0))); [|lia].
  intros a' b' Heq. specialize (Hmin a' b'). rewrite <- Heq, !append_assoc, length_append in Hmin.
  specialize (Hmin eq_refl). simpl in Hmin. lia.
Qed.

(** The values the venue reads for a name. *)
Definition values_of (k : string) (segs : list string) : list string :=
  snd <$> List.filter (fun kv => bool_decide (fst kv = k)) (read_pair <$> segs).
Definition param_values (k body : string) : list string := values_of k (split "&" body).

Definition segs_ok (segs : list string) : Prop :=
  Forall (fun seg => seg = "" \/ exists n v, split_once "=" seg = Some (n, v) /\ n ∈ ASTERDEX_ALLOWED_PARAMS) segs.

Lemma check_segments_ok segs : check_segments segs = Ok () -> segs_ok segs.
Proof.
  induction segs as [|seg rest IH]; cbn [check_segments]; [constructor|].
  destruct (is_empty seg) eqn:Ee.
  - intros Hc. constructor; [left; by destruct seg|by apply IH].
  - destruct (split_once "=" seg) as [[n v]|] eqn:Es; [|done].
    destruct (str_in n ASTERDEX_ALLOWED_PARAMS) eqn:Ei; [|done]. intros Hc. apply str_in_spec in Ei.
    constructor; [right; eauto|by apply IH].
Qed.

Lemma values_of_segments k segs :
  k <> "" -> contains_char "=" k = false -> segs_ok segs ->
  (fun v => k +:+ "=" +:+ v) <$> values_of k segs = List.filter (starts_with (k +:+ "=")) segs.
Proof.
  intros Hk Heq. induction 1 as [|seg segs Hseg _ IH]; [done|]. unfold values_of in *.
  cbn [fmap list_fmap List.filter].
  destruct Hseg as [->|(n & v & Hs & _)].
  - change (read_pair "") with ("", ""). cbn [fst]. rewrite (bool_decide_eq_false_2 ("" = k)) by done.
    destruct (starts_with (k +:+ "=") "") eqn:E; [|done]. apply starts_with_spec in E as [r Hr]. by destruct k.
  - assert (read_pair seg = (n, v)) as -> by (unfold read_pair; by rewrite Hs).
    apply split_once_Some in Hs as [-> Hn]. cbn [fst].
    destruct (decide (n = k)) as [->|Hne].
    + rewrite bool_decide_eq_true_2 by done.
      replace (k +:+ String "=" v) with ((k +:+ "=") +:+ v) by by rewrite append_assoc.
      rewrite starts_with_app. cbn [fmap list_fmap snd]. rewrite <- append_assoc. f_equal. exact IH.
    + rewrite bool_decide_eq_false_2 by done.
      destruct (starts_with (k +:+ "=") (n +:+ String "=" v)) eqn:E; [|exact IH].
      apply starts_with_spec in E as [r Hr]. rewrite append_assoc in Hr.
      apply (f_equal (split_once "=")) in Hr. cbn [String.append] in Hr. rewrite !split_once_app in Hr by done. congruence.
Qed.

Lemma first_param_values k body :
  k <> "" -> contains_char "=" k = false -> contains_char "&" k = false -> segs_ok (split "&" body) ->
  match asterdex_first_param body (k +:+ "=") with
  | Ok None => param_values k body = []
  | Ok (Some v) => param_values k body = [v]
  | Err _ => True
  end.
Proof.
  intros H1 H2 H3 Hs. pose proof (asterdex_first_param_spec body (k +:+ "=")) as Hf.
  rewrite contains_char_app, H3 in Hf. specialize (Hf eq_refl).
  pose proof (values_of_segments k _ H1 H2 Hs) as Hv. unfold param_values.
  destruct (asterdex_first_param body (k +:+ "=")) as [[v|]|]; [| |done].
  - destruct Hf as [Hf _]. rewrite Hf in Hv. destruct (values_of k (split "&" body)) as [|x [|y l]]; try done.
    cbn in Hv. injection Hv as Hv. rewrite append_assoc in Hv. apply append_inj_prefix in Hv. by injection Hv as ->.
  - rewrite Hf in Hv. by destruct (values_of k (split "&" body)).
Qed.

Lemma asterdex_size_within_cap_spec p caps body :
  p_order_caps p = Some caps -> enforce_asterdex_size_cap (Some p) body = Ok () ->
  Forall (fun kv => fst kv = "" \/ fst kv ∈ ASTERDEX_ALLOWED_PARAMS) (form_params body) /\
  (param_values "quantity" body = [] \/
   exists q s price, param_values "quantity" body = [q] /\ param_values "symbol" body = [s] /\
     within_order_cap (Some p) s q price /\
     forall px, price = Some px -> param_values "price" body = [px] /\ param_values "type" body = ["LIMIT"]).
Proof.
  intros Hcaps. unfold enforce_asterdex_size_cap. cbn [mbind option_bind]. rewrite Hcaps. unfold deny.
  destruct (bytes_all body_byte_ok body); cbn [negb]; [|done].
  destruct (asterdex_flag_present body "closePosition"); [done|].
  destruct (asterdex_flag_present body "batchOrders"); [done|].
  destruct (check_asterdex_body_allow body) as [[]|] eqn:Ea; cbn [is_ok negb]; [|done].
  apply check_segments_ok in Ea. intros Hx. split.
  { unfold form_params. apply Forall_fmap. eapply Forall_impl; [exact Ea|]. intros seg [->|(n & v & Hs & Hin)]; [by left|].
    right. unfold compose, read_pair. by rewrite Hs. }
  pose proof (fun k H1 H2 H3 => first_param_values k body H1 H2 H3 Ea) as Hfp.
  pose proof (Hfp "quantity" ltac:(done) eq_refl eq_refl) as Hq. cbn [String.append] in Hq.
  destruct (asterdex_first_param body "quantity=") as [[q|]|]; [|by left|done]. right.
  pose proof (Hfp "symbol" ltac:(done) eq_refl eq_refl) as Hs. cbn [String.append] in Hs.
  destruct (asterdex_first_param body "symbol=") as [[s|]|]; [|done|done].
  apply bind_ok_inv in Hx as (price & Hp & Hx). apply enforce_order_cap_spec in Hx.
  exists q, s, price. do 3 (split; [done|]). intros px ->. unfold asterdex_price, deny in Hp.
  destruct (find_cap caps s ≫= oc_max_notional); [|done].
  pose proof (Hfp "type" ltac:(done) eq_refl eq_refl) as Ht. cbn [String.append] in Ht.
  destruct (asterdex_first_param body "type=") as [[ty|]|]; [|done|done]. destruct (decide (ty = "LIMIT")) as [->|]; [|done].
  pose proof (Hfp "price" ltac:(done) eq_refl eq_refl) as Hpx. cbn [String.append] in Hpx.
  destruct (asterdex_first_param body "price=") as [px'|]; [|done]. injection Hp as ->. done.
Qed.

(** When a capped Asterdex body passes, every parameter the venue reads
    is a known one (so neither closePosition nor batchOrders appears), and
    either the body carries no quantity, or exactly one quantity and one
    symbol, within the cap; when that cap bounds the notional, with exactly
    one type, LIMIT, and exactly one price.  No duplicate, prefix, case or
    separator trick makes the venue read a size the cap did not see. *)
Theorem asterdex_size_within_cap p caps body :
  p_order_caps p = Some caps -> enforce_asterdex_size_cap (Some p) body = Ok () ->
  Forall (fun kv => fst kv = "" \/ fst kv ∈ ASTERDEX_ALLOWED_PARAMS) (form_params body) /\
  (param_values "quantity" body = [] \/
   exists q s price, param_values "quantity" body = [q] /\ param_values "symbol" body = [s] /\
     within_order_cap (Some p) s q price /\
     forall px, price = Some px -> param_values "price" body = [px] /\ param_values "type" body = ["LIMIT"]).
Proof. apply asterdex_size_within_cap_spec. Qed.

Definition aster_policy : Policy := with_caps None (Some [{| oc_symbol := "BTCUSDT"; oc_max_qty := "2";
  oc_max_notional := Some "250" |}]).
Definition aster_body : string := "symbol=BTCUSDT&side=BUY&type=LIMIT&quantity=1.5&price=100".

Example aster_over_notional :
  enforce_asterdex_size_cap (Some aster_policy) "symbol=BTCUSDT&side=BUY&type=LIMIT&quantity=1.5&price=200"
  = Err (resp_err err_code.NOTIONAL_OVER_CAP).
Proof. vm_compute. reflexivity. Qed.
Example aster_market_denied :
  enforce_asterdex_size_cap (Some aster_policy) "symbol=BTCUSDT&side=BUY&type=MARKET&quantity=1&price=1"
  = Err (resp_err err_code.POLICY_DENIED).
Proof. vm_compute. reflexivity. Qed.

Lemma asterdex_size_within_cap_witness :
  param_values "quantity" aster_body = [] \/
  exists q s price, param_values "quantity" aster_body = [q] /\ param_values "symbol" aster_body = [s] /\
    within_order_cap (Some aster_policy) s q price /\
    forall px, price = Some px -> param_values "price" aster_body = [px] /\ param_values "type" aster_body = ["LIMIT"].
Proof.
  refine (proj2 (asterdex_size_within_cap aster_policy _ aster_body eq_refl _)). vm_compute. reflexivity.
Defined.

(** ** The owner binding *)

Section Owner.
Context `{Crates, !HexLaws}.

Lemma hex_no_amp s : contains_char "&" (hex_encode s) = false.
Proof. apply contains_char_all with is_ascii_hexdigit; [done|]. apply hex_encode_hex. Qed.

Lemma byte_at_app a b n : byte_at (String.length a + n) (a +:+ b) = byte_at n b.
Proof. apply get_append. Qed.

Lemma validate_signer_param body derived :
  validate_signer body derived = Ok () ->
  asterdex_first_param body "signer=" = Ok (Some ("0x" +:+ hex_encode derived)).
Proof.
  unfold validate_signer, asterdex_first_param. set (val := "0x" +:+ hex_encode derived).
  change ("signer=0x" +:+ hex_encode derived) with ("signer=" +:+ val).
  destruct (find "signer=" body) as [first|] eqn:Ef; [|done].
  apply find_Some in Ef as (a & b & -> & <- & _). destruct (at_param_start _ _); cbn [negb]; [|done].
  rewrite str_drop_app. destruct (starts_with ("signer=" +:+ val) ("signer=" +:+ b)) eqn:Es; cbn [negb]; [|done].
  apply starts_with_spec in Es as [rest Hr]. rewrite append_assoc in Hr. apply append_inj_prefix in Hr as ->.
  set (pre := a +:+ "signer="). replace (a +:+ "signer=" +:+ val +:+ rest) with (pre +:+ val +:+ rest) by apply append_assoc.
  replace (String.length a + String.length ("signer=" +:+ val))%nat with (String.length pre + String.length val)%nat
    by (unfold pre; rewrite !length_append; lia).
  replace (String.length a + String.length "signer=")%nat with (String.length pre) by (unfold pre; by rewrite length_append).
  assert (contains_char "&" val = false) as Hval by apply (hex_no_amp derived).
  rewrite byte_at_app. rewrite <- (Nat.add_0_r (String.length val)), byte_at_app, Nat.add_0_r.
  destruct (negb _ && negb _) eqn:Eend; [done|].
  assert (rest = "" \/ exists r, rest = String "&" r) as Hrest.
  { destruct rest as [|c r]; [by left|]. right. apply andb_false_iff in Eend as [E|E].
    - apply negb_false_iff, Nat.eqb_eq in E. rewrite !length_append in E. simpl in E. lia.
    - apply negb_false_iff, bool_decide_eq_true in E. injection E as ->. by exists r. }
  assert (value_end (pre +:+ val +:+ rest) (String.length pre) = (String.length pre + String.length val)%nat) as Hend.
  { destruct (value_end_spec pre (val +:+ rest)) as (v & r & Heq & Hv & Hr & ->). f_equal. f_equal.
    assert (split "&" (val +:+ rest) = split "&" (v +:+ r)) as Hsplit by by rewrite Heq.
    assert (forall x y, contains_char "&" x = false -> (y = "" \/ exists z, y = String "&" z) ->
      head (split "&" (x +:+ y)) = Some x) as Hh.
    { intros x y Hx [->|[z ->]]; [by rewrite append_nil_r, split_no_sep|by rewrite split_app]. }
    pose proof (Hh val rest Hval Hrest) as H1. pose proof (Hh v r Hv Hr) as H2. congruence. }
  rewrite Hend. replace (pre +:+ val +:+ rest) with ((pre +:+ val) +:+ rest) by apply append_assoc.
  rewrite <- length_append, str_drop_app. change ("&" +:+ "signer=") with "&signer=".
  destruct (contains "&signer=" rest); [done|]. intros _. do 2 f_equal. unfold str_slice.
  rewrite append_assoc, str_drop_app, length_append. replace (_ + _ - _)%nat with (String.length val) by lia. apply str_take_app.
Qed.

Lemma validate_nonce_param body :
  validate_nonce body = Ok () -> exists v, asterdex_first_param body "nonce=" = Ok (Some v) /\
    (13 <= String.length v)%nat /\ bytes_all is_ascii_digit v = true.
Proof using Type.
  unfold validate_nonce, asterdex_first_param. destruct (find "nonce=" body) as [first|]; [|done].
  destruct (at_param_start body first); cbn [negb]; [|done]. change (String.length "nonce=") with 6%nat.
  set (v := str_slice _ _ _). destruct (String.length v <? 13)%nat eqn:El; [done|]. apply Nat.ltb_ge in El.
  destruct (bytes_all is_ascii_digit v) eqn:Ed; cbn [negb]; [|done]. change ("&" +:+ "nonce=") with "&nonce=".
  destruct (contains _ _); [done|]. eauto.
Qed.

Lemma asterdex_owner_bound_spec body derived :
  validate_asterdex_body body derived = Ok () ->
  List.filter (starts_with "signer=") (split "&" body) = ["signer=0x" +:+ hex_encode derived] /\
  exists nonce, List.filter (starts_with "nonce=") (split "&" body) = ["nonce=" +:+ nonce] /\
    (13 <= String.length nonce)%nat /\ bytes_all is_ascii_digit nonce = true.
Proof.
  unfold validate_asterdex_body. destruct (_ <? _); [done|]. intros Hx. apply bind_ok_inv in Hx as ([] & Hs & Hn).
  apply validate_signer_param in Hs. apply validate_nonce_param in Hn as (v & Hn & Hl & Hd).
  pose proof (asterdex_first_param_spec body "signer=" eq_refl) as H1. rewrite Hs in H1.
  pose proof (asterdex_first_param_spec body "nonce=" eq_refl) as H2. rewrite Hn in H2.
  split; [apply H1|]. exists v. split; [apply H2|done].
Qed.

(** A body passes the owner check only if the venue reads exactly one
    signer, the address of the key that signs, and exactly one nonce, of at
    least 13 digits. *)
Theorem asterdex_owner_bound body derived :
  validate_asterdex_body body derived = Ok () ->
  List.filter (starts_with "signer=") (split "&" body) = ["signer=0x" +:+ hex_encode derived] /\
  exists nonce, List.filter (starts_with "nonce=") (split "&" body) = ["nonce=" +:+ nonce] /\
    (13 <= String.length nonce)%nat /\ bytes_all is_ascii_digit nonce = true.
Proof. apply asterdex_owner_bound_spec. Qed.
End Owner.

Definition aster_owner : string := be_bytes 20 7.
Definition aster_owner_body : string :=
  "symbol=BTCUSDT&nonce=1700000000000000&signer=0x" +:+ @hex_encode demo_crates aster_owner.

Lemma asterdex_owner_bound_witness :
  List.filter (starts_with "signer=") (split "&" aster_owner_body) =
    ["signer=0x" +:+ @hex_encode demo_crates aster_owner].
Proof.
  refine (proj1 (@asterdex_owner_bound demo_crates demo_hex_laws aster_owner_body aster_owner _)).
  vm_compute. reflexivity.
Defined.
