(* ===== verification/Allowance.v ===== *)
(** * Permit2 allowances and Hyperliquid action shapes (enclave/src/handler.rs) *)

From S2P Require Import Prelude RustStr Crates Decimal Evm Proto PolicyGate Caps.

Open Scope string_scope.
Open Scope list_scope.
Open Scope Z_scope.

(** ** Permit2 *)

Definition UINT48_MAX : Z := 2 ^ 48 - 1.

(** The request's own shape: the 32-byte word of the amount. *)
Definition permit2_request_shape (p2 : Permit2Request) : result () (list Z) :=
  if (UINT48_MAX <? q_expiration p2) || (UINT48_MAX <? q_nonce p2) then Err ()
  else
    amount ← map_err (fun _ => ()) (parse_u256_be_decimal (q_amount p2));
    if existsb (fun b => negb (b =? 0)) (take 12 amount) then Err ()
    else
      _ ← map_err (fun _ => ()) (parse_u256_be_decimal (q_sig_deadline p2));
      Ok amount.

Section Permit2.
Context `{Crates}.

Fixpoint permit2_scan (needle : string) (items : list string) (found : bool) : result SignResponse bool :=
  match items with
  | [] => Ok found
  | it :: rest =>
      match parse_evm_address it with
      | Ok a => permit2_scan needle rest (if decide (a = needle) then true else found)
      | Err _ => deny err_code.POLICY_REQUIRED
      end
  end.

Definition permit2_allow_list (items : option (list string)) (needle : string) : result SignResponse () :=
  match items with
  | None => deny err_code.POLICY_REQUIRED
  | Some [] => deny err_code.POLICY_REQUIRED
  | Some items =>
      found ← permit2_scan needle items false;
      if (found : bool) then Ok () else deny err_code.POLICY_DENIED
  end.

Definition infinite_allowance (amount : list Z) : bool :=
  forallb (fun b => b =? 0) (take 12 amount) && forallb (fun b => b =? 255) (drop 12 amount).

Definition enforce_permit2_allowance (policy : option Policy) (req_chain_id : Z)
    (verifying_contract token spender : string) (amount : list Z) (expiration : Z) : result SignResponse () :=
  p ← ok_or policy (resp_err err_code.POLICY_REQUIRED);
  c ← ok_or (p_permit2 p) (resp_err err_code.POLICY_REQUIRED);
  _ ← (if infinite_allowance amount then deny err_code.POLICY_DENIED else Ok ());
  want_chain ← ok_or (pp_chain_id c) (resp_err err_code.POLICY_REQUIRED);
  _ ← (if want_chain =? req_chain_id then Ok () else deny err_code.POLICY_DENIED);
  want_contract ← ok_or (pp_verifying_contract c) (resp_err err_code.POLICY_REQUIRED);
  _ ← match parse_evm_address want_contract with
      | Ok a => if decide (a = verifying_contract) then Ok () else deny err_code.POLICY_DENIED
      | Err _ => deny err_code.POLICY_REQUIRED
      end;
  _ ← permit2_allow_list (pp_allowed_tokens c) token;
  _ ← permit2_allow_list (pp_allowed_spenders c) spender;
  max ← ok_or (pp_max_amount c) (resp_err err_code.POLICY_REQUIRED);
  max_word ← map_err (fun _ => resp_err err_code.POLICY_REQUIRED) (parse_u256_be_decimal max);
  _ ← (if le_be amount max_word then Ok () else deny err_code.POLICY_DENIED);
  max_exp ← ok_or (pp_max_expiration c) (resp_err err_code.POLICY_REQUIRED);
  if max_exp <? expiration then deny err_code.POLICY_DENIED else Ok ().

(** ** What an allowance grant is bounded by *)

Lemma permit2_scan_ok needle items found b :
  permit2_scan needle items found = Ok b ->
  Forall (fun e => is_ok (parse_evm_address e) = true) items /\
  (b = true -> found = true \/ Exists (fun e => parse_evm_address e = Ok needle) items).
Proof.
  revert found. induction items as [|it rest IH]; intros found; cbn [permit2_scan]; [intros [= ->]; auto|].
  destruct (parse_evm_address it) as [a|e] eqn:Ea; [|done]. intros Hs. apply IH in Hs as [Hall Hb].
  split; [constructor; [by rewrite Ea|done]|]. intros ->. destruct (Hb eq_refl) as [Hf|He].
  - case_decide; [subst; right; by apply Exists_cons_hd|by left].
  - right. by apply Exists_cons_tl.
Qed.

Lemma permit2_allow_list_ok items needle :
  permit2_allow_list items needle = Ok () -> exists l, items = Some l /\ listed needle l.
Proof.
  unfold permit2_allow_list, deny. destruct items as [[|x l]|]; [done| |done]. intros Hx.
  apply bind_ok_inv in Hx as (b & Hs & Hb). destruct b; [|done]. apply permit2_scan_ok in Hs as [Hall He].
  exists (x :: l). split; [done|]. split; [done|]. by destruct (He eq_refl).
Qed.

(** The value [uint160::MAX] stands for "unlimited". *)
Lemma infinite_allowance_value amount :
  is_bytes amount -> length amount = 32%nat -> be_val amount = 2 ^ 160 - 1 -> infinite_allowance amount = true.
Proof.
  intros Hb Hl Hv. set (w := replicate 12 0 ++ replicate 20 255).
  assert (is_bytes w) as Hw by (apply Forall_app; split; apply Forall_replicate; unfold is_byte; lia).
  assert (lex_cmp amount w = Eq) as He.
  { rewrite lex_cmp_be by (done || (unfold w; rewrite length_app, !length_replicate; lia)).
    rewrite Hv. apply Z.compare_eq_iff. reflexivity. }
  assert (forall l r, lex_cmp l r = Eq -> l = r) as Heq.
  { induction l as [|x l IH]; intros [|y r]; cbn [lex_cmp]; try done.
    destruct (Z.compare_spec x y); try done. intros ?%IH. congruence. }
  apply Heq in He as ->. reflexivity.
Qed.

Lemma permit2_allowance_bounded_spec policy chain contract token spender amount expiration :
  is_bytes amount -> length amount = 32%nat ->
  enforce_permit2_allowance policy chain contract token spender amount expiration = Ok () ->
  exists p c addr tokens spenders max w max_exp,
    policy = Some p /\ p_permit2 p = Some c /\ pp_chain_id c = Some chain /\
    pp_verifying_contract c = Some addr /\ parse_evm_address addr = Ok contract /\
    pp_allowed_tokens c = Some tokens /\ listed token tokens /\
    pp_allowed_spenders c = Some spenders /\ listed spender spenders /\
    pp_max_amount c = Some max /\ parse_u256_be_decimal max = Ok w /\ be_val amount <= be_val w /\
    be_val amount <> 2 ^ 160 - 1 /\ pp_max_expiration c = Some max_exp /\ expiration <= max_exp.
Proof.
  intros Hb Hl. unfold enforce_permit2_allowance, deny. intros Hx.
  apply bind_ok_inv in Hx as (p & Hp%ok_or_inv & Hx). apply bind_ok_inv in Hx as (c & Hc%ok_or_inv & Hx).
  apply bind_ok_inv in Hx as (u0 & Hinf & Hx). destruct (infinite_allowance amount) eqn:Ei; [done|].
  apply bind_ok_inv in Hx as (ch & Hch%ok_or_inv & Hx). apply bind_ok_inv in Hx as (u1 & Hceq & Hx).
  destruct (ch =? chain) eqn:Ech; [|done]. apply Z.eqb_eq in Ech as ->.
  apply bind_ok_inv in Hx as (addr & Haddr%ok_or_inv & Hx). apply bind_ok_inv in Hx as (u2 & Hpa & Hx).
  destruct (parse_evm_address addr) as [a|] eqn:Ea; [|done]. destruct (decide (a = contract)) as [->|]; [|done].
  apply bind_ok_inv in Hx as ([] & Ht & Hx). apply permit2_allow_list_ok in Ht as (tokens & Ht & Htl).
  apply bind_ok_inv in Hx as ([] & Hs & Hx). apply permit2_allow_list_ok in Hs as (spenders & Hs & Hsl).
  apply bind_ok_inv in Hx as (max & Hmax%ok_or_inv & Hx). apply bind_ok_inv in Hx as (w & Hw & Hx).
  destruct (parse_u256_be_decimal max) as [w'|] eqn:Ew; [|done]. injection Hw as ->.
  destruct (u256_bytes _ _ Ew) as [Hwb Hwl].
  apply bind_ok_inv in Hx as (u3 & Hle & Hx). destruct (le_be amount w) eqn:Ele; [|done].
  apply le_be_spec in Ele; [|done..]. apply bind_ok_inv in Hx as (me & Hme%ok_or_inv & Hx).
  destruct (me <? expiration) eqn:Ex; [done|].
  exists p, c, addr, tokens, spenders, max, w, me. do 12 (split; [done|]). split; [|split; [done|lia]].
  intros Hv. by rewrite (infinite_allowance_value amount Hb Hl Hv) in Ei.
Qed.

(** A Permit2 allowance is signable only under a complete clause: the
    pinned chain and contract, a listed token and spender from fully
    well-formed lists, an amount at most the maximum and never the unlimited
    value, and an expiration at most the maximum; a missing clause or field
    refuses. *)
Theorem permit2_allowance_bounded policy chain contract token spender amount expiration :
  is_bytes amount -> length amount = 32%nat ->
  enforce_permit2_allowance policy chain contract token spender amount expiration = Ok () ->
  exists p c addr tokens spenders max w max_exp,
    policy = Some p /\ p_permit2 p = Some c /\ pp_chain_id c = Some chain /\
    pp_verifying_contract c = Some addr /\ parse_evm_address addr = Ok contract /\
    pp_allowed_tokens c = Some tokens /\ listed token tokens /\
    pp_allowed_spenders c = Some spenders /\ listed spender spenders /\
    pp_max_amount c = Some max /\ parse_u256_be_decimal max = Ok w /\ be_val amount <= be_val w /\
    be_val amount <> 2 ^ 160 - 1 /\ pp_max_expiration c = Some max_exp /\ expiration <= max_exp.
Proof. apply permit2_allowance_bounded_spec. Qed.

End Permit2.

Definition demo_permit2_policy : Policy := with_caps (Some
  {| pp_chain_id := Some 1; pp_verifying_contract := Some demo_addr; pp_allowed_tokens := Some [demo_addr];
     pp_allowed_spenders := Some [demo_addr]; pp_max_amount := Some "500"; pp_max_expiration := Some 1800000000 |}) None.

Lemma permit2_allowance_bounded_witness :
  exists p c addr tokens spenders max w max_exp,
    Some demo_permit2_policy = Some p /\ p_permit2 p = Some c /\ pp_chain_id c = Some 1 /\
    pp_verifying_contract c = Some addr /\ @parse_evm_address demo_crates addr = Ok (be_bytes 20 0) /\
    pp_allowed_tokens c = Some tokens /\ @listed demo_crates (be_bytes 20 0) tokens /\
    pp_allowed_spenders c = Some spenders /\ @listed demo_crates (be_bytes 20 0) spenders /\
    pp_max_amount c = Some max /\ parse_u256_be_decimal max = Ok w /\ be_val (replicate 31 0 ++ [9]) <= be_val w /\
    be_val (replicate 31 0 ++ [9]) <> 2 ^ 160 - 1 /\ pp_max_expiration c = Some max_exp /\ 1700000000 <= max_exp.
Proof.
  apply (@permit2_allowance_bounded demo_crates (Some demo_permit2_policy) 1 (be_bytes 20 0) (be_bytes 20 0)
    (be_bytes 20 0) (replicate 31 0 ++ [9]) 1700000000).
  - apply Forall_app. split; [apply Forall_replicate|apply Forall_singleton]; unfold is_byte; lia.
  - reflexivity.
  - vm_compute. reflexivity.
Defined.

(** ** Hyperliquid action shapes *)

Definition HL_MAX_ENTRIES_PER_ACTION : nat := 64.

Definition hl_entry_arrays_within_ceiling (obj : json) : bool :=
  forallb (fun field =>
    match jget field obj ≫= as_array with
    | Some entries => (length entries <=? HL_MAX_ENTRIES_PER_ACTION)%nat
    | None => true
    end) ["orders"; "cancels"].

(** The shape both validators check, for a type and its entry array. *)
Definition validate_action (ty field : string) (action : json) : bool :=
  match as_object action with
  | None => false
  | Some _ =>
      match jget "type" action ≫= as_str with
      | None => false
      | Some action_type =>
          if negb (bool_decide (action_type = ty)) then false
          else match jget field action ≫= as_array with
               | None => false
               | Some entries =>
                   if negb (hl_entry_arrays_within_ceiling action) then false
                   else match entries with [] => false | _ => true end
               end
      end
  end.
Definition validate_order_action : json -> bool := validate_action "order" "orders".
Definition validate_cancel_action : json -> bool := validate_action "cancel" "cancels".

Lemma hl_action_bounded_spec action :
  validate_order_action action = true \/ validate_cancel_action action = true ->
  (exists e rest, (jget "orders" action ≫= as_array = Some (e :: rest)) \/
                  (jget "cancels" action ≫= as_array = Some (e :: rest))) /\
  forall field entries, field = "orders" \/ field = "cancels" ->
    jget field action ≫= as_array = Some entries -> (length entries <= 64)%nat.
Proof.
  intros Hv. assert (hl_entry_arrays_within_ceiling action = true /\
    exists e rest, (jget "orders" action ≫= as_array = Some (e :: rest)) \/
                   (jget "cancels" action ≫= as_array = Some (e :: rest))) as [Hc He].
  { destruct Hv as [Hv|Hv]; unfold validate_order_action, validate_cancel_action, validate_action in Hv;
      repeat step_in Hv; try done;
      match goal with Hn : negb (hl_entry_arrays_within_ceiling action) = false |- _ =>
        apply negb_false_iff in Hn; eauto 10 end. }
  split; [done|]. intros field entries Hf Hj. unfold hl_entry_arrays_within_ceiling in Hc.
  rewrite forallb_Forall, Forall_forall in Hc. specialize (Hc field). rewrite Hj in Hc.
  apply Nat.leb_le, Hc. destruct Hf as [-> | ->]; set_solver.
Qed.

(** An action of either shape has a non-empty entry array of its type,
    and neither entry array, declared or stray, exceeds 64 entries. *)
Theorem hl_action_bounded action :
  validate_order_action action = true \/ validate_cancel_action action = true ->
  (exists e rest, (jget "orders" action ≫= as_array = Some (e :: rest)) \/
                  (jget "cancels" action ≫= as_array = Some (e :: rest))) /\
  forall field entries, field = "orders" \/ field = "cancels" ->
    jget field action ≫= as_array = Some entries -> (length entries <= 64)%nat.
Proof. apply hl_action_bounded_spec. Qed.

Lemma hl_action_bounded_witness :
  validate_order_action (demo_hl_action [demo_hl_order "1" "1"]) = true /\
  (length [demo_hl_order "1" "1"] <= 64)%nat.
Proof.
  split; [reflexivity|].
  exact (proj2 (hl_action_bounded (demo_hl_action [demo_hl_order "1" "1"]) (or_introl eq_refl)) "orders"
    [demo_hl_order "1" "1"] (or_introl eq_refl) eq_refl).
Defined.
