(* ===== verification/Stores.v ===== *)
(** * Pins and envelopes (enclave/src/tofu.rs, envelope.rs)

    The trust-on-first-use pins of policy signers and the sealed envelope
    format.  Poisoned locks (a panicked thread) are outside the model. *)

From S2P Require Import Prelude RustStr Crates Proto Registry.

Open Scope string_scope.
Open Scope list_scope.
Open Scope Z_scope.

(** ** Pins (tofu.rs) *)

Definition MAX_PINS : Z := 256.

Inductive TofuError :=
| BadPubkeyLength | BadSignatureLength | PubkeyHex | SignatureHex | InvalidPubkey
| TofuSignatureInvalid | PubkeyMismatch | PinnedKeyUnsigned | PinStoreFull.

Abbreviation PinStore := (gmap string string).

Definition require_if_pinned (s3_key : string) (store : PinStore) : result TofuError () :=
  match store !! s3_key with Some _ => Err PinnedKeyUnsigned | None => Ok () end.

Definition verify_and_pin `{Crates} (s3_key policy_json signer_pubkey_hex policy_signature_hex : string)
    (store : PinStore) : result TofuError () * PinStore :=
  if negb (String.length signer_pubkey_hex =? 64)%nat then (Err BadPubkeyLength, store)
  else if negb (String.length policy_signature_hex =? 128)%nat then (Err BadSignatureLength, store)
  else match hex_decode signer_pubkey_hex with
  | None => (Err PubkeyHex, store)
  | Some pk =>
      if negb (String.length pk =? 32)%nat then (Err BadPubkeyLength, store)
      else match hex_decode policy_signature_hex with
      | None => (Err SignatureHex, store)
      | Some sig =>
          if negb (String.length sig =? 64)%nat then (Err BadSignatureLength, store)
          else if negb (ed25519_key_ok pk) then (Err InvalidPubkey, store)
          else if negb (ed25519_verify pk policy_json sig) then (Err TofuSignatureInvalid, store)
          else match store !! s3_key with
          | Some pinned => if decide (pinned = pk) then (Ok (), store) else (Err PubkeyMismatch, store)
          | None =>
              if MAX_PINS <=? Z.of_nat (size store) then (Err PinStoreFull, store)
              else (Ok (), <[s3_key := pk]> store)
          end
      end
  end.

(** Calls on the store, and a run of them. *)
Inductive pin_call :=
| VerifyAndPin (s3_key policy_json pubkey_hex signature_hex : string)
| RequireIfPinned (s3_key : string).

Definition pin_step `{Crates} (c : pin_call) (store : PinStore) : result TofuError () * PinStore :=
  match c with
  | VerifyAndPin k j p s => verify_and_pin k j p s store
  | RequireIfPinned k => (require_if_pinned k store, store)
  end.

Fixpoint pin_run `{Crates} (cs : list pin_call) (store : PinStore) : PinStore :=
  match cs with [] => store | c :: cs' => pin_run cs' (snd (pin_step c store)) end.

Section Pins.
Context `{Crates}.

Lemma verify_and_pin_cases k j p s store :
  let '(r, store') := verify_and_pin k j p s store in
  match r with
  | Err _ => store' = store
  | Ok _ => exists pk sig, hex_decode p = Some pk /\ ed25519_verify pk j sig = true /\ store' !! k = Some pk /\
      (store' = store \/ (store !! k = None /\ store' = <[k := pk]> store /\ Z.of_nat (size store) < MAX_PINS))
  end.
Proof.
  unfold verify_and_pin. destruct (negb _); [done|]. destruct (negb _); [done|].
  destruct (hex_decode p) as [pk|] eqn:Ep; [|done]. destruct (negb _); [done|].
  destruct (hex_decode s) as [sig|]; [|done]. destruct (negb _); [done|]. destruct (negb _); [done|].
  destruct (ed25519_verify pk j sig) eqn:Ev; [|done]. cbn [negb].
  destruct (store !! k) as [pinned|] eqn:Ek.
  - case_decide; [|done]. subst. exists pk, sig. auto 10.
  - destruct (MAX_PINS <=? _) eqn:Es; [done|]. exists pk, sig. rewrite lookup_insert. rewrite decide_True by done.
    repeat split; try done. right. repeat split; try done. lia.
Qed.

Lemma pin_step_keeps c store k pk : store !! k = Some pk -> snd (pin_step c store) !! k = Some pk.
Proof.
  destruct c as [k' j p s|k']; [|done]. cbn [pin_step]. intros Hk.
  pose proof (verify_and_pin_cases k' j p s store) as Hc. destruct (verify_and_pin k' j p s store) as [[]  st'].
  - destruct Hc as (pk' & sig & _ & _ & _ & [->|(Hn & -> & _)]); [done|]. cbn [snd].
    rewrite lookup_insert_ne; [done|]. congruence.
  - by subst.
Qed.

Lemma pin_run_keeps cs store k pk : store !! k = Some pk -> pin_run cs store !! k = Some pk.
Proof. revert store. induction cs as [|c cs IH]; intros store Hk; [done|]. cbn [pin_run]. by apply IH, pin_step_keeps. Qed.

(** The first signer pinned for a tenant and venue stays pinned: after it is
    accepted, whatever calls follow, a policy is accepted for that slot only
    under the same public key with a valid signature, and unsigned policies
    are refused. *)
Theorem tofu_pin_is_permanent k j p s store store1 cs :
  verify_and_pin k j p s store = (Ok (), store1) ->
  let store2 := pin_run cs store1 in
  require_if_pinned k store2 = Err PinnedKeyUnsigned /\
  forall j' p' s', fst (verify_and_pin k j' p' s' store2) = Ok () ->
    hex_decode p' = hex_decode p /\ exists pk sig, hex_decode p' = Some pk /\ ed25519_verify pk j' sig = true.
Proof.
  intros Hv store2. pose proof (verify_and_pin_cases k j p s store) as Hc. rewrite Hv in Hc.
  destruct Hc as (pk & sig & Hp & _ & Hk & _). assert (store2 !! k = Some pk) as Hk2 by by apply pin_run_keeps.
  split; [unfold require_if_pinned; by rewrite Hk2|]. intros j' p' s' Hok.
  pose proof (verify_and_pin_cases k j' p' s' store2) as Hc. destruct (verify_and_pin k j' p' s' store2) as [[] st3]; [|done].
  destruct Hc as (pk' & sig' & Hp' & Hver & Hk3 & [->|(Hn & _)]); [|congruence].
  split; [|eauto]. congruence.
Qed.
End Pins.

Definition demo_sig_for (pk msg : string) : string :=
  demo_hex_encode (demo_digest (pk +:+ msg) +:+ demo_digest msg).
Definition demo_pk : string := be_bytes 32 9.

Lemma tofu_pin_is_permanent_witness :
  require_if_pinned "c/okx" (@pin_run demo_crates [RequireIfPinned "x"]
    (snd (@verify_and_pin demo_crates "c/okx" "{}" (demo_hex_encode demo_pk) (demo_sig_for demo_pk "{}") ∅)))
  = Err PinnedKeyUnsigned.
Proof.
  refine (proj1 (@tofu_pin_is_permanent demo_crates "c/okx" "{}" (demo_hex_encode demo_pk) (demo_sig_for demo_pk "{}")
    ∅ _ [RequireIfPinned "x"] _)).
  vm_compute. reflexivity.
Defined.

(** ** Sealed envelopes (envelope.rs) *)

Definition ENVELOPE_VERSION : Z := 2.
Definition DEK_LEN : nat := 32.
Definition NONCE_LEN : nat := 12.

Record Envelope := {
  env_version : Z;
  env_wrapped_dek : string;
  env_nonce : string;
  env_ciphertext : string
}.

Inductive EnvelopeError :=
| UnsupportedVersion (v : Z) | BadDekLength (n : nat) | BadNonceLength (n : nat) | EnvBase64 | JsonParse
| AesGcmDecrypt | AesGcmEncrypt.

(** [serde_json] on a blob: as a free value, and as the derived [Envelope]. *)
Class BlobSerde := {
  json_of_slice : string -> option json;
  envelope_of_slice : string -> option Envelope
}.

Definition is_envelope `{BlobSerde} (blob : string) : bool :=
  match json_of_slice blob with
  | Some v => match jget "version" v ≫= as_u64 with Some n => ENVELOPE_VERSION <=? n | None => false end
  | None => false
  end.

Definition parse_envelope `{BlobSerde} (blob : string) : result EnvelopeError Envelope :=
  env ← ok_or (envelope_of_slice blob) JsonParse;
  if env_version env =? ENVELOPE_VERSION then Ok env else Err (UnsupportedVersion (env_version env)).

Section Envelope.
Context `{Crates}.

Definition decrypt_with_dek (dek : string) (envelope : Envelope) (aad : string) : result EnvelopeError string :=
  if negb (String.length dek =? DEK_LEN)%nat then Err (BadDekLength (String.length dek))
  else
    nonce ← ok_or (b64_decode (env_nonce envelope)) EnvBase64;
    if negb (String.length nonce =? NONCE_LEN)%nat then Err (BadNonceLength (String.length nonce))
    else
      ciphertext ← ok_or (b64_decode (env_ciphertext envelope)) EnvBase64;
      ok_or (aes_gcm_decrypt dek nonce aad ciphertext) AesGcmDecrypt.

(** [nonce] is the 12 bytes drawn by [generate_nonce]. *)
Definition seal_with_dek (dek wrapped_dek plaintext aad nonce : string) : result EnvelopeError Envelope :=
  if negb (String.length dek =? DEK_LEN)%nat then Err (BadDekLength (String.length dek))
  else
    ciphertext ← ok_or (aes_gcm_encrypt dek nonce aad plaintext) AesGcmEncrypt;
    Ok {| env_version := ENVELOPE_VERSION; env_wrapped_dek := b64_encode wrapped_dek;
          env_nonce := b64_encode nonce; env_ciphertext := b64_encode ciphertext |}.

(** Opening inverts sealing: an envelope sealed under a key and identity
    opens to the same plaintext under them, and carries the wrapped key
    verbatim. *)
Theorem seal_open_roundtrip `{!AeadLaws} dek wrapped plaintext aad nonce env :
  String.length nonce = NONCE_LEN ->
  seal_with_dek dek wrapped plaintext aad nonce = Ok env ->
  decrypt_with_dek dek env aad = Ok plaintext /\ b64_decode (env_wrapped_dek env) = Some wrapped /\
  env_version env = ENVELOPE_VERSION.
Proof.
  intros Hn. unfold seal_with_dek, decrypt_with_dek. destruct (negb _); [done|]. intros Hs.
  apply bind_ok_inv in Hs as (ct & Hct%ok_or_inv & Hs). injection Hs as <-. cbn [env_nonce env_ciphertext env_wrapped_dek env_version].
  rewrite !b64_decode_encode. cbn [ok_or mbind result_bind]. rewrite Hn. cbn [negb Nat.eqb NONCE_LEN].
  by rewrite (aes_gcm_inverse _ _ _ _ _ Hct).
Qed.

End Envelope.

Lemma seal_open_roundtrip_witness :
  exists env, @seal_with_dek demo_crates (zeros 32) "w" "secret" "aad" (zeros 12) = Ok env /\
    @decrypt_with_dek demo_crates (zeros 32) env "aad" = Ok "secret".
Proof.
  eexists. split; [reflexivity|].
  refine (proj1 (@seal_open_roundtrip demo_crates demo_aead_laws (zeros 32) "w" "secret" "aad" (zeros 12) _ eq_refl _)).
  reflexivity.
Defined.
