(* ===== verification/DekCache.v ===== *)
(** * Cache of data-encryption keys (enclave/src/dek_cache.rs)

    An LRU map with a time to live.  The theorems show that it never serves a
    key it was not given for exactly that cache key within the time to live,
    that it stays within its bound, and that a cache key determines the
    wrapped key and the tenant context it was derived from. *)

From S2P Require Import Prelude RustStr Crates Decimal Jcs Registry.

Open Scope string_scope.
Open Scope list_scope.
Open Scope Z_scope.

Definition DEFAULT_TTL_SECS : Z := 60.
Definition DEFAULT_MAX_ENTRIES : Z := 256.
Definition MAX_ENTRIES_CEILING : Z := 1024.

Record CacheEntry := { ce_dek : string; ce_inserted : Z }.

Record DekCache := {
  dc_ttl : Z;
  dc_max : Z;
  dc_map : gmap string CacheEntry;
  dc_order : list string              (* front = least recently used *)
}.

(** [max.clamp(1, MAX_ENTRIES_CEILING)] *)
Definition clamp (lo hi x : Z) : Z := Z.min hi (Z.max lo x).

Definition dek_cache_new (ttl max : Z) : DekCache :=
  {| dc_ttl := ttl; dc_max := clamp 1 MAX_ENTRIES_CEILING max; dc_map := ∅; dc_order := [] |}.

Definition enabled (c : DekCache) : bool := negb (dc_ttl c =? 0).

(** First occurrence only. *)
Fixpoint remove_from_order (key : string) (order : list string) : list string :=
  match order with
  | [] => []
  | k :: rest => if decide (k = key) then rest else k :: remove_from_order key rest
  end.

Definition set_inner (c : DekCache) (m : gmap string CacheEntry) (o : list string) : DekCache :=
  {| dc_ttl := dc_ttl c; dc_max := dc_max c; dc_map := m; dc_order := o |}.

(** [now.duration_since(inserted)] saturates at zero. *)
Definition duration_since (now inserted : Z) : Z := Z.max 0 (now - inserted).

Definition cache_get (key : string) (now : Z) (c : DekCache) : option string * DekCache :=
  if negb (enabled c) then (None, c)
  else match dc_map c !! key with
  | None => (None, c)
  | Some e =>
      if dc_ttl c <=? duration_since now (ce_inserted e) then
        (None, set_inner c (delete key (dc_map c)) (remove_from_order key (dc_order c)))
      else (Some (ce_dek e), set_inner c (dc_map c) (remove_from_order key (dc_order c) ++ [key]))
  end.

(** The eviction loop runs over the order queue. *)
Fixpoint evict (order : list string) (max : Z) (m : gmap string CacheEntry) : gmap string CacheEntry * list string :=
  if Z.of_nat (size m) <=? max then (m, order)
  else match order with
  | [] => (m, [])
  | oldest :: rest => evict rest max (delete oldest m)
  end.

Definition cache_put (key dek : string) (now : Z) (c : DekCache) : DekCache :=
  if negb (enabled c) then c
  else
    let order := match dc_map c !! key with
                 | Some _ => remove_from_order key (dc_order c)
                 | None => dc_order c
                 end in
    let m := <[key := {| ce_dek := dek; ce_inserted := now |}]> (dc_map c) in
    let '(m, order) := evict (order ++ [key]) (dc_max c) m in
    set_inner c m order.

Definition flush (c : DekCache) : DekCache := set_inner c ∅ [].

(** [s.trim().parse::<u64>()]: an optional sign, digits, in range. *)
Definition parse_uint (s : string) : option Z :=
  let s := trim s in
  let ds := default s (strip_prefix "+" s) in
  if is_empty ds || negb (bytes_all is_ascii_digit ds) then None
  else
    let n := msf_val (str_digits ds) in
    if n <? 2 ^ 64 then Some n else None.

Definition env_ttl (var : option string) : Z := default DEFAULT_TTL_SECS (var ≫= parse_uint).
Definition env_max (var : option string) : Z :=
  Z.min (default DEFAULT_MAX_ENTRIES (n ← var ≫= parse_uint; if 0 <? n then Some n else None)) MAX_ENTRIES_CEILING.

(** ** The cache key *)

Definition sep (n : nat) : string := String (ascii_of_nat n) EmptyString.

(** [kv.sort_by(|a, b| a.0.cmp(b.0))] *)
Fixpoint insert_ctx (p : string * string) (l : list (string * string)) : list (string * string) :=
  match l with
  | [] => [p]
  | q :: l' => if units_le (byte_units (fst p)) (byte_units (fst q)) then p :: l else q :: insert_ctx p l'
  end.
Definition sort_ctx (l : list (string * string)) : list (string * string) := foldr insert_ctx [] l.

Definition context_bytes (ctx : list (string * string)) : string :=
  foldr (fun kv acc => fst kv +:+ sep 30 +:+ snd kv +:+ sep 29 +:+ acc) "" ctx.

(** The hashed bytes; the context is iterated in an unspecified order and
    sorted. *)
Definition key_preimage (wrapped_dek : string) (enc_ctx : option (gmap string string)) : string :=
  le_bytes 8 (Z.of_nat (String.length wrapped_dek)) +:+ wrapped_dek +:+ sep 31 +:+
  match enc_ctx with
  | Some ctx => context_bytes (sort_ctx (map_to_list ctx))
  | None => ""
  end.

Definition derive_key `{Crates} (wrapped_dek : string) (enc_ctx : option (gmap string string)) : string :=
  sha256 (key_preimage wrapped_dek enc_ctx).

Lemma sort_tenant_context id venue :
  sort_ctx (map_to_list (encryption_context id venue)) =
  [("customer_id", id_customer_id id); ("venue_id", venue)].
Proof.
  unfold encryption_context.
  assert (map_to_list (<["venue_id":=venue]> (<["customer_id":=id_customer_id id]> (∅ : gmap string string)))
    ≡ₚ [("venue_id", venue); ("customer_id", id_customer_id id)]) as Hp.
  { rewrite map_to_list_insert by (by rewrite lookup_insert_ne).
    rewrite map_to_list_insert by apply lookup_empty. by rewrite map_to_list_empty. }
  destruct (Permutation_length_2_inv (Permutation_sym Hp)) as [-> | ->]; reflexivity.
Qed.

Lemma le_bytes_length w n : String.length (le_bytes w n) = w.
Proof. revert n. induction w; intros; simpl; auto. Qed.

Lemma le_bytes_inj w a b :
  0 <= a < 256 ^ Z.of_nat w -> 0 <= b < 256 ^ Z.of_nat w -> le_bytes w a = le_bytes w b -> a = b.
Proof.
  revert a b. induction w as [|w IH]; intros a b; [simpl; lia|].
  rewrite Nat2Z.inj_succ, Z.pow_succ_r by lia. cbn [le_bytes]. intros Ha Hb [= H1 H2].
  apply (f_equal byte_val) in H1. rewrite !byte_val_of in H1. apply IH in H2.
  - rewrite (Z.div_mod a 256), (Z.div_mod b 256) by lia. congruence.
  - split; [apply Z.div_pos; lia|apply Z.div_lt_upper_bound; lia].
  - split; [apply Z.div_pos; lia|apply Z.div_lt_upper_bound; lia].
Qed.

Lemma dek_key_preimage_injective_spec w1 id1 v1 w2 id2 v2 :
  Z.of_nat (String.length w1) < 2 ^ 64 -> Z.of_nat (String.length w2) < 2 ^ 64 ->
  is_safe_id (id_customer_id id1) = true -> is_safe_id (id_customer_id id2) = true ->
  is_safe_id v1 = true -> is_safe_id v2 = true ->
  key_preimage w1 (Some (encryption_context id1 v1)) = key_preimage w2 (Some (encryption_context id2 v2)) ->
  w1 = w2 /\ id_customer_id id1 = id_customer_id id2 /\ v1 = v2.
Proof.
  assert (forall s, is_safe_id s = true -> contains_char (ascii_of_nat 29) s = false) as Hsafe.
  { intros s. unfold is_safe_id. rewrite !andb_true_iff. intros [_ Hs]. by apply contains_char_all with safe_id_byte. }
  intros Hw1 Hw2 Hc1%Hsafe Hc2%Hsafe Hv1%Hsafe Hv2%Hsafe. unfold key_preimage. rewrite !sort_tenant_context. intros Heq.
  apply append_inj_length in Heq as [Hl Heq]; [|by rewrite !le_bytes_length].
  apply le_bytes_inj in Hl; [|simpl; lia..]. apply append_inj_length in Heq as [-> Heq]; [|lia].
  apply append_inj_prefix in Heq. unfold context_bytes in Heq. cbn [foldr fst snd] in Heq.
  apply append_inj_prefix, append_inj_prefix in Heq.
  assert (forall t, sep 29 +:+ t = String (ascii_of_nat 29) t) as Es by done. rewrite !Es in Heq.
  apply (f_equal (split_once (ascii_of_nat 29))) in Heq. rewrite !split_once_app in Heq by done.
  injection Heq as -> Heq.
  apply (f_equal (split_once (ascii_of_nat 29))) in Heq. rewrite !split_once_app in Heq by done.
  by injection Heq as ->.
Qed.

(** The bytes a cache key is hashed from determine the wrapped key, the
    customer and the venue, for every identity the registry admits: absent a
    SHA-256 collision, a hit can only be for the same tenant and the same
    wrapped key. *)
Theorem dek_key_preimage_injective w1 id1 v1 w2 id2 v2 :
  Z.of_nat (String.length w1) < 2 ^ 64 -> Z.of_nat (String.length w2) < 2 ^ 64 ->
  is_safe_id (id_customer_id id1) = true -> is_safe_id (id_customer_id id2) = true ->
  is_safe_id v1 = true -> is_safe_id v2 = true ->
  key_preimage w1 (Some (encryption_context id1 v1)) = key_preimage w2 (Some (encryption_context id2 v2)) ->
  w1 = w2 /\ id_customer_id id1 = id_customer_id id2 /\ v1 = v2.
Proof. apply dek_key_preimage_injective_spec. Qed.

Lemma dek_key_preimage_injective_witness :
  let id := for_provisioned_agent "cust-1" "okx" in
  is_safe_id (id_customer_id id) = true /\
  ("wrapped" = "wrapped" /\ id_customer_id id = id_customer_id id /\ "okx" = "okx").
Proof.
  intros id. split; [reflexivity|].
  apply (dek_key_preimage_injective "wrapped" id "okx" "wrapped" id "okx"); reflexivity.
Defined.

(** ** Runs of the cache *)

Inductive cache_op := OpGet (key : string) (now : Z) | OpPut (key dek : string) (now : Z) | OpFlush.

Definition cache_step (op : cache_op) (c : DekCache) : DekCache :=
  match op with
  | OpGet k now => snd (cache_get k now c)
  | OpPut k d now => cache_put k d now c
  | OpFlush => flush c
  end.

(** The latest key stored under [key] since the last flush; newest operation
    first. *)
Fixpoint last_put (key : string) (hist : list cache_op) : option (string * Z) :=
  match hist with
  | [] => None
  | OpPut k d now :: rest => if decide (k = key) then Some (d, now) else last_put key rest
  | OpGet _ _ :: rest => last_put key rest
  | OpFlush :: _ => None
  end.

Inductive cache_reach (c0 : DekCache) : list cache_op -> DekCache -> Prop :=
| reach_init : cache_reach c0 [] c0
| reach_step hist c op : cache_reach c0 hist c -> cache_reach c0 (op :: hist) (cache_step op c).

Definition cache_inv (c : DekCache) : Prop :=
  NoDup (dc_order c) /\ dom (dc_map c) = list_to_set (dc_order c) /\
  Z.of_nat (size (dc_map c)) <= dc_max c /\ 1 <= dc_max c <= MAX_ENTRIES_CEILING.

Definition cache_sound (hist : list cache_op) (c : DekCache) : Prop :=
  forall k e, dc_map c !! k = Some e -> last_put k hist = Some (ce_dek e, ce_inserted e).

Lemma remove_from_order_spec key order :
  NoDup order -> NoDup (remove_from_order key order) /\
  (list_to_set (remove_from_order key order) : gset string) = list_to_set order ∖ {[key]}.
Proof.
  induction 1 as [|k order Hk Hnd [IH1 IH2]]; cbn [remove_from_order]; [split; [apply NoDup_nil_2|set_solver]|].
  case_decide as Heq.
  - subst. split; [done|]. cbn [list_to_set]. set_solver.
  - split.
    + constructor; [|done]. intros Hin. assert (k ∈ (list_to_set (remove_from_order key order) : gset string)) as Hs
        by (by apply elem_of_list_to_set). rewrite IH2 in Hs. set_solver.
    + cbn [list_to_set]. rewrite IH2. set_solver.
Qed.

Lemma evict_spec order max m m' order' :
  evict order max m = (m', order') -> NoDup order -> dom m = list_to_set order -> 0 <= max ->
  NoDup order' /\ dom m' = list_to_set order' /\ Z.of_nat (size m') <= max /\ m' ⊆ m.
Proof.
  revert m. induction order as [|o rest IH]; intros m; cbn [evict]; destruct (_ <=? max) eqn:E.
  1,3: intros [= <- <-] Hnd Hd Hm; repeat split; [done|done|lia|done].
  - intros [= <- <-] _ Hd Hm. cbn [list_to_set] in Hd. apply dom_empty_inv_L in Hd as ->.
    rewrite map_size_empty in *. split; [apply NoDup_nil_2|]. split; [set_solver|]. split; [lia|done].
  - intros He Hnd Hd Hm. apply NoDup_cons in Hnd as [Ho Hnd]. apply IH in He as (H1 & H2 & H3 & H4); [|done| |done].
    + repeat split; try done. etrans; [exact H4|]. apply delete_subseteq.
    + rewrite dom_delete_L, Hd. cbn [list_to_set]. set_solver.
Qed.

Lemma cache_step_inv op c : cache_inv c -> cache_inv (cache_step op c) /\ dc_ttl (cache_step op c) = dc_ttl c.
Proof.
  intros (Hnd & Hd & Hs & Hm). destruct op as [k now|k d now|]; cbn [cache_step].
  - unfold cache_get. destruct (negb (enabled c)); [done|]. destruct (dc_map c !! k) as [e|] eqn:Ek; [|done].
    destruct (remove_from_order_spec k _ Hnd) as [H1 H2]. case_goal; cbn [snd]; (split; [|done]);
      unfold cache_inv; cbn [dc_order dc_map dc_max set_inner].
    + rewrite dom_delete_L, Hd, H2. split; [done|]. split; [done|]. split; [|done].
      pose proof (map_subseteq_size (delete k (dc_map c)) (dc_map c) (delete_subseteq _ _)). lia.
    + assert (k ∈ (list_to_set (dc_order c) : gset string)) as Hk by (rewrite <- Hd; by apply elem_of_dom_2 in Ek).
      split; [|split; [|done]].
      * apply NoDup_app. split; [done|]. split; [|apply NoDup_singleton]. intros x Hx ->%list_elem_of_singleton.
        assert (k ∈ (list_to_set (remove_from_order k (dc_order c)) : gset string)) as Hin by by apply elem_of_list_to_set.
        rewrite H2 in Hin. set_solver.
      * rewrite list_to_set_app_L, H2, Hd. cbn [list_to_set]. rewrite union_empty_r_L, difference_union_L. set_solver.
  - unfold cache_put. destruct (negb (enabled c)); [done|].
    set (order := match dc_map c !! k with Some _ => _ | None => _ end).
    assert (NoDup (order ++ [k]) /\
      dom (<[k := {| ce_dek := d; ce_inserted := now |}]> (dc_map c)) = list_to_set (order ++ [k])) as [Ho1 Ho2].
    { rewrite dom_insert_L, list_to_set_app_L, Hd. cbn [list_to_set]. destruct (remove_from_order_spec k _ Hnd) as [H1 H2].
      unfold order. destruct (dc_map c !! k) eqn:Ek.
      - rewrite H2. split; [|rewrite union_empty_r_L, difference_union_L; set_solver].
        apply NoDup_app. split; [done|]. split; [|apply NoDup_singleton]. intros x Hx ->%list_elem_of_singleton.
        assert (k ∈ (list_to_set (remove_from_order k (dc_order c)) : gset string)) as Hin by by apply elem_of_list_to_set.
        rewrite H2 in Hin. set_solver.
      - split; [|set_solver]. apply NoDup_app. split; [done|]. split; [|apply NoDup_singleton].
        intros x Hx ->%list_elem_of_singleton. apply not_elem_of_dom_2 in Ek. rewrite Hd in Ek.
        apply Ek. by apply elem_of_list_to_set. }
    destruct (evict _ _ _) as [m' order'] eqn:Ee. apply evict_spec in Ee as (E1 & E2 & E3 & _); [|done|done|lia].
    by split.
  - split; [|done]. unfold cache_inv. cbn. rewrite map_size_empty. split; [apply NoDup_nil_2|]. split; [set_solver|lia].
Qed.

Definition off_is_empty (c : DekCache) : Prop := enabled c = false -> dc_map c = ∅.

Lemma cache_step_off op c : off_is_empty c -> off_is_empty (cache_step op c).
Proof.
  unfold off_is_empty. destruct op as [k now|k d now|]; cbn [cache_step]; [| |done].
  - unfold cache_get. destruct (enabled c) eqn:E; cbn [negb snd]; [|by rewrite E].
    repeat case_goal; unfold enabled, set_inner in *; cbn in *; intros; congruence.
  - unfold cache_put. destruct (enabled c) eqn:E; cbn [negb]; [|by rewrite E].
    destruct (evict _ _ _). unfold enabled, set_inner in *. cbn. intros; congruence.
Qed.

Lemma cache_step_sound hist op c : off_is_empty c -> cache_inv c -> cache_sound hist c -> cache_sound (op :: hist) (cache_step op c).
Proof.
  intros Hoff (Hnd & Hd & _ & Hm) Hs.
  destruct op as [k now|k d now|]; cbn [cache_step]; intros k' e'; cbn [last_put]; [| |done].
  - unfold cache_get. destruct (negb (enabled c)); [by apply Hs|]. destruct (dc_map c !! k) as [e|]; [|by apply Hs].
    case_goal; cbn [snd set_inner dc_map]; [|by apply Hs]. intros Hl. apply Hs. by apply lookup_delete_Some in Hl as [_ ?].
  - unfold cache_put. destruct (enabled c) eqn:Een; cbn [negb].
    + destruct (evict _ _ _) as [m' order'] eqn:Ee. cbn [set_inner dc_map]. intros Hl.
      assert (m' ⊆ <[k := {| ce_dek := d; ce_inserted := now |}]> (dc_map c)) as Hsub.
      { clear Hl. revert Ee. generalize (<[k := {| ce_dek := d; ce_inserted := now |}]> (dc_map c)).
        generalize (match dc_map c !! k with Some _ => remove_from_order k (dc_order c) | None => dc_order c end ++ [k]).
        intros l. induction l as [|o l IH]; intros m; cbn [evict]; case_goal; try (by intros [= <- _]).
        intros He. etrans; [by apply IH|]. apply delete_subseteq. }
      apply (lookup_weaken _ _ _ _ Hl) in Hsub. case_decide as Hk.
      * subst. rewrite lookup_insert, decide_True in Hsub by done. by injection Hsub as <-.
      * rewrite lookup_insert_ne in Hsub by done. by apply Hs.
    + rewrite (Hoff Een). done.
Qed.

Lemma new_inv ttl max : cache_inv (dek_cache_new ttl max) /\ off_is_empty (dek_cache_new ttl max).
Proof.
  split; [|done]. unfold cache_inv, dek_cache_new, clamp, MAX_ENTRIES_CEILING. cbn [dc_order dc_map dc_max].
  split; [apply NoDup_nil_2|]. rewrite map_size_empty. split; [set_solver|]. lia.
Qed.

Lemma reach_inv ttl max hist c :
  cache_reach (dek_cache_new ttl max) hist c ->
  cache_inv c /\ off_is_empty c /\ cache_sound hist c /\ dc_ttl c = ttl.
Proof.
  induction 1 as [|hist c op _ (IH1 & IH2 & IH3 & IH4)].
  - destruct (new_inv ttl max). split; [done|]. split; [done|]. split; [by intros k e|done].
  - destruct (cache_step_inv op c IH1) as [H1 H2].
    split; [done|]. split; [by apply cache_step_off|]. split; [by apply cache_step_sound|]. congruence.
Qed.

(** After any sequence of lookups, stores and flushes, a lookup returns
    a key only if that key was the last one stored under exactly that cache
    key, with no flush since, less than the time to live ago, on an enabled
    cache; and the cache never holds more entries than its bound, at most
    1024. *)
Theorem dek_cache_serves_only_fresh ttl max hist c key now dek :
  cache_reach (dek_cache_new ttl max) hist c ->
  fst (cache_get key now c) = Some dek ->
  (exists t, last_put key hist = Some (dek, t) /\ duration_since now t < ttl) /\ ttl <> 0 /\
  Z.of_nat (size (dc_map c)) <= dc_max c <= 1024.
Proof.
  intros Hr. destruct (reach_inv _ _ _ _ Hr) as ((_ & _ & Hsz & Hmax) & Hoff & Hs & Httl).
  unfold cache_get. destruct (enabled c) eqn:Een; cbn [negb]; [|done].
  destruct (dc_map c !! key) as [e|] eqn:Ek; [|done]. destruct (dc_ttl c <=? _) eqn:Et; [done|].
  intros [= <-]. unfold MAX_ENTRIES_CEILING in Hmax. split; [|split; [|lia]].
  - exists (ce_inserted e). split; [by apply Hs|]. lia.
  - unfold enabled in Een. apply negb_true_iff, Z.eqb_neq in Een. congruence.
Qed.

Lemma dek_cache_serves_only_fresh_witness :
  exists t, last_put "k" [OpGet "k" 10; OpPut "k" "dek" 5] = Some ("dek", t) /\ duration_since 30 t < 60.
Proof.
  refine (proj1 (dek_cache_serves_only_fresh 60 256 [OpGet "k" 10; OpPut "k" "dek" 5] _ "k" 30 "dek"
    (reach_step _ _ _ _ (reach_step _ _ _ _ (reach_init _))) _)).
  vm_compute. reflexivity.
Defined.
