(* ===== verification/Limiter.v ===== *)
(** * Rate limiter (enclave/src/rate_limiter.rs)

    A token bucket per key with FIFO eviction into a bounded ghost cache.  The
    source keeps tokens in [f64]; the model counts them exactly, in units of
    10^-9 token, with instants in nanoseconds (so [elapsed * rate] is an
    integer).  Floating-point rounding is outside the model. *)

From S2P Require Import Prelude RustStr.

Open Scope string_scope.
Open Scope list_scope.
Open Scope Z_scope.

Definition token : Z := 1000000000.

Record Bucket := { tokens : Z; last_refill : Z }.

Record LimiterState := {
  buckets : gmap string Bucket;
  insertion_order : list string;
  ghost : gmap string Bucket;
  ghost_order : list string
}.

(** The limiter; [max_tracked] is the source's constant [MAX_TRACKED_KEYS]
    (10,000 in [RateLimiter_new]), a field so that small instances run. *)
Record RateLimiter := { capacity : Z; rate : Z; max_tracked : Z }.

Definition MAX_TRACKED_KEYS : Z := 10000.
Definition RateLimiter_new (capacity rate_per_sec : Z) : RateLimiter :=
  {| capacity := capacity; rate := rate_per_sec; max_tracked := MAX_TRACKED_KEYS |}.

Definition limiter_new : LimiterState :=
  {| buckets := ∅; insertion_order := []; ghost := ∅; ghost_order := [] |}.

(** [while ghost_order.len() >= MAX { pop_front; ghost.remove }] *)
Fixpoint prune_ghosts (max : Z) (order : list string) (g : gmap string Bucket) : list string * gmap string Bucket :=
  if max <=? Z.of_nat (length order) then
    match order with
    | stale :: rest => prune_ghosts max rest (delete stale g)
    | [] => ([], g)
    end
  else (order, g).

(** Evict the oldest bucket into the ghost cache when the table is full. *)
Definition make_room (max : Z) (st : LimiterState) : LimiterState :=
  if max <=? Z.of_nat (size (buckets st)) then
    match insertion_order st with
    | [] => st
    | oldest :: rest =>
        match buckets st !! oldest with
        | None => {| buckets := buckets st; insertion_order := rest; ghost := ghost st; ghost_order := ghost_order st |}
        | Some evicted =>
            let '(order, g) := prune_ghosts max (ghost_order st) (ghost st) in
            {| buckets := delete oldest (buckets st); insertion_order := rest;
               ghost := <[oldest := evicted]> g; ghost_order := order ++ [oldest] |}
        end
    end
  else st.

(** Insert a bucket for [key]: restored from the ghost cache, or full. *)
Definition admit_key (l : RateLimiter) (key : string) (now : Z) (st : LimiterState) : LimiterState :=
  match buckets st !! key with
  | Some _ => st
  | None =>
      let st := make_room (max_tracked l) st in
      let bucket := default {| tokens := capacity l * token; last_refill := now |} (ghost st !! key) in
      {| buckets := <[key := bucket]> (buckets st); insertion_order := insertion_order st ++ [key];
         ghost := delete key (ghost st); ghost_order := ghost_order st |}
  end.

Definition refill (l : RateLimiter) (now : Z) (b : Bucket) : Z :=
  Z.min (tokens b + Z.max 0 (now - last_refill b) * rate l) (capacity l * token).

Definition set_bucket (key : string) (b : Bucket) (st : LimiterState) : LimiterState :=
  {| buckets := <[key := b]> (buckets st); insertion_order := insertion_order st;
     ghost := ghost st; ghost_order := ghost_order st |}.

(** [None] is the [expect] that cannot fail (see [admit_key_present]). *)
Definition check_opt (l : RateLimiter) (key : string) (now : Z) (st : LimiterState) : option (bool * LimiterState) :=
  let st := admit_key l key now st in
  b ← buckets st !! key;
  let t := refill l now b in
  Some (if token <=? t then (true, set_bucket key {| tokens := t - token; last_refill := now |} st)
        else (false, set_bucket key {| tokens := t; last_refill := now |} st)).

Definition check (l : RateLimiter) (key : string) (now : Z) (st : LimiterState) : bool * LimiterState :=
  default (false, st) (check_opt l key now st).

Lemma admit_key_present l key now st : is_Some (buckets (admit_key l key now st) !! key).
Proof.
  unfold admit_key. destruct (buckets st !! key) eqn:E; [by rewrite E|]. cbn [buckets].
  rewrite lookup_insert, decide_True by done. eauto.
Qed.

(** ** Bounded memory *)

Definition limiter_inv (max : Z) (st : LimiterState) : Prop :=
  NoDup (insertion_order st) /\ dom (buckets st) = list_to_set (insertion_order st) /\
  Z.of_nat (size (buckets st)) <= max /\ Z.of_nat (length (ghost_order st)) <= max /\
  (forall k, is_Some (ghost st !! k) -> k ∈ ghost_order st).

Lemma prune_ghosts_spec max order g order' g' :
  1 <= max -> prune_ghosts max order g = (order', g') -> (forall k, is_Some (g !! k) -> k ∈ order) ->
  Z.of_nat (length order') < max /\ (forall k, is_Some (g' !! k) -> k ∈ order').
Proof.
  intros Hm. revert g. induction order as [|o rest IH]; intros g; cbn [prune_ghosts]; destruct (_ <=? _) eqn:E.
  - apply Z.leb_le in E. change (Z.of_nat (length [])) with 0 in E. lia.
  - intros [= <- <-] Hg. split; [apply Z.leb_gt in E; exact E|done].
  - intros Hp Hg. apply IH in Hp; [done|]. intros k Hk. destruct (decide (o = k)) as [->|Hne].
    + rewrite lookup_delete, decide_True in Hk by done. by destruct Hk.
    + rewrite lookup_delete_ne in Hk by done. apply Hg, elem_of_cons in Hk as [?|?]; [congruence|done].
  - intros [= <- <-] Hg. split; [lia|done].
Qed.

Lemma make_room_subseteq max st : buckets (make_room max st) ⊆ buckets st.
Proof.
  unfold make_room. destruct (_ <=? _); [|done]. destruct (insertion_order st) as [|o rest]; [done|].
  destruct (buckets st !! o); [|done]. destruct (prune_ghosts _ _ _). apply delete_subseteq.
Qed.

Lemma make_room_inv max st :
  1 <= max -> limiter_inv max st ->
  limiter_inv max (make_room max st) /\ Z.of_nat (size (buckets (make_room max st))) < max.
Proof.
  intros Hm (Hnd & Hd & Hs & Hg & Hgo). unfold make_room. destruct (_ <=? _) eqn:E.
  2:{ split; [done|lia]. }
  assert (size (buckets st) = length (insertion_order st)) as Hlen.
  { rewrite <- size_dom, Hd, size_list_to_set; done. }
  destruct (insertion_order st) as [|o rest] eqn:Eo; [simpl in Hlen; lia|].
  apply NoDup_cons in Hnd as [Ho Hnd].
  assert (o ∈ dom (buckets st)) as [b Hb]%elem_of_dom by (rewrite Hd; set_solver). rewrite Hb.
  destruct (prune_ghosts _ _ _) as [order g] eqn:Ep. apply prune_ghosts_spec in Ep as [Hp1 Hp2]; [|done..].
  assert (S (size (delete o (buckets st))) = size (buckets st)) as Hsz.
  { rewrite map_size_delete, Hb. lia. }
  unfold limiter_inv. cbn [buckets insertion_order ghost ghost_order].
  split; [split; [done|split; [|split; [lia|split]]]|lia].
  - rewrite dom_delete_L, Hd. cbn [list_to_set]. set_solver.
  - rewrite length_app. simpl. lia.
  - intros k Hk. apply elem_of_app. destruct (decide (o = k)) as [->|Hne]; [right; by left|left].
    rewrite lookup_insert_ne in Hk by done. auto.
Qed.

Lemma admit_key_inv l key now st :
  1 <= max_tracked l -> limiter_inv (max_tracked l) st -> limiter_inv (max_tracked l) (admit_key l key now st).
Proof.
  intros Hm Hinv. unfold admit_key. destruct (buckets st !! key) eqn:Ek; [done|].
  destruct (make_room_inv _ st Hm Hinv) as ((Hnd & Hd & Hs & Hg & Hgo) & Hlt).
  assert (buckets (make_room (max_tracked l) st) !! key = None) as Hn.
  { eapply lookup_weaken_None; [done|apply make_room_subseteq]. }
  unfold limiter_inv. cbn [buckets insertion_order ghost ghost_order]. split; [|split; [|split; [|split; [done|]]]].
  - apply NoDup_app. split; [done|]. split; [|apply NoDup_singleton]. intros x Hx ->%list_elem_of_singleton.
    apply not_elem_of_dom in Hn. rewrite Hd in Hn. apply Hn. by apply elem_of_list_to_set.
  - rewrite dom_insert_L, list_to_set_app_L, Hd. cbn [list_to_set]. set_solver.
  - rewrite map_size_insert, Hn. lia.
  - intros k Hk. apply Hgo. destruct (decide (key = k)) as [->|Hne].
    + rewrite lookup_delete, decide_True in Hk by done. by destruct Hk.
    + by rewrite lookup_delete_ne in Hk.
Qed.

Lemma check_inv l key now st :
  1 <= max_tracked l -> limiter_inv (max_tracked l) st -> limiter_inv (max_tracked l) (snd (check l key now st)).
Proof.
  intros Hm Hinv. destruct (admit_key_inv l key now st Hm Hinv) as (Hnd & Hd & Hs & Hg & Hgo).
  unfold check, check_opt. destruct (admit_key_present l key now st) as [b Hb]. rewrite Hb. cbn [mbind option_bind].
  assert (forall b', limiter_inv (max_tracked l) (set_bucket key b' (admit_key l key now st))) as Hset.
  { intros b'. unfold limiter_inv, set_bucket. cbn [buckets insertion_order ghost ghost_order].
    split; [done|]. split; [|split; [|done]].
    - rewrite dom_insert_L, <- Hd. apply elem_of_dom_2 in Hb. set_solver.
    - rewrite map_size_insert, Hb. done. }
  destruct (token <=? refill l now b); cbn [default snd]; apply Hset.
Qed.

Fixpoint run (l : RateLimiter) (calls : list (string * Z)) (st : LimiterState) : LimiterState :=
  match calls with
  | [] => st
  | (key, now) :: rest => run l rest (snd (check l key now st))
  end.

Lemma run_inv l calls st :
  1 <= max_tracked l -> limiter_inv (max_tracked l) st -> limiter_inv (max_tracked l) (run l calls st).
Proof.
  intros Hm. revert st. induction calls as [|[key now] rest IH]; intros st Hinv; [done|].
  apply IH. by apply check_inv.
Qed.

Lemma limiter_new_inv max : 1 <= max -> limiter_inv max limiter_new.
Proof.
  intros Hm. unfold limiter_inv, limiter_new. cbn. rewrite map_size_empty. split; [apply NoDup_nil_2|].
  split; [set_solver|]. split; [lia|]. split; [lia|]. intros k [? Hk]. done.
Qed.

(** Whatever keys a caller presents, the limiter never holds more than
    10,000 live buckets, nor more than 10,000 queue entries of either kind, and
    every ghost is queued for removal: flooding with fresh keys cannot exhaust
    the enclave's memory. *)
Theorem limiter_memory_bounded cap rate calls :
  let st := run (RateLimiter_new cap rate) calls limiter_new in
  Z.of_nat (size (buckets st)) <= MAX_TRACKED_KEYS /\ Z.of_nat (length (insertion_order st)) <= MAX_TRACKED_KEYS /\
  Z.of_nat (length (ghost_order st)) <= MAX_TRACKED_KEYS /\
  (forall k, is_Some (ghost st !! k) -> k ∈ ghost_order st).
Proof.
  intros st.
  assert (1 <= max_tracked (RateLimiter_new cap rate)) as Hm by (cbn; unfold MAX_TRACKED_KEYS; lia).
  destruct (run_inv _ calls _ Hm (limiter_new_inv _ Hm)) as (Hnd & Hd & Hs & Hg & Hgo).
  split; [done|]. split; [|done].
  rewrite <- (size_list_to_set (C := gset string)) by done. unfold st. rewrite <- Hd, size_dom. done.
Qed.

(** ** The budget *)

(** What the limiter remembers of a key: its live bucket, or its ghost. *)
Definition memory (st : LimiterState) (k : string) : option Bucket :=
  match buckets st !! k with Some b => Some b | None => ghost st !! k end.

(** The eviction phase of a call for [key] does not forget [k]. *)
Definition keeps (l : RateLimiter) (k key : string) (st : LimiterState) : Prop :=
  buckets st !! key = None -> memory (make_room (max_tracked l) st) k = memory st k.

Fixpoint kept_throughout (l : RateLimiter) (k : string) (calls : list (string * Z)) (st : LimiterState) : Prop :=
  match calls with
  | [] => True
  | (key, now) :: rest => keeps l k key st /\ kept_throughout l k rest (snd (check l key now st))
  end.

(** How many of the calls of a run [k] was granted. *)
Fixpoint grants (l : RateLimiter) (k : string) (calls : list (string * Z)) (st : LimiterState) : Z :=
  match calls with
  | [] => 0
  | (key, now) :: rest =>
      (if decide (key = k) then (if fst (check l key now st) then 1 else 0) else 0)
      + grants l k rest (snd (check l key now st))
  end.

(** The calls happen at non-decreasing instants between [t] and [t']. *)
Fixpoint timed (t t' : Z) (calls : list (string * Z)) : Prop :=
  match calls with
  | [] => t <= t'
  | (_, now) :: rest => t <= now /\ timed now t' rest
  end.

Lemma timed_le t t' calls : timed t t' calls -> t <= t'.
Proof. revert t. induction calls as [|[? now] rest IH]; intros t; cbn; [done|]. intros [? ?%IH]. lia. Qed.

Definition full_bucket (l : RateLimiter) (now : Z) : Bucket :=
  {| tokens := capacity l * token; last_refill := now |}.

Lemma admit_key_same l k now st :
  keeps l k k st -> buckets (admit_key l k now st) !! k = Some (default (full_bucket l now) (memory st k)).
Proof.
  intros Hk. unfold admit_key, memory in *. destruct (buckets st !! k) eqn:E; [done|].
  cbn [buckets]. rewrite lookup_insert, decide_True by done. f_equal. unfold keeps, memory in Hk.
  rewrite (lookup_weaken_None _ _ _ E (make_room_subseteq _ _)), E in Hk. by rewrite Hk.
Qed.

Lemma admit_key_other l k key now st :
  k <> key -> keeps l k key st -> memory (admit_key l key now st) k = memory st k.
Proof.
  intros Hne Hk. unfold admit_key. destruct (buckets st !! key) eqn:E; [done|]. rewrite <- (Hk E).
  unfold memory. cbn [buckets ghost]. by rewrite lookup_insert_ne, lookup_delete_ne by done.
Qed.

Lemma check_same l k now st :
  keeps l k k st ->
  let t := refill l now (default (full_bucket l now) (memory st k)) in
  fst (check l k now st) = (token <=? t) /\
  memory (snd (check l k now st)) k =
    Some {| tokens := if token <=? t then t - token else t; last_refill := now |}.
Proof.
  intros Hk t. unfold check, check_opt. rewrite (admit_key_same l k now st Hk). cbn [mbind option_bind].
  fold t. destruct (token <=? t); cbn [from_option id fst snd]; (split; [done|]); unfold memory, set_bucket; cbn [buckets];
    by rewrite lookup_insert, decide_True by done.
Qed.

Lemma check_other l k key now st :
  k <> key -> keeps l k key st -> memory (snd (check l key now st)) k = memory st k.
Proof.
  intros Hne Hk. rewrite <- (admit_key_other l k key now st Hne Hk). unfold check, check_opt.
  destruct (admit_key_present l key now st) as [b ->]. cbn [mbind option_bind].
  destruct (token <=? _); cbn [from_option id snd]; unfold memory, set_bucket; cbn [buckets ghost];
    by rewrite lookup_insert_ne by done.
Qed.

(** What a remembered key can still be granted up to instant [t']. *)
Definition budget (l : RateLimiter) (t t' : Z) (m : option Bucket) : Z :=
  match m with
  | Some b => tokens b + rate l * (t' - last_refill b)
  | None => capacity l * token + rate l * (t' - t)
  end.

Definition sane (t : Z) (m : option Bucket) : Prop :=
  match m with Some b => 0 <= tokens b /\ last_refill b <= t | None => True end.

Lemma grants_within_budget l k calls t t' st :
  0 <= capacity l -> 0 <= rate l -> timed t t' calls -> sane t (memory st k) -> kept_throughout l k calls st ->
  grants l k calls st * token <= budget l t t' (memory st k).
Proof.
  intros Hc Hr. assert (0 < token) as Ht by done.
  revert t st. induction calls as [|[key now] rest IH]; intros t st Hts Hsane Hkept; cbn [grants timed] in *.
  { unfold budget, sane in *. destruct (memory st k); nia. }
  destruct Hts as [Hle Hts], Hkept as [Hk Hkept]. pose proof (timed_le _ _ _ Hts) as Hnow.
  specialize (IH now (snd (check l key now st)) Hts). destruct (decide (key = k)) as [->|Hne].
  - destruct (check_same l k now st Hk) as [Hg Hm]. rewrite Hg. rewrite Hm in IH.
    set (t0 := refill _ _ _) in *. assert (0 <= t0 /\ t0 + rate l * (t' - now) <= budget l t t' (memory st k)) as [H0 Hb].
    { unfold t0, refill, budget, sane in *. destruct (memory st k); cbn in *; nia. }
    assert (sane now (Some {| tokens := if token <=? t0 then t0 - token else t0; last_refill := now |})) as Hs'.
    { cbn. destruct (token <=? t0) eqn:Et; lia. }
    specialize (IH Hs' Hkept). cbn [budget tokens last_refill] in IH. destruct (token <=? t0); lia.
  - rewrite check_other in IH by done.
    assert (sane now (memory st k)) as Hs'. { unfold sane in *. destruct (memory st k); [lia|done]. }
    specialize (IH Hs' Hkept). unfold budget in *. destruct (memory st k); nia.
Qed.

(** Between instants [t] and [t'], whatever other keys are presented
    and however often the key is evicted and restored from the ghost cache, a
    key the limiter does not forget is granted at most [capacity] signatures
    plus [rate] per second elapsed. *)
Theorem limiter_budget l k calls t t' :
  0 <= capacity l -> 0 <= rate l -> timed t t' calls -> kept_throughout l k calls limiter_new ->
  grants l k calls limiter_new * token <= capacity l * token + rate l * (t' - t).
Proof.
  intros Hc Hr Ht Hk. by apply (grants_within_budget l k calls t t' limiter_new).
Qed.

(** A two-bucket limiter: a third key evicts the first, whose ghost still
    refuses it. *)
Definition tiny : RateLimiter := {| capacity := 1; rate := 1; max_tracked := 2 |}.

Lemma limiter_budget_witness :
  let calls := [("a", 0); ("b", 1); ("c", 1); ("a", 2)] in
  grants tiny "a" calls limiter_new = 1 /\ grants tiny "a" calls limiter_new * token <= 1 * token + 1 * (2 - 0).
Proof.
  split; [vm_compute; reflexivity|].
  apply (limiter_budget tiny "a" [("a", 0); ("b", 1); ("c", 1); ("a", 2)] 0 2).
  - cbn. lia.
  - cbn. lia.
  - cbn. lia.
  - split; [intros _; vm_compute; reflexivity|]. split; [intros _; vm_compute; reflexivity|].
    split; [intros _; vm_compute; reflexivity|].
    split; [intros _; vm_compute; reflexivity|exact I].
Defined.

(** The attack of the module comment needs fewer keys than it says: with room
    for [max] buckets, [max + 1] keys other than the target, presented round
    robin, push the target's ghost out (the ghost queue counts tombstones of
    restored keys), and the target starts from a full bucket again. *)
Definition three : RateLimiter := {| capacity := 1; rate := 0; max_tracked := 3 |}.

Definition flood : list (string * Z) :=
  ("k", 0) :: ((fun a => (a, 1)) <$> ["a1"; "a2"; "a3"; "a4"; "a1"; "a2"; "a3"]).

(** With room for three buckets, four attacker keys (fewer than the
    [2 * MAX_TRACKED_KEYS] of the module comment) are enough to have an
    exhausted key granted again with no time for a refill; without the flood it
    is refused. *)
Theorem ghost_reset_with_few_keys :
  fst (check three "k" 2 (run three [("k", 0)] limiter_new)) = false /\
  fst (check three "k" 2 (run three flood limiter_new)) = true /\
  Z.of_nat (size (list_to_set (fst <$> flood) : gset string)) - 1 = max_tracked three + 1.
Proof. split; [|split]; vm_compute; reflexivity. Qed.
