(* ===== verification/Eip712.v ===== *)
(** * EIP-712 and attested-data signatures (enclave/src/signer.rs)

    The digests the enclave signs with secp256k1 keys: Hyperliquid agent
    actions, Asterdex messages, x402 transfer authorisations, Permit2
    allowances and attested data.  A digest is a hash of hashes, so "the
    signature binds the request" is stated by extracting a collision: two
    requests with the same digest are equal, or an explicit pair of distinct
    messages hashed on the way to the digest has the same keccak256. *)

From stdpp Require Import pretty.
From S2P Require Import Prelude RustStr Crates Proto Jcs Evm Allowance.

Open Scope string_scope.
Open Scope list_scope.
Open Scope Z_scope.

(** [rmp_serde] on a JSON value ([to_writer], struct maps). *)
Class Msgpack := { rmp_serialize : json -> option string }.

(** MessagePack is self-delimiting: no encoding is a prefix of another. *)
Class MsgpackLaws `{Msgpack} := {
  rmp_prefix_free a b x y s t :
    rmp_serialize a = Some x -> rmp_serialize b = Some y -> x +:+ s = y +:+ t -> a = b /\ s = t
}.

Definition byte1 (n : Z) : string := String (byte_of n) EmptyString.

(** A byte array as the string of its bytes. *)
Definition bytes_str (l : list Z) : string := foldr (fun b s => String (byte_of b) s) EmptyString l.

(** [format!("{:02x}", v)] for a byte. *)
Definition hex02 (v : Z) : string :=
  String (hex_digit (v / 16)) (String (hex_digit (v mod 16)) EmptyString).

Definition zero_bytes (n : nat) : string := bytes_str (replicate n 0).

Section Digests.
Context `{Crates, Msgpack}.

(** ** Hyperliquid *)

Definition msgpack_action (action : json) : result string string :=
  ok_or (rmp_serialize action) "msgpack encode failed".

Definition action_preimage (packed : string) (nonce : Z) (vault : option string) : string :=
  packed +:+ u64_be nonce +:+
  match vault with
  | None => byte1 0
  | Some addr => byte1 1 +:+ addr
  end.

Definition compute_action_hash (action : json) (nonce : Z) (vault : option string) : result string string :=
  packed ← msgpack_action action;
  Ok (keccak256 (action_preimage packed nonce vault)).

Definition eip712_type_hash (type_string : string) : string := keccak256 type_string.

Definition DOMAIN_TYPE : string :=
  "EIP712Domain(string name,string version,uint256 chainId,address verifyingContract)".

Definition hyperliquid_main_domain_separator : string :=
  let chain_id_be := zero_bytes 30 +:+ byte1 5 +:+ byte1 57 in
  keccak256 (eip712_type_hash DOMAIN_TYPE +:+ keccak256 "Exchange" +:+ keccak256 "1" +:+ chain_id_be +:+
             zero_bytes 32).

Definition agent_preimage (source connection_id : string) : string :=
  eip712_type_hash "Agent(string source,bytes32 connectionId)" +:+ keccak256 source +:+ connection_id.
Definition hyperliquid_agent_struct_hash (source connection_id : string) : string :=
  keccak256 (agent_preimage source connection_id).

Definition eip712_preimage (domain_separator struct_hash : string) : string :=
  byte1 25 +:+ byte1 1 +:+ domain_separator +:+ struct_hash.
Definition eip712_digest (domain_separator struct_hash : string) : string :=
  keccak256 (eip712_preimage domain_separator struct_hash).

(** [27u8 + u8::from(recid)]; [recid] is at most 3, so the sum does not wrap. *)
Definition sign_eip712_digest (private_key digest : string) : result string HlSignature :=
  if negb (secp_key_ok private_key) then Err "invalid secp256k1 private key"
  else match secp_sign private_key digest with
  | None => Err "ecdsa sign failed"
  | Some (bytes, recid) =>
      Ok {| hs_r := "0x" +:+ hex_encode (str_take 32 bytes);
            hs_s := "0x" +:+ hex_encode (str_drop 32 bytes);
            hs_v := 27 + recid |}
  end.

(** [s.trim_start_matches("0x")]: every leading occurrence. *)
Fixpoint trim_0x (s : string) : string :=
  match s with
  | String a (String b s') =>
      if decide (a = "0"%char /\ b = "x"%char) then trim_0x s' else s
  | _ => s
  end.

Definition recover_eip712_signer (digest : string) (sig : HlSignature) : result string string :=
  r ← ok_or (hex_decode (trim_0x (hs_r sig))) "bad r hex";
  s ← ok_or (hex_decode (trim_0x (hs_s sig))) "bad s hex";
  if negb ((String.length r =? 32)%nat && (String.length s =? 32)%nat) then Err "r/s must be 32 bytes"
  else if negb ((hs_v sig =? 27) || (hs_v sig =? 28)) then Err "v must be 27 or 28"
  else
    uncompressed ← ok_or (secp_recover digest (r +:+ s) (hs_v sig - 27)) "recovery failed";
    Ok (str_drop 12 (keccak256 (str_drop 1 uncompressed))).

Definition derive_address_from_private_key (private_key : string) : result string string :=
  if negb (secp_key_ok private_key) then Err "invalid secp256k1 private key"
  else
    let pubkey := secp_pub_uncompressed private_key in
    if negb (String.length pubkey =? 65)%nat || negb (bool_decide (byte_at 0 pubkey = Some (byte_of 4))) then
      Err "unexpected secp256k1 public key encoding"
    else Ok (str_drop 12 (keccak256 (str_drop 1 pubkey))).

Definition sign_hyperliquid (private_key : string) (action : json) (nonce : Z) (vault : option string)
    (source : string) : result string HlSignature :=
  action_hash ← compute_action_hash action nonce vault;
  let agent_struct_hash := hyperliquid_agent_struct_hash source action_hash in
  let digest := eip712_digest hyperliquid_main_domain_separator agent_struct_hash in
  sign_eip712_digest private_key digest.

(** ** Attested data *)

Definition sign_attested_data (private_key : string) (value : json) : result string HlSignature :=
  canonical ← canonical_v1 value;
  sign_eip712_digest private_key (attested_data_digest_v1 canonical).

Definition attested_data_pubkey (private_key : string) : result string (string * string) :=
  if negb (secp_key_ok private_key) then Err "invalid secp256k1 private key"
  else
    let compressed_hex := "0x" +:+ hex_encode (secp_pub_compressed private_key) in
    addr ← derive_address_from_private_key private_key;
    Ok (compressed_hex, "0x" +:+ hex_encode addr).

(** ** Asterdex *)

(** The 65-byte [0x r s v] form shared by the three string-valued signers. *)
Definition rsv_hex (sig : HlSignature) : string :=
  "0x" +:+ strip_0x (hs_r sig) +:+ strip_0x (hs_s sig) +:+ hex02 (hs_v sig).

Definition asterdex_domain_separator : string :=
  let chain_id_be := zero_bytes 30 +:+ byte1 6 +:+ byte1 130 in
  keccak256 (eip712_type_hash DOMAIN_TYPE +:+ keccak256 "AsterSignTransaction" +:+ keccak256 "1" +:+
             chain_id_be +:+ zero_bytes 32).

Definition asterdex_message_struct_hash (msg : string) : string :=
  keccak256 (eip712_type_hash "Message(string msg)" +:+ keccak256 msg).

Definition sign_asterdex (private_key msg : string) : result string string :=
  let digest := eip712_digest asterdex_domain_separator (asterdex_message_struct_hash msg) in
  sig ← sign_eip712_digest private_key digest;
  Ok (rsv_hex sig).

(** ** x402 / EIP-3009 *)

Definition abi_word_from_address (addr : string) : string := zero_bytes 12 +:+ addr.
Definition abi_word_from_u64 (n : Z) : string := zero_bytes 24 +:+ u64_be n.

Definition x402_domain_preimage (token_name token_version : string) (chain_id : Z) (token_address : string) : string :=
  eip712_type_hash DOMAIN_TYPE +:+ keccak256 token_name +:+ keccak256 token_version +:+
  abi_word_from_u64 chain_id +:+ abi_word_from_address token_address.
Definition x402_domain_separator (token_name token_version : string) (chain_id : Z) (token_address : string) : string :=
  keccak256 (x402_domain_preimage token_name token_version chain_id token_address).

Definition TRANSFER_TYPE : string :=
  "TransferWithAuthorization(address from,address to,uint256 value,uint256 validAfter,uint256 validBefore,bytes32 nonce)".

Definition x402_transfer_preimage (from to : string) (value : list Z) (valid_after valid_before : Z) (nonce : string)
    : string :=
  eip712_type_hash TRANSFER_TYPE +:+ abi_word_from_address from +:+ abi_word_from_address to +:+
  bytes_str value +:+ abi_word_from_u64 valid_after +:+ abi_word_from_u64 valid_before +:+ nonce.
Definition x402_transfer_with_authorization_struct_hash (from to : string) (value : list Z)
    (valid_after valid_before : Z) (nonce : string) : string :=
  keccak256 (x402_transfer_preimage from to value valid_after valid_before nonce).

Definition x402_digest (token_name token_version : string) (chain_id : Z) (token_address from to : string)
    (value : list Z) (valid_after valid_before : Z) (nonce : string) : string :=
  eip712_digest (x402_domain_separator token_name token_version chain_id token_address)
    (x402_transfer_with_authorization_struct_hash from to value valid_after valid_before nonce).

Definition sign_x402_eip3009 (private_key token_name token_version : string) (chain_id : Z)
    (token_address from to : string) (value : list Z) (valid_after valid_before : Z) (nonce : string)
    : result string string :=
  let digest :=
    x402_digest token_name token_version chain_id token_address from to value valid_after valid_before nonce in
  sig ← sign_eip712_digest private_key digest;
  Ok (rsv_hex sig).

(** ** Permit2 *)

Definition permit2_domain_preimage (chain_id : Z) (verifying_contract : string) : string :=
  eip712_type_hash "EIP712Domain(string name,uint256 chainId,address verifyingContract)" +:+
  keccak256 "Permit2" +:+ abi_word_from_u64 chain_id +:+ abi_word_from_address verifying_contract.
Definition permit2_domain_separator (chain_id : Z) (verifying_contract : string) : string :=
  keccak256 (permit2_domain_preimage chain_id verifying_contract).

Definition DETAILS_TYPE : string :=
  "PermitDetails(address token,uint160 amount,uint48 expiration,uint48 nonce)".

Definition permit2_details_preimage (token : string) (amount : list Z) (expiration nonce : Z) : string :=
  eip712_type_hash DETAILS_TYPE +:+ abi_word_from_address token +:+ bytes_str amount +:+
  abi_word_from_u64 expiration +:+ abi_word_from_u64 nonce.
Definition permit2_permit_details_struct_hash (token : string) (amount : list Z) (expiration nonce : Z)
    : result string string :=
  if existsb (fun b => negb (b =? 0)) (take 12 amount) then Err "permit2: amount does not fit in uint160"
  else if (UINT48_MAX <? expiration) || (UINT48_MAX <? nonce) then
    Err "permit2: expiration/nonce do not fit in uint48"
  else Ok (keccak256 (permit2_details_preimage token amount expiration nonce)).

Definition permit2_single_preimage (details_hash spender : string) (sig_deadline : list Z) : string :=
  eip712_type_hash
    ("PermitSingle(PermitDetails details,address spender,uint256 sigDeadline)" +:+ DETAILS_TYPE) +:+
  details_hash +:+ abi_word_from_address spender +:+ bytes_str sig_deadline.
Definition permit2_permit_single_struct_hash (details_hash spender : string) (sig_deadline : list Z) : string :=
  keccak256 (permit2_single_preimage details_hash spender sig_deadline).

Definition permit2_permit_single_digest (chain_id : Z) (verifying_contract token : string) (amount : list Z)
    (expiration nonce : Z) (spender : string) (sig_deadline : list Z) : result string string :=
  let domain := permit2_domain_separator chain_id verifying_contract in
  details ← permit2_permit_details_struct_hash token amount expiration nonce;
  let single := permit2_permit_single_struct_hash details spender sig_deadline in
  Ok (eip712_digest domain single).

Definition sign_permit2_permit_single (private_key : string) (chain_id : Z) (verifying_contract token : string)
    (amount : list Z) (expiration nonce : Z) (spender : string) (sig_deadline : list Z) : result string string :=
  digest ← permit2_permit_single_digest chain_id verifying_contract token amount expiration nonce spender sig_deadline;
  sig ← sign_eip712_digest private_key digest;
  Ok (rsv_hex sig).

End Digests.

(** ** What a digest binds *)

(** Some pair of distinct messages has one keccak256 digest. *)
Definition collides `{Crates} (pairs : list (string * string)) : Prop :=
  Exists (fun p => fst p <> snd p /\ keccak256 (fst p) = keccak256 (snd p)) pairs.

Lemma keccak_inj_or `{Crates} m m' pairs :
  keccak256 m = keccak256 m' -> (m, m') ∈ pairs -> m = m' \/ collides pairs.
Proof.
  intros He Hin. destruct (decide (m = m')) as [->|Hne]; [by left|right].
  apply Exists_exists. by exists (m, m').
Qed.

Lemma bytes_str_length l : String.length (bytes_str l) = length l.
Proof. induction l as [|b l IH]; [done|]. cbn. f_equal. exact IH. Qed.

Lemma bytes_str_inj l l' : is_bytes l -> is_bytes l' -> bytes_str l = bytes_str l' -> l = l'.
Proof.
  unfold is_bytes. revert l'. induction l as [|b l IH]; intros [|b' l'] Hl Hl' He; cbn in He; try done.
  apply Forall_cons in Hl as [Hb Hl], Hl' as [Hb' Hl']. injection He as Hc He.
  f_equal; [by apply byte_of_inj|by apply IH].
Qed.

(** Membership in an explicit list. *)
Ltac in_list := cbn; first [left | right; in_list].

(** Undo a hash, or finish with the collision. *)
Ltac unhash Hk E :=
  let E' := fresh in destruct (Hk _ _ E ltac:(in_list)) as [E'|?]; [|by right]; clear E; rename E' into E.

Lemma abi_address_inj a b : abi_word_from_address a = abi_word_from_address b -> a = b.
Proof. apply append_inj_prefix. Qed.

Lemma abi_u64_inj a b :
  0 <= a < 2 ^ 64 -> 0 <= b < 2 ^ 64 -> abi_word_from_u64 a = abi_word_from_u64 b -> a = b.
Proof. intros Ha Hb He%append_inj_prefix. by apply u64_be_inj. Qed.

Lemma abi_address_length a : String.length (abi_word_from_address a) = (12 + String.length a)%nat.
Proof. unfold abi_word_from_address, zero_bytes. by rewrite length_append, bytes_str_length. Qed.

Lemma abi_u64_length n : String.length (abi_word_from_u64 n) = 32%nat.
Proof. unfold abi_word_from_u64, zero_bytes, u64_be. by rewrite length_append, bytes_str_length, length_be_bytes. Qed.

Section Binding.
Context `{Crates, !HashLaws}.

Lemma eip712_preimage_inj d s d' s' :
  String.length d = String.length d' -> eip712_preimage d s = eip712_preimage d' s' -> d = d' /\ s = s'.
Proof.
  intros Hl He. unfold eip712_preimage in He. do 2 apply append_inj_prefix in He. by apply append_inj_length in He.
Qed.

(** *** x402 *)

Record X402Auth := {
  xa_name : string; xa_version : string; xa_chain : Z; xa_token : string;
  xa_from : string; xa_to : string; xa_value : list Z; xa_after : Z; xa_before : Z; xa_nonce : string
}.

(** The widths the Rust types impose. *)
Definition x402_wf (a : X402Auth) : Prop :=
  0 <= xa_chain a < 2 ^ 64 /\ 0 <= xa_after a < 2 ^ 64 /\ 0 <= xa_before a < 2 ^ 64 /\
  String.length (xa_token a) = 20%nat /\ String.length (xa_from a) = 20%nat /\ String.length (xa_to a) = 20%nat /\
  is_bytes (xa_value a) /\ length (xa_value a) = 32%nat /\ String.length (xa_nonce a) = 32%nat.

Definition x402_domain_bytes (a : X402Auth) : string :=
  x402_domain_preimage (xa_name a) (xa_version a) (xa_chain a) (xa_token a).
Definition x402_struct_bytes (a : X402Auth) : string :=
  x402_transfer_preimage (xa_from a) (xa_to a) (xa_value a) (xa_after a) (xa_before a) (xa_nonce a).
Definition x402_auth_digest (a : X402Auth) : string :=
  x402_digest (xa_name a) (xa_version a) (xa_chain a) (xa_token a) (xa_from a) (xa_to a) (xa_value a)
    (xa_after a) (xa_before a) (xa_nonce a).

(** Every message hashed for [a] that depends on the request. *)
Definition x402_messages (a : X402Auth) : list string :=
  [xa_name a; xa_version a; x402_domain_bytes a; x402_struct_bytes a;
   eip712_preimage (keccak256 (x402_domain_bytes a)) (keccak256 (x402_struct_bytes a))].

Lemma x402_struct_inj a b :
  x402_wf a -> x402_wf b -> x402_struct_bytes a = x402_struct_bytes b ->
  xa_from a = xa_from b /\ xa_to a = xa_to b /\ xa_value a = xa_value b /\ xa_after a = xa_after b /\
  xa_before a = xa_before b /\ xa_nonce a = xa_nonce b.
Proof.
  intros (_ & Ha1 & Ha2 & _ & Lf & Lt & Bv & Lv & Ln) (_ & Hb1 & Hb2 & _ & Lf' & Lt' & Bv' & Lv' & Ln') He.
  unfold x402_struct_bytes, x402_transfer_preimage in He. apply append_inj_prefix in He.
  apply append_inj_length in He as [E1 He]; [|by rewrite !abi_address_length; congruence].
  apply append_inj_length in He as [E2 He]; [|by rewrite !abi_address_length; congruence].
  apply append_inj_length in He as [E3 He]; [|by rewrite !bytes_str_length; congruence].
  apply append_inj_length in He as [E4 He]; [|by rewrite !abi_u64_length].
  apply append_inj_length in He as [E5 He]; [|by rewrite !abi_u64_length].
  apply abi_address_inj in E1, E2. apply bytes_str_inj in E3; [|done..]. 
  apply abi_u64_inj in E4; [|done..]. apply abi_u64_inj in E5; [|done..]. done.
Qed.

Lemma x402_domain_inj a b :
  x402_wf a -> x402_wf b -> x402_domain_bytes a = x402_domain_bytes b ->
  keccak256 (xa_name a) = keccak256 (xa_name b) /\ keccak256 (xa_version a) = keccak256 (xa_version b) /\
  xa_chain a = xa_chain b /\ xa_token a = xa_token b.
Proof.
  intros (Hc & _ & _ & Lt & _) (Hc' & _ & _ & Lt' & _) He.
  unfold x402_domain_bytes, x402_domain_preimage in He. apply append_inj_prefix in He.
  apply append_inj_length in He as [E1 He]; [|by rewrite !keccak256_length].
  apply append_inj_length in He as [E2 He]; [|by rewrite !keccak256_length].
  apply append_inj_length in He as [E3 He]; [|by rewrite !abi_u64_length].
  apply abi_u64_inj in E3; [|done..]. apply abi_address_inj in He. done.
Qed.

(** An x402 signature binds the whole authorisation.  Two well-formed
    authorisations with the same EIP-712 digest agree in every field (token
    name, version, chain, contract, payer, payee, value, validity window,
    nonce), unless two distinct messages among the five hashed on the way
    collide under keccak256. *)
Theorem x402_digest_binds a b :
  x402_wf a -> x402_wf b -> x402_auth_digest a = x402_auth_digest b ->
  a = b \/ collides (zip (x402_messages a) (x402_messages b)).
Proof.
  intros Ha Hb He. set (pairs := zip _ _).
  pose proof (fun m m' => keccak_inj_or m m' pairs) as Hk.
  unfold x402_auth_digest, x402_digest, eip712_digest, x402_domain_separator,
    x402_transfer_with_authorization_struct_hash in He.
  unhash Hk He.
  apply eip712_preimage_inj in He as [Ed Es]; [|by rewrite !keccak256_length].
  unhash Hk Ed.
  unhash Hk Es.
  apply x402_struct_inj in Es as (? & ? & ? & ? & ? & ?); [|done..].
  apply x402_domain_inj in Ed as (En & Ev & ? & ?); [|done..].
  unhash Hk En.
  unhash Hk Ev.
  left. clear Hk pairs. destruct a, b; cbn in *; congruence.
Qed.

(** *** Permit2 *)

Record Permit := {
  pm_chain : Z; pm_contract : string; pm_token : string; pm_amount : list Z;
  pm_expiration : Z; pm_nonce : Z; pm_spender : string; pm_deadline : list Z
}.

Definition permit_wf (p : Permit) : Prop :=
  0 <= pm_chain p < 2 ^ 64 /\ 0 <= pm_expiration p < 2 ^ 64 /\ 0 <= pm_nonce p < 2 ^ 64 /\
  String.length (pm_token p) = 20%nat /\ is_bytes (pm_amount p) /\ length (pm_amount p) = 32%nat /\
  String.length (pm_spender p) = 20%nat /\ is_bytes (pm_deadline p) /\ length (pm_deadline p) = 32%nat.

Definition permit_digest (p : Permit) : result string string :=
  permit2_permit_single_digest (pm_chain p) (pm_contract p) (pm_token p) (pm_amount p) (pm_expiration p)
    (pm_nonce p) (pm_spender p) (pm_deadline p).

Definition permit_domain_bytes (p : Permit) : string := permit2_domain_preimage (pm_chain p) (pm_contract p).
Definition permit_details_bytes (p : Permit) : string :=
  permit2_details_preimage (pm_token p) (pm_amount p) (pm_expiration p) (pm_nonce p).
Definition permit_single_bytes (p : Permit) : string :=
  permit2_single_preimage (keccak256 (permit_details_bytes p)) (pm_spender p) (pm_deadline p).

Definition permit_messages (p : Permit) : list string :=
  [permit_domain_bytes p; permit_details_bytes p; permit_single_bytes p;
   eip712_preimage (keccak256 (permit_domain_bytes p)) (keccak256 (permit_single_bytes p))].

Lemma permit_details_inj p q :
  permit_wf p -> permit_wf q -> permit_details_bytes p = permit_details_bytes q ->
  pm_token p = pm_token q /\ pm_amount p = pm_amount q /\ pm_expiration p = pm_expiration q /\
  pm_nonce p = pm_nonce q.
Proof.
  intros (_ & He1 & Hn1 & Lt & Ba & La & _) (_ & He2 & Hn2 & Lt' & Ba' & La' & _) He.
  unfold permit_details_bytes, permit2_details_preimage in He. apply append_inj_prefix in He.
  apply append_inj_length in He as [E1 He]; [|by rewrite !abi_address_length; congruence].
  apply append_inj_length in He as [E2 He]; [|by rewrite !bytes_str_length; congruence].
  apply append_inj_length in He as [E3 He]; [|by rewrite !abi_u64_length].
  apply abi_address_inj in E1. apply bytes_str_inj in E2; [|done..].
  apply abi_u64_inj in E3; [|done..]. apply abi_u64_inj in He; [|done..]. done.
Qed.

Lemma permit_single_inj p q :
  permit_wf p -> permit_wf q -> permit_single_bytes p = permit_single_bytes q ->
  keccak256 (permit_details_bytes p) = keccak256 (permit_details_bytes q) /\
  pm_spender p = pm_spender q /\ pm_deadline p = pm_deadline q.
Proof.
  intros (_ & _ & _ & _ & _ & _ & Ls & Bd & Ld) (_ & _ & _ & _ & _ & _ & Ls' & Bd' & Ld') He.
  unfold permit_single_bytes, permit2_single_preimage in He. apply append_inj_prefix in He.
  apply append_inj_length in He as [E1 He]; [|by rewrite !keccak256_length].
  apply append_inj_length in He as [E2 He]; [|by rewrite !abi_address_length; congruence].
  apply abi_address_inj in E2. apply bytes_str_inj in He; done.
Qed.

Lemma permit_digest_ok p d :
  permit_digest p = Ok d ->
  d = keccak256 (eip712_preimage (keccak256 (permit_domain_bytes p)) (keccak256 (permit_single_bytes p))) /\
  pm_expiration p <= UINT48_MAX /\ pm_nonce p <= UINT48_MAX /\ Forall (fun b => b = 0) (take 12 (pm_amount p)).
Proof.
  unfold permit_digest, permit2_permit_single_digest, permit2_permit_details_struct_hash.
  destruct (existsb _ _) eqn:Ex; [done|]. destruct (_ || _) eqn:Eo; [done|]. intros [= <-].
  apply orb_false_iff in Eo as [Ee En]. split; [done|]. split; [lia|]. split; [lia|].
  apply Forall_forall. intros b Hb. destruct (decide (b = 0)); [done|exfalso].
  apply not_true_iff_false in Ex. apply Ex, existsb_exists. exists b. split; [by apply list_elem_of_In|].
  apply negb_true_iff. lia.
Qed.

(** A Permit2 signature binds the whole allowance.  When both
    digests exist, the amount fits in 160 bits and expiration and nonce in 48;
    two well-formed permits with the same digest agree in every field (chain,
    verifying contract, token, amount, expiration, nonce, spender, deadline),
    unless distinct messages hashed on the way collide. *)
Theorem permit2_digest_binds p q d :
  permit_wf p -> permit_wf q -> permit_digest p = Ok d -> permit_digest q = Ok d ->
  (p = q \/ collides (zip (permit_messages p) (permit_messages q))) /\
  pm_expiration p < 2 ^ 48 /\ pm_nonce p < 2 ^ 48 /\ Forall (fun b => b = 0) (take 12 (pm_amount p)).
Proof.
  intros Hp Hq (He & Hx & Hn & Hz)%permit_digest_ok (He' & _)%permit_digest_ok.
  split; [|unfold UINT48_MAX in *; lia || (split; [lia|split; [lia|done]])].
  subst d. set (pairs := zip _ _).
  pose proof (fun m m' => keccak_inj_or m m' pairs) as Hk.
  unhash Hk He'.
  apply eip712_preimage_inj in He' as [Ed Es]; [|by rewrite !keccak256_length].
  unhash Hk Ed.
  unhash Hk Es.
  apply permit_single_inj in Es as (Et & ? & ?); [|done..].
  unhash Hk Et.
  apply permit_details_inj in Et as (? & ? & ? & ?); [|done..].
  unfold permit_domain_bytes, permit2_domain_preimage in Ed. do 2 apply append_inj_prefix in Ed.
  apply append_inj_length in Ed as [Ec Ed]; [|by rewrite !abi_u64_length].
  apply abi_u64_inj in Ec; [|apply Hp|apply Hq]. apply abi_address_inj in Ed.
  left. clear Hk pairs. destruct p, q; cbn in *; congruence.
Qed.
End Binding.

(** *** Hyperliquid *)

Section Hyperliquid.
Context `{Crates, !HashLaws, Msgpack, !MsgpackLaws}.

Record HlRequest := { hr_action : json; hr_nonce : Z; hr_vault : option string; hr_source : string }.

Definition hl_wf (r : HlRequest) : Prop :=
  0 <= hr_nonce r < 2 ^ 64 /\ match hr_vault r with Some v => String.length v = 20%nat | None => True end.

(** The digest [sign_hyperliquid] signs. *)
Definition hl_digest (r : HlRequest) : result string string :=
  action_hash ← compute_action_hash (hr_action r) (hr_nonce r) (hr_vault r);
  Ok (eip712_digest hyperliquid_main_domain_separator (hyperliquid_agent_struct_hash (hr_source r) action_hash)).

Lemma sign_hyperliquid_digest k r :
  sign_hyperliquid k (hr_action r) (hr_nonce r) (hr_vault r) (hr_source r) =
  (d ← hl_digest r; sign_eip712_digest k d).
Proof. unfold sign_hyperliquid, hl_digest. by destruct (compute_action_hash _ _ _). Qed.

Definition hl_messages (r : HlRequest) (packed : string) : list string :=
  let pre := action_preimage packed (hr_nonce r) (hr_vault r) in
  let agent := agent_preimage (hr_source r) (keccak256 pre) in
  [hr_source r; pre; agent; eip712_preimage hyperliquid_main_domain_separator (keccak256 agent)].

Lemma action_preimage_inj a b x y n m v w :
  rmp_serialize a = Some x -> rmp_serialize b = Some y -> 0 <= n < 2 ^ 64 -> 0 <= m < 2 ^ 64 ->
  action_preimage x n v = action_preimage y m w -> a = b /\ n = m /\ v = w.
Proof.
  intros Ha Hb Hn Hm He. unfold action_preimage in He.
  destruct (rmp_prefix_free a b x y _ _ Ha Hb He) as [-> He']. split; [done|]. clear He. rename He' into He.
  apply append_inj_length in He as [En He]; [|unfold u64_be; by rewrite !length_be_bytes].
  apply u64_be_inj in En; [|done..]. split; [done|].
  destruct v as [v|], w as [w|]; [|done..].
  apply append_inj_prefix in He. by subst.
Qed.

(** A Hyperliquid signature binds the action, the nonce, the vault and
    the network tag.  Two requests whose digests are both computed and equal
    are the same request (in particular a testnet signature, source b, is never
    a mainnet signature, source a), unless distinct messages hashed on the way
    collide. *)
Theorem hyperliquid_digest_binds r r' d :
  hl_wf r -> hl_wf r' -> hl_digest r = Ok d -> hl_digest r' = Ok d ->
  exists x x', rmp_serialize (hr_action r) = Some x /\ rmp_serialize (hr_action r') = Some x' /\
    (r = r' \/ collides (zip (hl_messages r x) (hl_messages r' x'))).
Proof.
  intros [Hn Hv] [Hn' Hv'] Hd Hd'. unfold hl_digest, compute_action_hash, msgpack_action in Hd, Hd'.
  destruct (rmp_serialize (hr_action r)) as [x|] eqn:Ex; [|done].
  destruct (rmp_serialize (hr_action r')) as [x'|] eqn:Ex'; [|done].
  exists x, x'. split; [done|]. split; [done|]. injection Hd as <-. injection Hd' as He. symmetry in He.
  set (pairs := zip _ _). pose proof (fun m m' => keccak_inj_or m m' pairs) as Hk.
  unfold eip712_digest, hyperliquid_agent_struct_hash in He. unhash Hk He.
  apply eip712_preimage_inj in He as [_ He]; [|done]. unhash Hk He.
  apply append_inj_prefix in He. apply append_inj_length in He as [Es He]; [|by rewrite !keccak256_length].
  unhash Hk Es. unhash Hk He.
  apply (action_preimage_inj (hr_action r) (hr_action r')) in He as (Ea & En & Ev); [|done..].
  left. clear Hk pairs. destruct r, r'; cbn in *; congruence.
Qed.
End Hyperliquid.

(** ** Signing and recovering *)

Section Recover.
Context `{Crates, !HexLaws, !HashLaws, !SecpLaws}.

Lemma trim_0x_hex s : bytes_all is_ascii_hexdigit s = true -> trim_0x ("0x" +:+ s) = s.
Proof.
  intros Hs. change (trim_0x (String "0" (String "x" s)) = s). cbn [trim_0x]. rewrite decide_True by done.
  destruct s as [|a [|b s]]; [done..|]. cbn [trim_0x]. rewrite decide_False; [done|]. by intros [-> ->].
Qed.

(** Signing and [ecrecover] agree.  Every signature the enclave makes
    carries a recovery byte from 27 to 30; for 27 and 28 recovering the signer
    from the digest yields exactly the 20-byte address derived from the signing
    key, and [recover_eip712_signer] refuses the other two. *)
Theorem eip712_recover_roundtrip k d sig :
  sign_eip712_digest k d = Ok sig ->
  27 <= hs_v sig <= 30 /\
  (if hs_v sig <=? 28 then
     recover_eip712_signer d sig = derive_address_from_private_key k /\
     exists addr, derive_address_from_private_key k = Ok addr /\ String.length addr = 20%nat
   else is_ok (recover_eip712_signer d sig) = false).
Proof.
  unfold sign_eip712_digest. destruct (secp_key_ok k) eqn:Hk; cbn [negb]; [|done].
  destruct (secp_sign k d) as [[bytes recid]|] eqn:Hs; [|done]. intros Hsig.
  assert (sig = {| hs_r := "0x" +:+ hex_encode (str_take 32 bytes); hs_s := "0x" +:+ hex_encode (str_drop 32 bytes);
                   hs_v := 27 + recid |}) as -> by congruence. clear Hsig. cbn [hs_v].
  destruct (secp_sign_shape _ _ _ _ Hs) as [Hl Hr]. split; [lia|].
  assert (exists a b, bytes = a +:+ b /\ String.length a = 32%nat /\ String.length b = 32%nat) as (a & b & -> & La & Lb).
  { exists (str_take 32 bytes), (str_drop 32 bytes). destruct (str_split_at 32 bytes) as (? & ? & ?); [lia|].
    split; [done|]. split; [done|lia]. }
  rewrite <- La, str_take_app, str_drop_app. unfold recover_eip712_signer. cbn [hs_r hs_s hs_v].
  rewrite !trim_0x_hex by apply hex_encode_hex. rewrite !hex_decode_encode. cbn [ok_or mbind result_bind].
  rewrite La, Lb. cbn [Nat.eqb andb negb].
  destruct (secp_pub_sec1 k Hk) as (Hp & xy & Hxy).
  destruct (Z.leb_spec (27 + recid) 28).
  - replace ((27 + recid =? 27) || (27 + recid =? 28)) with true by (symmetry; lia). cbn [negb].
    replace (27 + recid - 27) with recid by lia. rewrite (secp_recover_sign k d _ _ Hk Hs). cbn [ok_or mbind result_bind].
    unfold derive_address_from_private_key. rewrite Hk, Hp, Hxy. cbn [negb Nat.eqb orb byte_at String.get].
    rewrite bool_decide_true by done. cbn [negb orb]. split; [done|]. eexists. split; [done|].
    rewrite str_drop_length, keccak256_length. done.
  - replace ((27 + recid =? 27) || (27 + recid =? 28)) with false by (symmetry; lia). done.
Qed.
End Recover.

(** ** Concrete instances *)

(** A self-delimiting serializer: numbers become tagged strings, then the
    prefix-free text of [enc]. *)
Fixpoint untype (v : json) : json :=
  match v with
  | JNum (PosInt n) => JStr ("p" +:+ pretty n)
  | JNum (NegInt n) => JStr ("n" +:+ pretty n)
  | JNum (Float r) => JStr ("f" +:+ r)
  | JStr s => JStr ("s" +:+ s)
  | JArr l => JArr (untype <$> l)
  | JObj fs => JObj ((fun p => (fst p, untype (snd p))) <$> fs)
  | _ => v
  end.

Lemma untype_no_numbers v : no_numbers (untype v) = true.
Proof.
  induction v as [| |[]| |l IH|fs IH] using json_nested_ind; try done; cbn [untype no_numbers].
  - apply forallb_Forall, Forall_fmap. done.
  - apply forallb_Forall, Forall_fmap. done.
Qed.

Lemma fmap_inj_Forall {A B} (f : A -> B) l l' : Forall (fun x => forall y, f x = f y -> x = y) l -> f <$> l = f <$> l' -> l = l'.
Proof.
  revert l'. induction l as [|x l IH]; intros [|y l'] Hl He; try done. apply Forall_cons in Hl as [Hx Hl].
  injection He as Exy He. f_equal; [by apply Hx|by apply IH].
Qed.

Lemma untype_inj v : forall w, untype v = untype w -> v = w.
Proof.
  induction v as [|b|n|s|l IH|fs IH] using json_nested_ind; intros w He.
  - destruct w as [| |[]| | |]; try done.
  - destruct w as [| |[]| | |]; try done.
  - destruct n, w as [| |[]| | |]; cbn in He; try done; injection He; intros; simplify_eq; done.
  - destruct w as [| |[]| | |]; cbn in He; try done; injection He; intros; simplify_eq; done.
  - destruct w as [| |[]| |l'|]; try done. injection He as He. f_equal. by apply (fmap_inj_Forall untype).
  - destruct w as [| |[]| | |fs']; try done. injection He as He. f_equal.
    eapply fmap_inj_Forall; [|exact He]. eapply Forall_impl; [exact IH|].
    intros [k v] Hv [k' v'] Hp. cbn in *. injection Hp as -> Hp. f_equal. by apply Hv.
Qed.

Definition demo_msgpack : Msgpack := {| rmp_serialize v := Some (enc (untype v)) |}.

#[global] Instance demo_msgpack_laws : @MsgpackLaws demo_msgpack.
Proof.
  constructor. intros a b x y s t. cbn. intros [= <-] [= <-] He.
  destruct (enc_prefix_free (untype a) (untype b) s t) as [E ->]; [apply untype_no_numbers..|done|].
  split; [by apply untype_inj|done].
Qed.

Definition addr_a : string := be_bytes 20 170.
Definition addr_b : string := be_bytes 20 187.

Definition demo_auth : X402Auth :=
  {| xa_name := "USD Coin"; xa_version := "2"; xa_chain := 8453; xa_token := addr_a; xa_from := addr_a; xa_to := addr_b;
     xa_value := replicate 31 0 ++ [100]; xa_after := 0; xa_before := 1700000000; xa_nonce := be_bytes 32 7 |}.

Lemma word_bytes z : 0 <= z < 256 -> is_bytes (replicate 31 0 ++ [z]).
Proof.
  intros Hz. apply Forall_app. split; [apply Forall_replicate; red; lia|]. apply Forall_cons. split; [done|apply Forall_nil_2].
Qed.

Lemma x402_digest_binds_witness :
  demo_auth = demo_auth \/ @collides demo_crates (zip (@x402_messages demo_crates demo_auth) (@x402_messages demo_crates demo_auth)).
Proof.
  apply (@x402_digest_binds demo_crates demo_hash_laws demo_auth demo_auth); [| |reflexivity].
  all: unfold x402_wf; cbn [xa_chain xa_after xa_before xa_token xa_from xa_to xa_value xa_nonce demo_auth];
    do 3 (split; [lia|]); do 3 (split; [reflexivity|]); (split; [apply word_bytes; lia|]); split; reflexivity.
Defined.

Definition demo_permit : Permit :=
  {| pm_chain := 1; pm_contract := addr_a; pm_token := addr_b; pm_amount := replicate 31 0 ++ [100];
     pm_expiration := 1700000000; pm_nonce := 0; pm_spender := addr_a; pm_deadline := replicate 31 0 ++ [200] |}.

Lemma permit2_digest_binds_witness :
  demo_permit = demo_permit \/
  @collides demo_crates (zip (@permit_messages demo_crates demo_permit) (@permit_messages demo_crates demo_permit)).
Proof.
  refine (proj1 (@permit2_digest_binds demo_crates demo_hash_laws demo_permit demo_permit _ _ _ eq_refl eq_refl)).
  all: unfold permit_wf; cbn [pm_chain pm_expiration pm_nonce pm_token pm_amount pm_spender pm_deadline demo_permit];
    do 3 (split; [lia|]); (split; [reflexivity|]); (split; [apply word_bytes; lia|]); (split; [reflexivity|]);
    (split; [reflexivity|]); (split; [apply word_bytes; lia|]); reflexivity.
Defined.

Definition demo_hl_request (source : string) : HlRequest :=
  {| hr_action := JObj [("type", JStr "cancel"); ("cancels", JArr [])]; hr_nonce := 1700000000000;
     hr_vault := Some addr_a; hr_source := source |}.

Lemma hyperliquid_digest_binds_witness :
  let r := demo_hl_request "a" in
  exists x x', @rmp_serialize demo_msgpack (hr_action r) = Some x /\ @rmp_serialize demo_msgpack (hr_action r) = Some x' /\
    (r = r \/ @collides demo_crates (zip (@hl_messages demo_crates r x) (@hl_messages demo_crates r x'))).
Proof.
  refine (@hyperliquid_digest_binds demo_crates demo_hash_laws demo_msgpack demo_msgpack_laws
    (demo_hl_request "a") (demo_hl_request "a") _ _ _ eq_refl eq_refl).
  all: split; [cbn; lia|reflexivity].
Defined.

Lemma eip712_recover_roundtrip_witness :
  exists sig, @sign_eip712_digest demo_crates (be_bytes 32 5) (be_bytes 32 9) = Ok sig /\ 27 <= hs_v sig <= 30 /\
    @recover_eip712_signer demo_crates (be_bytes 32 9) sig = @derive_address_from_private_key demo_crates (be_bytes 32 5).
Proof.
  eexists. split; [reflexivity|].
  destruct (@eip712_recover_roundtrip demo_crates demo_hex_laws demo_hash_laws demo_secp_laws
    (be_bytes 32 5) (be_bytes 32 9) _ eq_refl) as [Hv Hr].
  split; [exact Hv|]. exact (proj1 Hr).
Defined.
