(* ===== verification/Receipt.v ===== *)
(** * Decision receipts and heartbeats (enclave/src/receipt.rs)

    Every tenant decision gets a signed receipt with a per-customer sequence
    number; a heartbeat reports the counter.  The counter section ([SEQ] lock)
    is one atomic step; the key is copied out of its slot before it.  The
    random [boot_id] and [serde_json::to_vec] are parameters. *)

From S2P Require Import Prelude RustStr Crates Proto Jcs Registry Intent Eip712.

Open Scope string_scope.
Open Scope list_scope.
Open Scope Z_scope.

Definition DECISION_RECEIPT_DOMAIN_V1 : string := "usenami-decision-receipt-v1".
Definition RECEIPT_HEARTBEAT_DOMAIN_V1 : string := "usenami-receipt-heartbeat-v1".
Definition MAX_CLIENT_NONCE_LEN : nat := 128.

(** [serde_json::to_vec] on the typed request fields, and the boot id. *)
Class ReceiptEnv := {
  json_to_vec : json -> option string;
  order_to_vec : OrderRequest -> option string;
  cancel_to_vec : CancelRequest -> option string;
  x402_to_vec : X402Request -> option string;
  permit2_to_vec : Permit2Request -> option string;
  boot_id : string
}.

Record ReceiptState := { rc_key : option string; rc_seq : gmap string Z }.

Definition receipts_boot : ReceiptState := {| rc_key := None; rc_seq := ∅ |}.

(** Idempotent; a different key replaces the old one. *)
Definition install_key (pk : string) (st : ReceiptState) : ReceiptState :=
  if decide (rc_key st = Some pk) then st else {| rc_key := Some pk; rc_seq := rc_seq st |}.

Definition push_field (bytes : string) : string := u64_be (Z.of_nat (String.length bytes)) +:+ bytes.

Inductive HeartbeatUnavailable := NoKey | HbInternal (why : string).

Record Pre := {
  pre_customer_id : string;
  pre_action : string;
  pre_request_hash : string;
  pre_intent_sig_hash : string;
  pre_supplied_ts_ms : string
}.

Section Receipts.
Context `{Crates, ReceiptEnv}.

Definition public_key_compressed (st : ReceiptState) : option string :=
  pk ← rc_key st;
  match attested_data_pubkey pk with
  | Ok (hex_compressed, _) => hex_decode (trim_0x hex_compressed)
  | Err _ => None
  end.

Definition push_str (v : option string) : string := push_field (default "" v).
Definition push_json {T} (to_vec : T -> option string) (v : option T) : string :=
  push_field (default "" (v ≫= to_vec)).
Definition push_num (v : option Z) : string := push_field (from_option u64_to_string "" v).

(** The bytes streamed into the hasher, field by field. *)
Definition request_preimage (req : SignRequest) : string :=
  push_field (r_action req) +:+ push_str (r_method req) +:+ push_str (r_path req) +:+ push_str (r_query req) +:+
  push_str (r_body req) +:+ push_str (r_op req) +:+ push_str (r_payload req) +:+ push_num (r_timestamp_ms req) +:+
  push_json json_to_vec (r_hl_action req) +:+ push_num (r_nonce req) +:+ push_str (r_vault_address req) +:+
  push_json order_to_vec (r_order req) +:+ push_json cancel_to_vec (r_cancel req) +:+
  push_json x402_to_vec (r_x402 req) +:+ push_json permit2_to_vec (r_permit2 req) +:+ push_str (r_data req).

Definition request_digest_v1 (req : SignRequest) : string := sha256 (request_preimage req).

Definition sha256_hex (bytes : string) : string := hex_encode (sha256 bytes).

Definition is_receipted_action (action : string) : bool :=
  starts_with "sign_" action && negb (bool_decide (action = "sign_data")) && negb (bool_decide (action = "sign")).

Definition capture (identity : ResolvedIdentity) (req : SignRequest) : Pre :=
  {| pre_customer_id := id_customer_id identity;
     pre_action := r_action req;
     pre_request_hash := hex_encode (request_digest_v1 req);
     pre_intent_sig_hash := from_option sha256_hex "" (r_intent_signature req);
     pre_supplied_ts_ms := from_option u64_to_string "" (r_timestamp_ms req) |}.

Definition receipt_value (r : DecisionReceipt) : json :=
  JObj [("v", JStr (dr_v r)); ("decision", JStr (dr_decision r)); ("reason_code", JStr (dr_reason_code r));
        ("customer_id", JStr (dr_customer_id r)); ("action", JStr (dr_action r));
        ("request_hash", JStr (dr_request_hash r)); ("intent_sig_hash", JStr (dr_intent_sig_hash r));
        ("policy_hash", JStr (dr_policy_hash r)); ("supplied_ts_ms", JStr (dr_supplied_ts_ms r));
        ("boot_id", JStr (dr_boot_id r)); ("seq", JStr (dr_seq r))].

Definition signing_payload (r : DecisionReceipt) : result string string := canonical_v1 (receipt_value r).

Definition receipt_digest_v1 (canonical : string) : string := keccak256 (DECISION_RECEIPT_DOMAIN_V1 +:+ canonical).

Definition sign_receipt (pk : string) (r : DecisionReceipt) : result string HlSignature :=
  canonical ← signing_payload r;
  sign_eip712_digest pk (receipt_digest_v1 canonical).

Definition unsigned : HlSignature := {| hs_r := ""; hs_s := ""; hs_v := 0 |}.

Definition draft_receipt (pre : Pre) (resp : SignResponse) (seq : string) (sig : HlSignature) : DecisionReceipt :=
  let '(decision, reason_code) :=
    match s_error resp with None => ("allow", "ok") | Some code => ("deny", code) end in
  {| dr_v := "1"; dr_decision := decision; dr_reason_code := reason_code;
     dr_customer_id := pre_customer_id pre; dr_action := pre_action pre; dr_request_hash := pre_request_hash pre;
     dr_intent_sig_hash := pre_intent_sig_hash pre; dr_policy_hash := default "" (s_policy_hash resp);
     dr_supplied_ts_ms := pre_supplied_ts_ms pre; dr_boot_id := hex_encode boot_id; dr_seq := seq;
     dr_signature := sig |}.

(** The section under the counter lock: number, sign, then commit.  A customer's
    first call inserts a zero that stays even if signing fails. *)
Definition issue_locked (pk : string) (pre : Pre) (resp : SignResponse) (seqs : gmap string Z)
    : option DecisionReceipt * gmap string Z :=
  let seqs := match seqs !! pre_customer_id pre with
              | Some _ => seqs
              | None => <[pre_customer_id pre := 0]> seqs
              end in
  let candidate := default 0 (seqs !! pre_customer_id pre) in
  let seq := u64_to_string candidate in
  match sign_receipt pk (draft_receipt pre resp seq unsigned) with
  | Err _ => (None, seqs)
  | Ok sig =>
      (Some (draft_receipt pre resp seq sig), <[pre_customer_id pre := (candidate + 1) mod 2 ^ 64]> seqs)
  end.

Definition issue_pre (pre : Pre) (resp : SignResponse) (st : ReceiptState) : option DecisionReceipt * ReceiptState :=
  if negb (is_receipted_action (pre_action pre)) then (None, st)
  else match rc_key st with
  | None => (None, st)
  | Some pk =>
      let '(r, seqs) := issue_locked pk pre resp (rc_seq st) in
      (r, {| rc_key := rc_key st; rc_seq := seqs |})
  end.

Definition with_receipt (r : DecisionReceipt) (resp : SignResponse) : SignResponse :=
  {| s_signature_base64 := s_signature_base64 resp; s_headers := s_headers resp;
     s_hl_signature := s_hl_signature resp; s_attested := s_attested resp;
     s_provision := s_provision resp; s_error := s_error resp; s_receipt := Some r;
     s_policy_hash := s_policy_hash resp; s_plaintext_sha256 := s_plaintext_sha256 resp;
     s_plaintext_len := s_plaintext_len resp; s_canonical_body := s_canonical_body resp;
     s_heartbeat := s_heartbeat resp; s_attestation_document_b64 := s_attestation_document_b64 resp |}.

Definition attach (pre : Pre) (resp : SignResponse) (st : ReceiptState) : SignResponse * ReceiptState :=
  let '(r, st) := issue_pre pre resp st in
  (match r with Some r => with_receipt r resp | None => resp end, st).

(** ** Heartbeat *)

Definition seq_next_for (customer_id : string) (st : ReceiptState) : Z := default 0 (rc_seq st !! customer_id).

Definition heartbeat_value (hb : ReceiptHeartbeat) : json :=
  JObj [("v", JStr (hb_v hb)); ("boot_id", JStr (hb_boot_id hb)); ("customer_id", JStr (hb_customer_id hb));
        ("seq_next", JStr (hb_seq_next hb)); ("client_nonce", JStr (hb_client_nonce hb));
        ("registry_version", JStr (hb_registry_version hb)); ("entry_hash", JStr (hb_entry_hash hb))].

Definition heartbeat_signing_payload (hb : ReceiptHeartbeat) : result string string :=
  canonical_v1 (heartbeat_value hb).

Definition heartbeat_digest_v1 (canonical : string) : string := keccak256 (RECEIPT_HEARTBEAT_DOMAIN_V1 +:+ canonical).

Definition draft_heartbeat (identity : ResolvedIdentity) (client_nonce entry_hash : string) (seq_next version : Z)
    (sig : HlSignature) : ReceiptHeartbeat :=
  {| hb_v := "1"; hb_boot_id := hex_encode boot_id; hb_customer_id := id_customer_id identity;
     hb_seq_next := u64_to_string seq_next; hb_client_nonce := client_nonce;
     hb_registry_version := u64_to_string version; hb_entry_hash := entry_hash; hb_signature := sig |}.

(** The signed document from the values read: the key, the entry hash, the
    counter and the registry version. *)
Definition sign_heartbeat (pk : string) (identity : ResolvedIdentity) (client_nonce hash : string) (seq_next version : Z)
    : result HeartbeatUnavailable ReceiptHeartbeat :=
  let draft := draft_heartbeat identity client_nonce hash seq_next version in
  canonical ← map_err (fun _ => HbInternal "canonical_failed") (heartbeat_signing_payload (draft unsigned));
  sig ← map_err (fun _ => HbInternal "sign_failed") (sign_eip712_digest pk (heartbeat_digest_v1 canonical));
  Ok (draft sig).

Definition issue_heartbeat (identity : ResolvedIdentity) (client_nonce : string) (version : Z) (st : ReceiptState)
    : result HeartbeatUnavailable ReceiptHeartbeat :=
  pk ← ok_or (rc_key st) NoKey;
  hash ← ok_or (entry_hash identity) (HbInternal "entry_not_canonical");
  sign_heartbeat pk identity client_nonce hash (seq_next_for (id_customer_id identity) st) version.

End Receipts.

(** ** The receipt chain *)

Section Chain.
Context `{Crates, ReceiptEnv}.

(** Atomic steps of concurrent requests: a [sign_data] installs a key, a request
    runs the counter section with whatever key it copied earlier. *)
Inductive receipt_op :=
| OpInstall (pk : string)
| OpIssue (pk : string) (pre : Pre) (resp : SignResponse).

Definition receipt_step (op : receipt_op) (st : ReceiptState) : option DecisionReceipt * ReceiptState :=
  match op with
  | OpInstall pk => (None, install_key pk st)
  | OpIssue pk pre resp =>
      let '(r, seqs) := issue_locked pk pre resp (rc_seq st) in (r, {| rc_key := rc_key st; rc_seq := seqs |})
  end.

Fixpoint receipt_run (ops : list receipt_op) (st : ReceiptState) : list DecisionReceipt * ReceiptState :=
  match ops with
  | [] => ([], st)
  | op :: ops' =>
      let '(r, st) := receipt_step op st in
      let '(rs, st) := receipt_run ops' st in
      (option_list r ++ rs, st)
  end.

Definition receipts_of (c : string) (rs : list DecisionReceipt) : list DecisionReceipt :=
  filter (fun r => dr_customer_id r = c) rs.

Lemma draft_customer pre resp seq sig : dr_customer_id (draft_receipt pre resp seq sig) = pre_customer_id pre.
Proof. unfold draft_receipt. by destruct (s_error resp). Qed.
Lemma draft_seq pre resp seq sig : dr_seq (draft_receipt pre resp seq sig) = seq.
Proof. unfold draft_receipt. by destruct (s_error resp). Qed.

Lemma receipts_of_one c d : receipts_of c (option_list (Some d)) = if decide (dr_customer_id d = c) then [d] else [].
Proof. unfold receipts_of. change (option_list (Some d)) with [d]. rewrite filter_cons. by case_decide. Qed.

(** The counter section, seen by one customer. *)
Lemma issue_locked_spec pk pre resp seqs c :
  let '(r, seqs') := issue_locked pk pre resp seqs in
  let n := default 0 (seqs !! c) in
  (receipts_of c (option_list r) = [] /\ default 0 (seqs' !! c) = n) \/
  (exists d, receipts_of c (option_list r) = [d] /\ dr_seq d = u64_to_string n /\
     default 0 (seqs' !! c) = (n + 1) mod 2 ^ 64).
Proof.
  unfold issue_locked. set (seqs0 := match seqs !! _ with Some _ => _ | None => _ end).
  assert (forall k, default 0 (seqs0 !! k) = default 0 (seqs !! k)) as Hsame.
  { intros k. unfold seqs0. destruct (seqs !! pre_customer_id pre) eqn:E; [done|].
    destruct (decide (pre_customer_id pre = k)) as [<-|Hne].
    - rewrite lookup_insert, decide_True by done. by rewrite E.
    - by rewrite lookup_insert_ne. }
  destruct (sign_receipt _ _) as [sig|e]; [|left; by rewrite Hsame].
  rewrite !receipts_of_one, draft_customer.
  destruct (decide (pre_customer_id pre = c)) as [<-|Hne].
  - right. eexists. split; [done|]. rewrite draft_seq, Hsame. split; [done|].
    rewrite lookup_insert, decide_True by done. done.
  - left. split; [done|]. rewrite lookup_insert_ne by done. by rewrite Hsame.
Qed.

Lemma receipt_step_spec op st c :
  let '(r, st') := receipt_step op st in
  let n := seq_next_for c st in
  (receipts_of c (option_list r) = [] /\ seq_next_for c st' = n) \/
  (exists d, receipts_of c (option_list r) = [d] /\ dr_seq d = u64_to_string n /\
     seq_next_for c st' = (n + 1) mod 2 ^ 64).
Proof.
  destruct op as [pk|pk pre resp]; cbn [receipt_step].
  - left. split; [done|]. unfold install_key. by case_decide.
  - pose proof (issue_locked_spec pk pre resp (rc_seq st) c) as Hs. by destruct (issue_locked _ _ _ _) as [r seqs].
Qed.

Lemma receipt_run_spec ops c : forall st, 0 <= seq_next_for c st ->
  let '(rs, st') := receipt_run ops st in
  let mine := receipts_of c rs in
  seq_next_for c st + Z.of_nat (length mine) < 2 ^ 64 ->
  dr_seq <$> mine = u64_to_string <$> seqZ (seq_next_for c st) (Z.of_nat (length mine)) /\
  seq_next_for c st' = seq_next_for c st + Z.of_nat (length mine).
Proof.
  induction ops as [|op ops IH]; intros st Hst; cbn [receipt_run]; [intros; cbn; split; [done|lia]|].
  pose proof (receipt_step_spec op st c) as Hop. destruct (receipt_step op st) as [r st1].
  specialize (IH st1). destruct (receipt_run ops st1) as [rs st2]. unfold receipts_of in *.
  rewrite filter_app. destruct Hop as [[-> Hn]|(d & -> & Hd & Hn)].
  - rewrite Hn in IH. exact (IH Hst).
  - cbn [app length]. rewrite Nat2Z.inj_succ. intros Hb.
    assert (seq_next_for c st1 = seq_next_for c st + 1) as Hn1 by (rewrite Hn; apply Z.mod_small; lia).
    rewrite Hn1 in IH. destruct IH as [IHs IHn]; [lia|lia|]. split; [|lia].
    rewrite fmap_cons, Hd, IHs, (seqZ_cons _ (Z.succ _)) by lia. rewrite fmap_cons, Z.pred_succ. done.
Qed.

(** C25: whatever requests of whatever tenants interleave, and whatever
    signatures fail, the receipts a customer is issued carry the numbers 0, 1,
    2, ... without a gap or a repeat, and a heartbeat asked afterwards reports
    exactly how many there were, with the caller's nonce (as long as fewer than
    2^64 were issued).  A missing number therefore means a receipt was withheld
    outside the enclave. *)
Theorem receipts_gap_free ops identity nonce version hb :
  let '(rs, st) := receipt_run ops receipts_boot in
  let mine := receipts_of (id_customer_id identity) rs in
  Z.of_nat (length mine) < 2 ^ 64 -> issue_heartbeat identity nonce version st = Ok hb ->
  dr_seq <$> mine = u64_to_string <$> seqZ 0 (Z.of_nat (length mine)) /\
  hb_seq_next hb = u64_to_string (Z.of_nat (length mine)) /\
  hb_client_nonce hb = nonce /\ hb_customer_id hb = id_customer_id identity.
Proof.
  pose proof (receipt_run_spec ops (id_customer_id identity) receipts_boot) as Hs.
  destruct (receipt_run ops receipts_boot) as [rs st]. cbn zeta in *.
  change (seq_next_for (id_customer_id identity) receipts_boot) with 0 in Hs.
  intros Hb Hhb. destruct Hs as [Hseq Hn]; [lia|lia|]. split; [done|].
  unfold issue_heartbeat in Hhb. destruct (rc_key st) as [pk|]; [|done]. cbn [ok_or mbind result_bind] in Hhb.
  destruct (entry_hash identity) as [h|]; [|done]. cbn [ok_or mbind result_bind] in Hhb. unfold sign_heartbeat in Hhb.
  destruct (heartbeat_signing_payload _) as [x|]; [|done]. cbn [map_err mbind result_bind] in Hhb.
  destruct (sign_eip712_digest _ _) as [sig|]; [|done]. cbn [map_err mbind result_bind] in Hhb.
  assert (hb = draft_heartbeat identity nonce h (seq_next_for (id_customer_id identity) st) version sig) as -> by congruence.
  cbn. rewrite Hn. done.
Qed.
End Chain.

(** ** What receipts and documents bind *)

(** The hashed view of a request: absent and empty coincide. *)
Definition request_fields `{ReceiptEnv} (req : SignRequest) : list string :=
  [r_action req; default "" (r_method req); default "" (r_path req); default "" (r_query req);
   default "" (r_body req); default "" (r_op req); default "" (r_payload req);
   from_option u64_to_string "" (r_timestamp_ms req); default "" (r_hl_action req ≫= json_to_vec);
   from_option u64_to_string "" (r_nonce req); default "" (r_vault_address req);
   default "" (r_order req ≫= order_to_vec); default "" (r_cancel req ≫= cancel_to_vec);
   default "" (r_x402 req ≫= x402_to_vec); default "" (r_permit2 req ≫= permit2_to_vec); default "" (r_data req)].

Definition frames (l : list string) : string := foldr (fun f s => push_field f +:+ s) "" l.

Lemma request_preimage_frames `{ReceiptEnv} req : request_preimage req = frames (request_fields req).
Proof.
  unfold request_preimage, frames, request_fields, push_str, push_json, push_num. cbn [foldr].
  by rewrite append_nil_r.
Qed.

Definition framed (f : string) : Prop := Z.of_nat (String.length f) < 2 ^ 64.

Lemma frames_inj l l' :
  Forall framed l -> Forall framed l' -> length l = length l' -> frames l = frames l' -> l = l'.
Proof.
  revert l'. induction l as [|f l IH]; intros [|f' l'] Hl Hl' Hn He; try done.
  apply Forall_cons in Hl as [Hf Hl], Hl' as [Hf' Hl']. cbn [frames foldr] in He. unfold push_field in He.
  rewrite !append_assoc in He. apply append_inj_length in He as [En He].
  2:{ unfold u64_be. by rewrite !length_be_bytes. }
  apply u64_be_inj in En; [|unfold framed in *; lia..].
  apply append_inj_length in He as [-> He]; [|lia]. f_equal. apply IH; [done..|by injection Hn|done].
Qed.

(** [request_digest_v1] hashes an unambiguous framing of the request.
    Two requests with the same preimage agree in all sixteen fields, up to
    identifying an absent field with an empty one. *)
Theorem request_preimage_binds `{ReceiptEnv} req req' :
  Forall framed (request_fields req) -> Forall framed (request_fields req') ->
  request_preimage req = request_preimage req' <-> request_fields req = request_fields req'.
Proof.
  intros Hf Hf'. rewrite !request_preimage_frames. split; [|congruence]. by apply frames_inj.
Qed.

(** Everything in a receipt but its signature. *)
Definition receipt_fields (r : DecisionReceipt) : list string :=
  [dr_v r; dr_decision r; dr_reason_code r; dr_customer_id r; dr_action r; dr_request_hash r; dr_intent_sig_hash r;
   dr_policy_hash r; dr_supplied_ts_ms r; dr_boot_id r; dr_seq r].

Lemma receipt_norm r : norm (receipt_value r) =
  JObj [("action", JStr (dr_action r)); ("boot_id", JStr (dr_boot_id r)); ("customer_id", JStr (dr_customer_id r));
        ("decision", JStr (dr_decision r)); ("intent_sig_hash", JStr (dr_intent_sig_hash r));
        ("policy_hash", JStr (dr_policy_hash r)); ("reason_code", JStr (dr_reason_code r));
        ("request_hash", JStr (dr_request_hash r)); ("seq", JStr (dr_seq r));
        ("supplied_ts_ms", JStr (dr_supplied_ts_ms r)); ("v", JStr (dr_v r))].
Proof. reflexivity. Qed.

(** The signed bytes of a receipt always exist and determine every
    field of it (decision, reason code, customer, action, request hash, intent
    hash, policy hash, timestamp, boot id and number). *)
Theorem receipt_payload_binds r r' :
  exists b, signing_payload r = Ok b /\
    (signing_payload r' = Ok b <-> receipt_fields r = receipt_fields r').
Proof.
  assert (forall x, no_numbers (receipt_value x) = true) as Hnn by done.
  unfold signing_payload. exists (enc (norm (receipt_value r))).
  assert (canonical_v1 (receipt_value r) = Ok (enc (norm (receipt_value r)))) as Hr.
  { by rewrite canonical_v1_spec, Hnn. }
  split; [done|]. split.
  - intros Hr'. destruct (canonical_v1_norm _ _ _ Hr Hr') as [He _]. rewrite !receipt_norm in He.
    unfold receipt_fields. injection He. congruence.
  - intros He. rewrite canonical_v1_spec, Hnn, !receipt_norm. unfold receipt_fields in He.
    injection He. intros. congruence.
Qed.

(** The messages hashed for the three documents the data key signs
    (attested data, decision receipts, heartbeats) and for EIP-712 requests are
    pairwise distinct whatever their contents, so a signature over one kind of
    document is never a signature over another without a keccak256 collision. *)
Theorem signed_documents_disjoint a r h domain struct_hash :
  NoDup [ATTESTED_DATA_DOMAIN_V1 +:+ a; DECISION_RECEIPT_DOMAIN_V1 +:+ r; RECEIPT_HEARTBEAT_DOMAIN_V1 +:+ h;
         eip712_preimage domain struct_hash].
Proof.
  repeat (apply NoDup_cons; split; [set_unfold; intros Hin; naive_solver discriminate|]). apply NoDup_nil_2.
Qed.

(** ** Concrete instances *)

Definition demo_receipt_env : ReceiptEnv :=
  {| json_to_vec v := Some (enc v); order_to_vec _ := None; cancel_to_vec _ := None; x402_to_vec _ := None;
     permit2_to_vec _ := None; boot_id := be_bytes 16 3 |}.

Definition demo_pre (c : string) : Pre :=
  {| pre_customer_id := c; pre_action := "sign_okx"; pre_request_hash := "ab"; pre_intent_sig_hash := "";
     pre_supplied_ts_ms := "1" |}.

Definition demo_tenant : ResolvedIdentity :=
  {| id_customer_id := "c1"; id_allowed_venues := ["okx"]; id_mode := Active |}.

Definition demo_ops : list receipt_op :=
  [OpInstall (be_bytes 32 5); OpIssue (be_bytes 32 5) (demo_pre "c1") (resp_ok "x");
   OpIssue (be_bytes 32 5) (demo_pre "c2") (resp_ok "x"); OpIssue "short key" (demo_pre "c1") (resp_ok "x");
   OpIssue (be_bytes 32 5) (demo_pre "c1") (resp_err err_code.POLICY_DENIED)].

Lemma receipts_gap_free_witness :
  let '(rs, st) := @receipt_run demo_crates demo_receipt_env demo_ops receipts_boot in
  let mine := receipts_of "c1" rs in
  exists hb, @issue_heartbeat demo_crates demo_receipt_env demo_tenant "n1" 4 st = Ok hb /\
  dr_seq <$> mine = ["0"; "1"] /\ hb_seq_next hb = "2".
Proof.
  assert (length (receipts_of "c1" (fst (@receipt_run demo_crates demo_receipt_env demo_ops receipts_boot))) = 2%nat) as Hl
    by (vm_compute; reflexivity).
  assert (is_ok (@issue_heartbeat demo_crates demo_receipt_env demo_tenant "n1" 4
    (snd (@receipt_run demo_crates demo_receipt_env demo_ops receipts_boot))) = true) as Hok by (vm_compute; reflexivity).
  pose proof (@receipts_gap_free demo_crates demo_receipt_env demo_ops demo_tenant "n1" 4) as T.
  destruct (@receipt_run demo_crates demo_receipt_env demo_ops receipts_boot) as [rs st]. cbn [fst snd] in Hl, Hok.
  destruct (@issue_heartbeat demo_crates demo_receipt_env demo_tenant "n1" 4 st) as [hb|] eqn:E; [|discriminate Hok].
  exists hb. split; [reflexivity|]. cbn [id_customer_id demo_tenant] in T. rewrite Hl in T.
  destruct (T hb) as (T1 & T2 & _); [reflexivity|reflexivity|]. split; [exact T1|exact T2].
Defined.

Lemma request_preimage_binds_witness :
  let r := empty_request "sign_okx" in
  @request_preimage demo_receipt_env r <> @request_preimage demo_receipt_env (empty_request "sign_okx_cancel") /\
  (@request_preimage demo_receipt_env r = @request_preimage demo_receipt_env r <->
   @request_fields demo_receipt_env r = @request_fields demo_receipt_env r).
Proof.
  split; [vm_compute; discriminate|].
  apply (@request_preimage_binds demo_receipt_env (empty_request "sign_okx") (empty_request "sign_okx"));
    repeat (apply Forall_cons; split; [vm_compute; reflexivity|]); apply Forall_nil_2.
Defined.
