(* ===== verification/PolicyCli.v ===== *)
(** * The operator's tool (policy-cli/src/main.rs, registry.rs)

    Registry refreshes and policies are signed offline, secrets are wrapped with
    their policy; the enclave checks what comes out.  The commands are functions
    of the files and variables they read; warnings are values, printing is not.
    Both crates declare the same [Policy]; the derived serde code, the Ed25519
    signing half and the argument parser are parameters. *)

From S2P Require Import Prelude RustStr Crates Proto Registry Intent PolicyGate Stores.

Open Scope string_scope.
Open Scope list_scope.
Open Scope Z_scope.

(** ** Parameters *)

(** [ed25519_dalek::SigningKey]: the public key of a seed, and signing. *)
Class SigningKey := { ed25519_public : string -> string; ed25519_sign : string -> string -> string }.
Class SigningLaws `{Crates, SigningKey} := {
  ed25519_public_ok seed : String.length seed = 32%nat ->
    ed25519_key_ok (ed25519_public seed) = true /\ String.length (ed25519_public seed) = 32%nat;
  ed25519_sign_length seed msg : String.length seed = 32%nat -> String.length (ed25519_sign seed msg) = 64%nat;
  ed25519_verify_sign seed msg : String.length seed = 32%nat ->
    ed25519_verify (ed25519_public seed) msg (ed25519_sign seed msg) = true
}.

(** One registry entry as the tool knows it. *)
Record CliEntry := { ce_token : string; ce_customer_id : string; ce_allowed_venues : list string }.

(** The derived serde code of the tool. *)
Class CliSerde := {
  cli_value_of_slice : string -> option json;
  cli_value_to_vec : json -> option string;
  cli_policy_of_slice : string -> option Policy;
  cli_policy_to_value : Policy -> option json;
  cli_entries_to_vec : list CliEntry -> option string;
  cli_wrapped_to_vec : Policy -> json -> option string
}.

(** ** Registry refreshes *)

Definition registry_kms_alias (env : string -> option string) : string :=
  "alias/signer/" +:+ default "prod" (env "SIGNER_KMS_ENV") +:+ "/registry/v1".

Inductive CliError :=
| EntriesEmpty | EmptyToken (i : nat) | UnsafeCustomer (i : nat) | NoVenues (i : nat) | UnsafeVenue (i : nat)
| ReservedX402 (i : nat) | SharedToken (i j : nat)
| VersionZero | BadHex | WrongLength (n : nat) | Serialise | Parse
| AlreadySigned | RoundTripMismatch | NotAnObject | Insane (why : string)
| BadEnvelopeVersion | EmptyDek | BadBase64 | ShortDek (n : nat) | AesGcm.

(** The tool's copy of the registry's charset guard. *)
Definition cli_is_safe_id (s : string) : bool :=
  negb (is_empty s) && (String.length s <=? 64)%nat &&
  bytes_all (fun b => is_ascii_alphanumeric b || bool_decide (b = "-"%char) || bool_decide (b = "_"%char)) s.

(** The [for v in &e.allowed_venues] loop of entry [i]. *)
Fixpoint check_venues (i : nat) (customer : string) (venues : list string) : result CliError () :=
  match venues with
  | [] => Ok ()
  | v :: rest =>
      if negb (cli_is_safe_id v) then Err (UnsafeVenue i)
      else if eq_ignore_ascii_case v RESERVED_X402_VENUE && negb (bool_decide (customer = X402_CUSTOMER_ID)) then Err (ReservedX402 i)
      else check_venues i customer rest
  end.
Fixpoint check_each (i : nat) (entries : list CliEntry) : result CliError () :=
  match entries with
  | [] => Ok ()
  | e :: rest =>
      if is_empty (ce_token e) then Err (EmptyToken i)
      else if negb (cli_is_safe_id (ce_customer_id e)) then Err (UnsafeCustomer i)
      else if bool_decide (ce_allowed_venues e = []) then Err (NoVenues i)
      else _ ← check_venues i (ce_customer_id e) (ce_allowed_venues e); check_each (S i) rest
  end.
(** The first later entry with the same token. *)
Fixpoint same_token (t : string) (j : nat) (entries : list CliEntry) : option nat :=
  match entries with
  | [] => None
  | e :: rest => if bool_decide (ce_token e = t) then Some j else same_token t (S j) rest
  end.
Fixpoint check_tokens (i : nat) (entries : list CliEntry) : result CliError () :=
  match entries with
  | [] => Ok ()
  | e :: rest => match same_token (ce_token e) (S i) rest with
                 | Some j => Err (SharedToken i j)
                 | None => check_tokens (S i) rest
                 end
  end.
Definition validate_entries (entries : list CliEntry) : result CliError () :=
  if bool_decide (entries = []) then Err EntriesEmpty
  else _ ← check_each 0 entries; check_tokens 0 entries.

Section Cli.
Context `{Crates, SigningKey, CliSerde}.

Definition parse_hex32 (s : string) : result CliError string :=
  bytes ← ok_or (hex_decode (trim s)) BadHex;
  if decide (String.length bytes = 32%nat) then Ok bytes else Err (WrongLength (String.length bytes)).

Record SignedRefresh := {
  sr_entries_json : string; sr_content_hash_hex : string; sr_nonce_hex : string; sr_version : Z; sr_signature_hex : string
}.

Definition sign_refresh (entries : list CliEntry) (nonce_hex : string) (version : Z) (seed : string)
    : result CliError SignedRefresh :=
  _ ← validate_entries entries;
  _ ← (if version =? 0 then Err VersionZero else Ok tt);
  nonce ← parse_hex32 nonce_hex;
  entries_json ← ok_or (cli_entries_to_vec entries) Serialise;
  let content_hash := sha256 entries_json in
  let msg := signed_message nonce version content_hash in
  let signature := ed25519_sign seed msg in
  Ok {| sr_entries_json := entries_json; sr_content_hash_hex := hex_encode content_hash; sr_nonce_hex := hex_encode nonce;
        sr_version := version; sr_signature_hex := hex_encode signature |}.

(** [seed] is the 32 bytes drawn from the OS generator. *)
Definition keygen (seed : string) : string * string := (hex_encode (ed25519_public seed), hex_encode seed).

(** ** Policies *)

Definition sign_policy_authority (policy : Policy) (policy_to_vec : Policy -> option string) (customer_id venue seed : string)
    : result CliError string :=
  canonical ← ok_or (policy_to_vec (clear_signatures policy)) Serialise;
  Ok (hex_encode (ed25519_sign seed (policy_authority_message customer_id venue canonical))).

Fixpoint strip_json_nulls (v : json) : json :=
  match v with
  | JObj fields =>
      JObj ((fix go l := match l with
             | [] => []
             | (k, x) :: rest => match x with JNull => go rest | _ => (k, strip_json_nulls x) :: go rest end
             end) fields)
  | JArr l => JArr (map strip_json_nulls l)
  | other => other
  end.

(** [Value]'s [PartialEq]: objects are maps, compared without their order. *)
Fixpoint value_eq (v w : json) : bool :=
  match v, w with
  | JNull, JNull => true
  | JBool a, JBool b => Bool.eqb a b
  | JNum a, JNum b =>
      match a, b with
      | PosInt x, PosInt y | NegInt x, NegInt y => x =? y
      | Float x, Float y => bool_decide (x = y)
      | _, _ => false
      end
  | JStr a, JStr b => bool_decide (a = b)
  | JArr l, JArr l' =>
      (fix go l l' := match l, l' with
       | [], [] => true
       | x :: r, y :: r' => value_eq x y && go r r'
       | _, _ => false
       end) l l'
  | JObj f, JObj f' =>
      (length f =? length f')%nat &&
      (fix go l := match l with
       | [] => true
       | (k, x) :: r => match assoc k f' with Some y => value_eq x y | None => false end && go r
       end) f
  | _, _ => false
  end.

Definition assert_policy_round_trip (policy_bytes : string) (policy : Policy) : result CliError () :=
  raw ← ok_or (cli_value_of_slice policy_bytes) Parse;
  reserialized ← ok_or (cli_policy_to_value policy) Serialise;
  if value_eq (strip_json_nulls raw) reserialized then Ok () else Err RoundTripMismatch.

(** ** The sanity check *)

Inductive Warning :=
| UnknownAction (a : string) | UnknownMethod (m : string) | RelativeAllowed (p : string) | RelativeDenied (p : string)
| SkippedForEip712 | KeyReuse.

Definition KNOWN_SIGN_ACTIONS : list string :=
  ["ping"; "sign"; "sign_kucoin"; "sign_binance"; "sign_bybit"; "sign_okx"; "sign_binance_order"; "sign_binance_cancel";
   "sign_okx_order"; "sign_okx_cancel"; "sign_hyperliquid_main_order"; "sign_hyperliquid_main_cancel";
   "sign_hyperliquid_testnet_order"; "sign_hyperliquid_testnet_cancel"; "sign_asterdex"; "sign_x402_eip3009";
   "sign_binance_request"; "sign_data"; "verify_blob"].
Definition EIP712_ACTIONS : list string :=
  ["sign_hyperliquid_main_order"; "sign_hyperliquid_main_cancel"; "sign_hyperliquid_testnet_order";
   "sign_hyperliquid_testnet_cancel"; "sign_asterdex"; "sign_x402_eip3009"].
Definition KNOWN_METHODS : list string := ["GET"; "POST"; "PUT"; "DELETE"].

Definition is_eip712_action (a : string) : bool := str_in a EIP712_ACTIONS.
Definition policy_permits_any_eip712 (p : Policy) : bool :=
  match p_allowed_actions p with None => true | Some actions => existsb is_eip712_action actions end.
Definition secret_has_private_key (secret : json) : bool := bool_decide (is_Some (jget "private_key" secret ≫= as_str)).

(** Warnings so far, and whether a hard error ended the check. *)
Abbreviation Checked := (list Warning * result CliError ())%type.
Definition and_then (a b : Checked) : Checked :=
  match a with (ws, Ok _) => (ws ++ b.1, b.2) | (ws, Err e) => (ws, Err e) end.
Definition bail (b : bool) (why : string) : Checked := ([], if b then Err (Insane why) else Ok tt).
Definition warn (ws : list Warning) : Checked := (ws, Ok tt).
Notation "a ;;; b" := (and_then a b) (at level 100, right associativity).

(** The loop over a prefix list: empty entries end it, relative ones are noted. *)
Fixpoint check_prefixes (why : string) (note : string -> Warning) (prefixes : list string) : Checked :=
  match prefixes with
  | [] => warn []
  | p :: rest =>
      bail (is_empty p) why;;;
      warn (if starts_with "/" p then [] else [note p]);;;
      check_prefixes why note rest
  end.

Definition x402_incomplete (p : Policy) : bool :=
  match p_x402 p with
  | None => true
  | Some x =>
      bool_decide (xp_chain_id x = None) || bool_decide (xp_token_address x = None) || bool_decide (xp_max_value x = None) ||
      match xp_allowed_recipients x with Some r => bool_decide (r = []) | None => true end
  end.
Definition x402_intended (p : Policy) : bool :=
  match p_allowed_actions p with Some a => str_in "sign_x402_eip3009" a | None => false end ||
  bool_decide (is_Some (p_x402 p)).

Definition is_evm_address (s : string) : bool :=
  let h := match strip_prefix "0x" s with
           | Some h => h
           | None => default s (strip_prefix "0X" s)
           end in
  (String.length h =? 40)%nat && bytes_all is_ascii_hexdigit h.

Definition permits_hl (p : Policy) : bool :=
  match p_allowed_actions p with None => true | Some a => existsb (starts_with "sign_hyperliquid") a end.
Definition permits_asterdex (p : Policy) : bool :=
  match p_allowed_actions p with None => true | Some a => str_in "sign_asterdex" a end.

Definition sanity_check_policy (p : Policy) (secret : json) : Checked :=
  bail (match p_label p with Some l => (128 <? char_count l)%nat | None => false end) "label";;;
  warn (match p_allowed_actions p with
        | Some a => map UnknownAction (filter (fun x => str_in x KNOWN_SIGN_ACTIONS = false) a) | None => [] end);;;
  warn (match p_allowed_methods p with
        | Some m => map UnknownMethod (filter (fun x => str_in x KNOWN_METHODS = false) m) | None => [] end);;;
  check_prefixes "allowed_path_prefixes" RelativeAllowed (default [] (p_allowed_path_prefixes p));;;
  check_prefixes "denied_path_prefixes" RelativeDenied (default [] (p_denied_path_prefixes p));;;
  bail (match p_allowed_asterdex_endpoints p with Some l => existsb is_empty l | None => false end) "allowed_asterdex_endpoints";;;
  warn (if (bool_decide (is_Some (p_allowed_methods p)) || bool_decide (is_Some (p_allowed_path_prefixes p))) &&
           policy_permits_any_eip712 p then [SkippedForEip712] else []);;;
  bail (bool_decide (is_Some (p_max_requests_per_minute p))) "max_requests_per_minute";;;
  bail (x402_intended p && x402_incomplete p) "x402";;;
  bail (match p_x402 p ≫= xp_token_address with Some t => negb (is_evm_address t) | None => false end) "x402.token_address";;;
  bail (match p_x402 p ≫= xp_allowed_recipients with Some r => existsb (fun a => negb (is_evm_address a)) r | None => false end)
    "x402.allowed_recipients";;;
  bail (match p_allowed_vaults p with Some v => existsb (fun a => negb (is_evm_address a)) v | None => false end) "allowed_vaults";;;
  bail (permits_hl p && permits_asterdex p) "both venues";;;
  warn (if secret_has_private_key secret then [KeyReuse] else []).

(** ** Commands *)

(** The seed of [policy-sign] and [registry sign], from a file or a variable. *)
Definition load_seed (priv_hex : string) : result CliError string := parse_hex32 priv_hex.

(** [policy-sign]: the warnings, and the signed policy to write. *)
Definition cmd_policy_sign (policy_to_vec : Policy -> option string) (priv_hex policy_bytes customer_id venue : string)
    : list Warning * result CliError Policy :=
  match load_seed priv_hex with
  | Err e => ([], Err e)
  | Ok seed =>
      match cli_policy_of_slice policy_bytes with
      | None => ([], Err Parse)
      | Some policy =>
          if bool_decide (is_Some (p_policy_authority_sig policy)) then ([], Err AlreadySigned)
          else match assert_policy_round_trip policy_bytes policy with
               | Err e => ([], Err e)
               | Ok _ =>
                   let '(ws, checked) := sanity_check_policy policy (JObj []) in
                   (ws, _ ← checked;
                        sig ← sign_policy_authority policy policy_to_vec customer_id venue seed;
                        Ok {| p_allowed_actions := p_allowed_actions policy; p_allowed_methods := p_allowed_methods policy;
                              p_allowed_path_prefixes := p_allowed_path_prefixes policy;
                              p_denied_path_prefixes := p_denied_path_prefixes policy;
                              p_max_requests_per_minute := p_max_requests_per_minute policy; p_label := p_label policy;
                              p_allowed_asterdex_endpoints := p_allowed_asterdex_endpoints policy; p_x402 := p_x402 policy;
                              p_permit2 := p_permit2 policy; p_order_caps := p_order_caps policy;
                              p_allowed_vaults := p_allowed_vaults policy; p_hl_order_caps := p_hl_order_caps policy;
                              p_signer_pubkey := p_signer_pubkey policy; p_policy_signature := p_policy_signature policy;
                              p_policy_authority_sig := Some sig; p_intent_pubkey := p_intent_pubkey policy |})
               end
      end
  end.

Definition load_policy_and_secret (skip_sanity_check : bool) (policy_bytes secret_bytes : string)
    : list Warning * result CliError (Policy * json) :=
  match cli_policy_of_slice policy_bytes with
  | None => ([], Err Parse)
  | Some policy =>
      match assert_policy_round_trip policy_bytes policy with
      | Err e => ([], Err e)
      | Ok _ =>
          match cli_value_of_slice secret_bytes with
          | None => ([], Err Parse)
          | Some secret =>
              if bool_decide (as_object secret = None) then ([], Err NotAnObject)
              else if skip_sanity_check then ([], Ok (policy, secret))
              else let '(ws, checked) := sanity_check_policy policy secret in (ws, _ ← checked; Ok (policy, secret))
          end
      end
  end.

(** The plaintext blob. *)
Definition cmd_wrap_legacy (skip_sanity_check : bool) (policy_bytes secret_bytes : string) : list Warning * result CliError string :=
  let '(ws, loaded) := load_policy_and_secret skip_sanity_check policy_bytes secret_bytes in
  (ws, '(policy, secret) ← loaded; ok_or (cli_wrapped_to_vec policy secret) Serialise).

Definition PLACEHOLDER : string := "PLACEHOLDER_RUN_SEAL_AFTER_KMS_ENCRYPT".

(** [envelope.json]'s fields and [dek.bin]; key and nonce come from the OS generator. *)
Definition cmd_envelope (skip_sanity_check : bool) (policy_bytes secret_bytes dek nonce : string)
    : list Warning * result CliError (Envelope * string) :=
  let '(ws, blob) := cmd_wrap_legacy skip_sanity_check policy_bytes secret_bytes in
  (ws, plaintext ← blob;
       ciphertext ← ok_or (aes_gcm_encrypt dek nonce "" plaintext) AesGcm;
       Ok ({| env_version := 2; env_wrapped_dek := PLACEHOLDER; env_nonce := b64_encode nonce;
              env_ciphertext := b64_encode ciphertext |}, dek)).

(** [env["wrapped_dek"] = ..] keeps the key's place, or adds it at the end. *)
Fixpoint set_field (k : string) (x : json) (fields : list (string * json)) : list (string * json) :=
  match fields with
  | [] => [(k, x)]
  | (k', y) :: rest => if decide (k' = k) then (k, x) :: rest else (k', y) :: set_field k x rest
  end.

(** [seal]: the sealed bytes. *)
Definition cmd_seal (env_bytes wrapped_dek_b64 : string) : result CliError string :=
  env ← ok_or (cli_value_of_slice env_bytes) Parse;
  version ← ok_or (jget "version" env ≫= as_u64) BadEnvelopeVersion;
  _ ← (if negb (version =? 2) then Err BadEnvelopeVersion else Ok tt);
  let trimmed := trim wrapped_dek_b64 in
  _ ← (if is_empty trimmed then Err EmptyDek else Ok tt);
  _ ← ok_or (b64_decode trimmed) BadBase64;
  fields ← ok_or (as_object env) Parse;
  sealed ← ok_or (cli_value_to_vec (JObj (set_field "wrapped_dek" (JStr trimmed) fields))) Serialise;
  check ← ok_or (cli_value_of_slice sealed) Parse;
  let dek_len := match (jget "wrapped_dek" check ≫= as_str) ≫= b64_decode with Some d => String.length d | None => O end in
  _ ← (if (dek_len <? 128)%nat then Err (ShortDek dek_len) else Ok tt);
  Ok sealed.
End Cli.

(** ** What the tool signs, the enclave installs *)

Lemma cli_safe_id s : cli_is_safe_id s = is_safe_id s.
Proof.
  unfold cli_is_safe_id, is_safe_id. f_equal. induction s as [|b s IH]; [done|]. cbn [bytes_all]. rewrite IH. f_equal.
  unfold safe_id_byte. assert (forall c, bool_decide (b = c) = (byte_val b =? byte_val c)) as Hb.
  { intros c. case_bool_decide as E; [subst; by rewrite Z.eqb_refl|]. symmetry. apply Z.eqb_neq. intros Hv. apply E. by apply byte_val_inj. }
  by rewrite !Hb.
Qed.

Definition as_refresh (e : CliEntry) : RefreshEntry :=
  {| re_token := ce_token e; re_customer_id := ce_customer_id e; re_allowed_venues := ce_allowed_venues e; re_mode := None |}.
(** The enclave also reserves this venue; the tool does not. *)
Definition grants_data_signing (e : CliEntry) : bool :=
  existsb (fun v => eq_ignore_ascii_case v RESERVED_DATA_SIGNING_VENUE) (ce_allowed_venues e) &&
  negb (bool_decide (ce_customer_id e = DATA_SIGNING_OWNER)).

Lemma check_venues_ok i customer venues : check_venues i customer venues = Ok () ->
  Forall (fun v => is_safe_id v = true /\ (eq_ignore_ascii_case v RESERVED_X402_VENUE = true -> customer = X402_CUSTOMER_ID)) venues.
Proof.
  induction venues as [|v venues IH]; cbn [check_venues]; [constructor|]. destruct (cli_is_safe_id v) eqn:Es; cbn [negb]; [|done].
  destruct (eq_ignore_ascii_case v RESERVED_X402_VENUE) eqn:Ex; cbn [andb].
  - case_bool_decide as Hc; cbn [negb]; [|done]. intros Hr. constructor; [|by apply IH]. split; [by rewrite <- cli_safe_id|done].
  - intros Hr. constructor; [|by apply IH]. split; [by rewrite <- cli_safe_id|]. by rewrite Ex.
Qed.

(** Of an entry the tool passed, the enclave's reserved venues come down to that one. *)
Lemma cli_reserved e i : check_venues i (ce_customer_id e) (ce_allowed_venues e) = Ok () ->
  grants_reserved_venue_to_non_reserved (ce_customer_id e) (ce_allowed_venues e) = grants_data_signing e.
Proof.
  intros Hven%check_venues_ok. unfold grants_reserved_venue_to_non_reserved, grants_data_signing.
  induction Hven as [|v venues [_ Hx] _ IH]; [done|]. cbn [existsb]. rewrite IH, andb_orb_distrib_l. f_equal.
  unfold reserved_venue_owner. destruct (eq_ignore_ascii_case v RESERVED_X402_VENUE) eqn:Ex.
  - rewrite Hx by done. rewrite bool_decide_true by done. cbn [negb]. destruct (eq_ignore_ascii_case v RESERVED_DATA_SIGNING_VENUE) eqn:Ed; [|done].
    exfalso. unfold eq_ignore_ascii_case in *. apply bool_decide_eq_true in Ex, Ed. rewrite Ex in Ed. discriminate Ed.
  - destruct (eq_ignore_ascii_case v RESERVED_DATA_SIGNING_VENUE); [|done]. cbn [andb]. f_equal. apply bool_decide_ext. split; congruence.
Qed.

Lemma cli_check_entries entries : forall i, check_each i entries = Ok () ->
  check_entries (map as_refresh entries) = if existsb grants_data_signing entries then Err ReservedVenue else Ok ().
Proof.
  induction entries as [|e entries IH]; intros i; [done|]. cbn [check_each map check_entries existsb].
  destruct (is_empty (ce_token e)); [done|]. destruct (cli_is_safe_id (ce_customer_id e)) eqn:Ec; cbn [negb]; [|done].
  case_bool_decide; [done|]. intros (u & Hv & Hr)%bind_ok_inv. destruct u.
  cbn [as_refresh re_customer_id re_allowed_venues re_mode]. rewrite (cli_reserved e i Hv).
  pose proof (check_venues_ok _ _ _ Hv) as Hven. rewrite <- cli_safe_id, Ec. cbn [negb orb].
  assert (existsb (fun v => negb (is_safe_id v)) (ce_allowed_venues e) = false) as ->.
  { apply not_true_is_false. intros (v & Hin & Hn)%existsb_exists. apply list_elem_of_In in Hin.
    apply (proj1 (Forall_forall _ _) Hven) in Hin as [Hs _]. by rewrite Hs in Hn. }
  destruct (grants_data_signing e); [done|]. cbn [orb]. by eapply IH.
Qed.

Section Accepts.
Context `{Crates, SigningKey, CliSerde} {SL : SigningLaws} {HL : HexLaws}.

Lemma trim_hex b : trim (hex_encode b) = hex_encode b.
Proof using HL.
  apply trim_visible. pose proof (hex_encode_hex b) as Hh. induction (hex_encode b) as [|c s IH]; [done|].
  cbn [bytes_all] in *. apply andb_true_iff in Hh as [Hc Hs]. rewrite IH by done. rewrite andb_true_r.
  destruct c as [[] [] [] [] [] [] [] []]; vm_compute in Hc |- *; done.
Qed.
Lemma decode_trimmed_encode `{RegistryEnv} n b : String.length b = n -> decode_trimmed n (hex_encode b) = Some b.
Proof using HL.
  intros Hl. unfold decode_trimmed, decode_array. rewrite trim_hex, hex_decode_encode. cbn. by rewrite decide_True.
Qed.
Lemma decode_encode n b : String.length b = n -> decode_array n (hex_encode b) = Some b.
Proof using HL. intros Hl. unfold decode_array. rewrite hex_decode_encode. cbn. by rewrite decide_True. Qed.
Lemma hex_not_empty b n : String.length b = S n -> is_empty (hex_encode b) = false.
Proof using HL.
  intros Hl. pose proof (hex_decode_length _ _ (hex_decode_encode b)) as He. destruct (hex_encode b); [|done]. cbn in He. lia.
Qed.
Lemma parse_hex32_length s b : parse_hex32 s = Ok b -> String.length b = 32%nat.
Proof using. unfold parse_hex32. destruct (hex_decode _); cbn; [|done]. case_decide; [|done]. by intros [= <-]. Qed.

Lemma sign_refresh_ok entries nonce_hex version seed s : sign_refresh entries nonce_hex version seed = Ok s ->
  exists nonce, validate_entries entries = Ok () /\ version <> 0 /\ parse_hex32 nonce_hex = Ok nonce /\
    cli_entries_to_vec entries = Some (sr_entries_json s) /\ sr_version s = version /\ sr_nonce_hex s = hex_encode nonce /\
    sr_signature_hex s = hex_encode (ed25519_sign seed (signed_message nonce version (sha256 (sr_entries_json s)))).
Proof using.
  unfold sign_refresh. intros (u & Hv & Hs)%bind_ok_inv. apply bind_ok_inv in Hs as (u' & Hz & Hs).
  apply bind_ok_inv in Hs as (nonce & Hn & Hs). apply bind_ok_inv in Hs as (js & Hj%ok_or_inv & Hs). injection Hs as <-.
  destruct u. exists nonce. split_and!; try done. intros ->. cbn in Hz. done.
Qed.

(** What the operator's tool signs, the enclave installs: when the baked
    control-plane key is that of the seed, the challenge is the outstanding one,
    the version is new and the bytes parse back, a refresh the tool accepted
    passes every check of the enclave and replaces the registry by exactly the
    entries given, each tenant active; if an entry grants the data-signing
    venue, which only the enclave reserves, it is refused and nothing changes. *)
Theorem cli_refresh_installs `{RegistryEnv} entries nonce_hex version seed s nonce st :
  sign_refresh entries nonce_hex version seed = Ok s ->
  String.length seed = 32%nat -> registry_pubkey_env = Some (hex_encode (ed25519_public seed)) ->
  parse_entries (sr_entries_json s) = Some (map as_refresh entries) ->
  parse_hex32 nonce_hex = Ok nonce -> rg_pending st = Some nonce -> rg_version st < version ->
  refresh (sr_entries_json s) (sr_nonce_hex s) (sr_version s) (sr_signature_hex s) st =
    if existsb grants_data_signing entries then (Err ReservedVenue, st)
    else (Ok version, {| rg_entries := map resident (map as_refresh entries); rg_version := version; rg_pending := None |}).
Proof using SL HL.
  intros (n & Hv & _ & Hn & Hj & Hver & Hnh & Hsig)%sign_refresh_ok Hseed Hpk Hparse Hnonce Hpend Hlt.
  rewrite Hn in Hnonce. injection Hnonce as ->. destruct (ed25519_public_ok seed Hseed) as [Hkey Hlen].
  unfold refresh, refresh_check, control_plane_vk. rewrite Hpk. cbn [ok_or mbind result_bind].
  rewrite decode_trimmed_encode by done. cbn [ok_or mbind result_bind]. rewrite Hkey. cbn [mbind result_bind].
  rewrite Hnh, decode_trimmed_encode by (by eapply parse_hex32_length). cbn [ok_or mbind result_bind].
  rewrite Hpend, decide_True by done. cbn [mbind result_bind].
  rewrite Hsig, decode_trimmed_encode by (by apply ed25519_sign_length). cbn [ok_or mbind result_bind].
  rewrite Hver, ed25519_verify_sign by done. cbn [mbind result_bind]. rewrite Hparse. cbn [ok_or mbind result_bind].
  unfold validate_entries in Hv. case_bool_decide as Hne; [done|]. apply bind_ok_inv in Hv as (u & Hce & _). destruct u.
  destruct entries as [|e entries]; [done|]. cbn [map mbind result_bind].
  change (as_refresh e :: map as_refresh entries) with (map as_refresh (e :: entries)).
  rewrite (cli_check_entries _ 0 Hce). destruct (existsb grants_data_signing (e :: entries)); [done|].
  cbn [mbind result_bind]. unfold refresh_commit.
  destruct (Z.leb_spec version (rg_version st)); [lia|]. by rewrite Hpend, decide_True.
Qed.

(** C34: A policy the tool signs is one the enclave's authority gate accepts for
    that customer and venue: the written policy is the operator's policy with
    only the authority's signature added, its canonical bytes and so its hash
    are unchanged, and its JSON is what the operator wrote, nulls apart. *)
Theorem cli_policy_accepted `{PolicyEnv} priv_hex seed policy_bytes customer venue ws signed :
  cmd_policy_sign policy_to_vec priv_hex policy_bytes customer venue = (ws, Ok signed) ->
  parse_hex32 priv_hex = Ok seed -> policy_pubkey_env = Some (hex_encode (ed25519_public seed)) ->
  verify_policy_authority signed customer venue = Ok () /\
  exists policy raw value, cli_policy_of_slice policy_bytes = Some policy /\
    clear_signatures signed = clear_signatures policy /\ p_signer_pubkey signed = p_signer_pubkey policy /\
    p_policy_signature signed = p_policy_signature policy /\ compute_policy_hash signed = compute_policy_hash policy /\
    cli_value_of_slice policy_bytes = Some raw /\ cli_policy_to_value policy = Some value /\
    value_eq (strip_json_nulls raw) value = true.
Proof using SL HL.
  unfold cmd_policy_sign, load_seed. intros Hsign Hseed Hpk. rewrite Hseed in Hsign. apply parse_hex32_length in Hseed as Hlen.
  destruct (cli_policy_of_slice policy_bytes) as [policy|]; [|done]. case_bool_decide; [done|].
  destruct (assert_policy_round_trip policy_bytes policy) as [[]|] eqn:Ert; [|done].
  destruct (sanity_check_policy policy (JObj [])) as [w checked]. injection Hsign as <- Hsign.
  apply bind_ok_inv in Hsign as (u & _ & Hsign). apply bind_ok_inv in Hsign as (sig & Hsig & Hsign). injection Hsign as <-.
  unfold sign_policy_authority in Hsig. apply bind_ok_inv in Hsig as (canonical & Hcan%ok_or_inv & Hsig). injection Hsig as <-.
  split.
  - destruct (ed25519_public_ok seed Hlen) as [Hkey Hkl]. unfold verify_policy_authority, policy_authority_vk, parse_policy_authority_vk.
    rewrite Hpk. cbn [mbind option_bind]. rewrite (hex_not_empty _ 31) by done.
    cbn [ok_or mbind result_bind]. rewrite decode_encode by done. cbn [ok_or mbind result_bind]. rewrite Hkey.
    cbn [map_err mbind result_bind p_policy_authority_sig ok_or]. rewrite decode_encode by (by apply ed25519_sign_length).
    cbn [ok_or mbind result_bind]. unfold canonical_policy_signable in *. unfold clear_signatures in *. cbn in *. rewrite Hcan.
    cbn. by rewrite ed25519_verify_sign.
  - unfold assert_policy_round_trip in Ert. apply bind_ok_inv in Ert as (raw & Hraw%ok_or_inv & Ert).
    apply bind_ok_inv in Ert as (value & Hval%ok_or_inv & Ert). exists policy, raw, value. split_and!; try done.
    by destruct (value_eq _ _).
Qed.
End Accepts.

(** ** What the sanity check rules out *)

Lemma and_then_ok a b : (and_then a b).2 = Ok () -> a.2 = Ok () /\ b.2 = Ok ().
Proof. destruct a as [ws [[]|e]]; cbn; [done|done]. Qed.
Lemma bail_ok b why : (bail b why).2 = Ok () -> b = false.
Proof. by destruct b. Qed.
Lemma check_prefixes_ok why note prefixes :
  (check_prefixes why note prefixes).2 = Ok () -> Forall (fun p => is_empty p = false) prefixes.
Proof.
  induction prefixes as [|p prefixes IH]; cbn [check_prefixes]; [constructor|].
  intros [Hp%bail_ok [_ Hr]%and_then_ok]%and_then_ok. constructor; [done|by apply IH].
Qed.

(** The facts a policy that passed has. *)
Record Sane (p : Policy) : Prop := {
  sane_label : match p_label p with Some l => (char_count l <= 128)%nat | None => True end;
  sane_allowed : Forall (fun x => is_empty x = false) (default [] (p_allowed_path_prefixes p));
  sane_denied : Forall (fun x => is_empty x = false) (default [] (p_denied_path_prefixes p));
  sane_rate : p_max_requests_per_minute p = None;
  sane_x402 : x402_intended p = true -> x402_incomplete p = false;
  sane_split : permits_hl p = true -> permits_asterdex p = false
}.

Lemma sanity_sane p secret : (sanity_check_policy p secret).2 = Ok () -> Sane p.
Proof.
  unfold sanity_check_policy. intros Hs. repeat (apply and_then_ok in Hs as [? Hs]).
  repeat match goal with Hb : (bail _ _).2 = Ok () |- _ => apply bail_ok in Hb end.
  repeat match goal with Hc : (check_prefixes _ _ _).2 = Ok () |- _ => apply check_prefixes_ok in Hc end.
  constructor; try done.
  - destruct (p_label p) as [l|]; [|done]. by apply Nat.ltb_ge.
  - destruct (p_max_requests_per_minute p); [|done]. done.
  - intros Hi. rewrite Hi in *. done.
  - intros Hi. rewrite Hi in *. done.
Qed.

(** The rules of a policy that look at the request. *)
Record request_rules (p : Policy) (req : SignRequest) : Prop := {
  rr_action l : p_allowed_actions p = Some l -> r_action req ∈ l;
  rr_intent_hl v : is_Some (p_intent_pubkey p) -> venue_for_action (r_action req) = Some v -> is_hl_venue v = false;
  rr_method l m : p_allowed_methods p = Some l -> r_method req = Some m -> m ∈ l;
  rr_allowed l path : p_allowed_path_prefixes p = Some l -> r_path req = Some path -> Exists (fun x => covers x path) l;
  rr_denied l path : p_denied_path_prefixes p = Some l -> r_path req = Some path -> Forall (fun x => forall rest, path <> x +:+ rest) l
}.
(** An agent's key without order caps: the one shape the enclave refuses
    outright that the tool lets through. *)
Definition uncapped_intent (p : Policy) : bool :=
  bool_decide (is_Some (p_intent_pubkey p)) && bool_decide (p_order_caps p = None).
(** The action list leaves nothing: it is empty, or asks for the agent's
    signature and names only Hyperliquid actions, which cannot carry one. *)
Definition no_action_left (p : Policy) : Prop :=
  exists l, p_allowed_actions p = Some l /\ forall a, a ∈ l ->
    is_Some (p_intent_pubkey p) /\ exists v, venue_for_action a = Some v /\ is_hl_venue v = true.

Lemma sane_permits p req : Sane p -> (permits p req <-> uncapped_intent p = false /\ request_rules p req).
Proof.
  intros [Hl _ _ Hr _ _]. unfold uncapped_intent. split.
  - intros [Hi Ha Hh Hm Hp Hd _ _]. split; [|constructor; eauto]. apply andb_false_iff. case_bool_decide as Hs; [right|by left].
    apply bool_decide_eq_false. intros Hn. destruct (Hi Hs) as [x Hx]. congruence.
  - intros [Hu [Ha Hh Hm Hp Hd]]. constructor; eauto.
    + intros Hs. rewrite (bool_decide_true _ Hs) in Hu. apply bool_decide_eq_false in Hu. by destruct (p_order_caps p).
    + intros l Hl'. by rewrite Hl' in Hl.
Qed.

(** Without a method and a path only the action rules are left. *)
Lemma bare_rules p a : request_rules p (empty_request a) <->
  (forall l, p_allowed_actions p = Some l -> a ∈ l) /\
  (forall v, is_Some (p_intent_pubkey p) -> venue_for_action a = Some v -> is_hl_venue v = false).
Proof. split; [by intros [Ha Hh _ _ _]|]. intros [Ha Hh]. by constructor. Qed.

Lemma some_request_permitted p : no_action_left p \/ exists a, request_rules p (empty_request a).
Proof.
  set (bad := fun a => is_Some (p_intent_pubkey p) /\ match venue_for_action a with Some v => is_hl_venue v = true | None => False end).
  assert (forall a, Decision (bad a)) as Hdec by (intros a; unfold bad; destruct (venue_for_action a); apply _).
  assert (forall a, ~ bad a -> forall v, is_Some (p_intent_pubkey p) -> venue_for_action a = Some v -> is_hl_venue v = false) as Hgood.
  { intros a Hb v Hi Hv. destruct (is_hl_venue v) eqn:E; [|done]. destruct Hb. unfold bad. by rewrite Hv. }
  destruct (p_allowed_actions p) as [l|] eqn:El.
  - destruct (decide (Forall bad l)) as [Hall|Hsome].
    + left. exists l. split; [done|]. intros a Ha. rewrite Forall_forall in Hall. destruct (Hall a Ha) as [Hi Hv]. split; [done|].
      destruct (venue_for_action a) as [v|]; [by exists v|done].
    + right. apply not_Forall_Exists in Hsome; [|apply _]. apply Exists_exists in Hsome as (a & Ha & Hb). exists a.
      apply bare_rules. split; [|by apply Hgood]. intros l'. rewrite El. by intros [= <-].
  - right. exists "sign_binance_order". apply bare_rules. rewrite El. split; [done|]. apply Hgood. intros [_ Hv]. discriminate Hv.
Qed.

(** C36: What the tool's sanity check is worth at the enclave's policy gate.
    Under a policy that passes it, no static field decides a request, with one
    exception: an agent's key without order caps passes and the gate refuses
    everything.  Otherwise the gate grants a request exactly when the policy's
    action, method and path rules do, none of whose prefixes is empty; and the
    policy grants nothing at all exactly in that case or when its action list
    leaves nothing.  An intended x402 clause is complete, and no key may sign
    for both Hyperliquid and Asterdex. *)
Theorem cli_checked_policy_gate `{Crates, PolicyEnv} p secret h :
  (sanity_check_policy p secret).2 = Ok () -> compute_policy_hash p = Some h ->
  (forall req, match enforce_policy (Some p) req with
   | Ok h' => h' = Some h /\ uncapped_intent p = false /\ request_rules p req
   | Err r => (uncapped_intent p = true /\ r = with_policy_hash (Some h) (resp_err err_code.POLICY_REQUIRED)) \/
              (uncapped_intent p = false /\ ~ request_rules p req)
   end) /\
  ((forall req, enforce_policy (Some p) req <> Ok (Some h)) <-> uncapped_intent p = true \/ no_action_left p) /\
  Forall (fun x => is_empty x = false) (default [] (p_allowed_path_prefixes p) ++ default [] (p_denied_path_prefixes p)) /\
  (x402_intended p = true -> exists x chain token value r rest, p_x402 p = Some x /\ xp_chain_id x = Some chain /\
     xp_token_address x = Some token /\ xp_max_value x = Some value /\ xp_allowed_recipients x = Some (r :: rest)) /\
  ~ (permits_hl p = true /\ permits_asterdex p = true).
Proof.
  intros Hsane%sanity_sane Hh. pose proof (fun req => sane_permits p req Hsane) as Hper.
  assert (forall req, uncapped_intent p = true -> enforce_policy (Some p) req = Err (with_policy_hash (Some h) (resp_err err_code.POLICY_REQUIRED))) as Hdead.
  { intros req [Hi%bool_decide_eq_true Ho%bool_decide_eq_true]%andb_true_iff. unfold enforce_policy, enforce_policy_inner, policy_action_rules.
    assert (bool_decide (is_Some (p_order_caps p)) = false) as Hno by (apply bool_decide_eq_false; rewrite Ho; by intros [x Hx]).
    rewrite (bool_decide_true _ Hi), Hno. cbn [negb andb require mbind result_bind option_bind]. rewrite Hh. reflexivity. }
  pose proof (fun req => enforce_policy_exact_spec p req h Hh) as Hgate. destruct Hsane as [Hl Ha Hd Hr Hx Hs]. split_and!.
  - intros req. specialize (Hgate req). destruct (uncapped_intent p) eqn:Eu; [rewrite Hdead by done; by left|].
    destruct (enforce_policy (Some p) req) as [h'|r].
    + destruct Hgate as [-> Hp]. apply Hper in Hp as [_ Hp]. done.
    + right. split; [done|]. intros Hrules. destruct Hgate as [Hn _]. apply Hn, Hper. by split.
  - split.
    + intros Hnone. destruct (uncapped_intent p) eqn:Eu; [by left|right]. destruct (some_request_permitted p) as [|[a Hok]]; [done|].
      specialize (Hgate (empty_request a)). specialize (Hnone (empty_request a)).
      destruct (enforce_policy (Some p) (empty_request a)); [by destruct Hgate as [-> _]|].
      destruct Hgate as [Hn _]. destruct Hn. apply Hper. by split.
    + intros [Hu|(l & El & Hall)] req Hok; [by rewrite Hdead in Hok|]. specialize (Hgate req). rewrite Hok in Hgate.
      destruct Hgate as [_ [_ [Hact Hhl _ _ _]]%Hper]. destruct (Hall _ (Hact l El)) as (Hi & v & Hv & Hhv).
      specialize (Hhl v Hi Hv). congruence.
  - by apply Forall_app.
  - intros Hi. specialize (Hx Hi). unfold x402_incomplete in Hx. destruct (p_x402 p) as [x|]; [|done].
    apply orb_false_iff in Hx as [[[Hc Ht]%orb_false_iff Hv]%orb_false_iff Hre].
    apply bool_decide_eq_false in Hc, Ht, Hv. destruct (xp_allowed_recipients x) as [[|r rest]|] eqn:Er; [done| |done].
    destruct (xp_chain_id x) as [chain|] eqn:Ec; [|done]. destruct (xp_token_address x) as [token|] eqn:Et; [|done].
    destruct (xp_max_value x) as [value|] eqn:Ev; [|done]. by exists x, chain, token, value, r, rest.
  - intros [Hhl Has]. by rewrite Hs in Has.
Qed.

(** ** Where the copies differ from the enclave *)

(** The tool accepts a grant of the data-signing venue the enclave refuses. *)
Lemma cli_misses_data_signing :
  let e := {| ce_token := "t"; ce_customer_id := "acme"; ce_allowed_venues := ["data-signing"] |} in
  validate_entries [e] = Ok () /\ check_entries (map as_refresh [e]) = Err ReservedVenue.
Proof. by vm_compute. Qed.

(** A Permit2 action, which the enclave dispatches, is reported as unknown and is
    not counted as typed data. *)
Lemma cli_misses_permit2 :
  venue_for_action "sign_permit2_permit_single" = Some "permit2" /\
  str_in "sign_permit2_permit_single" KNOWN_SIGN_ACTIONS = false /\ is_eip712_action "sign_permit2_permit_single" = false.
Proof. by vm_compute. Qed.

(** A policy with an intent key but no order caps passes, and the enclave
    refuses every request under it. *)
Definition dead_policy : Policy :=
  {| p_allowed_actions := Some ["sign_binance_order"]; p_allowed_methods := None; p_allowed_path_prefixes := None;
     p_denied_path_prefixes := None; p_max_requests_per_minute := None; p_label := None; p_allowed_asterdex_endpoints := None;
     p_x402 := None; p_permit2 := None; p_order_caps := None; p_allowed_vaults := None; p_hl_order_caps := None;
     p_signer_pubkey := None; p_policy_signature := None; p_policy_authority_sig := None; p_intent_pubkey := Some "aa" |}.
Lemma cli_passes_dead_policy `{Crates, PolicyEnv} secret req :
  (sanity_check_policy dead_policy secret).2 = Ok () /\
  exists r, enforce_policy_inner (Some dead_policy) req = Err r /\ r = resp_err err_code.POLICY_REQUIRED.
Proof. split; [by destruct (secret_has_private_key secret) eqn:E; cbn; rewrite ?E|]. by eexists. Qed.

(** Nor does it look at an agent's key on Hyperliquid, where the enclave
    verifies no intents and refuses every order. *)
Definition hl_intent_policy : Policy :=
  {| p_allowed_actions := Some ["sign_hyperliquid_main_order"]; p_allowed_methods := None; p_allowed_path_prefixes := None;
     p_denied_path_prefixes := None; p_max_requests_per_minute := None; p_label := None; p_allowed_asterdex_endpoints := None;
     p_x402 := None; p_permit2 := None; p_order_caps := Some []; p_allowed_vaults := None; p_hl_order_caps := None;
     p_signer_pubkey := None; p_policy_signature := None; p_policy_authority_sig := None; p_intent_pubkey := Some "aa" |}.
Lemma cli_passes_hl_intent secret :
  (sanity_check_policy hl_intent_policy secret).2 = Ok () /\ no_action_left hl_intent_policy.
Proof.
  split; [by destruct (secret_has_private_key secret) eqn:E; cbn; rewrite ?E|]. eexists. split; [reflexivity|].
  intros a ->%list_elem_of_singleton. split; [by eexists|]. by eexists.
Qed.

(** *** Envelopes of the tool do not open *)

(** Decryption accepts only what encryption makes. *)
Class AeadSound `{Crates} :=
  aes_gcm_sound k n aad c m : aes_gcm_decrypt k n aad c = Some m -> aes_gcm_encrypt k n aad m = Some c.

(** The tool seals without additional data, the enclave opens with the
    customer, venue and key version as additional data: it reads a plaintext
    only if AES-GCM maps both inputs to the same ciphertext and tag. *)
Theorem cli_envelope_needs_collision `{Crates, CliSerde, !AeadLaws, !AeadSound} skip policy_bytes secret_bytes dek nonce ws env key id venue m :
  cmd_envelope skip policy_bytes secret_bytes dek nonce = (ws, Ok (env, key)) ->
  decrypt_with_dek dek env (sealed_aad id venue 1) = Ok m ->
  exists plaintext c, aes_gcm_encrypt dek nonce "" plaintext = Some c /\
    aes_gcm_encrypt dek nonce (sealed_aad id venue 1) m = Some c /\ sealed_aad id venue 1 <> "".
Proof.
  unfold cmd_envelope. destruct (cmd_wrap_legacy _ _ _) as [w blob]. intros He Hd. injection He as <- He.
  apply bind_ok_inv in He as (plaintext & _ & He). apply bind_ok_inv in He as (c & Hc%ok_or_inv & He). injection He as <- <-.
  unfold decrypt_with_dek in Hd. destruct (negb _); [done|]. cbn [env_nonce env_ciphertext] in Hd.
  rewrite !b64_decode_encode in Hd. cbn [ok_or mbind result_bind] in Hd. destruct (negb _); [done|].
  apply ok_or_inv, aes_gcm_sound in Hd. by exists plaintext, c.
Qed.

(** ** Instances *)

#[local] Existing Instance demo_crates.
#[local] Instance demo_signing : SigningKey :=
  {| ed25519_public seed := seed; ed25519_sign seed msg := demo_digest (seed +:+ msg) +:+ demo_digest msg |}.
#[local] Instance demo_signing_laws : SigningLaws.
Proof.
  constructor.
  - intros seed Hs. by split.
  - intros seed msg _. unfold ed25519_sign, demo_signing. by rewrite length_append, !length_demo_digest.
  - intros seed msg _. by apply bool_decide_true.
Qed.

Definition demo_entries : list CliEntry :=
  [{| ce_token := "tok-a"; ce_customer_id := "fund-a"; ce_allowed_venues := ["okx"; "binance"] |};
   {| ce_token := "tok-x"; ce_customer_id := X402_CUSTOMER_ID; ce_allowed_venues := ["x402"] |}].
Definition demo_cli_policy : Policy :=
  {| p_allowed_actions := Some ["sign_okx_order"]; p_allowed_methods := None; p_allowed_path_prefixes := Some ["/api"];
     p_denied_path_prefixes := None; p_max_requests_per_minute := None; p_label := Some "desk"; p_allowed_asterdex_endpoints := None;
     p_x402 := None; p_permit2 := None; p_order_caps := None; p_allowed_vaults := None; p_hl_order_caps := None;
     p_signer_pubkey := None; p_policy_signature := None; p_policy_authority_sig := None; p_intent_pubkey := None |}.
Definition demo_policy_value : json :=
  JObj [("allowed_actions", JArr [JStr "sign_okx_order"]); ("allowed_path_prefixes", JArr [JStr "/api"]); ("label", JStr "desk")].
#[local] Instance demo_cli_serde : CliSerde := {|
  cli_value_of_slice s := if bool_decide (s = "policy")
    then Some (JObj [("label", JStr "desk"); ("allowed_actions", JArr [JStr "sign_okx_order"]); ("x402", JNull);
                     ("allowed_path_prefixes", JArr [JStr "/api"])])
    else if bool_decide (s = "secret") then Some (JObj [("api_key", JStr "k")]) else None;
  cli_value_to_vec _ := Some "sealed";
  cli_policy_of_slice s := if bool_decide (s = "policy") then Some demo_cli_policy else None;
  cli_policy_to_value _ := Some demo_policy_value;
  cli_entries_to_vec _ := Some "entries";
  cli_wrapped_to_vec _ _ := Some "wrapped"
|}.
Definition demo_seed : string := zeros 32.
#[local] Instance demo_cli_registry : RegistryEnv :=
  {| registry_pubkey_env := Some (hex_encode demo_seed); registry_key := "k";
     parse_entries s := if bool_decide (s = "entries") then Some (map as_refresh demo_entries) else None |}.
#[local] Instance demo_cli_policy_env : PolicyEnv :=
  {| policy_to_vec p := Some (default "{}" (p_label p)); require_policy_env := Some "1"; policy_pubkey_env := Some (hex_encode demo_seed) |}.
Definition demo_pending : RegState := {| rg_entries := []; rg_version := 3; rg_pending := Some demo_seed |}.

Lemma cli_refresh_installs_witness :
  exists s, sign_refresh demo_entries (hex_encode demo_seed) 4 demo_seed = Ok s /\
    refresh (sr_entries_json s) (sr_nonce_hex s) (sr_version s) (sr_signature_hex s) demo_pending =
      (Ok 4, {| rg_entries := map resident (map as_refresh demo_entries); rg_version := 4; rg_pending := None |}).
Proof.
  destruct (sign_refresh demo_entries (hex_encode demo_seed) 4 demo_seed) as [s|] eqn:E; [|vm_compute in E; discriminate E].
  exists s. split; [reflexivity|].
  apply (cli_refresh_installs demo_entries (hex_encode demo_seed) 4 demo_seed s demo_seed demo_pending E); try reflexivity.
  vm_compute in E. injection E as <-. vm_compute. reflexivity.
Defined.

Lemma cli_policy_accepted_witness :
  exists ws signed, cmd_policy_sign policy_to_vec (hex_encode demo_seed) "policy" "fund-a" "okx" = (ws, Ok signed) /\
    verify_policy_authority signed "fund-a" "okx" = Ok ().
Proof.
  destruct (cmd_policy_sign policy_to_vec (hex_encode demo_seed) "policy" "fund-a" "okx") as [ws [signed|e]] eqn:E.
  - exists ws, signed. split; [reflexivity|].
    apply (cli_policy_accepted (hex_encode demo_seed) demo_seed "policy" "fund-a" "okx" ws signed E); vm_compute; reflexivity.
  - vm_compute in E. discriminate E.
Defined.

Lemma cli_checked_policy_gate_witness :
  exists h, compute_policy_hash demo_cli_policy = Some h /\
    uncapped_intent demo_cli_policy = false /\ request_rules demo_cli_policy (empty_request "sign_okx_order") /\
    ~ request_rules demo_cli_policy (empty_request "sign_binance_order").
Proof.
  destruct (compute_policy_hash demo_cli_policy) as [h|] eqn:E; [|vm_compute in E; discriminate E].
  exists h. split; [reflexivity|].
  destruct (cli_checked_policy_gate demo_cli_policy JNull h) as (He & _); [vm_compute; reflexivity|exact E|].
  assert (enforce_policy (Some demo_cli_policy) (empty_request "sign_okx_order") = Ok (Some h)) as H1'
    by (vm_compute in E; injection E as <-; vm_compute; reflexivity).
  assert (is_ok (enforce_policy (Some demo_cli_policy) (empty_request "sign_binance_order")) = false) as H2' by (vm_compute; reflexivity).
  pose proof (He (empty_request "sign_okx_order")) as Hok. rewrite H1' in Hok. destruct Hok as (_ & Hu & Hok).
  split; [exact Hu|]. split; [exact Hok|]. pose proof (He (empty_request "sign_binance_order")) as Hno.
  destruct (enforce_policy (Some demo_cli_policy) (empty_request "sign_binance_order")); [discriminate H2'|].
  destruct Hno as [[Hn _]|[_ Hn]]; [|exact Hn]. rewrite Hu in Hn. discriminate Hn.
Defined.

(** A run of [envelope] whose result the enclave cannot open. *)
Lemma cli_envelope_does_not_open :
  exists ws env, cmd_envelope false "policy" "secret" demo_seed (zeros 12) = (ws, Ok (env, demo_seed)) /\
    decrypt_with_dek demo_seed env "" = Ok "wrapped" /\
    decrypt_with_dek demo_seed env (sealed_aad (for_provisioned_agent "fund-a" "okx") "okx" 1) = Err AesGcmDecrypt.
Proof. eexists _, _. split; [vm_compute; reflexivity|]. split; vm_compute; reflexivity. Qed.
