(* ===== verification/Program.v ===== *)
(** * Requests as programs over shared state

    Every connection of the enclave runs in its own task, so two requests
    interleave between accesses to the shared stores.  A handler is a [prog]:
    a tree of atomic calls (a lock section, a KMS or NSM round trip, a random
    draw) with the code between them as continuations.  [answer] executes one
    call on the enclave state; [cstep] interleaves the programs of any number
    of concurrent requests.

    [wp] is a weakest-precondition calculus for programs: [pre] is what the
    program owes at a call, [post] what it may assume of the answer.
    [interleaving_sound] lifts it to every interleaving. *)

From S2P Require Import Prelude RustStr Crates Proto Ledger Registry Intent PolicyGate Stores DekCache Limiter.
From S2P Require Import Eip712 Receipt.

Open Scope string_scope.
Open Scope list_scope.
Open Scope Z_scope.

Inductive KmsError := AccessDenied | KmsInternal.

Abbreviation Context_ := (gmap string string).

(** ** Calls *)

Inductive call : Type -> Type :=
(** registry.rs *)
| Resolve (token : string) : call (option ResolvedIdentity)
| RegVersion : call Z
| Challenge : call string
| RefreshCheck (entries_json nonce_hex : string) (version : Z) (signature_hex : string)
    : call (result RegistryError (string * list RefreshEntry))
| RefreshCommit (nonce : string) (version : Z) (entries : list RefreshEntry) : call (result RegistryError Z)
(** rate_limiter.rs, dek_cache.rs, tofu.rs *)
| RateCheck (key : string) : call bool
| CacheGet (key : string) : call (option string)
| CachePut (key dek : string) : call unit
| Pin (c : pin_call) : call (result TofuError unit)
(** intent_ledger.rs, through the intent checks of handler.rs *)
| IntentOrder (policy : option Policy) (identity : ResolvedIdentity) (venue action : string) (timestamp_ms : Z)
    (order : OrderRequest) (req : SignRequest) : call (result SignResponse unit)
| IntentCancel (policy : option Policy) (identity : ResolvedIdentity) (venue action : string) (timestamp_ms : Z)
    (cancel : CancelRequest) (req : SignRequest) : call (result SignResponse unit)
(** receipt.rs *)
| ReceiptKey : call (option string)
| ReceiptPublicKey : call (option string)
| InstallKey (pk : string) : call unit
| IssueLocked (pk : string) (pre : Pre) (resp : SignResponse) : call (option DecisionReceipt)
| SeqNext (customer_id : string) : call Z
(** kms_client.rs, attestation.rs and the operating system *)
| KmsDecrypt (creds : AwsCredentials) (ciphertext : string) (ctx : Context_) : call (result KmsError string)
| KmsWrap (creds : AwsCredentials) (key_id dek : string) (ctx : Context_) : call (result KmsError string)
| Nsm (nonce user_data public_key : option string) : call (option string)
| RandomBytes (n : nat) : call string
| RandomKey : call string.

(** KMS, at an instant and with the caller's credentials. *)
Class Kms := {
  kms_decrypt : Z -> AwsCredentials -> string -> Context_ -> result KmsError string;
  kms_wrap : Z -> AwsCredentials -> string -> string -> Context_ -> result KmsError string
}.

(** KMS has released this plaintext for this ciphertext under this context. *)
Definition kms_released `{Kms} (ciphertext : string) (ctx : Context_) (plaintext : string) : Prop :=
  exists now creds, kms_decrypt now creds ciphertext ctx = Ok plaintext.

(** What the environment contributes to one call: the clock, randomness and
    the NSM device. *)
Record Oracle := {
  o_now : Z;
  o_random : nat -> string;
  o_key : string;
  o_nsm : option string -> option string -> option string -> option string
}.

(** [generate_secp256k1_private_key] redraws until the scalar is valid. *)
Definition oracle_ok `{Crates} (o : Oracle) : Prop :=
  secp_key_ok (o_key o) = true /\ String.length (o_key o) = 32%nat /\
  forall n, String.length (o_random o n) = n.

(** ** The shared state *)

Record Enclave := {
  en_registry : RegState;
  en_limiter : LimiterState;
  en_cache : DekCache;
  en_pins : PinStore;
  en_ledger : LedgerState;
  en_receipts : ReceiptState
}.

Definition enclave_boot (ttl max : Z) : Enclave :=
  {| en_registry := registry_empty; en_limiter := limiter_new; en_cache := dek_cache_new ttl max; en_pins := ∅;
     en_ledger := ledger_new; en_receipts := receipts_boot |}.

Definition set_registry (r : RegState) (st : Enclave) : Enclave :=
  {| en_registry := r; en_limiter := en_limiter st; en_cache := en_cache st; en_pins := en_pins st;
     en_ledger := en_ledger st; en_receipts := en_receipts st |}.
Definition set_limiter (l : LimiterState) (st : Enclave) : Enclave :=
  {| en_registry := en_registry st; en_limiter := l; en_cache := en_cache st; en_pins := en_pins st;
     en_ledger := en_ledger st; en_receipts := en_receipts st |}.
Definition set_cache (c : DekCache) (st : Enclave) : Enclave :=
  {| en_registry := en_registry st; en_limiter := en_limiter st; en_cache := c; en_pins := en_pins st;
     en_ledger := en_ledger st; en_receipts := en_receipts st |}.
Definition set_pins (p : PinStore) (st : Enclave) : Enclave :=
  {| en_registry := en_registry st; en_limiter := en_limiter st; en_cache := en_cache st; en_pins := p;
     en_ledger := en_ledger st; en_receipts := en_receipts st |}.
Definition set_ledger (l : LedgerState) (st : Enclave) : Enclave :=
  {| en_registry := en_registry st; en_limiter := en_limiter st; en_cache := en_cache st; en_pins := en_pins st;
     en_ledger := l; en_receipts := en_receipts st |}.
Definition set_receipts (r : ReceiptState) (st : Enclave) : Enclave :=
  {| en_registry := en_registry st; en_limiter := en_limiter st; en_cache := en_cache st; en_pins := en_pins st;
     en_ledger := en_ledger st; en_receipts := r |}.

Section Answer.
Context `{Crates, RegistryEnv, ReceiptEnv, Kms} (limiter : RateLimiter).

(** One atomic call. *)
Definition answer (o : Oracle) {X} (c : call X) (st : Enclave) : X * Enclave :=
  match c in call X return X * Enclave with
  | Resolve token => (resolve token (en_registry st), st)
  | RegVersion => (current_version (en_registry st), st)
  | Challenge => let '(hex, r) := challenge (o_random o 32) (en_registry st) in (hex, set_registry r st)
  | RefreshCheck entries_json nonce_hex version signature_hex =>
      (refresh_check entries_json nonce_hex version signature_hex (rg_pending (en_registry st)), st)
  | RefreshCommit nonce version entries =>
      let '(x, r) := refresh_commit nonce version entries (en_registry st) in (x, set_registry r st)
  | RateCheck key => let '(ok, l) := check limiter key (o_now o) (en_limiter st) in (ok, set_limiter l st)
  | CacheGet key => let '(x, c) := cache_get key (o_now o) (en_cache st) in (x, set_cache c st)
  | CachePut key dek => (tt, set_cache (cache_put key dek (o_now o) (en_cache st)) st)
  | Pin c => let '(x, p) := pin_step c (en_pins st) in (x, set_pins p st)
  | IntentOrder policy identity venue action ts order req =>
      let '(x, l) := enforce_agent_intent_order policy identity venue action ts order req (en_ledger st) in
      (x, set_ledger l st)
  | IntentCancel policy identity venue action ts cancel req =>
      let '(x, l) := enforce_agent_intent_cancel policy identity venue action ts cancel req (en_ledger st) in
      (x, set_ledger l st)
  | ReceiptKey => (rc_key (en_receipts st), st)
  | ReceiptPublicKey => (public_key_compressed (en_receipts st), st)
  | InstallKey pk => (tt, set_receipts (install_key pk (en_receipts st)) st)
  | IssueLocked pk pre resp =>
      let '(x, seqs) := issue_locked pk pre resp (rc_seq (en_receipts st)) in
      (x, set_receipts {| rc_key := rc_key (en_receipts st); rc_seq := seqs |} st)
  | SeqNext customer_id => (seq_next_for customer_id (en_receipts st), st)
  | KmsDecrypt creds ct ctx => (kms_decrypt (o_now o) creds ct ctx, st)
  | KmsWrap creds key_id dek ctx => (kms_wrap (o_now o) creds key_id dek ctx, st)
  | Nsm nonce user_data pk => (o_nsm o nonce user_data pk, st)
  | RandomBytes n => (o_random o n, st)
  | RandomKey => (o_key o, st)
  end.
End Answer.

(** ** Programs *)

Inductive prog (A : Type) : Type :=
| Ret (a : A)
| Call {X : Type} (c : call X) (k : X -> prog A).
Arguments Ret {A} a.
Arguments Call {A X} c k.

Fixpoint prog_bind {A B} (p : prog A) (f : A -> prog B) : prog B :=
  match p with
  | Ret a => f a
  | Call c k => Call c (fun x => prog_bind (k x) f)
  end.

#[global] Instance prog_ret : MRet prog := @Ret.
#[global] Instance prog_mbind : MBind prog := fun A B f p => prog_bind p f.

Definition perform {X} (c : call X) : prog X := Call c Ret.

(** Rust's [?] and early [return]: stop with the error, or go on. *)
Definition on_ok {E A B} (r : result E A) (k : A -> prog (result E B)) : prog (result E B) :=
  match r with Ok a => k a | Err e => Ret (Err e) end.

Notation "'let?' x := r 'in' k" := (on_ok r (fun x => k)) (at level 10, x pattern, r at level 200, k at level 200).

(** A handler's early returns are its [Err]s; either way it responds. *)
Definition respond (p : prog (result SignResponse SignResponse)) : prog SignResponse :=
  r ← p; Ret (match r with Ok resp => resp | Err resp => resp end).

(** A request run alone, with one oracle per call. *)
Fixpoint run_alone `{Crates, RegistryEnv, ReceiptEnv, Kms} {A} (limiter : RateLimiter) (os : nat -> Oracle) (i : nat)
    (p : prog A) (st : Enclave) : A * Enclave :=
  match p with
  | Ret a => (a, st)
  | Call c k => let '(x, st) := answer limiter (os i) c st in run_alone limiter os (S i) (k x) st
  end.

(** ** A program logic *)

Section Logic.
Context (pre : forall X, call X -> Prop) (post : forall X, call X -> X -> Prop).

Fixpoint wp {A} (p : prog A) (Q : A -> Prop) : Prop :=
  match p with
  | Ret a => Q a
  | Call c k => pre _ c /\ forall x, post _ c x -> wp (k x) Q
  end.

Lemma wp_mono {A} (p : prog A) (Q R : A -> Prop) : wp p Q -> (forall a, Q a -> R a) -> wp p R.
Proof. intros Hp HQ. induction p as [a|X c k IH]; cbn in *; [auto|]. destruct Hp as [Hc Hk]. split; [done|]. eauto. Qed.

Lemma wp_bind {A B} (p : prog A) (f : A -> prog B) Q : wp p (fun a => wp (f a) Q) -> wp (p ≫= f) Q.
Proof. intros Hp. induction p as [a|X c k IH]; cbn in *; [done|]. destruct Hp as [Hc Hk]. split; [done|]. eauto. Qed.

Lemma wp_perform {X} (c : call X) Q : pre X c -> (forall x, post X c x -> Q x) -> wp (perform c) Q.
Proof. cbn. auto. Qed.

Lemma wp_call {A X} (c : call X) (k : X -> prog A) Q :
  pre X c -> (forall x, post X c x -> wp (k x) Q) -> wp (perform c ≫= k) Q.
Proof. intros. apply wp_bind, wp_perform; auto. Qed.

Lemma wp_on_ok {E A B} (r : result E A) (k : A -> prog (result E B)) (Q : result E B -> Prop) :
  (forall e, r = Err e -> Q (Err e)) -> (forall a, r = Ok a -> wp (k a) Q) -> wp (on_ok r k) Q.
Proof. intros He Hk. destruct r; cbn; auto. Qed.

End Logic.

(** ** Interleaving *)

Section Interleaving.
Context `{Crates, RegistryEnv, ReceiptEnv, Kms} (limiter : RateLimiter).
Context (serve : SignRequest -> prog SignResponse).

(** The state and the connections: each request with what is left to run. *)
Record Config := { cf_state : Enclave; cf_threads : list (SignRequest * prog SignResponse) }.

Inductive cstep : Config -> Config -> Prop :=
| accept_request cf req :
    cstep cf {| cf_state := cf_state cf; cf_threads := cf_threads cf ++ [(req, serve req)] |}
| advance_thread cf i req X (c : call X) k o x st :
    cf_threads cf !! i = Some (req, Call c k) -> oracle_ok o -> answer limiter o c (cf_state cf) = (x, st) ->
    cstep cf {| cf_state := st; cf_threads := <[i := (req, k x)]> (cf_threads cf) |}.

(** *** Serving one request after the other is one interleaving *)

Lemma run_alone_reaches os req p (Hos : forall n, oracle_ok (os n)) : forall i st ts,
  rtc cstep {| cf_state := st; cf_threads := ts ++ [(req, p)] |}
    {| cf_state := snd (run_alone limiter os i p st);
       cf_threads := ts ++ [(req, Ret (fst (run_alone limiter os i p st)))] |}.
Proof.
  induction p as [a|X c k IH]; intros i st ts; cbn [run_alone]; [apply rtc_refl|].
  destruct (answer limiter (os i) c st) as [x st'] eqn:Ha.
  eapply rtc_l; [|apply IH].
  pose proof (advance_thread {| cf_state := st; cf_threads := ts ++ [(req, Call c k)] |} (length ts) req X c k (os i) x st')
    as Hs.
  cbn [cf_threads cf_state] in Hs. rewrite insert_app_r_alt, Nat.sub_diag in Hs by done.
  apply Hs; [by apply list_lookup_middle|apply Hos|done].
Qed.

Fixpoint serve_all (os : nat -> Oracle) (reqs : list SignRequest) (cf : Config) : Config :=
  match reqs with
  | [] => cf
  | req :: rest =>
      let '(resp, st) := run_alone limiter os 0 (serve req) (cf_state cf) in
      serve_all os rest {| cf_state := st; cf_threads := cf_threads cf ++ [(req, Ret resp)] |}
  end.

Lemma serve_all_reaches os reqs (Hos : forall n, oracle_ok (os n)) : forall cf, rtc cstep cf (serve_all os reqs cf).
Proof.
  induction reqs as [|req reqs IH]; intros cf; cbn [serve_all]; [apply rtc_refl|].
  pose proof (run_alone_reaches os req (serve req) Hos 0 (cf_state cf) (cf_threads cf)) as Hrun.
  destruct (run_alone _ _ _ _ _) as [resp st]. eapply rtc_l; [apply (accept_request cf req)|].
  etrans; [exact Hrun|apply IH].
Qed.

Context (pre : forall X, call X -> Prop) (post : forall X, call X -> X -> Prop).
Context (Inv : Enclave -> Prop) (Q : SignRequest -> SignResponse -> Prop).

(** Answers meet [post] and keep the invariant. *)
Definition answers_ok : Prop := forall o X (c : call X) st,
  oracle_ok o -> Inv st -> pre X c ->
  post X c (fst (answer limiter o c st)) /\ Inv (snd (answer limiter o c st)).

Definition config_ok (cf : Config) : Prop :=
  Inv (cf_state cf) /\ Forall (fun t => wp pre post (snd t) (Q (fst t))) (cf_threads cf).

Lemma cstep_ok cf cf' :
  answers_ok -> (forall req, wp pre post (serve req) (Q req)) -> config_ok cf -> cstep cf cf' -> config_ok cf'.
Proof.
  intros Hans Hserve [Hi Hts] Hs. destruct Hs as [cf req|cf i req X c k o x st Hi' Ho Ha].
  - split; [done|]. cbn. apply Forall_app. split; [done|]. apply Forall_singleton, Hserve.
  - destruct (proj1 (Forall_lookup _ _) Hts i _ Hi') as [Hpre Hk].
    destruct (Hans o X c (cf_state cf) Ho Hi Hpre) as [Hpost Hinv]. rewrite Ha in Hpost, Hinv.
    split; [done|]. cbn. apply Forall_insert; [done|]. cbn. by apply Hk.
Qed.

(** However the requests interleave, each finished one has its postcondition
    and the invariant holds. *)
Lemma interleaving_sound st cf :
  answers_ok -> (forall req, wp pre post (serve req) (Q req)) -> Inv st ->
  rtc cstep {| cf_state := st; cf_threads := [] |} cf ->
  Inv (cf_state cf) /\ forall req resp, (req, Ret resp) ∈ cf_threads cf -> Q req resp.
Proof.
  intros Hans Hserve Hi Hr.
  assert (config_ok cf) as [Hi' Hts].
  { assert (config_ok {| cf_state := st; cf_threads := [] |}) as H0' by (split; [done|apply Forall_nil_2]).
    induction Hr as [cf|cf1 cf2 cf3 Hs _ IH]; [done|]. apply IH. by eapply cstep_ok. }
  split; [done|]. intros req resp Hin. by apply (proj1 (Forall_forall _ _) Hts _ Hin).
Qed.
End Interleaving.

(** ** Histories *)

(** An answered call. *)
Definition event : Type := {X : Type & (call X * X)%type}.
Definition ev {X} (c : call X) (x : X) : event := existT X (c, x).

Section Histories.
Context `{Crates, RegistryEnv, ReceiptEnv, Kms} (limiter : RateLimiter).
Context (serve : SignRequest -> prog SignResponse).

(** [cstep] with the answered calls recorded, newest first, each with the
    thread that made it. *)
Inductive hstep : Config * list (nat * event) -> Config * list (nat * event) -> Prop :=
| h_accept cf h req :
    hstep (cf, h) ({| cf_state := cf_state cf; cf_threads := cf_threads cf ++ [(req, serve req)] |}, h)
| h_advance cf h i req X (c : call X) k o x st :
    cf_threads cf !! i = Some (req, Call c k) -> oracle_ok o -> answer limiter o c (cf_state cf) = (x, st) ->
    hstep (cf, h) ({| cf_state := st; cf_threads := <[i := (req, k x)]> (cf_threads cf) |}, (i, ev c x) :: h).

(** Every run has a history. *)
Lemma rtc_cstep_history cf cf' h :
  rtc (cstep limiter serve) cf cf' -> exists h', rtc hstep (cf, h) (cf', h').
Proof.
  intros Hr. revert h. induction Hr as [cf|cf1 cf2 cf3 Hs _ IH]; intros h; [exists h; apply rtc_refl|].
  assert (exists h', hstep (cf1, h) (cf2, h')) as [h1 Hh] by (destruct Hs; eexists; by econstructor).
  destruct (IH h1) as [h' Hr']. exists h'. by eapply rtc_l.
Qed.

(** The calls of one thread. *)
Fixpoint calls_of (i : nat) (h : list (nat * event)) : list event :=
  match h with
  | [] => []
  | (j, e) :: h' => if decide (j = i) then e :: calls_of i h' else calls_of i h'
  end.

Lemma calls_of_in i e h : e ∈ calls_of i h -> (i, e) ∈ h.
Proof.
  induction h as [|[j e'] h IH]; cbn [calls_of]; [by intros ?%elem_of_nil|]. case_decide; subst.
  - intros [->|Hin]%elem_of_cons; [by left|right; auto].
  - intros Hin. right. auto.
Qed.

(** [p] is what is left of [p0] after the calls [tr]. *)
Inductive follows (p0 : prog SignResponse) : list event -> prog SignResponse -> Prop :=
| follows_nil : follows p0 [] p0
| follows_cons tr X (c : call X) k x : follows p0 tr (Call c k) -> follows p0 (ev c x :: tr) (k x).

(** A program logic over what a thread has seen. *)
Lemma wp_follows p0 tr p (post : forall X, call X -> X -> Prop) Q :
  wp (fun _ _ => True) post p0 Q -> (forall X (c : call X) x, ev c x ∈ tr -> post X c x) -> follows p0 tr p ->
  wp (fun _ _ => True) post p Q.
Proof.
  intros Hp Htr Hf. induction Hf as [|tr X c k x Hf IH]; [done|].
  destruct IH as [_ IH]; [intros; apply Htr; by right|]. apply IH, Htr. by left.
Qed.

(** The stores gave this answer. *)
Definition genuine (e : event) : Prop :=
  match e with existT _ (c, x) => exists o st, oracle_ok o /\ fst (answer limiter o c st) = x end.

Definition history_ok (s : Config * list (nat * event)) : Prop :=
  Forall (fun e => (fst e < length (cf_threads (fst s)))%nat /\ genuine (snd e)) (snd s) /\
  forall i req p, cf_threads (fst s) !! i = Some (req, p) -> follows (serve req) (calls_of i (snd s)) p.

Lemma calls_of_fresh i h : Forall (fun e => (fst e < i)%nat) h -> calls_of i h = [].
Proof. induction 1 as [|[j e] h Hj Hh IH]; cbn [calls_of]; [done|]. rewrite decide_False; [done|cbn in Hj; lia]. Qed.

Lemma hstep_ok s s' : hstep s s' -> history_ok s -> history_ok s'.
Proof.
  intros Hs [Hlt Hf]. destruct Hs as [cf h req|cf h i req X c k o x st Hi Ho Ha]; cbn [fst snd] in *; split; cbn [fst snd cf_threads].
  - eapply Forall_impl; [exact Hlt|]. intros e [He Hg]. split; [|done]. rewrite length_app. cbn [length]. lia.
  - intros i req' p Hi. apply lookup_app_Some in Hi as [Hi|[Hge Hi]]; [eauto|].
    apply list_lookup_singleton_Some in Hi as [Hz [= <- <-]]. rewrite calls_of_fresh; [constructor|].
    eapply Forall_impl; [exact Hlt|]. intros e [He _]. lia.
  - rewrite length_insert. constructor; [|done]. split; [by eapply lookup_lt_Some|].
    exists o, (cf_state cf). split; [done|]. by rewrite Ha.
  - intros j req' p Hj. cbn [calls_of]. destruct (decide (i = j)) as [<-|Hne].
    + rewrite list_lookup_insert_eq in Hj by (by eapply lookup_lt_Some). injection Hj as <- <-.
      constructor. by apply Hf.
    + rewrite list_lookup_insert_ne in Hj by done. by apply Hf.
Qed.

Lemma history_sound st s :
  rtc hstep ({| cf_state := st; cf_threads := [] |}, []) s -> history_ok s.
Proof.
  intros Hr. assert (history_ok ({| cf_state := st; cf_threads := [] |}, [])) as H0'.
  { split; [apply Forall_nil_2|]. intros i req p Hi. cbn in Hi. by rewrite lookup_nil in Hi. }
  revert H0'. induction Hr; eauto using hstep_ok.
Qed.
End Histories.
