(* ===== verification/Handler.v ===== *)
(** * The request handlers (enclave/src/handler.rs)

    [handle] and the handler of every action, as programs over the shared
    state.  Early returns are the [Err]s of [let?]; [with_blob] is the sequence every signing
    handler opens with (load and parse the sealed blob, map a load error to its
    wire code, enforce the policy).  [serde_json]'s typed parsers are
    parameters. *)

From S2P Require Import Prelude RustStr Crates Proto DateTime Venue Jcs Evm Ledger Registry Intent PolicyGate.
From S2P Require Import Caps Generic Asterdex Allowance Stores DekCache Limiter Eip712 Receipt Program.

Open Scope string_scope.
Open Scope list_scope.
Open Scope Z_scope.

Definition ALLOWED_METHODS : list string := ["GET"; "POST"; "PUT"; "DELETE"].
Definition MAX_CIPHERTEXT_BYTES : nat := Z.to_nat 8192.
Definition MAX_ATTESTED_DATA_BYTES : nat := Z.to_nat 32768.
Definition KEY_VERSION : Z := 1.
Definition REQUIRED_PROTO_VERSION : Z := 1.
Definition MAX_ATTEST_FIELD : nat := Z.to_nat 1024.

(** [serde_json] deserialisers of the typed blobs ([deny_unknown_fields]), its
    printer for envelopes, and its parser as a tree that keeps duplicate
    object keys. *)
Class HandlerSerde := {
  wrapped_of_json : json -> option (Policy * json);
  policy_of_str : string -> option Policy;
  kucoin_of_json : json -> option KucoinSecret;
  binance_of_json : json -> option BinanceSecret;
  bybit_of_json : json -> option BybitSecret;
  okx_of_json : json -> option OkxSecret;
  hyperliquid_of_json : json -> option HyperliquidSecret;
  asterdex_of_json : json -> option AsterdexSecret;
  envelope_to_vec : Envelope -> option string;
  json_tree_of_str : string -> option json
}.

Inductive ParsedBlob :=
| WithPolicy (policy : Policy) (secret_json : json)
| Legacy (v : json).

Definition from_plaintext `{BlobSerde, HandlerSerde} (plaintext : string) : option ParsedBlob :=
  val ← json_of_slice plaintext;
  match jget "policy" val with
  | Some _ => w ← wrapped_of_json val; Some (WithPolicy (fst w) (snd w))
  | None => Some (Legacy val)
  end.

(** The [NoDup] visitor: an insert that replaces a value is an error. *)
Fixpoint no_dup_keys (v : json) : bool :=
  match v with
  | JArr l => forallb no_dup_keys l
  | JObj fs => bool_decide (NoDup (fst <$> fs)) && forallb (fun p => no_dup_keys (snd p)) fs
  | _ => true
  end.
Definition parse_json_no_dup_keys `{HandlerSerde} (s : string) : option json :=
  v ← json_tree_of_str s; if no_dup_keys v then Some v else None.

(** JSON text written with apostrophes for its quotes. *)
Definition quoted (s : string) : string := str_map (fun c => if decide (c = "'"%char) then ascii_of_nat 34 else c) s.

Definition registry_blob_context : Context_ :=
  <["venue_id" := "registry"]> (<["customer_id" := "registry-system"]> ∅).

Definition bad_request {A} : result SignResponse A := Err (resp_err err_code.BAD_REQUEST).
Definition need {A} (o : option A) : result SignResponse A := ok_or o (resp_err err_code.BAD_REQUEST).
Definition guard_bad (b : bool) : result SignResponse () := if b then Ok () else bad_request.

Definition load_error_code (e : LoadSecretError) : string :=
  match e with
  | LsBadRequest => err_code.BAD_REQUEST
  | LsKmsDenied => err_code.KMS_DECRYPT_DENIED
  | LsInternal => err_code.INTERNAL_ERROR
  | LsPolicyRequired => err_code.POLICY_REQUIRED
  end.

Section Handlers.
Context `{Crates, RegistryEnv, ReceiptEnv, Kms, PolicyEnv, BlobSerde, HandlerSerde, Msgpack}.

(** ** Loading the sealed blob *)

Definition kms_decrypt_call (creds : AwsCredentials) (ciphertext : string) (ctx : Context_)
    : prog (result LoadSecretError string) :=
  r ← perform (KmsDecrypt creds ciphertext ctx);
  Ret (map_err (fun e => match e with AccessDenied => LsKmsDenied | KmsInternal => LsInternal end) r).

(** The DEK: a cache hit, or a KMS decrypt marked fresh. *)
Definition obtain_dek (creds : AwsCredentials) (wrapped_dek cache_key : string) (ctx : Context_)
    : prog (result LoadSecretError (string * bool)) :=
  hit ← perform (CacheGet cache_key);
  match hit with
  | Some dek => Ret (Ok (dek, false))
  | None =>
      r ← kms_decrypt_call creds wrapped_dek ctx;
      let? dek := r in Ret (Ok (dek, true))
  end.

Definition load_secret_for (req : SignRequest) (identity : ResolvedIdentity) (venue : string)
    : prog (result LoadSecretError string) :=
  let? creds := ok_or (r_aws_credentials req) LsBadRequest in
  let? ciphertext_b64 := ok_or (r_ciphertext_blob_base64 req) LsBadRequest in
  if is_empty ciphertext_b64 || (MAX_CIPHERTEXT_BYTES <? String.length ciphertext_b64)%nat then Ret (Err LsBadRequest)
  else
    let? raw_blob := ok_or (b64_decode ciphertext_b64) LsBadRequest in
    if is_empty raw_blob || (MAX_CIPHERTEXT_BYTES <? String.length raw_blob)%nat then Ret (Err LsBadRequest)
    else
      let ctx := encryption_context identity venue in
      let aad := sealed_aad identity venue KEY_VERSION in
      if is_envelope raw_blob then
        let? env := map_err (fun _ => LsBadRequest) (parse_envelope raw_blob) in
        let? wrapped_dek := ok_or (b64_decode (env_wrapped_dek env)) LsBadRequest in
        let cache_key := derive_key wrapped_dek (Some ctx) in
        got ← obtain_dek creds wrapped_dek cache_key ctx;
        let? (dek, fresh) := got in
        let? plaintext := map_err (fun _ => LsInternal) (decrypt_with_dek dek env aad) in
        _ ← (if (fresh : bool) then perform (CachePut cache_key dek) else Ret tt);
        Ret (Ok plaintext)
      else kms_decrypt_call creds raw_blob ctx.

(** The trust-on-first-use step for a policy that the baked authority need not
    have signed. *)
Definition tofu_check (tofu_key : string) (policy : Policy) : prog (result LoadSecretError ()) :=
  match p_signer_pubkey policy, p_policy_signature policy with
  | Some pk_hex, Some sig_hex =>
      let? canonical := ok_or (canonical_policy_signable policy) LsBadRequest in
      r ← perform (Pin (VerifyAndPin tofu_key canonical pk_hex sig_hex));
      Ret (map_err (fun _ => LsBadRequest) r)
  | None, None =>
      r ← perform (Pin (RequireIfPinned tofu_key));
      Ret (map_err (fun _ => LsBadRequest) r)
  | _, _ => Ret (Err LsBadRequest)
  end.

Definition load_and_parse_blob (req : SignRequest) (identity : ResolvedIdentity)
    : prog (result LoadSecretError (option Policy * json)) :=
  let? venue := ok_or (venue_for_action (r_action req)) LsBadRequest in
  let? _ := authorize_venue identity venue in
  let tofu_key := id_customer_id identity +:+ "/" +:+ venue in
  let strict := blob_floor_strict policy_required venue in
  loaded ← load_secret_for req identity venue;
  let? plaintext := loaded in
  let? parsed := ok_or (from_plaintext plaintext) LsBadRequest in
  match parsed with
  | WithPolicy policy secret_json =>
      if strict && is_money_venue venue then
        let? _ := verify_policy_authority policy (id_customer_id identity) venue in
        if rot3_uncapped_money_key_rejected true venue policy then Ret (Err LsPolicyRequired)
        else Ret (Ok (Some policy, secret_json))
      else
        checked ← tofu_check tofu_key policy;
        let? _ := checked in Ret (Ok (Some policy, secret_json))
  | Legacy v => if strict then Ret (Err LsPolicyRequired) else Ret (Ok (None, v))
  end.

(** How every signing handler starts: the blob, its error codes, the policy. *)
Definition with_blob {A} (req : SignRequest) (identity : ResolvedIdentity)
    (k : option Policy -> json -> option string -> prog (result SignResponse A)) : prog (result SignResponse A) :=
  loaded ← load_and_parse_blob req identity;
  let? (policy, secret_json) := map_err (fun e => resp_err (load_error_code e)) loaded in
  let? policy_hash := enforce_policy policy req in
  k policy secret_json policy_hash.

Definition secret_or {A} (h : option string) (o : option A) : result SignResponse A :=
  ok_or o (deny_under h err_code.BAD_REQUEST).
Definition check_under (h : option string) (code : string) (b : bool) : result SignResponse () :=
  if b then Ok () else Err (deny_under h code).

(** [serde] then [is_complete]. *)
Definition open_secret {A} (h : option string) (of_json : json -> option A) (complete : A -> bool) (v : json)
    : result SignResponse A :=
  s ← secret_or h (of_json v);
  _ ← check_under h err_code.BAD_REQUEST (complete s);
  Ok s.

Definition capped (policy : option Policy) : bool := bool_decide (is_Some (policy ≫= p_order_caps)).

(** ** Generic HMAC venues *)

Definition handle_sign_kucoin (req : SignRequest) (identity : ResolvedIdentity) : prog (result SignResponse SignResponse) :=
  let? method := need (r_method req) in
  let? path := need (r_path req) in
  let? body := need (r_body req) in
  let? ts := need (r_timestamp_ms req) in
  let? _ := guard_bad (str_in method ALLOWED_METHODS) in
  with_blob req identity (fun policy secret_json policy_hash =>
    let? _ := check_under policy_hash err_code.POLICY_DENIED (negb (capped policy)) in
    let? s := open_secret policy_hash kucoin_of_json kucoin_is_complete secret_json in
    Ret (Ok (with_policy_hash policy_hash
      (ok_headers (compute_kucoin_headers (kc_secret s) (kc_passphrase s) (kc_key s) ts method path body))))).

Definition handle_sign_binance (req : SignRequest) (identity : ResolvedIdentity) : prog (result SignResponse SignResponse) :=
  let? method := need (r_method req) in
  let? body := need (r_body req) in
  let? ts := need (r_timestamp_ms req) in
  let? _ := guard_bad (str_in method ALLOWED_METHODS) in
  let user_query := default "" (r_query req) in
  with_blob req identity (fun policy secret_json policy_hash =>
    let? _ := check_under policy_hash err_code.POLICY_DENIED
      (negb (capped policy && negb (generic_capped_op_allowed "binance" method (default "" (r_path req)) user_query body))) in
    let? s := open_secret policy_hash binance_of_json binance_is_complete secret_json in
    Ret (Ok (with_policy_hash policy_hash
      (ok_headers (compute_binance_headers (bn_secret s) (bn_key s) ts user_query body))))).

(** [req.op.take(); req.payload.take()], then method and path from the op. *)
Definition with_route (method path : string) (r : SignRequest) : SignRequest :=
  {| r_action := r_action r; r_proto_version := r_proto_version r; r_opaque_token := r_opaque_token r;
     r_method := Some method; r_path := Some path; r_body := r_body r; r_timestamp_ms := r_timestamp_ms r;
     r_key_blob_s3_key := r_key_blob_s3_key r; r_key_id := r_key_id r; r_aws_credentials := r_aws_credentials r;
     r_ciphertext_blob_base64 := r_ciphertext_blob_base64 r; r_query := r_query r; r_op := None; r_payload := None;
     r_hl_action := r_hl_action r; r_nonce := r_nonce r; r_vault_address := r_vault_address r; r_x402 := r_x402 r;
     r_permit2 := r_permit2 r; r_order := r_order r; r_cancel := r_cancel r; r_data := r_data r;
     r_registry_refresh := r_registry_refresh r; r_intent_signature := r_intent_signature r;
     r_intent_nonce := r_intent_nonce r; r_attestation_nonce := r_attestation_nonce r;
     r_attestation_user_data := r_attestation_user_data r; r_client_nonce := r_client_nonce r;
     r_provision_venue := r_provision_venue r; r_provision_customer_id := r_provision_customer_id r;
     r_provision_policy := r_provision_policy r |}.

Definition handle_sign_binance_request (req : SignRequest) (identity : ResolvedIdentity)
    : prog (result SignResponse SignResponse) :=
  let? op := need (r_op req) in
  let? payload := need (r_payload req) in
  let? _ := map_err (fun _ => resp_err err_code.ACTION_NOT_ALLOWED) (check_binance_request_allow op payload) in
  let? (method, path) := ok_or (binance_request_method_path op) (resp_err err_code.INTERNAL_ERROR) in
  with_blob (with_route method path req) identity (fun policy secret_json policy_hash =>
    let? _ := check_under policy_hash err_code.POLICY_DENIED (negb (binance_request_order_denied_for_capped op policy)) in
    let? s := open_secret policy_hash binance_of_json binance_is_complete secret_json in
    let sig := sign_binance (bn_secret s) payload "" in
    Ret (Ok (with_policy_hash policy_hash (ok_headers (list_to_map [("signature", sig); ("api_key", bn_key s)]))))).

Definition handle_sign_bybit (req : SignRequest) (identity : ResolvedIdentity) : prog (result SignResponse SignResponse) :=
  let? method := need (r_method req) in
  let? body := need (r_body req) in
  let? ts := need (r_timestamp_ms req) in
  let? _ := guard_bad (str_in method ALLOWED_METHODS) in
  let user_query := default "" (r_query req) in
  with_blob req identity (fun policy secret_json policy_hash =>
    let? _ := check_under policy_hash err_code.POLICY_DENIED (negb (capped policy)) in
    let? s := open_secret policy_hash bybit_of_json bybit_is_complete secret_json in
    Ret (Ok (with_policy_hash policy_hash
      (ok_headers (compute_bybit_headers (by_secret s) (by_key s) ts method user_query body))))).

(** [requestPath]: the path with the query folded in. *)
Definition okx_request_path (path : string) (query : option string) : string :=
  match query with
  | Some q => if is_empty q then path
              else if contains_char "?" path then path +:+ "&" +:+ q else path +:+ "?" +:+ q
  | None => path
  end.

Definition handle_sign_okx (req : SignRequest) (identity : ResolvedIdentity) : prog (result SignResponse SignResponse) :=
  let? method := need (r_method req) in
  let? path := need (r_path req) in
  let? body := need (r_body req) in
  let? ts := need (r_timestamp_ms req) in
  let? _ := guard_bad (str_in method ALLOWED_METHODS) in
  with_blob req identity (fun policy secret_json policy_hash =>
    let request_path := okx_request_path path (r_query req) in
    let? _ := check_under policy_hash err_code.POLICY_DENIED
      (negb (capped policy && negb (generic_capped_op_allowed "okx" method request_path "" body))) in
    let? s := open_secret policy_hash okx_of_json okx_is_complete secret_json in
    let? h := map_err (fun _ => deny_under policy_hash err_code.BAD_REQUEST)
      (compute_okx_headers (ok_secret s) (ok_passphrase s) (ok_key s) ts method request_path body) in
    Ret (Ok (with_policy_hash policy_hash (ok_headers h)))).

(** ** Structured orders and cancels *)

Definition handle_sign_binance_order (req : SignRequest) (identity : ResolvedIdentity)
    : prog (result SignResponse SignResponse) :=
  let? order := need (r_order req) in
  let? ts := need (r_timestamp_ms req) in
  with_blob req identity (fun policy secret_json policy_hash =>
    let? _ := map_err (with_policy_hash policy_hash)
      (enforce_order_cap policy (o_symbol order) (Some (o_qty order)) (o_price order)) in
    intent ← perform (IntentOrder policy identity "binance" "sign_binance_order" ts order req);
    let? _ := map_err (with_policy_hash policy_hash) intent in
    let? canonical := map_err (fun _ => deny_under policy_hash err_code.BAD_REQUEST) (build_binance_order_query order) in
    let? s := open_secret policy_hash binance_of_json binance_is_complete secret_json in
    Ret (Ok (with_canonical_body canonical (with_policy_hash policy_hash
      (ok_headers (compute_binance_headers (bn_secret s) (bn_key s) ts canonical "")))))).

Definition handle_sign_binance_cancel (req : SignRequest) (identity : ResolvedIdentity)
    : prog (result SignResponse SignResponse) :=
  let? cancel := need (r_cancel req) in
  let? ts := need (r_timestamp_ms req) in
  with_blob req identity (fun policy secret_json policy_hash =>
    let? _ := map_err (with_policy_hash policy_hash) (enforce_order_cap policy (c_symbol cancel) None None) in
    intent ← perform (IntentCancel policy identity "binance" "sign_binance_cancel" ts cancel req);
    let? _ := map_err (with_policy_hash policy_hash) intent in
    let? canonical := map_err (fun _ => deny_under policy_hash err_code.BAD_REQUEST) (build_binance_cancel_query cancel) in
    let? s := open_secret policy_hash binance_of_json binance_is_complete secret_json in
    Ret (Ok (with_canonical_body canonical (with_policy_hash policy_hash
      (ok_headers (compute_binance_headers (bn_secret s) (bn_key s) ts canonical "")))))).

Definition handle_sign_okx_order (req : SignRequest) (identity : ResolvedIdentity)
    : prog (result SignResponse SignResponse) :=
  let? order := need (r_order req) in
  let? ts := need (r_timestamp_ms req) in
  with_blob req identity (fun policy secret_json policy_hash =>
    let? _ := map_err (with_policy_hash policy_hash)
      (enforce_order_cap policy (o_symbol order) (Some (o_qty order)) (o_price order)) in
    intent ← perform (IntentOrder policy identity "okx" "sign_okx_order" ts order req);
    let? _ := map_err (with_policy_hash policy_hash) intent in
    let? canonical := map_err (fun _ => deny_under policy_hash err_code.BAD_REQUEST) (build_okx_order_body order) in
    let? s := open_secret policy_hash okx_of_json okx_is_complete secret_json in
    let? h := map_err (fun _ => deny_under policy_hash err_code.BAD_REQUEST)
      (compute_okx_headers (ok_secret s) (ok_passphrase s) (ok_key s) ts "POST" "/api/v5/trade/order" canonical) in
    Ret (Ok (with_canonical_body canonical (with_policy_hash policy_hash (ok_headers h))))).

Definition handle_sign_okx_cancel (req : SignRequest) (identity : ResolvedIdentity)
    : prog (result SignResponse SignResponse) :=
  let? cancel := need (r_cancel req) in
  let? ts := need (r_timestamp_ms req) in
  with_blob req identity (fun policy secret_json policy_hash =>
    let? _ := map_err (with_policy_hash policy_hash) (enforce_order_cap policy (c_symbol cancel) None None) in
    intent ← perform (IntentCancel policy identity "okx" "sign_okx_cancel" ts cancel req);
    let? _ := map_err (with_policy_hash policy_hash) intent in
    let? canonical := map_err (fun _ => deny_under policy_hash err_code.BAD_REQUEST) (build_okx_cancel_body cancel) in
    let? s := open_secret policy_hash okx_of_json okx_is_complete secret_json in
    let? h := map_err (fun _ => deny_under policy_hash err_code.BAD_REQUEST)
      (compute_okx_headers (ok_secret s) (ok_passphrase s) (ok_key s) ts "POST" "/api/v5/trade/cancel-order" canonical) in
    Ret (Ok (with_canonical_body canonical (with_policy_hash policy_hash (ok_headers h))))).

(** ** EVM venues *)

(** The key, and the address it controls, which must be the one sealed with it. *)
Definition open_key (h : option string) (private_key claimed_address : string) : result SignResponse (string * string) :=
  pk ← map_err (fun _ => deny_under h err_code.BAD_REQUEST) (parse_evm_private_key private_key);
  derived ← map_err (fun _ => deny_under h err_code.INTERNAL_ERROR) (derive_address_from_private_key pk);
  claimed ← map_err (fun _ => deny_under h err_code.BAD_REQUEST) (parse_evm_address claimed_address);
  _ ← check_under h err_code.BAD_REQUEST (bool_decide (derived = claimed));
  Ok (pk, derived).

Definition load_hyperliquid_request (req : SignRequest) (identity : ResolvedIdentity)
    : prog (result SignResponse (HyperliquidSecret * json * Z * option string * option string)) :=
  let? action := need (r_hl_action req) in
  let? nonce := need (r_nonce req) in
  let? vault := match r_vault_address req with
                | Some v => if is_empty v then Ok None
                            else a ← map_err (fun _ => resp_err err_code.BAD_REQUEST) (parse_evm_address v); Ok (Some a)
                | None => Ok None
                end in
  with_blob req identity (fun policy secret_json policy_hash =>
    let? _ := map_err (with_policy_hash policy_hash) (enforce_hl_caps policy action vault) in
    let? s := open_secret policy_hash hyperliquid_of_json hyperliquid_is_complete secret_json in
    let? _ := open_key policy_hash (hl_private_key s) (hl_wallet_address s) in
    Ret (Ok (s, action, nonce, vault, policy_hash))).

(** [sign_hyperliquid_mainnet] and [sign_hyperliquid_testnet] differ in the
    network tag only. *)
Definition sign_hyperliquid_as (source : string) (req : SignRequest) (identity : ResolvedIdentity)
    : prog (result SignResponse SignResponse) :=
  loaded ← load_hyperliquid_request req identity;
  let? (s, action, nonce, vault, policy_hash) := loaded in
  let? pk := map_err (fun _ => deny_under policy_hash err_code.BAD_REQUEST) (parse_evm_private_key (hl_private_key s)) in
  let? sig := map_err (fun _ => deny_under policy_hash err_code.INTERNAL_ERROR)
    (sign_hyperliquid pk action nonce vault source) in
  Ret (Ok (with_policy_hash policy_hash (ok_hl_signature sig))).

Definition sign_hyperliquid_mainnet := sign_hyperliquid_as "a".
Definition sign_hyperliquid_testnet := sign_hyperliquid_as "b".

Definition handle_sign_hyperliquid_main_order (req : SignRequest) (identity : ResolvedIdentity)
    : prog (result SignResponse SignResponse) :=
  let? hl_action := need (r_hl_action req) in
  let? _ := guard_bad (validate_order_action hl_action) in
  sign_hyperliquid_mainnet req identity.

Definition handle_sign_hyperliquid_main_cancel (req : SignRequest) (identity : ResolvedIdentity)
    : prog (result SignResponse SignResponse) :=
  let? hl_action := need (r_hl_action req) in
  let? _ := guard_bad (validate_cancel_action hl_action) in
  sign_hyperliquid_mainnet req identity.

Definition handle_sign_hyperliquid_testnet_order (req : SignRequest) (identity : ResolvedIdentity)
    : prog (result SignResponse SignResponse) :=
  let? hl_action := need (r_hl_action req) in
  let? _ := guard_bad (validate_order_action hl_action) in
  sign_hyperliquid_testnet req identity.

Definition handle_sign_hyperliquid_testnet_cancel (req : SignRequest) (identity : ResolvedIdentity)
    : prog (result SignResponse SignResponse) :=
  let? hl_action := need (r_hl_action req) in
  let? _ := guard_bad (validate_cancel_action hl_action) in
  sign_hyperliquid_testnet req identity.

(** The endpoint allow-list: an entry with a query never matches. *)
Definition asterdex_endpoint_allowed (policy : option Policy) (path : option string) : bool :=
  match policy ≫= p_allowed_asterdex_endpoints with
  | None => true
  | Some allowed =>
      let path_only := default "" (head (split "?" (default "" path))) in
      existsb (fun ep => negb (contains_char "?" ep) && bool_decide (ep = path_only)) allowed
  end.

Definition handle_sign_asterdex (req : SignRequest) (identity : ResolvedIdentity)
    : prog (result SignResponse SignResponse) :=
  let? method := need (r_method req) in
  let? body := need (r_body req) in
  let? _ := guard_bad (str_in method ALLOWED_METHODS) in
  let? _ := guard_bad (negb (is_empty body)) in
  let? _ := guard_bad (Z.of_nat (String.length body) <=? ASTERDEX_MAX_BODY_LEN) in
  with_blob req identity (fun policy secret_json policy_hash =>
    let? _ := check_under policy_hash err_code.POLICY_REQUIRED (negb (asterdex_floor_denies policy_required policy)) in
    let? _ := check_under policy_hash err_code.POLICY_DENIED (asterdex_endpoint_allowed policy (r_path req)) in
    let? _ := map_err (with_policy_hash policy_hash) (enforce_asterdex_size_cap policy body) in
    let? s := open_secret policy_hash asterdex_of_json asterdex_is_complete secret_json in
    let? (pk, derived) := open_key policy_hash (as_private_key s) (as_signer_address s) in
    let? _ := map_err (fun _ => deny_under policy_hash err_code.BAD_REQUEST) (validate_asterdex_body body derived) in
    let? sig := map_err (fun _ => deny_under policy_hash err_code.INTERNAL_ERROR) (sign_asterdex pk body) in
    Ret (Ok (with_policy_hash policy_hash
      (ok_headers (list_to_map [("signature", sig); ("signer", "0x" +:+ hex_encode derived)]))))).

Definition parsed_under {A} (h : option string) (r : result string A) : result SignResponse A :=
  map_err (fun _ => deny_under h err_code.BAD_REQUEST) r.

Definition handle_sign_x402_eip3009 (req : SignRequest) (identity : ResolvedIdentity)
    : prog (result SignResponse SignResponse) :=
  let? x := need (r_x402 req) in
  let? _ := guard_bad (negb (x_valid_before x <=? x_valid_after x)) in
  with_blob req identity (fun policy secret_json policy_hash =>
    let? token_address := parsed_under policy_hash (parse_evm_address (x_token_address x)) in
    let? from := parsed_under policy_hash (parse_evm_address (x_from x)) in
    let? to := parsed_under policy_hash (parse_evm_address (x_to x)) in
    let? value := parsed_under policy_hash (parse_u256_be_decimal (x_value x)) in
    let? nonce := parsed_under policy_hash (parse_bytes32_hex (x_nonce x)) in
    let? _ := map_err (with_policy_hash policy_hash) (enforce_x402_cap policy (x_chain_id x) token_address to value) in
    let? s := open_secret policy_hash asterdex_of_json asterdex_is_complete secret_json in
    let? (pk, derived) := open_key policy_hash (as_private_key s) (as_signer_address s) in
    let? _ := check_under policy_hash err_code.BAD_REQUEST (bool_decide (derived = from)) in
    let? sig := map_err (fun _ => deny_under policy_hash err_code.INTERNAL_ERROR)
      (sign_x402_eip3009 pk (x_token_name x) (x_token_version x) (x_chain_id x) token_address from to value
         (x_valid_after x) (x_valid_before x) nonce) in
    Ret (Ok (with_policy_hash policy_hash
      (ok_headers (list_to_map [("signature", sig); ("from", "0x" +:+ hex_encode derived)]))))).

Definition handle_sign_permit2_permit_single (req : SignRequest) (identity : ResolvedIdentity)
    : prog (result SignResponse SignResponse) :=
  let? p2 := need (r_permit2 req) in
  let? amount := map_err (fun _ => resp_err err_code.BAD_REQUEST) (permit2_request_shape p2) in
  with_blob req identity (fun policy secret_json policy_hash =>
    let? verifying_contract := parsed_under policy_hash (parse_evm_address (q_verifying_contract p2)) in
    let? token := parsed_under policy_hash (parse_evm_address (q_token p2)) in
    let? spender := parsed_under policy_hash (parse_evm_address (q_spender p2)) in
    let? sig_deadline := parsed_under policy_hash (parse_u256_be_decimal (q_sig_deadline p2)) in
    let? _ := map_err (with_policy_hash policy_hash)
      (enforce_permit2_allowance policy (q_chain_id p2) verifying_contract token spender amount (q_expiration p2)) in
    let? s := open_secret policy_hash asterdex_of_json asterdex_is_complete secret_json in
    let? (pk, derived) := open_key policy_hash (as_private_key s) (as_signer_address s) in
    let? sig := map_err (fun _ => deny_under policy_hash err_code.INTERNAL_ERROR)
      (sign_permit2_permit_single pk (q_chain_id p2) verifying_contract token amount (q_expiration p2) (q_nonce p2)
         spender sig_deadline) in
    Ret (Ok (with_policy_hash policy_hash
      (ok_headers (list_to_map [("signature", sig); ("owner", "0x" +:+ hex_encode derived)]))))).

(** ** Attested data *)

(** Refusals after the policy gate do not carry the policy hash here. *)
Definition handle_sign_data (req : SignRequest) (identity : ResolvedIdentity) : prog (result SignResponse SignResponse) :=
  let? data_raw := need (r_data req) in
  let? _ := guard_bad (String.length data_raw <=? MAX_ATTESTED_DATA_BYTES)%nat in
  let? data := need (parse_json_no_dup_keys data_raw) in
  with_blob req identity (fun policy secret_json _ =>
    let? s := need (hyperliquid_of_json secret_json) in
    let? _ := guard_bad (hyperliquid_is_complete s) in
    let? pk := map_err (fun _ => resp_err err_code.BAD_REQUEST) (parse_evm_private_key (hl_private_key s)) in
    _ ← perform (InstallKey pk);
    let? signature := map_err (fun _ => resp_err err_code.BAD_REQUEST) (sign_attested_data pk data) in
    let? (pubkey_compressed, pubkey_address) :=
      map_err (fun _ => resp_err err_code.PROVISION_KEY_DERIVATION_FAILED) (attested_data_pubkey pk) in
    Ret (Ok (ok_attested_data {| ad_signature := signature; ad_pubkey_compressed := pubkey_compressed;
                                 ad_pubkey_address := pubkey_address |}))).

(** ** Operator actions *)

Definition handle_registry_challenge : prog SignResponse :=
  hex ← perform Challenge; Ret (resp_ok hex).

Definition handle_registry_refresh (req : SignRequest) : prog (result SignResponse SignResponse) :=
  let? params := need (r_registry_refresh req) in
  let? creds := need (r_aws_credentials req) in
  let? ciphertext := need (r_ciphertext_blob_base64 req ≫= b64_decode) in
  let? _ := guard_bad (negb (is_empty ciphertext) && (String.length ciphertext <=? MAX_CIPHERTEXT_BYTES)%nat) in
  decrypted ← perform (KmsDecrypt creds ciphertext registry_blob_context);
  let? entries_json := map_err (fun _ => resp_err err_code.KMS_DECRYPT_DENIED) decrypted in
  checked ← perform (RefreshCheck entries_json (rr_nonce_hex params) (rr_version params) (rr_signature_hex params));
  let? (nonce, entries) := map_err (fun e => resp_err (wire_code e)) checked in
  installed ← perform (RefreshCommit nonce (rr_version params) entries);
  let? version := map_err (fun e => resp_err (wire_code e)) installed in
  Ret (Ok (resp_ok (u64_to_string version))).

Definition handle_verify_blob (req : SignRequest) (identity : ResolvedIdentity) : prog (result SignResponse SignResponse) :=
  let venue := default "" (r_path req) in
  let? _ := map_err (fun _ => resp_err err_code.BAD_REQUEST) (authorize_venue identity venue) in
  loaded ← load_secret_for req identity venue;
  let? plaintext := map_err (fun e => resp_err (match e with
      | LsBadRequest => err_code.BAD_REQUEST
      | LsKmsDenied | LsInternal => err_code.VERIFY_FAILED
      | LsPolicyRequired => err_code.POLICY_REQUIRED
      end)) loaded in
  let? parsed := ok_or (from_plaintext plaintext) (resp_err err_code.VERIFY_FAILED) in
  let? _ := (if blob_floor_strict policy_required venue && match parsed with Legacy _ => true | _ => false end
             then Err (resp_err err_code.POLICY_REQUIRED) else Ok ()) in
  Ret (Ok (ok_verify_blob (hex_encode (sha256 plaintext)) (Z.of_nat (String.length plaintext)))).

Definition nonce_byte_ok (c : ascii) : bool :=
  is_ascii_alphanumeric c || bool_decide (c = "-"%char) || bool_decide (c = "_"%char).

(** [issue_heartbeat] reads the key, the counter and the registry version under
    separate locks. *)
Definition issue_heartbeat_prog (identity : ResolvedIdentity) (client_nonce : string)
    : prog (result HeartbeatUnavailable ReceiptHeartbeat) :=
  key ← perform ReceiptKey;
  let? pk := ok_or key NoKey in
  let? hash := ok_or (entry_hash identity) (HbInternal "entry_not_canonical") in
  seq ← perform (SeqNext (id_customer_id identity));
  version ← perform RegVersion;
  Ret (sign_heartbeat pk identity client_nonce hash seq version).

Definition with_heartbeat (hb : ReceiptHeartbeat) (resp : SignResponse) : SignResponse :=
  {| s_signature_base64 := s_signature_base64 resp; s_headers := s_headers resp;
     s_hl_signature := s_hl_signature resp; s_attested := s_attested resp;
     s_provision := s_provision resp; s_error := s_error resp; s_receipt := s_receipt resp;
     s_policy_hash := s_policy_hash resp; s_plaintext_sha256 := s_plaintext_sha256 resp;
     s_plaintext_len := s_plaintext_len resp; s_canonical_body := s_canonical_body resp;
     s_heartbeat := Some hb; s_attestation_document_b64 := s_attestation_document_b64 resp |}.

Definition handle_receipt_heartbeat (req : SignRequest) (identity : ResolvedIdentity)
    : prog (result SignResponse SignResponse) :=
  let? nonce := need (r_client_nonce req) in
  let? _ := guard_bad (negb (is_empty nonce) && (String.length nonce <=? MAX_CLIENT_NONCE_LEN)%nat) in
  let? _ := guard_bad (bytes_all nonce_byte_ok nonce) in
  issued ← issue_heartbeat_prog identity nonce;
  let? hb := map_err (fun e => resp_err (match e with
      | NoKey => err_code.RECEIPTS_UNAVAILABLE
      | HbInternal _ => err_code.INTERNAL_ERROR
      end)) issued in
  Ret (Ok (with_heartbeat hb (resp_ok ""))).

Definition decode_bounded (field : option string) : result SignResponse (option string) :=
  match field with
  | None => Ok None
  | Some h =>
      if is_empty h || (MAX_ATTEST_FIELD * 2 <? String.length h)%nat || negb (Nat.even (String.length h)) ||
         negb (bytes_all is_ascii_hexdigit h)
      then bad_request
      else b ← need (hex_decode h); Ok (Some b)
  end.

Definition handle_attestation (req : SignRequest) : prog (result SignResponse SignResponse) :=
  let? nonce := decode_bounded (r_attestation_nonce req) in
  let? user_data := decode_bounded (r_attestation_user_data req) in
  public_key ← perform ReceiptPublicKey;
  document ← perform (Nsm nonce user_data public_key);
  let? doc := ok_or document (resp_err err_code.INTERNAL_ERROR) in
  Ret (Ok (ok_attestation (b64_encode doc))).

(** ** Provisioning *)

Definition DATA_KEY_POLICY_PREFIX : string :=
  quoted ("{'policy':{'allowed_actions':['sign_data'],'label':'attested-data service key (enclave-provisioned)'}," +:+
          "'secret':{'exchange':'attested-data','private_key':'0x").
Definition DATA_KEY_SECRET_MID : string := quoted "','wallet_address':'".
Definition DATA_KEY_SECRET_SUFFIX : string := quoted "'}}".

Definition build_data_key_plaintext (priv_hex pubkey_address : string) : string :=
  DATA_KEY_POLICY_PREFIX +:+ priv_hex +:+ DATA_KEY_SECRET_MID +:+ pubkey_address +:+ DATA_KEY_SECRET_SUFFIX.

Definition is_agent_key_venue (venue : string) : bool := str_in venue ["hyperliquid_main"; "hyperliquid_testnet"].

Definition build_agent_key_plaintext (policy_json venue priv_hex pubkey_address : string) : string :=
  quoted "{'policy':" +:+ policy_json +:+ quoted ",'secret':{'exchange':'" +:+ venue +:+
  quoted "','private_key':'0x" +:+ priv_hex +:+ quoted "','wallet_address':'" +:+ pubkey_address +:+ quoted "'}}".

Definition non_empty_field (o : option string) : result SignResponse string :=
  s ← need o; if is_empty s then bad_request else Ok s.

(** Generate a key, build its plaintext, wrap a fresh DEK under [ctx] and seal:
    the common tail of the two provisioning handlers. *)
Definition provision (creds : AwsCredentials) (key_id : string) (ctx : Context_) (aad : string)
    (plaintext_of : string -> string -> string) : prog (result SignResponse SignResponse) :=
  pk ← perform RandomKey;
  let? (pubkey_compressed, pubkey_address) :=
    map_err (fun _ => resp_err err_code.INTERNAL_ERROR) (attested_data_pubkey pk) in
  let plaintext := plaintext_of (hex_encode pk) pubkey_address in
  dek ← perform (RandomBytes 32);
  wrapped ← perform (KmsWrap creds key_id dek ctx);
  let? wrapped := map_err (fun e => resp_err (match e with
      | AccessDenied => err_code.KMS_DECRYPT_DENIED
      | KmsInternal => err_code.PROVISION_WRAP_FAILED
      end)) wrapped in
  nonce ← perform (RandomBytes NONCE_LEN);
  let? envelope := map_err (fun _ => resp_err err_code.PROVISION_SEAL_FAILED)
    (seal_with_dek dek wrapped plaintext aad nonce) in
  let? blob := ok_or (envelope_to_vec envelope) (resp_err err_code.PROVISION_SEAL_FAILED) in
  Ret (Ok (ok_provision {| pk_envelope_b64 := b64_encode blob; pk_pubkey_compressed := pubkey_compressed;
                           pk_pubkey_address := pubkey_address |})).

(** The checks before an agent key is minted. *)
Definition agent_policy_allowed (policy : Policy) (customer_id venue : string) : result SignResponse () :=
  _ ← (if bool_decide (is_Some (p_intent_pubkey policy)) && is_hl_venue venue
       then Err (resp_err err_code.POLICY_REQUIRED) else Ok ());
  if blob_floor_strict policy_required venue && is_money_venue venue then
    _ ← map_err (fun e => resp_err (match e with LsPolicyRequired => err_code.POLICY_REQUIRED
                                             | _ => err_code.BAD_REQUEST end))
          (verify_policy_authority policy customer_id venue);
    if rot3_uncapped_money_key_rejected true venue policy then Err (resp_err err_code.POLICY_REQUIRED) else Ok ()
  else Ok ().

Definition handle_provision_agent_key (req : SignRequest) : prog (result SignResponse SignResponse) :=
  let? creds := need (r_aws_credentials req) in
  let? key_id := non_empty_field (r_key_id req) in
  let? venue := non_empty_field (r_provision_venue req) in
  let? customer_id := non_empty_field (r_provision_customer_id req) in
  let? policy_raw := non_empty_field (r_provision_policy req) in
  let? _ := (if is_agent_key_venue venue then Ok () else Err (resp_err err_code.POLICY_DENIED)) in
  let? _ := guard_bad (is_safe_id customer_id) in
  let? policy := need (policy_of_str policy_raw) in
  let? _ := agent_policy_allowed policy customer_id venue in
  let id := for_provisioned_agent customer_id venue in
  provision creds key_id (encryption_context id venue) (sealed_aad id venue KEY_VERSION)
    (build_agent_key_plaintext policy_raw venue).

Definition handle_provision_data_key (req : SignRequest) : prog (result SignResponse SignResponse) :=
  let? creds := need (r_aws_credentials req) in
  let? key_id := non_empty_field (r_key_id req) in
  let id := for_data_signing in
  provision creds key_id (encryption_context id "data-signing") (sealed_aad id "data-signing" KEY_VERSION)
    build_data_key_plaintext.

(** ** Dispatch *)

(** [receipt::attach]: the key is copied out, then the counter section runs. *)
Definition attach_prog (pre : Pre) (resp : SignResponse) : prog SignResponse :=
  if negb (is_receipted_action (pre_action pre)) then Ret resp
  else
    key ← perform ReceiptKey;
    match key with
    | None => Ret resp
    | Some pk =>
        r ← perform (IssueLocked pk pre resp);
        Ret (match r with Some receipt => with_receipt receipt resp | None => resp end)
    end.

(** The actions that need a resolved tenant. *)
Definition dispatch (req : SignRequest) (identity : ResolvedIdentity) : prog (result SignResponse SignResponse) :=
  match assoc (r_action req)
    [("sign_kucoin", handle_sign_kucoin); ("sign_binance", handle_sign_binance);
     ("sign_binance_request", handle_sign_binance_request); ("sign_bybit", handle_sign_bybit);
     ("sign_okx", handle_sign_okx);
     ("sign_hyperliquid_main_order", handle_sign_hyperliquid_main_order);
     ("sign_hyperliquid_main_cancel", handle_sign_hyperliquid_main_cancel);
     ("sign_hyperliquid_testnet_order", handle_sign_hyperliquid_testnet_order);
     ("sign_hyperliquid_testnet_cancel", handle_sign_hyperliquid_testnet_cancel);
     ("sign_asterdex", handle_sign_asterdex); ("sign_data", handle_sign_data);
     ("sign_x402_eip3009", handle_sign_x402_eip3009);
     ("sign_permit2_permit_single", handle_sign_permit2_permit_single);
     ("sign_binance_order", handle_sign_binance_order); ("sign_binance_cancel", handle_sign_binance_cancel);
     ("sign_okx_order", handle_sign_okx_order); ("sign_okx_cancel", handle_sign_okx_cancel);
     ("receipt_heartbeat", handle_receipt_heartbeat); ("verify_blob", handle_verify_blob)] with
  | Some handler => handler req identity
  | None => Ret bad_request
  end.

(** The actions that bypass the tenant gates. *)
Definition bypass (req : SignRequest) : option (prog SignResponse) :=
  assoc (r_action req)
    [("ping", Ret (resp_ok "pong"));
     ("registry_challenge", handle_registry_challenge);
     ("registry_refresh", respond (handle_registry_refresh req));
     ("provision_data_key", respond (handle_provision_data_key req));
     ("provision_agent_key", respond (handle_provision_agent_key req));
     ("attestation", respond (handle_attestation req))].

Definition handle (req : SignRequest) : prog SignResponse :=
  match bypass req with
  | Some p => p
  | None =>
      if r_proto_version req <? REQUIRED_PROTO_VERSION then Ret (resp_err err_code.BAD_REQUEST)
      else
        tenant ← match r_opaque_token req with
                   | Some token => perform (Resolve token)
                   | None => Ret None
                   end;
        allowed ← perform (RateCheck (match tenant with Some id => id_customer_id id | None => "unauthenticated" end));
        if negb allowed then Ret (resp_err err_code.RATE_LIMITED)
        else match tenant with
        | None => Ret (resp_err err_code.BAD_REQUEST)
        | Some who =>
            let receipt_pre := capture who req in
            match tenant_mode_gate who req with
            | Err resp => attach_prog receipt_pre resp
            | Ok _ =>
                resp ← respond (dispatch req who);
                attach_prog receipt_pre resp
            end
        end
  end.

End Handlers.
