(* ===== verification/Enclave.v ===== *)
(** * The enclave as a whole

    The handlers of handler.rs proved against the stores they share, for every
    interleaving of concurrent requests: what must hold whenever a signing
    request is answered without an error. *)

From Stdlib Require Import QArith.
From S2P Require Import Prelude RustStr Crates Decimal Proto DateTime Venue Jcs Evm Ledger Registry Intent.
From S2P Require Import PolicyGate Caps Generic Asterdex Allowance Stores DekCache Limiter Eip712 Receipt.
From S2P Require Import Program Handler.

Open Scope string_scope.
Open Scope list_scope.
Open Scope Z_scope.

(** ** Refusals *)

(** A response with an error code. *)
Definition refused (resp : SignResponse) : Prop := is_Some (s_error resp).

(** Every error of this check is a refusal. *)
Class Refuses {A} (r : result SignResponse A) : Prop := refuses : forall resp, r = Err resp -> refused resp.

Lemma refused_err code : refused (resp_err code).
Proof. by eexists. Qed.
Lemma refused_deny h code : refused (deny_under h code).
Proof. by eexists. Qed.
Lemma refused_hash h resp : refused resp -> refused (with_policy_hash h resp).
Proof. by destruct resp. Qed.

Create HintDb refuse.
#[export] Hint Resolve refused_err refused_deny refused_hash : refuse.

#[export] Instance refuses_ok {A} (a : A) : Refuses (Ok a).
Proof. by intros resp. Qed.
#[export] Instance refuses_resp {A} code : Refuses (A := A) (Err (resp_err code)).
Proof. intros resp [= <-]. auto with refuse. Qed.
#[export] Instance refuses_deny_under {A} h code : Refuses (A := A) (Err (deny_under h code)).
Proof. intros resp [= <-]. auto with refuse. Qed.
#[export] Instance refuses_ok_or_resp {A} (o : option A) code : Refuses (ok_or o (resp_err code)).
Proof. destruct o; apply _. Qed.
#[export] Instance refuses_ok_or_deny {A} (o : option A) h code : Refuses (ok_or o (deny_under h code)).
Proof. destruct o; apply _. Qed.
#[export] Instance refuses_bind {A B} (r : result SignResponse A) (f : A -> result SignResponse B) :
  Refuses r -> (forall a, Refuses (f a)) -> Refuses (r ≫= f).
Proof. intros Hr Hf resp. destruct r as [a|e]; [apply Hf|]. intros [= <-]. by apply Hr. Qed.
#[export] Instance refuses_if {A} (b : bool) (r s : result SignResponse A) : Refuses r -> Refuses s -> Refuses (if b then r else s).
Proof. by destruct b. Qed.
#[export] Instance refuses_map_hash {A} (r : result SignResponse A) h : Refuses r -> Refuses (map_err (with_policy_hash h) r).
Proof. intros Hr resp. destruct r as [a|e]; [done|]. intros [= <-]. apply refused_hash. by apply Hr. Qed.
#[export] Instance refuses_map_resp {E A} (r : result E A) (f : E -> string) : Refuses (map_err (fun e => resp_err (f e)) r).
Proof. intros resp. destruct r as [a|e]; [done|]. intros [= <-]. auto with refuse. Qed.
#[export] Instance refuses_map_deny {E A} (r : result E A) h code : Refuses (map_err (fun _ => deny_under h code) r).
Proof. intros resp. destruct r as [a|e]; [done|]. intros [= <-]. auto with refuse. Qed.

(** Case analysis down to [Ok] and [Err (resp_err _)]. *)
Ltac refuses_cases :=
  intros; unfold deny, require, bad_request, need in *;
  repeat first [apply _ | apply refuses_bind; [|intro] | apply refuses_if | case_match; simplify_eq/=; try done].

#[export] Instance refuses_check_under h code b : Refuses (check_under h code b).
Proof. unfold check_under. apply _. Qed.
#[export] Instance refuses_guard_bad b : Refuses (guard_bad b).
Proof. unfold guard_bad, bad_request. apply _. Qed.
#[export] Instance refuses_need {A} (o : option A) : Refuses (need o).
Proof. unfold need. apply _. Qed.
#[export] Instance refuses_parsed {A} h (r : result string A) : Refuses (parsed_under h r).
Proof. unfold parsed_under. apply _. Qed.
#[export] Instance refuses_open_secret `{Crates} {A} h (of_json : json -> option A) complete v :
  Refuses (open_secret h of_json complete v).
Proof. unfold open_secret, secret_or. apply _. Qed.
#[export] Instance refuses_open_key `{Crates} h k a : Refuses (open_key h k a).
Proof. unfold open_key. refuses_cases. Qed.

#[export] Instance refuses_decode_bounded `{Crates} field : Refuses (decode_bounded field).
Proof. unfold decode_bounded. refuses_cases. Qed.
#[export] Instance refuses_tenant_mode_gate identity req : Refuses (tenant_mode_gate identity req).
Proof. unfold tenant_mode_gate. refuses_cases. Qed.
#[export] Instance refuses_order_cap policy symbol qty price : Refuses (enforce_order_cap policy symbol qty price).
Proof. unfold enforce_order_cap, check_max_qty, check_max_notional. refuses_cases. Qed.
#[export] Instance refuses_x402_cap `{Crates} policy chain token to value : Refuses (enforce_x402_cap policy chain token to value).
Proof. unfold enforce_x402_cap. refuses_cases. Qed.
#[export] Instance refuses_permit2_scan `{Crates} needle items found : Refuses (permit2_scan needle items found).
Proof. revert found. induction items; intros; cbn [permit2_scan]; refuses_cases; auto. Qed.
#[export] Instance refuses_permit2_list `{Crates} items needle : Refuses (permit2_allow_list items needle).
Proof. unfold permit2_allow_list. refuses_cases. Qed.
#[export] Instance refuses_permit2 `{Crates} policy chain contract token spender amount expiration :
  Refuses (enforce_permit2_allowance policy chain contract token spender amount expiration).
Proof. unfold enforce_permit2_allowance. refuses_cases. Qed.
#[export] Instance refuses_hl_order caps order : Refuses (check_hl_order caps order).
Proof. unfold check_hl_order, check_hl_size, check_hl_notional. refuses_cases. Qed.
#[export] Instance refuses_hl_loop caps orders totals : Refuses (hl_order_loop caps orders totals).
Proof. revert totals. induction orders; intros; cbn [hl_order_loop]; refuses_cases; auto. Qed.
#[export] Instance refuses_hl_totals totals : Refuses (hl_totals_loop totals).
Proof.
  induction totals; cbn [hl_totals_loop]; [apply _|]. unfold check_total_size, check_total_notional. refuses_cases; auto.
Qed.
#[export] Instance refuses_hl_caps `{Crates} policy action vault : Refuses (enforce_hl_caps policy action vault).
Proof. unfold enforce_hl_caps, check_vault. refuses_cases. Qed.
#[export] Instance refuses_asterdex_cap policy body : Refuses (enforce_asterdex_size_cap policy body).
Proof. unfold enforce_asterdex_size_cap, asterdex_price. refuses_cases. Qed.
#[export] Instance refuses_policy_inner `{Crates, PolicyEnv} policy req : Refuses (enforce_policy_inner policy req).
Proof. unfold enforce_policy_inner, policy_action_rules, policy_path_rules. refuses_cases. Qed.
#[export] Instance refuses_policy `{Crates, PolicyEnv} policy req : Refuses (enforce_policy policy req).
Proof.
  unfold enforce_policy. intros resp. destruct (enforce_policy_inner policy req) as [h|e] eqn:E; [done|].
  apply refuses in E. destruct (policy ≫= compute_policy_hash); intros [= <-]; auto with refuse.
Qed.
#[export] Instance refuses_intent_order `{Crates} policy identity venue action ts order req ledger :
  Refuses (fst (enforce_agent_intent_order policy identity venue action ts order req ledger)).
Proof. unfold enforce_agent_intent_order, verify_agent_intent. refuses_cases. Qed.
#[export] Instance refuses_intent_cancel `{Crates} policy identity venue action ts cancel req ledger :
  Refuses (fst (enforce_agent_intent_cancel policy identity venue action ts cancel req ledger)).
Proof. unfold enforce_agent_intent_cancel, verify_agent_intent. refuses_cases. Qed.

(** Base64 and JSON parsing never lengthen their input. *)
Class SizeLaws `{Crates, BlobSerde} := {
  b64_decode_shrinks s b : b64_decode s = Some b -> (String.length b <= String.length s)%nat;
  envelope_shrinks blob env :
    envelope_of_slice blob = Some env -> (String.length (env_wrapped_dek env) <= String.length blob)%nat
}.

(** ** Contracts of the calls *)

Section Contracts.
Context `{Crates, RegistryEnv, ReceiptEnv, Kms, PolicyEnv, BlobSerde, HandlerSerde, Msgpack, !SizeLaws}.
Context (limiter : RateLimiter).

Definition identity_ok (id : ResolvedIdentity) : Prop := entry_ok (id_customer_id id) (id_allowed_venues id).

(** Cache entries come from KMS, under the context of a registered tenant. *)
Definition dek_provenance (key dek : string) : Prop :=
  exists w id venue, Z.of_nat (String.length w) < 2 ^ 64 /\ is_safe_id (id_customer_id id) = true /\
    is_safe_id venue = true /\ key = derive_key w (Some (encryption_context id venue)) /\
    kms_released w (encryption_context id venue) dek.

(** Entries the control plane signed at this version, released by KMS as a
    registry blob, and well-formed. *)
Definition signed_entries (version : Z) (entries : list RefreshEntry) : Prop :=
  exists vk nonce sig entries_json ct,
    control_plane_vk = Ok vk /\ kms_released ct registry_blob_context entries_json /\
    ed25519_verify vk (signed_message nonce version (sha256 entries_json)) sig = true /\
    parse_entries entries_json = Some entries /\ check_entries entries = Ok ().

(** The registry holds nothing, or exactly such entries. *)
Definition registry_signed (reg : RegState) : Prop :=
  rg_entries reg = [] \/
  exists entries, signed_entries (rg_version reg) entries /\ rg_entries reg = resident <$> entries.

(** What a program owes at a call. *)
Definition call_pre X (c : call X) : Prop :=
  match c with
  | RefreshCheck entries_json _ _ _ => exists ct, kms_released ct registry_blob_context entries_json
  | RefreshCommit _ version entries => signed_entries version entries
  | CachePut key dek => dek_provenance key dek
  | _ => True
  end.

(** What it may assume of the answer. *)
Definition call_post X (c : call X) : X -> Prop :=
  match c in call X return X -> Prop with
  | Resolve token => fun x =>
      match x with
      | Some id => identity_ok id /\ exists reg, registry_signed reg /\ resolve token reg = Some id
      | None => True
      end
  | RefreshCheck _ _ version _ => fun x =>
      match x with Ok (_, entries) => signed_entries version entries | Err _ => True end
  | CacheGet key => fun x => match x with Some dek => dek_provenance key dek | None => True end
  | IntentOrder policy identity venue action ts order req => fun x =>
      exists ledger, x = fst (enforce_agent_intent_order policy identity venue action ts order req ledger)
  | IntentCancel policy identity venue action ts cancel req => fun x =>
      exists ledger, x = fst (enforce_agent_intent_cancel policy identity venue action ts cancel req ledger)
  | KmsDecrypt creds ct ctx => fun x => match x with Ok pt => kms_released ct ctx pt | Err _ => True end
  | KmsWrap creds key_id dek ctx => fun x =>
      match x with Ok w => exists now, kms_wrap now creds key_id dek ctx = Ok w | Err _ => True end
  | RandomBytes n => fun x => String.length x = n
  | RandomKey => fun x => secp_key_ok x = true
  | _ => fun _ => True
  end.

Definition enclave_inv (st : Enclave) : Prop :=
  registry_signed (en_registry st) /\
  (forall key e, dc_map (en_cache st) !! key = Some e -> dek_provenance key (ce_dek e)).

Lemma cache_get_provenance key now c x c' :
  (forall k e, dc_map c !! k = Some e -> dek_provenance k (ce_dek e)) -> cache_get key now c = (x, c') ->
  match x with Some dek => dek_provenance key dek | None => True end /\
  (forall k e, dc_map c' !! k = Some e -> dek_provenance k (ce_dek e)).
Proof.
  intros Hc. unfold cache_get. destruct (negb (enabled c)); [by intros [= <- <-]|].
  destruct (dc_map c !! key) as [e|] eqn:E; [|by intros [= <- <-]].
  destruct (_ <=? _); intros [= <- <-]; cbn [dc_map set_inner]; (split; [eauto; done|]); [|done].
  intros k e' Hk. apply lookup_delete_Some in Hk as [_ Hk]. eauto.
Qed.

Lemma evict_subseteq order max m : fst (evict order max m) ⊆ m.
Proof.
  revert m. induction order as [|o order IH]; intros m; cbn [evict]; destruct (_ <=? _); try done.
  etrans; [apply IH|apply delete_subseteq].
Qed.

Lemma cache_put_provenance key dek now c :
  dek_provenance key dek -> (forall k e, dc_map c !! k = Some e -> dek_provenance k (ce_dek e)) ->
  forall k e, dc_map (cache_put key dek now c) !! k = Some e -> dek_provenance k (ce_dek e).
Proof.
  intros Hd Hc k e. unfold cache_put. destruct (negb (enabled c)); [apply Hc|].
  pose proof (evict_subseteq ((match dc_map c !! key with
    Some _ => remove_from_order key (dc_order c) | None => dc_order c end) ++ [key])%list (dc_max c)
    (<[key := {| ce_dek := dek; ce_inserted := now |}]> (dc_map c))) as Hsub.
  destruct (evict _ _ _) as [m order]. cbn [set_inner dc_map fst] in *. intros Hk.
  apply (lookup_weaken _ _ _ _ Hk) in Hsub. apply lookup_insert_Some in Hsub as [[<- <-]|[_ Hs]]; [done|eauto].
Qed.

Lemma registry_signed_ok reg :
  registry_signed reg -> Forall (fun e => entry_ok (te_customer_id e) (te_allowed_venues e)) (rg_entries reg).
Proof.
  intros [->|(entries & (_ & _ & _ & _ & _ & _ & _ & _ & _ & Hck) & ->)]; [done|].
  apply Forall_fmap. apply check_entries_ok in Hck. eapply Forall_impl; [exact Hck|]. by intros e [He _].
Qed.

Lemma resolve_ok token st id :
  registry_signed st -> resolve token st = Some id -> identity_ok id.
Proof.
  intros He%registry_signed_ok. unfold resolve. destruct (_ =? _); [done|]. intros Hr. apply fmap_Some in Hr as (e & Hl & ->).
  exact (proj1 (Forall_lookup _ _) He _ _ Hl).
Qed.

(** The shared stores meet the contracts and keep the invariant. *)
Lemma enclave_answers_ok : answers_ok limiter call_pre call_post enclave_inv.
Proof.
  intros o X c st Ho [Hreg Hcache] Hpre. destruct c; cbn [answer call_post call_pre fst snd] in *;
    try (split; [done|split; done]).
  - destruct (resolve token (en_registry st)) eqn:E; [|done]. split; [|done]. split; [by eapply resolve_ok|eauto].
  - split; [|done]. destruct (refresh_check _ _ _ _ _) as [[n es]|] eqn:E; [|done].
    apply refresh_check_signed in E as (_ & _ & vk & sig & ? & ? & ? & ?). destruct Hpre as [ct Hct].
    by exists vk, n, sig, entries_json, ct.
  - destruct (refresh_commit _ _ _ _) as [x r] eqn:E. split; [done|]. split; [|done]. cbn [snd set_registry en_registry].
    destruct x as [v|e]; [|by apply commit_err_inv in E as ->].
    apply commit_ok_inv in E as (_ & _ & Hver & Hent & _). right. exists entries. by rewrite Hver.
  - destruct (check _ _ _ _). done.
  - destruct (cache_get _ _ _) as [x c] eqn:E. apply cache_get_provenance in E as [Hx Hc]; [|done].
    split; [done|]. split; [done|]. exact Hc.
  - split; [done|]. split; [done|]. cbn [set_cache en_cache]. by apply cache_put_provenance.
  - destruct (pin_step _ _). done.
  - destruct (enforce_agent_intent_order _ _ _ _ _ _ _ _) as [x l] eqn:E. cbn [fst snd].
    split; [exists (en_ledger st); by rewrite E|done].
  - destruct (enforce_agent_intent_cancel _ _ _ _ _ _ _ _) as [x l] eqn:E. cbn [fst snd].
    split; [exists (en_ledger st); by rewrite E|done].
  - destruct (issue_locked _ _ _ _). done.
  - destruct (kms_decrypt _ _ _ _) eqn:E; [|done]. split; [by exists (o_now o), creds|done].
  - destruct (kms_wrap _ _ _ _ _) eqn:E; [|done]. split; [by exists (o_now o)|done].
  - split; [apply Ho|done].
  - split; [apply Ho|done].
Qed.

Abbreviation W := (wp call_pre call_post).

(** ** Loading a blob *)

(** KMS released this very DEK for another (wrapped key, context) whose cache
    key is the one of [w] under [ctx]: a SHA-256 collision between the two. *)
Definition cache_key_clash (w : string) (ctx : Context_) (dek : string) : Prop :=
  exists w' id' venue', let ctx' := encryption_context id' venue' in
    kms_released w' ctx' dek /\ key_preimage w' (Some ctx') <> key_preimage w (Some ctx) /\
    derive_key w' (Some ctx') = derive_key w (Some ctx).

(** The plaintext was released for this tenant and venue: by KMS under their
    context, or by AES-GCM under their sealed identity with a DEK KMS released
    under their context. *)
Definition opened (req : SignRequest) (identity : ResolvedIdentity) (venue plaintext : string) : Prop :=
  let ctx := encryption_context identity venue in
  exists b64 raw, r_ciphertext_blob_base64 req = Some b64 /\ b64_decode b64 = Some raw /\
    ((is_envelope raw = false /\ kms_released raw ctx plaintext) \/
     exists env wrapped dek, parse_envelope raw = Ok env /\ b64_decode (env_wrapped_dek env) = Some wrapped /\
       decrypt_with_dek dek env (sealed_aad identity venue KEY_VERSION) = Ok plaintext /\
       (kms_released wrapped ctx dek \/ cache_key_clash wrapped ctx dek)).

Lemma granted_safe identity venue :
  identity_ok identity -> venue_allowed identity venue = true ->
  is_safe_id (id_customer_id identity) = true /\ venue_ok (id_customer_id identity) venue.
Proof.
  intros [Hc Hv] Ha. split; [done|]. unfold venue_allowed in Ha. apply existsb_exists in Ha as (v & Hin & He).
  apply bool_decide_eq_true in He as <-. apply (proj1 (Forall_forall _ _) Hv). by apply list_elem_of_In.
Qed.

Lemma context_eq id id' venue :
  id_customer_id id = id_customer_id id' -> encryption_context id venue = encryption_context id' venue.
Proof. intros He. unfold encryption_context. by rewrite He. Qed.

(** A cached DEK is this tenant's, or the cache key has a clash. *)
Lemma provenance_for identity venue w dek :
  identity_ok identity -> venue_allowed identity venue = true -> Z.of_nat (String.length w) < 2 ^ 64 ->
  let ctx := encryption_context identity venue in
  dek_provenance (derive_key w (Some ctx)) dek -> kms_released w ctx dek \/ cache_key_clash w ctx dek.
Proof.
  intros Hid Hv Hw ctx (w' & id' & venue' & Hw' & Hc' & Hv' & Hk & Hr).
  destruct (granted_safe _ _ Hid Hv) as [Hc [Hs _]].
  destruct (decide (key_preimage w' (Some (encryption_context id' venue')) = key_preimage w (Some ctx))) as [He|Hne].
  - left. apply dek_key_preimage_injective_spec in He as (<- & Hcust & <-); [|done..].
    unfold ctx. by rewrite <- (context_eq id' identity).
  - right. by exists w', id', venue'.
Qed.

Definition whenever {E A} (P : A -> Prop) (r : result E A) : Prop := match r with Ok a => P a | Err _ => True end.

Lemma wp_kms creds ct ctx : W (kms_decrypt_call creds ct ctx) (whenever (kms_released ct ctx)).
Proof. apply wp_call; [done|]. intros [pt|e] Hx; done. Qed.

Lemma wp_obtain_dek creds w key ctx :
  W (obtain_dek creds w key ctx)
    (whenever (fun p : string * bool => if snd p then kms_released w ctx (fst p) else dek_provenance key (fst p))).
Proof.
  apply wp_call; [done|]. intros [dek|] Hx; [done|]. apply wp_bind. eapply wp_mono; [apply wp_kms|].
  intros [dek|e] Hr; done.
Qed.

Lemma wp_load_secret_for req identity venue :
  identity_ok identity -> venue_allowed identity venue = true ->
  W (load_secret_for req identity venue) (whenever (opened req identity venue)).
Proof.
  intros Hid Hv. unfold load_secret_for. apply wp_on_ok; [done|]. intros creds _.
  apply wp_on_ok; [done|]. intros b64 Hb%ok_or_inv. destruct (is_empty b64 || _); [done|].
  apply wp_on_ok; [done|]. intros raw Hraw%ok_or_inv. destruct (is_empty raw || _) eqn:Hsize; [done|].
  destruct (is_envelope raw) eqn:Henv.
  2:{ eapply wp_mono; [apply wp_kms|]. intros [pt|] Hpt; [|done]. exists b64, raw. auto. }
  apply wp_on_ok; [done|]. intros env Hp. destruct (parse_envelope raw) as [env'|] eqn:Epe; [|done].
  injection Hp as ->. apply wp_on_ok; [done|]. intros w Hw%ok_or_inv.
  assert (Z.of_nat (String.length w) < 2 ^ 64) as Hlen.
  { apply orb_false_iff in Hsize as [_ Hs]. apply Nat.ltb_ge in Hs. apply b64_decode_shrinks in Hw.
    unfold parse_envelope in Epe. apply bind_ok_inv in Epe as (env' & Hes%ok_or_inv & Hve).
    destruct (_ =? _); [|done]. injection Hve as ->. apply envelope_shrinks in Hes.
    unfold MAX_CIPHERTEXT_BYTES in Hs. lia. }
  apply wp_bind. eapply wp_mono; [apply wp_obtain_dek|]. intros [[dek fresh]|] Hdek; [|done].
  cbn [on_ok]. apply wp_on_ok; [done|]. intros pt Hpt. destruct (decrypt_with_dek _ _ _) as [pt'|] eqn:Ed; [|done].
  injection Hpt as ->. cbn [whenever fst snd] in Hdek.
  destruct (granted_safe _ _ Hid Hv) as [Hc [Hs _]].
  assert (opened req identity venue pt) as Hopen.
  { exists b64, raw. split; [done|]. split; [done|]. right. exists env, w, dek. do 3 (split; [done|]).
    destruct fresh; [by left|]. by apply provenance_for. }
  destruct fresh; [|exact Hopen]. apply wp_call; [|intros [] _; exact Hopen].
  exists w, identity, venue. auto.
Qed.

(** What a loaded policy and secret come with. *)
Record blob_ok (req : SignRequest) (identity : ResolvedIdentity) (venue : string) (policy : option Policy) (secret : json)
    : Prop := {
  bo_venue : venue_for_action (r_action req) = Some venue;
  bo_granted : venue_allowed identity venue = true;
  bo_owner : venue_ok (id_customer_id identity) venue;
  bo_opened : exists plaintext, opened req identity venue plaintext /\
    from_plaintext plaintext = Some (match policy with Some p => WithPolicy p secret | None => Legacy secret end);
  bo_floor : blob_floor_strict policy_required venue = true ->
    exists p, policy = Some p /\
      (is_money_venue venue = true ->
       verify_policy_authority p (id_customer_id identity) venue = Ok () /\ rot3_binding_cap_present venue p = true)
}.

Lemma wp_tofu key policy (Q : result LoadSecretError () -> Prop) : (forall r, Q r) -> W (tofu_check key policy) Q.
Proof.
  intros HQ. unfold tofu_check. destruct (p_signer_pubkey policy), (p_policy_signature policy); try apply HQ.
  - apply wp_on_ok; [auto|]. intros canonical _. apply wp_call; [done|]. intros r _. apply HQ.
  - apply wp_call; [done|]. intros r _. apply HQ.
Qed.

Lemma wp_load_and_parse req identity :
  identity_ok identity ->
  W (load_and_parse_blob req identity)
    (whenever (fun ps : option Policy * json => exists venue, blob_ok req identity venue (fst ps) (snd ps))).
Proof.
  intros Hid. unfold load_and_parse_blob. apply wp_on_ok; [done|]. intros venue Hvenue%ok_or_inv.
  apply wp_on_ok; [done|]. intros [] Hauth. unfold authorize_venue in Hauth.
  destruct (venue_allowed identity venue) eqn:Hv; [|done].
  destruct (granted_safe _ _ Hid Hv) as [_ Hown].
  apply wp_bind. eapply wp_mono; [by apply wp_load_secret_for|]. intros [pt|] Hpt; [|done]. cbn [on_ok whenever] in *.
  apply wp_on_ok; [done|]. intros parsed Hparsed%ok_or_inv. destruct parsed as [policy secret|v].
  - destruct (blob_floor_strict policy_required venue) eqn:Hstrict; cbn [andb].
    + destruct (is_money_venue venue) eqn:Hmoney.
      * apply wp_on_ok; [done|]. intros [] Hpa. destruct (rot3_uncapped_money_key_rejected true venue policy) eqn:Hr; [done|].
        exists venue. split; [done..|by exists pt; split; [exact Hpt|exact Hparsed]|]. intros _. exists policy. split; [done|]. intros _. split; [done|].
        unfold rot3_uncapped_money_key_rejected in Hr. rewrite Hmoney in Hr. by apply negb_false_iff in Hr.
      * apply wp_bind, wp_tofu. intros [[]|]; [|done]. exists venue. split; [done..|by exists pt; split; [exact Hpt|exact Hparsed]|].
        intros _. exists policy. split; [done|congruence].
    + apply wp_bind, wp_tofu. intros [[]|]; [|done]. exists venue. split; [done..|by exists pt; split; [exact Hpt|exact Hparsed]|]. congruence.
  - destruct (blob_floor_strict policy_required venue) eqn:Hstrict; [done|].
    exists venue. split; [done..|by exists pt; split; [exact Hpt|exact Hparsed]|]. congruence.
Qed.

(** ** Handlers *)

(** The answer satisfies [R], or the request is refused. *)
Definition answered {A} (R : A -> Prop) (r : result SignResponse A) : Prop :=
  match r with Ok a => R a | Err resp => refused resp end.

Lemma wp_check {A B} (r : result SignResponse A) `{!Refuses r} (k : A -> prog (result SignResponse B)) (R : B -> Prop) :
  (forall a, r = Ok a -> W (k a) (answered R)) -> W (on_ok r k) (answered R).
Proof. intros Hk. apply wp_on_ok; [|done]. intros resp Hr. by apply (refuses (r := r)). Qed.

Lemma wp_with_blob {A} req identity (k : option Policy -> json -> option string -> prog (result SignResponse A))
    (R : A -> Prop) :
  identity_ok identity ->
  (forall venue policy secret h, blob_ok req identity venue policy secret -> enforce_policy policy req = Ok h ->
     W (k policy secret h) (answered R)) ->
  W (with_blob req identity k) (answered R).
Proof.
  intros Hid Hk. unfold with_blob. apply wp_bind. eapply wp_mono; [by apply wp_load_and_parse|].
  intros [[policy secret]|e] Hr; [|apply refused_err]. destruct Hr as (venue & Hb). cbn [map_err on_ok fst snd] in *.
  apply wp_check; [apply _|]. eauto.
Qed.

(** The request as the policy sees it: [sign_binance_request] derives its route
    from the operation. *)
Definition policy_view (req : SignRequest) : SignRequest :=
  if decide (r_action req = "sign_binance_request") then
    match r_op req ≫= binance_request_method_path with
    | Some (method, path) => with_route method path req
    | None => req
    end
  else req.

(** A granted venue, a blob released for this tenant, and a policy that
    permits the request. *)
Definition authority (req : SignRequest) (identity : ResolvedIdentity) : Prop :=
  exists venue policy secret h, blob_ok (policy_view req) identity venue policy secret /\
    enforce_policy policy (policy_view req) = Ok h.

Definition signing_actions : list string :=
  ["sign_kucoin"; "sign_binance"; "sign_binance_request"; "sign_bybit"; "sign_okx"; "sign_hyperliquid_main_order";
   "sign_hyperliquid_main_cancel"; "sign_hyperliquid_testnet_order"; "sign_hyperliquid_testnet_cancel";
   "sign_asterdex"; "sign_data"; "sign_x402_eip3009"; "sign_permit2_permit_single"; "sign_binance_order";
   "sign_binance_cancel"; "sign_okx_order"; "sign_okx_cancel"].

(** Walk a handler: checks refuse, calls are answered. *)
Ltac walk :=
  repeat first
    [ match goal with
      | |- wp _ _ (match ?p with (_, _) => _ end) _ => is_var p; destruct p
      | Hx : call_post _ (IntentOrder _ _ _ _ _ _ _) _ |- _ => destruct Hx as [? ->]
      | Hx : call_post _ (IntentCancel _ _ _ _ _ _ _) _ |- _ => destruct Hx as [? ->]
      end
    | apply wp_check; [apply _|intros ? ?]
    | apply wp_call; [exact I|intros ? ?] ].

Ltac unfold_handler :=
  unfold handle_sign_kucoin, handle_sign_binance, handle_sign_bybit, handle_sign_okx, handle_sign_asterdex,
    handle_sign_data, handle_sign_x402_eip3009, handle_sign_permit2_permit_single, handle_sign_binance_order,
    handle_sign_binance_cancel, handle_sign_okx_order, handle_sign_okx_cancel, handle_sign_binance_request,
    handle_sign_hyperliquid_main_order, handle_sign_hyperliquid_main_cancel, handle_sign_hyperliquid_testnet_order,
    handle_sign_hyperliquid_testnet_cancel.

(** Walk to the blob, then to the answer. *)
Ltac walk_blob Hid :=
  walk; apply wp_with_blob; [exact Hid|]; intros venue policy secret h Hblob Hpolicy; walk.

Lemma wp_authority_plain req identity :
  identity_ok identity -> r_action req <> "sign_binance_request" ->
  Forall (fun handler : SignRequest -> ResolvedIdentity -> prog (result SignResponse SignResponse) =>
            W (handler req identity) (answered (fun _ => authority req identity)))
    [handle_sign_kucoin; handle_sign_binance; handle_sign_bybit; handle_sign_okx; handle_sign_asterdex;
     handle_sign_data; handle_sign_x402_eip3009; handle_sign_permit2_permit_single; handle_sign_binance_order;
     handle_sign_binance_cancel; handle_sign_okx_order; handle_sign_okx_cancel].
Proof.
  intros Hid Hne.
  assert (forall venue policy secret h, blob_ok req identity venue policy secret -> enforce_policy policy req = Ok h ->
            authority req identity) as Hauth.
  { intros venue policy secret h Hb Hp. unfold authority, policy_view. rewrite decide_False by done. eauto 10. }
  repeat (apply Forall_cons; split; [|]); try apply Forall_nil_2.
  all: unfold_handler; walk_blob Hid; cbn [wp answered]; eauto.
Qed.

Lemma wp_binance_request req identity :
  identity_ok identity -> r_action req = "sign_binance_request" ->
  W (handle_sign_binance_request req identity) (answered (fun _ => authority req identity)).
Proof.
  intros Hid Ha. unfold_handler. walk.
  match goal with Hop : need (r_op req) = Ok ?op, Hroute : ok_or (binance_request_method_path ?op) _ = Ok (?m, ?p) |- _ =>
    apply ok_or_inv in Hop, Hroute; assert (policy_view req = with_route m p req) as Hview
      by (unfold policy_view; rewrite decide_True by done; rewrite Hop; cbn [mbind option_bind]; by rewrite Hroute) end.
  apply wp_with_blob; [exact Hid|]. intros venue policy secret h Hblob Hpolicy. walk. cbn [wp answered].
  unfold authority. rewrite Hview. eauto 10.
Qed.

Lemma map_err_ok {E F A} (f : E -> F) (r : result E A) a : map_err f r = Ok a -> r = Ok a.
Proof. destruct r; cbn; congruence. Qed.

Lemma open_secret_ok {A} h (of_json : json -> option A) complete v s :
  open_secret h of_json complete v = Ok s -> of_json v = Some s.
Proof.
  unfold open_secret, secret_or. intros Ho. apply bind_ok_inv in Ho as (s' & Hs%ok_or_inv & Ho).
  apply bind_ok_inv in Ho as ([] & _ & Ho). by injection Ho as <-.
Qed.

Lemma open_key_ok h k a pk derived :
  open_key h k a = Ok (pk, derived) ->
  parse_evm_private_key k = Ok pk /\ derive_address_from_private_key pk = Ok derived /\ parse_evm_address a = Ok derived.
Proof.
  unfold open_key, check_under. intros Ho. apply bind_ok_inv in Ho as (pk' & H1' & Ho).
  apply bind_ok_inv in Ho as (d & H2' & Ho). apply bind_ok_inv in Ho as (c & H3' & Ho).
  apply bind_ok_inv in Ho as ([] & H4' & Ho). injection Ho as -> ->. apply map_err_ok in H1', H2', H3'.
  destruct (bool_decide (derived = c)) eqn:E; [|done]. apply bool_decide_eq_true in E as ->. done.
Qed.

Lemma guard_bad_ok b u : guard_bad b = Ok u -> b = true.
Proof. by destruct b. Qed.
Lemma check_under_ok h code b u : check_under h code b = Ok u -> b = true.
Proof. by destruct b. Qed.

(** Read off what the passed checks of a walked handler say. *)
Ltac checks :=
  repeat match goal with
  | Hc : need _ = Ok _ |- _ => apply ok_or_inv in Hc
  | Hc : map_err _ _ = Ok _ |- _ => apply map_err_ok in Hc
  | Hc : parsed_under _ _ = Ok _ |- _ => apply map_err_ok in Hc
  | Hc : open_secret _ _ _ _ = Ok _ |- _ => apply open_secret_ok in Hc
  | u : () |- _ => destruct u
  end.

(** The private key sealed in a Hyperliquid blob, next to the address it
    derives. *)
Definition hl_key (secret : json) (pk : string) : Prop :=
  exists s addr, hyperliquid_of_json secret = Some s /\ parse_evm_private_key (hl_private_key s) = Ok pk /\
    derive_address_from_private_key pk = Ok addr /\ parse_evm_address (hl_wallet_address s) = Ok addr.

(** The same for the EVM venues that share the asterdex blob. *)
Definition evm_key (secret : json) (pk addr : string) : Prop :=
  exists s, asterdex_of_json secret = Some s /\ parse_evm_private_key (as_private_key s) = Ok pk /\
    derive_address_from_private_key pk = Ok addr /\ parse_evm_address (as_signer_address s) = Ok addr.

(** What a loaded Hyperliquid request was checked against. *)
Definition hl_checked (req : SignRequest) (identity : ResolvedIdentity) (action : json) (nonce : Z)
    (vault h : option string) (pk : string) : Prop :=
  r_hl_action req = Some action /\ r_nonce req = Some nonce /\
  (forall v, vault = Some v -> exists s, r_vault_address req = Some s /\ parse_evm_address s = Ok v) /\
  (vault = None -> r_vault_address req = None \/ r_vault_address req = Some "") /\
  exists venue policy secret, blob_ok req identity venue policy secret /\ enforce_policy policy req = Ok h /\
    enforce_hl_caps policy action vault = Ok () /\ hl_key secret pk.

Lemma wp_load_hyperliquid req identity :
  identity_ok identity ->
  W (load_hyperliquid_request req identity)
    (answered (fun t => let '(s, action, nonce, vault, h) := t in
      exists pk, parse_evm_private_key (hl_private_key s) = Ok pk /\ hl_checked req identity action nonce vault h pk)).
Proof.
  intros Hid. unfold load_hyperliquid_request. apply wp_check; [apply _|]. intros action Ha%ok_or_inv.
  apply wp_check; [apply _|]. intros nonce Hn%ok_or_inv. apply wp_on_ok.
  { intros resp. destruct (r_vault_address req) as [v|]; [|done]. destruct (is_empty v); [done|].
    destruct (parse_evm_address v); [done|]. intros [= <-]. apply refused_err. }
  intros vault Hv. apply wp_with_blob; [exact Hid|]. intros venue policy secret h Hblob Hpolicy. walk. cbn [wp answered].
  match goal with Hk : open_key _ _ _ = Ok ?x |- _ => destruct x; apply open_key_ok in Hk as (Hpk & Hder & Haddr) end.
  checks. eexists. split; [exact Hpk|]. split; [done|]. split; [done|].
  assert ((forall v, vault = Some v -> exists s, r_vault_address req = Some s /\ parse_evm_address s = Ok v) /\
          (vault = None -> r_vault_address req = None \/ r_vault_address req = Some "")) as [Hv1 Hv2].
  { destruct (r_vault_address req) as [v|]; [|injection Hv as <-; split; [done|auto]].
    destruct (is_empty v) eqn:Ee; [injection Hv as <-; split; [done|]; intros _; right; by destruct v|].
    destruct (parse_evm_address v) eqn:Ep; [|done]. injection Hv as <-. split; [|done]. intros v' [= <-]. eauto. }
  split; [done|]. split; [done|]. exists venue, policy, secret. do 3 (split; [done|]).
  by do 2 eexists.
Qed.

Definition hl_signed (source : string) (req : SignRequest) (identity : ResolvedIdentity) (resp : SignResponse) : Prop :=
  exists action nonce vault h pk sig, hl_checked req identity action nonce vault h pk /\
    sign_hyperliquid pk action nonce vault source = Ok sig /\
    resp = with_policy_hash h (ok_hl_signature sig).

Lemma wp_sign_hyperliquid source req identity :
  identity_ok identity -> W (sign_hyperliquid_as source req identity) (answered (hl_signed source req identity)).
Proof.
  intros Hid. unfold sign_hyperliquid_as. apply wp_bind. eapply wp_mono; [by apply wp_load_hyperliquid|].
  intros [[[[[s action] nonce] vault] h]|resp] Ht; [|exact Ht]. cbn [on_ok answered] in *.
  destruct Ht as (pk & Hpk & Ht). rewrite Hpk. cbn [map_err on_ok].
  apply wp_check; [apply _|]. intros sig Hsig%map_err_ok. cbn. exists action, nonce, vault, h, pk, sig. done.
Qed.

Lemma hl_authority source req identity resp :
  r_action req <> "sign_binance_request" -> hl_signed source req identity resp -> authority req identity.
Proof.
  intros Hne (action & nonce & vault & h & pk & sig & (_ & _ & _ & _ & venue & policy & secret & Hb & Hp & _ & _) & _).
  unfold authority, policy_view. rewrite decide_False by done. eauto 10.
Qed.

Lemma wp_hl_handlers req identity :
  identity_ok identity -> r_action req <> "sign_binance_request" ->
  Forall (fun handler : SignRequest -> ResolvedIdentity -> prog (result SignResponse SignResponse) =>
            W (handler req identity) (answered (fun _ => authority req identity)))
    [handle_sign_hyperliquid_main_order; handle_sign_hyperliquid_main_cancel;
     handle_sign_hyperliquid_testnet_order; handle_sign_hyperliquid_testnet_cancel].
Proof.
  intros Hid Hne. repeat (apply Forall_cons; split; [|]); try apply Forall_nil_2.
  all: unfold_handler; walk; eapply wp_mono; [by apply wp_sign_hyperliquid|]; intros [resp|resp] Hr; [|exact Hr];
    by eapply hl_authority.
Qed.

(** The action picks the handler. *)
Lemma wp_dispatch_authority req identity :
  identity_ok identity -> r_action req ∈ signing_actions ->
  W (dispatch req identity) (answered (fun _ => authority req identity)).
Proof.
  intros Hid Ha.
  pose proof (wp_authority_plain req identity Hid) as Hplain. pose proof (wp_hl_handlers req identity Hid) as Hhl.
  pose proof (wp_binance_request req identity Hid) as Hreq.
  assert (forall a h, r_action req = a -> a <> "sign_binance_request" -> dispatch req identity = h req identity ->
    (h ∈ [handle_sign_kucoin; handle_sign_binance; handle_sign_bybit; handle_sign_okx; handle_sign_asterdex;
     handle_sign_data; handle_sign_x402_eip3009; handle_sign_permit2_permit_single; handle_sign_binance_order;
     handle_sign_binance_cancel; handle_sign_okx_order; handle_sign_okx_cancel] \/
     h ∈ [handle_sign_hyperliquid_main_order; handle_sign_hyperliquid_main_cancel;
     handle_sign_hyperliquid_testnet_order; handle_sign_hyperliquid_testnet_cancel]) ->
    W (dispatch req identity) (answered (fun _ => authority req identity))) as Hpick.
  { intros a h Hact Hne Hd Hin. rewrite Hd. rewrite <- Hact in Hne. specialize (Hplain Hne). specialize (Hhl Hne).
    destruct Hin as [Hin|Hin]; [apply (proj1 (Forall_forall _ _) Hplain _ Hin)|apply (proj1 (Forall_forall _ _) Hhl _ Hin)]. }
  unfold signing_actions in Ha.
  repeat (apply elem_of_cons in Ha as [Ha|Ha];
    [first [eapply (Hpick _ _ Ha); [done|unfold dispatch; rewrite Ha; reflexivity|first [left; in_list|right; in_list]]
           |unfold dispatch; rewrite Ha; exact (Hreq Ha)]|]).
  by apply elem_of_nil in Ha.
Qed.

(** ** Every request keeps the contracts *)

Lemma wp_true {A} (p : prog A) Q : W p Q -> W p (fun _ => True).
Proof. intros Hp. by eapply wp_mono. Qed.

Lemma wp_respond (p : prog (result SignResponse SignResponse)) (R Q : SignResponse -> Prop) :
  W p (answered R) -> (forall resp, R resp -> Q resp) -> (forall resp, refused resp -> Q resp) -> W (respond p) Q.
Proof. intros Hp HR He. apply wp_bind. eapply wp_mono; [exact Hp|]. intros [resp|resp]; cbn; auto. Qed.

Lemma wp_refresh req : W (handle_registry_refresh req) (answered (fun _ => True)).
Proof.
  unfold handle_registry_refresh. walk. apply wp_call.
  { match goal with Hc : call_post _ (KmsDecrypt _ ?ct _) ?x, He : map_err _ ?x = Ok _ |- _ =>
      destruct x; [injection He as ->; by exists ct|done] end. }
  intros checked Hchecked. walk.
  match goal with Hc : call_post _ (RefreshCheck _ _ _ _) ?x, He : map_err _ ?x = Ok _ |- _ =>
    destruct x as [[n es]|]; [injection He as -> ->|done]; apply wp_call; [exact Hc|] end.
  intros installed _. walk. done.
Qed.

Lemma wp_bypass req p : bypass req = Some p -> W p (fun _ => True).
Proof.
  unfold bypass. intros Hb.
  assert (forall q, W q (answered (fun _ => True)) -> W (respond q) (fun _ => True)) as Hresp.
  { intros q Hq. by eapply wp_respond. }
  assert (forall l, Forall (fun e => W (snd e) (fun _ => True)) l -> assoc (r_action req) l = Some p ->
    W p (fun _ => True)) as Hassoc.
  { intros l Hl. induction Hl as [|[a q] l Hq _ IH]; cbn [assoc]; [done|]. case_decide; [by intros [= ->]|done]. }
  eapply Hassoc; [|exact Hb]. repeat (apply Forall_cons; split; [|]); try apply Forall_nil_2; cbn [snd].
  - done.
  - unfold handle_registry_challenge. by apply wp_call.
  - apply Hresp, wp_refresh.
  - apply Hresp. unfold handle_provision_data_key, non_empty_field. walk. done.
  - apply Hresp. unfold handle_provision_agent_key, non_empty_field, agent_policy_allowed, bad_request. walk. done.
  - apply Hresp. unfold handle_attestation. walk. done.
Qed.

Lemma wp_verify_blob req identity : identity_ok identity -> W (handle_verify_blob req identity) (answered (fun _ => True)).
Proof.
  intros Hid. unfold handle_verify_blob. apply wp_check; [apply _|]. intros [] Ha.
  assert (venue_allowed identity (default "" (r_path req)) = true) as Hv.
  { unfold authorize_venue in Ha. by destruct (venue_allowed _ _). }
  apply wp_bind. eapply wp_mono; [by apply wp_load_secret_for|]. intros loaded _. walk. done.
Qed.

Lemma wp_heartbeat req identity : W (handle_receipt_heartbeat req identity) (answered (fun _ => True)).
Proof.
  unfold handle_receipt_heartbeat, issue_heartbeat_prog. walk. apply wp_bind.
  apply wp_on_ok; [intros; walk; done|]. intros pk _. apply wp_on_ok; [intros; walk; done|]. intros hash _.
  apply wp_call; [done|]. intros seq _. apply wp_call; [done|]. intros version _. cbn [wp]. walk. done.
Qed.

Lemma wp_dispatch req identity : identity_ok identity -> W (dispatch req identity) (answered (fun _ => True)).
Proof.
  intros Hid. destruct (decide (r_action req ∈ signing_actions)) as [Ha|Hn].
  { eapply wp_mono; [by apply wp_dispatch_authority|]. by intros []. }
  destruct (decide (r_action req = "receipt_heartbeat")) as [Ha|Hn1].
  { unfold dispatch. rewrite Ha. apply wp_heartbeat. }
  destruct (decide (r_action req = "verify_blob")) as [Ha|Hn2].
  { unfold dispatch. rewrite Ha. by apply wp_verify_blob. }
  unfold dispatch, signing_actions in *. set_unfold in Hn. cbn [assoc].
  repeat (rewrite decide_False by (intros E; symmetry in E; tauto)). apply refused_err.
Qed.

(** A response is the handler's, perhaps with a receipt. *)
Definition receipted (resp0 resp : SignResponse) : Prop := resp = resp0 \/ exists r, resp = with_receipt r resp0.

Lemma wp_attach pre resp0 : W (attach_prog pre resp0) (receipted resp0).
Proof.
  unfold attach_prog. destruct (negb _); [by left|]. apply wp_call; [done|]. intros [pk|] _; [|by left].
  apply wp_call; [done|]. intros [r|] _; [right; eauto|by left].
Qed.

Lemma receipted_error resp0 resp : receipted resp0 resp -> s_error resp = s_error resp0.
Proof. by intros [->|[r ->]]. Qed.

(** A tenant the registry resolved from the request's token, let through by
    its mode. *)
Definition admitted (req : SignRequest) (identity : ResolvedIdentity) : Prop :=
  identity_ok identity /\ tenant_mode_gate identity req = Ok () /\
  exists token reg, r_opaque_token req = Some token /\ registry_signed reg /\ resolve token reg = Some identity.

(** Orders, transfers and allowances are for active tenants only. *)
Lemma admitted_active req identity : admitted req identity -> r_action req ∈ exposure_actions -> id_mode identity = Active.
Proof.
  intros (_ & Hm & _) Ha. unfold tenant_mode_gate in Hm. destruct (id_mode identity); [done|exfalso..]; unfold exposure_actions in Ha;
    repeat (apply elem_of_cons in Ha as [Ha|Ha]; [rewrite Ha in Hm; vm_compute in Hm; discriminate Hm|]); by apply elem_of_nil in Ha.
Qed.

Lemma wp_handle req (R : ResolvedIdentity -> SignResponse -> Prop) :
  (forall identity, identity_ok identity -> W (dispatch req identity) (answered (R identity))) ->
  W (handle req) (fun resp => bypass req = None -> s_error resp = None ->
    exists identity resp0, admitted req identity /\ R identity resp0 /\ receipted resp0 resp).
Proof.
  intros Hd. unfold handle. destruct (bypass req) as [p|] eqn:Hb.
  { eapply wp_mono; [by eapply wp_bypass|]. done. }
  destruct (_ <? _); [done|]. apply wp_bind.
  assert (W (match r_opaque_token req with Some token => perform (Resolve token) | None => Ret None end)
    (fun x => match x with
      | Some id => identity_ok id /\ exists token reg, r_opaque_token req = Some token /\ registry_signed reg /\
          resolve token reg = Some id
      | None => True end)) as Hres.
  { destruct (r_opaque_token req) as [token|]; [|done]. apply wp_perform; [done|]. intros [id|] Hx; [|done].
    destruct Hx as [Hid (reg & Hsig & Hr)]. split; [done|]. by exists token, reg. }
  eapply wp_mono; [exact Hres|]. intros tenant Ht. apply wp_call; [done|]. intros allowed _.
  destruct (negb allowed); [done|]. destruct tenant as [id|]; [|done]. destruct Ht as [Hid Htok].
  destruct (tenant_mode_gate id req) as [[]|resp0] eqn:Hm.
  - apply wp_bind. eapply (wp_respond _ (R id)); [by apply Hd| |].
    + intros resp0 HR. eapply wp_mono; [apply wp_attach|]. intros resp Hresp _ _. exists id, resp0. split; [split; [done|by split]|done].
    + intros resp0 He. eapply wp_mono; [apply wp_attach|]. intros resp Hresp _ Herr.
      rewrite (receipted_error _ _ Hresp) in Herr. unfold refused in He. rewrite Herr in He. by destruct He.
  - eapply wp_mono; [apply wp_attach|]. intros resp Hresp _ Herr. rewrite (receipted_error _ _ Hresp) in Herr.
    apply refuses in Hm. unfold refused in Hm. rewrite Herr in Hm. by destruct Hm.
Qed.

(** ** Every interleaving *)

Definition reachable (ttl max : Z) (cf : Config) : Prop :=
  rtc (cstep limiter handle) {| cf_state := enclave_boot ttl max; cf_threads := [] |} cf.

Lemma boot_inv ttl max : enclave_inv (enclave_boot ttl max).
Proof. split; [by left|]. intros key e He. cbn in He. by rewrite lookup_empty in He. Qed.

(** Whatever [dispatch] guarantees of the actions in [P], every finished
    request of every interleaving has. *)
Lemma reachable_answers (P : string -> Prop) `{!forall a, Decision (P a)}
    (R : SignRequest -> ResolvedIdentity -> SignResponse -> Prop) ttl max cf req resp :
  (forall req identity, P (r_action req) -> identity_ok identity -> W (dispatch req identity) (answered (R req identity))) ->
  reachable ttl max cf -> (req, Ret resp) ∈ cf_threads cf ->
  P (r_action req) -> bypass req = None -> s_error resp = None ->
  exists identity resp0, admitted req identity /\ R req identity resp0 /\ receipted resp0 resp.
Proof.
  intros Hd Hr Hin HP Hb Herr.
  eapply (interleaving_sound limiter handle call_pre call_post enclave_inv
    (fun req resp => P (r_action req) -> bypass req = None -> s_error resp = None ->
      exists identity resp0, admitted req identity /\ R req identity resp0 /\ receipted resp0 resp)) in Hr as [_ Hq].
  - by apply Hq.
  - apply enclave_answers_ok.
  - intros req'. destruct (decide (P (r_action req'))) as [HP'|HP'].
    + eapply wp_mono; [apply (wp_handle req' (R req')); eauto|]. auto.
    + eapply wp_mono; [apply (wp_handle req' (fun _ _ => True)); intros; by apply wp_dispatch|]. done.
  - apply boot_inv.
Qed.

Lemma signing_not_bypassed req : r_action req ∈ signing_actions -> bypass req = None.
Proof.
  intros Ha. unfold bypass, signing_actions in *.
  repeat (apply elem_of_cons in Ha as [Ha|Ha]; [rewrite Ha; reflexivity|]). by apply elem_of_nil in Ha.
Qed.

(** C1: in every interleaving of concurrent requests since boot, a signing
    request is answered without an error only if its opaque token resolved to a
    tenant of a registry the control plane signed, the tenant's signed mode allows the action, the venue of
    the action is in the tenant's grant (and, if reserved, the tenant is its
    owner), the sealed blob was released for exactly this tenant and venue, the
    policy in the blob permits the request, and, where the floor is strict, the
    blob carries a policy, on money venues one signed by the baked authority for
    this tenant and venue with a binding cap. *)
Theorem signature_needs_authority ttl max cf req resp :
  reachable ttl max cf -> (req, Ret resp) ∈ cf_threads cf -> r_action req ∈ signing_actions -> s_error resp = None ->
  exists token reg identity venue policy secret h,
    r_opaque_token req = Some token /\ registry_signed reg /\ resolve token reg = Some identity /\
    tenant_mode_gate identity req = Ok () /\
    venue_for_action (r_action req) = Some venue /\ venue_allowed identity venue = true /\
    venue_ok (id_customer_id identity) venue /\
    (exists plaintext, opened req identity venue plaintext /\
       from_plaintext plaintext = Some (match policy with Some p => WithPolicy p secret | None => Legacy secret end)) /\
    enforce_policy policy (policy_view req) = Ok h /\
    (blob_floor_strict policy_required venue = true -> exists p, policy = Some p /\
       (is_money_venue venue = true ->
        verify_policy_authority p (id_customer_id identity) venue = Ok () /\ rot3_binding_cap_present venue p = true)).
Proof.
  intros Hr Hin Ha Herr.
  destruct (reachable_answers (fun a => a ∈ signing_actions) (fun req identity _ => authority req identity)
    ttl max cf req resp) as (identity & resp0 & (_ & Hm & token & reg & Ht & Hsig & Hres) & (venue & policy & secret & h & Hb & Hp) & _);
    [intros; by apply wp_dispatch_authority|done|done|done|by apply signing_not_bypassed|done|].
  destruct Hb as [Hb1 Hb2 Hb3 Hb4 Hb5]. exists token, reg, identity, venue, policy, secret, h.
  do 4 (split; [done|]). unfold policy_view in Hb1, Hb4.
  destruct (decide (r_action req = "sign_binance_request")); [|by repeat (split; [done|])].
  destruct (r_op req ≫= binance_request_method_path) as [[m p]|] eqn:E; by repeat (split; [done|]).
Qed.

(** ** Structured orders *)

Definition order_builder (action : string) : option (OrderRequest -> result string string) :=
  assoc action [("sign_binance_order", build_binance_order_query); ("sign_okx_order", build_okx_order_body)].

(** The venue's headers over the canonical body. *)
Definition order_headers_of (action : string) (secret : json) (ts : Z) (body : string) (hs : headers) : Prop :=
  if decide (action = "sign_binance_order") then
    exists s, binance_of_json secret = Some s /\ hs = compute_binance_headers (bn_secret s) (bn_key s) ts body ""
  else
    exists s, okx_of_json secret = Some s /\
      compute_okx_headers (ok_secret s) (ok_passphrase s) (ok_key s) ts "POST" "/api/v5/trade/order" body = Ok hs.

(** Where the policy names an intent key, its holder signed this very order. *)
Definition order_intended (policy : option Policy) (req : SignRequest) (identity : ResolvedIdentity) (venue : string)
    (ts : Z) (order : OrderRequest) : Prop :=
  forall pk, (policy ≫= p_intent_pubkey) = Some pk ->
    exists coid vk sig, o_client_order_id order = Some coid /\ decode_array 32 pk = Some vk /\
      ed25519_verify vk
        (build_agent_intent_msg_order (id_customer_id identity) venue (r_action req) ts coid order) sig = true.

Lemma intent_order_ok policy identity venue ts order req ledger :
  fst (enforce_agent_intent_order policy identity venue (r_action req) ts order req ledger) = Ok () ->
  order_intended policy req identity venue ts order.
Proof.
  unfold enforce_agent_intent_order. intros Hi pk Hpk. rewrite Hpk in Hi.
  destruct (o_client_order_id order) as [coid|]; [|done].
  destruct (verify_agent_intent _ _ _ _) as [r l] eqn:E. cbn [fst] in Hi. subst r.
  apply verify_agent_intent_ok in E as (vk & sig & ? & ? & _). by exists coid, vk, sig.
Qed.

Definition order_signed (req : SignRequest) (identity : ResolvedIdentity) (resp : SignResponse) : Prop :=
  exists venue policy secret h order ts build body hs,
    blob_ok req identity venue policy secret /\ enforce_policy policy req = Ok h /\
    r_order req = Some order /\ r_timestamp_ms req = Some ts /\
    within_order_cap policy (o_symbol order) (o_qty order) (o_price order) /\
    order_intended policy req identity venue ts order /\
    order_builder (r_action req) = Some build /\ build order = Ok body /\
    order_headers_of (r_action req) secret ts body hs /\
    resp = with_canonical_body body (with_policy_hash h (ok_headers hs)).

Lemma wp_structured_order req identity :
  r_action req ∈ ["sign_binance_order"; "sign_okx_order"] -> identity_ok identity ->
  W (dispatch req identity) (answered (order_signed req identity)).
Proof.
  intros Ha Hid.
  assert (forall venue policy secret v, blob_ok req identity venue policy secret ->
    venue_for_action (r_action req) = Some v -> venue = v) as Hvenue.
  { intros venue policy secret v [Hv _ _ _ _] Hv'. congruence. }
  apply elem_of_cons in Ha as [Ha|Ha]; [|apply list_elem_of_singleton in Ha].
  all: unfold dispatch; rewrite Ha; cbn [assoc]; unfold_handler; walk_blob Hid; checks; cbn [wp answered];
    (eassert (venue = _) as Hve by (eapply Hvenue; [exact Hblob|rewrite Ha; reflexivity])); subst venue;
    (unfold order_signed, order_headers_of; rewrite Ha);
    match goal with Hc : enforce_order_cap _ _ _ _ = Ok _ |- _ => apply enforce_order_cap_spec in Hc end.
  - do 9 eexists. do 5 (split; [eassumption|]). split.
    { rewrite <- Ha in *. eapply intent_order_ok. eassumption. }
    split; [reflexivity|]. split; [eassumption|].
    split; [|reflexivity]. eexists. split; [eassumption|reflexivity].
  - do 9 eexists. do 5 (split; [eassumption|]). split.
    { rewrite <- Ha in *. eapply intent_order_ok. eassumption. }
    split; [reflexivity|]. split; [eassumption|].
    split; [|reflexivity]. eexists. split; [eassumption|eassumption].
Qed.

(** C2: in every interleaving, a structured Binance or OKX order is signed
    only if the resolved, unhalted tenant's policy permits it, the quantity and
    the notional are within the policy's caps in exact decimal arithmetic, and
    the agent signed exactly this order where the policy asks for it; the
    response carries the canonical body built from that order and the venue
    headers over exactly that body. *)
Theorem order_signature_within_policy ttl max cf req resp :
  reachable ttl max cf -> (req, Ret resp) ∈ cf_threads cf ->
  r_action req ∈ ["sign_binance_order"; "sign_okx_order"] -> s_error resp = None ->
  exists identity resp0, admitted req identity /\ id_mode identity = Active /\ order_signed req identity resp0 /\
    receipted resp0 resp.
Proof.
  intros Hr Hin Ha Herr.
  destruct (reachable_answers (fun a => a ∈ ["sign_binance_order"; "sign_okx_order"]) order_signed ttl max cf req resp)
    as (identity & resp0 & Had & Ho & Hrec); [intros; by apply wp_structured_order|done|done|done| |done|].
  { apply signing_not_bypassed. unfold signing_actions. set_unfold. tauto. }
  exists identity, resp0. split; [done|]. split; [|done]. apply (admitted_active _ _ Had). unfold exposure_actions. set_unfold. tauto.
Qed.

(** ** x402 *)

Definition hex_header (sig_key sig who addr : string) : headers :=
  list_to_map [(sig_key, sig); (who, "0x" +:+ hex_encode addr)].

Definition x402_signed (req : SignRequest) (identity : ResolvedIdentity) (resp : SignResponse) : Prop :=
  exists venue policy secret h x pk token from to value nonce sig,
    blob_ok req identity venue policy secret /\ enforce_policy policy req = Ok h /\
    r_x402 req = Some x /\ x_valid_after x < x_valid_before x /\
    parse_evm_address (x_token_address x) = Ok token /\ parse_evm_address (x_from x) = Ok from /\
    parse_evm_address (x_to x) = Ok to /\ parse_u256_be_decimal (x_value x) = Ok value /\
    parse_bytes32_hex (x_nonce x) = Ok nonce /\
    within_x402 policy (x_chain_id x) token to value /\
    evm_key secret pk from /\
    sign_x402_eip3009 pk (x_token_name x) (x_token_version x) (x_chain_id x) token from to value
      (x_valid_after x) (x_valid_before x) nonce = Ok sig /\
    resp = with_policy_hash h (ok_headers (hex_header "signature" sig "from" from)).

Lemma wp_x402 req identity :
  r_action req = "sign_x402_eip3009" -> identity_ok identity ->
  W (dispatch req identity) (answered (x402_signed req identity)).
Proof.
  intros Ha Hid. unfold dispatch. rewrite Ha. cbn [assoc]. unfold_handler. walk_blob Hid. checks. cbn [wp answered].
  repeat match goal with
  | Hc : guard_bad _ = Ok _ |- _ => apply guard_bad_ok, negb_true_iff in Hc
  | Hc : check_under _ _ _ = Ok _ |- _ => apply check_under_ok, bool_decide_eq_true in Hc; subst
  | Hc : open_key _ _ _ = Ok _ |- _ => apply open_key_ok in Hc as (Hpk & Hder & Haddr)
  | Hc : enforce_x402_cap _ _ _ _ _ = Ok _, Hp : parse_u256_be_decimal _ = Ok ?v |- _ =>
      destruct (u256_bytes _ _ Hp) as [Hb Hl]; apply x402_cap_exact_spec in Hc; [|done..]
  end.
  unfold x402_signed. do 12 eexists. do 3 (split; [eassumption|]).
  split; [match goal with Hc : (_ <=? _) = false |- _ => apply Z.leb_gt in Hc; exact Hc end|].
  do 6 (split; [eassumption|]). split; [by eexists|]. split; [eassumption|]. reflexivity.
Qed.

(** C3: in every interleaving, an x402 payment authorisation is signed only
    for the reserved x402 identity, in active mode, under a policy that permits
    it: the chain and token are the policy's, the recipient is listed, the value
    is within the maximum, the window is not empty, and the payer is the address
    of the sealed key; the signature is over exactly the parsed fields. *)
Theorem x402_signature_within_policy ttl max cf req resp :
  reachable ttl max cf -> (req, Ret resp) ∈ cf_threads cf ->
  r_action req = "sign_x402_eip3009" -> s_error resp = None ->
  exists identity resp0, admitted req identity /\ id_mode identity = Active /\
    id_customer_id identity = X402_CUSTOMER_ID /\ x402_signed req identity resp0 /\ receipted resp0 resp.
Proof.
  intros Hr Hin Ha Herr.
  destruct (reachable_answers (fun a => a = "sign_x402_eip3009") x402_signed ttl max cf req resp)
    as (identity & resp0 & Had & Hx & Hrec); [intros; by apply wp_x402|done|done|done| |done|].
  { apply signing_not_bypassed. rewrite Ha. unfold signing_actions. set_unfold. tauto. }
  exists identity, resp0. split; [done|]. split; [|split; [|done]].
  - apply (admitted_active _ _ Had). rewrite Ha. by apply (bool_decide_unpack _).
  - destruct Hx as (venue & policy & secret & h & x & pk & token & from & to & value & nonce & sig & Hb & _).
    destruct Hb as [Hv _ [_ Hown] _ _]. rewrite Ha in Hv. injection Hv as <-. by symmetry.
Qed.

(** ** Permit2 *)

Definition permit2_signed (req : SignRequest) (identity : ResolvedIdentity) (resp : SignResponse) : Prop :=
  exists venue policy secret h p2 pk owner contract token spender amount deadline sig p c addr spenders tokens maxs w max_exp,
    blob_ok req identity venue policy secret /\ enforce_policy policy req = Ok h /\
    r_permit2 req = Some p2 /\ permit2_request_shape p2 = Ok amount /\
    parse_evm_address (q_verifying_contract p2) = Ok contract /\ parse_evm_address (q_token p2) = Ok token /\
    parse_evm_address (q_spender p2) = Ok spender /\ parse_u256_be_decimal (q_sig_deadline p2) = Ok deadline /\
    policy = Some p /\ p_permit2 p = Some c /\ pp_chain_id c = Some (q_chain_id p2) /\
    pp_verifying_contract c = Some addr /\ parse_evm_address addr = Ok contract /\
    pp_allowed_tokens c = Some tokens /\ listed token tokens /\
    pp_allowed_spenders c = Some spenders /\ listed spender spenders /\
    pp_max_amount c = Some maxs /\ parse_u256_be_decimal maxs = Ok w /\ be_val amount <= be_val w /\
    be_val amount <> 2 ^ 160 - 1 /\ pp_max_expiration c = Some max_exp /\ q_expiration p2 <= max_exp /\
    evm_key secret pk owner /\
    sign_permit2_permit_single pk (q_chain_id p2) contract token amount (q_expiration p2) (q_nonce p2) spender deadline
      = Ok sig /\
    resp = with_policy_hash h (ok_headers (hex_header "signature" sig "owner" owner)).

Lemma permit2_shape_bytes p2 amount :
  permit2_request_shape p2 = Ok amount -> is_bytes amount /\ length amount = 32%nat.
Proof.
  unfold permit2_request_shape. destruct (_ || _); [done|]. intros Hs. apply bind_ok_inv in Hs as (w & Hw%map_err_ok & Hs).
  destruct (existsb _ _); [done|]. apply bind_ok_inv in Hs as (d & _ & Hs). injection Hs as ->. by eapply u256_bytes.
Qed.

Lemma wp_permit2 req identity :
  r_action req = "sign_permit2_permit_single" -> identity_ok identity ->
  W (dispatch req identity) (answered (permit2_signed req identity)).
Proof.
  intros Ha Hid. unfold dispatch. rewrite Ha. cbn [assoc]. unfold_handler. walk_blob Hid. checks. cbn [wp answered].
  match goal with
  | Hc : enforce_permit2_allowance _ _ _ _ _ _ _ = Ok _, Hs : permit2_request_shape _ = Ok _ |- _ =>
      destruct (permit2_shape_bytes _ _ Hs) as [Hb Hl];
      destruct (permit2_allowance_bounded_spec _ _ _ _ _ _ _ Hb Hl Hc)
        as (p & c & addr & tokens & spenders & maxs & w & max_exp & -> & Hp2 & Hch & Hvc & Haddr0 & Htk & Hltk & Hsp & Hlsp & Hmx & Hw & Hle & Hinf & Hme & Hexp)
  end.
  match goal with Hc : open_key _ _ _ = Ok _ |- _ => apply open_key_ok in Hc as (Hpk & Hder & Haddr) end.
  unfold permit2_signed. do 21 eexists. do 8 (split; [eassumption|]). split; [reflexivity|].
  do 14 (split; [eassumption|]). split; [by eexists|]. split; [eassumption|]. reflexivity.
Qed.

(** C4: in every interleaving, a Permit2 allowance is signed only by an
    active tenant whose policy has a permit2 clause for the request's chain and
    verifying contract, for a listed token and spender, with an amount within the maximum and not the
    unlimited one, and an expiration within the bound; the signature is over
    exactly the parsed fields, with the sealed key. *)
Theorem permit2_signature_within_policy ttl max cf req resp :
  reachable ttl max cf -> (req, Ret resp) ∈ cf_threads cf ->
  r_action req = "sign_permit2_permit_single" -> s_error resp = None ->
  exists identity resp0, admitted req identity /\ id_mode identity = Active /\
    permit2_signed req identity resp0 /\ receipted resp0 resp.
Proof.
  intros Hr Hin Ha Herr.
  destruct (reachable_answers (fun a => a = "sign_permit2_permit_single") permit2_signed ttl max cf req resp)
    as (identity & resp0 & Had & Hx & Hrec); [intros; by apply wp_permit2|done|done|done| |done|].
  { apply signing_not_bypassed. rewrite Ha. unfold signing_actions. set_unfold. tauto. }
  exists identity, resp0. split; [done|]. split; [|done].
  apply (admitted_active _ _ Had). rewrite Ha. by apply (bool_decide_unpack _).
Qed.

(** ** Asterdex *)

(** What the venue reads in a body signed under the caps of [p]. *)
Definition asterdex_bounded (p : Policy) (body : string) : Prop :=
  Forall (fun kv => fst kv = "" \/ fst kv ∈ ASTERDEX_ALLOWED_PARAMS) (form_params body) /\
  (param_values "quantity" body = [] \/
   exists q s price, param_values "quantity" body = [q] /\ param_values "symbol" body = [s] /\
     within_order_cap (Some p) s q price /\
     forall px, price = Some px -> param_values "price" body = [px] /\ param_values "type" body = ["LIMIT"]).

Definition asterdex_signed (req : SignRequest) (identity : ResolvedIdentity) (resp : SignResponse) : Prop :=
  exists venue policy secret h body pk owner sig,
    blob_ok req identity venue policy secret /\ enforce_policy policy req = Ok h /\ r_body req = Some body /\
    (policy_required = true -> exists p caps, policy = Some p /\ p_order_caps p = Some caps) /\
    (forall p caps, policy = Some p -> p_order_caps p = Some caps -> asterdex_bounded p body) /\
    asterdex_endpoint_allowed policy (r_path req) = true /\
    List.filter (starts_with "signer=") (split "&" body) = ["signer=0x" +:+ hex_encode owner] /\
    evm_key secret pk owner /\ sign_asterdex pk body = Ok sig /\
    resp = with_policy_hash h (ok_headers (hex_header "signature" sig "signer" owner)).

Lemma asterdex_floor_ok policy :
  negb (asterdex_floor_denies policy_required policy) = true ->
  policy_required = true -> exists p caps, policy = Some p /\ p_order_caps p = Some caps.
Proof.
  unfold asterdex_floor_denies. intros Hf Hr. rewrite Hr in Hf. destruct policy as [p|]; [|done].
  cbn [mbind option_bind] in Hf. destruct (p_order_caps p) as [caps|] eqn:E; [|done]. by exists p, caps.
Qed.

Lemma wp_asterdex `{!HexLaws} req identity :
  r_action req = "sign_asterdex" -> identity_ok identity ->
  W (dispatch req identity) (answered (asterdex_signed req identity)).
Proof.
  intros Ha Hid. unfold dispatch. rewrite Ha. cbn [assoc]. unfold_handler. walk_blob Hid. checks. cbn [wp answered].
  repeat match goal with
  | Hc : check_under _ _ _ = Ok _ |- _ => apply check_under_ok in Hc
  | Hc : open_key _ _ _ = Ok _ |- _ => apply open_key_ok in Hc as (Hpk & Hder & Haddr)
  | Hc : validate_asterdex_body _ _ = Ok _ |- _ => apply asterdex_owner_bound_spec in Hc as [Howner _]
  end.
  unfold asterdex_signed. do 8 eexists. do 3 (split; [eassumption|]). split; [by apply asterdex_floor_ok|].
  split. { intros p caps -> Hcaps. by eapply asterdex_size_within_cap_spec. }
  do 2 (split; [eassumption|]). split; [by eexists|]. split; [eassumption|]. reflexivity.
Qed.

(** C19: In every interleaving, an Asterdex body is signed only with the
    sealed key, when the one signer parameter the venue reads is that key's
    address and the endpoint is allowed; under a policy with order caps
    (always, where policies are required) every parameter the venue reads is a
    known one and its size is within the caps. *)
Theorem asterdex_signature_within_policy `{!HexLaws} ttl max cf req resp :
  reachable ttl max cf -> (req, Ret resp) ∈ cf_threads cf ->
  r_action req = "sign_asterdex" -> s_error resp = None ->
  exists identity resp0, admitted req identity /\ asterdex_signed req identity resp0 /\ receipted resp0 resp.
Proof.
  intros Hr Hin Ha Herr.
  apply (reachable_answers (fun a => a = "sign_asterdex") asterdex_signed ttl max cf req resp);
    [intros; by apply wp_asterdex|done|done|done| |done].
  apply signing_not_bypassed. rewrite Ha. unfold signing_actions. set_unfold. tauto.
Qed.

(** ** Hyperliquid *)

(** Every asset of the batch is capped, and the batch as a whole is within each
    cap. *)
Definition batch_within (caps : list HlOrderCap) (orders : list json) : Prop :=
  Forall (fun o => is_Some (order_asset o) /\ is_Some (order_size o)) orders /\
  forall a, order_sizes a orders <> [] ->
    exists cap m qs, find_hl_cap caps a = Some cap /\ operand (hc_max_size cap) = Some m /\
      mapM operand (order_sizes a orders) = Some qs /\ (Qsum qs <= m)%Q /\
      forall mn, hc_max_notional cap = Some mn ->
        exists c ns, operand mn = Some c /\ mapM operand_pair (order_pairs a orders) = Some ns /\
          length ns = length qs /\ (Qsum ns <= c)%Q.

Lemma wp_hl_main_order req identity :
  r_action req = "sign_hyperliquid_main_order" -> identity_ok identity ->
  W (dispatch req identity) (answered (fun resp => hl_signed "a" req identity resp /\
    exists action, r_hl_action req = Some action /\ validate_order_action action = true)).
Proof.
  intros Ha Hid. unfold dispatch. rewrite Ha. cbn [assoc]. unfold_handler. walk. checks.
  match goal with Hg : guard_bad _ = Ok _ |- _ => apply guard_bad_ok in Hg end.
  eapply wp_mono; [by apply wp_sign_hyperliquid|]. intros [resp|resp] Hr; [|exact Hr]. cbn. eauto.
Qed.

(** C5: in every interleaving and whatever the build flags, a Hyperliquid
    mainnet order batch is signed (with the mainnet tag) only by an active
    tenant whose policy is signed by the baked authority for that tenant and
    venue and carries per-asset caps, and the batch has at most 64 orders whose
    total size and notional per asset are within those caps. *)
Theorem hl_mainnet_signature_within_caps ttl max cf req resp :
  reachable ttl max cf -> (req, Ret resp) ∈ cf_threads cf ->
  r_action req = "sign_hyperliquid_main_order" -> s_error resp = None ->
  exists identity resp0 p caps action orders,
    admitted req identity /\ id_mode identity = Active /\ hl_signed "a" req identity resp0 /\ receipted resp0 resp /\
    verify_policy_authority p (id_customer_id identity) "hyperliquid_main" = Ok () /\
    p_hl_order_caps p = Some caps /\ caps <> [] /\ r_hl_action req = Some action /\
    jget "orders" action ≫= as_array = Some orders /\ (length orders <= 64)%nat /\ batch_within caps orders.
Proof.
  intros Hr Hin Ha Herr.
  destruct (reachable_answers (fun a => a = "sign_hyperliquid_main_order")
    (fun req identity resp => hl_signed "a" req identity resp /\
       exists action, r_hl_action req = Some action /\ validate_order_action action = true) ttl max cf req resp)
    as (identity & resp0 & Had & (Hs & action & Hact & Hval) & Hrec); [intros; by apply wp_hl_main_order|done|done|done| |done|].
  { apply signing_not_bypassed. rewrite Ha. unfold signing_actions. set_unfold. tauto. }
  pose proof Hs as (action' & nonce & vault & h & pk & sig & (Hact' & _ & _ & _ & venue & policy & secret & Hb & Hp & Hc & _) & _).
  assert (action' = action) as -> by congruence. destruct Hb as [Hv _ _ _ Hfl]. rewrite Ha in Hv. injection Hv as <-.
  destruct Hfl as (p & -> & Hfl); [apply orb_true_iff; right; reflexivity|].
  destruct (Hfl eq_refl) as [Hauth Hcap]. change (non_empty (p_hl_order_caps p) = true) in Hcap.
  destruct (p_hl_order_caps p) as [caps|] eqn:Hcaps; [|done].
  assert (exists e rest, jget "orders" action ≫= as_array = Some (e :: rest)) as (e & rest & Hord).
  { unfold validate_order_action, validate_action in Hval. repeat case_match; try done; simplify_eq/=; eauto. }
  exists identity, resp0, p, caps, action, (e :: rest). split; [done|]. split.
  { apply (admitted_active _ _ Had). rewrite Ha. by apply (bool_decide_unpack _). }
  do 5 (split; [first [done|by intros ->]|]). split; [done|]. split; [done|]. split.
  - apply (proj2 (hl_action_bounded_spec action (or_introl Hval)) "orders" (e :: rest)); auto.
  - by apply (hl_batch_within_caps_spec p caps (e :: rest) action vault).
Qed.

End Contracts.
