(* ===== verification/Replay.v ===== *)
(** * One signature per intent

    The history of a run records which thread had which intent accepted.  The
    ledger refines a window over the accepted digests, so while fewer than its
    capacity were accepted, two order signatures never rest on the same
    intent, however the requests interleave. *)

From S2P Require Import Prelude RustStr Crates Proto Ledger Registry Intent PolicyGate Caps Stores DekCache Limiter.
From S2P Require Import Eip712 Receipt Program Handler Enclave.

Open Scope string_scope.
Open Scope list_scope.
Open Scope Z_scope.

Section Replay.
Context `{Crates, RegistryEnv, ReceiptEnv, Kms, PolicyEnv, BlobSerde, HandlerSerde, Msgpack}.
Context (limiter : RateLimiter).

(** ** Accepted intents *)

Definition order_digest (identity : ResolvedIdentity) (venue action : string) (ts : Z) (coid : string) (order : OrderRequest)
    : string :=
  hex_encode (sha256 (build_agent_intent_msg_order (id_customer_id identity) venue action ts coid order)).

(** The digest an intent check recorded, if it recorded one. *)
Definition accepted_digest {X} (c : call X) : X -> option string :=
  match c in call X return X -> option string with
  | IntentOrder policy identity venue action ts order req => fun x =>
      match x, policy ≫= p_intent_pubkey, o_client_order_id order with
      | Ok _, Some _, Some coid => Some (order_digest identity venue action ts coid order)
      | _, _, _ => None
      end
  | IntentCancel policy identity venue action ts cancel req => fun x =>
      match x, policy ≫= p_intent_pubkey, r_intent_nonce req with
      | Ok _, Some _, Some nonce =>
          Some (hex_encode (sha256 (build_agent_intent_msg_cancel (id_customer_id identity) venue action ts nonce cancel)))
      | _, _, _ => None
      end
  | _ => fun _ => None
  end.

Definition event_digest (e : event) : option string :=
  match e with existT _ (c, x) => accepted_digest c x end.

Fixpoint accepted (h : list (nat * event)) : list (nat * string) :=
  match h with
  | [] => []
  | (i, e) :: h' => match event_digest e with Some d => (i, d) :: accepted h' | None => accepted h' end
  end.

Lemma accepted_in i e d h : (i, e) ∈ h -> event_digest e = Some d -> (i, d) ∈ accepted h.
Proof.
  intros Hin Hd. induction h as [|[j e'] h IH]; [by apply elem_of_nil in Hin|]. cbn [accepted].
  apply elem_of_cons in Hin as [[= <- <-]|Hin]; [rewrite Hd; by left|].
  destruct (event_digest e'); [right|]; auto.
Qed.

(** ** The ledger holds what the history accepted *)

Lemma verify_intent_ledger pk sig msg acc l x l' :
  ledger_rep acc l -> verify_agent_intent pk sig msg l = (x, l') ->
  ledger_rep (match x with Ok _ => hex_encode (sha256 msg) :: acc | Err _ => acc end) l'.
Proof.
  intros Hl Hv. destruct x as [[]|e]; [|by apply verify_agent_intent_err in Hv as ->].
  apply verify_agent_intent_ok in Hv as (_ & _ & _ & _ & Hr).
  pose proof (record_if_new_refines (hex_encode (sha256 msg)) acc l Hl) as Href. rewrite Hr in Href.
  unfold spec_record in Href. case_decide; by destruct Href.
Qed.

Lemma answer_ledger o X (c : call X) st x st' acc :
  answer limiter o c st = (x, st') -> ledger_rep acc (en_ledger st) ->
  ledger_rep (match accepted_digest c x with Some d => d :: acc | None => acc end) (en_ledger st').
Proof.
  intros Ha Hl. destruct c; cbn [answer accepted_digest] in *; try (by injection Ha as _ <-).
  all: try (destruct (challenge _ _); by injection Ha as _ <-).
  all: try (destruct (refresh_commit _ _ _ _); by injection Ha as _ <-).
  all: try (destruct (check _ _ _ _); by injection Ha as _ <-).
  all: try (destruct (cache_get _ _ _); by injection Ha as _ <-).
  all: try (destruct (pin_step _ _); by injection Ha as _ <-).
  all: try (destruct (issue_locked _ _ _ _); by injection Ha as _ <-).
  - destruct (enforce_agent_intent_order _ _ _ _ _ _ _ _) as [r l] eqn:E. injection Ha as <- <-. cbn [set_ledger en_ledger].
    unfold enforce_agent_intent_order in E. destruct (policy ≫= p_intent_pubkey) as [pk|]; [|injection E as <- <-; done].
    destruct (o_client_order_id order) as [coid|]; [|injection E as <- <-; done].
    apply (verify_intent_ledger _ _ _ acc) in E; [|done]. by destruct r.
  - destruct (enforce_agent_intent_cancel _ _ _ _ _ _ _ _) as [r l] eqn:E. injection Ha as <- <-. cbn [set_ledger en_ledger].
    unfold enforce_agent_intent_cancel in E. destruct (policy ≫= p_intent_pubkey) as [pk|]; [|injection E as <- <-; done].
    destruct (r_intent_nonce req) as [nonce|]; [|injection E as <- <-; done].
    apply (verify_intent_ledger _ _ _ acc) in E; [|done]. by destruct r.
Qed.

Lemma history_ledger ttl max s :
  rtc (hstep limiter handle) ({| cf_state := enclave_boot ttl max; cf_threads := [] |}, []) s ->
  ledger_rep (accepted (snd s)).*2 (en_ledger (cf_state (fst s))).
Proof.
  intros Hr. assert (ledger_rep (accepted (@nil (nat * event))).*2 (en_ledger (enclave_boot ttl max))) as H0'
    by apply ledger_new_rep.
  change (ledger_rep (accepted (snd ({| cf_state := enclave_boot ttl max; cf_threads := [] |}, @nil (nat * event)))).*2
    (en_ledger (cf_state (fst ({| cf_state := enclave_boot ttl max; cf_threads := [] |}, @nil (nat * event)))))) in H0'.
  revert H0'. induction Hr as [s|s1 s2 s3 Hs _ IH]; [done|]. intros Hl. apply IH.
  destruct Hs as [cf h req|cf h i req X c k o x st Hi Ho Ha]; [done|]. cbn [fst snd cf_state] in *.
  apply (answer_ledger _ _ _ _ _ _ _ Ha) in Hl. cbn [accepted event_digest ev]. by destruct (accepted_digest c x).
Qed.

(** A ledger below its capacity still holds every accepted digest. *)
Lemma accepted_bounded ttl max s :
  rtc (hstep limiter handle) ({| cf_state := enclave_boot ttl max; cf_threads := [] |}, []) s ->
  Z.of_nat (length (order (en_ledger (cf_state (fst s))))) < MAX_TRACKED_NONCES ->
  Z.of_nat (length (accepted (snd s))) <= MAX_TRACKED_NONCES.
Proof.
  intros Hr Hlen. destruct (history_ledger ttl max s Hr) as (Hord & _ & _). revert Hlen.
  rewrite Hord, length_reverse, length_take, length_fmap. unfold window. lia.
Qed.

(** Below the capacity nothing is ever accepted twice. *)
Lemma accepted_once ttl max s i j d :
  rtc (hstep limiter handle) ({| cf_state := enclave_boot ttl max; cf_threads := [] |}, []) s ->
  Z.of_nat (length (accepted (snd s))) <= MAX_TRACKED_NONCES ->
  (i, d) ∈ accepted (snd s) -> (j, d) ∈ accepted (snd s) -> i = j.
Proof.
  intros Hr Hlen Hi Hj. destruct (history_ledger ttl max s Hr) as (_ & _ & Hnd).
  rewrite take_ge in Hnd by (rewrite length_fmap; unfold window; lia). clear Hr Hlen.
  induction (accepted (snd s)) as [|[k d'] l IH]; [by apply elem_of_nil in Hi|].
  rewrite fmap_cons in Hnd. apply NoDup_cons in Hnd as [Hnot Hnd]. cbn [snd] in Hnot.
  apply elem_of_cons in Hi, Hj. destruct Hi as [[= -> ->]|Hi], Hj as [Hj|Hj]; [by injection Hj| | |auto].
  - destruct Hnot. by apply (list_elem_of_fmap_2 snd) in Hj.
  - injection Hj as <- <-. destruct Hnot. by apply (list_elem_of_fmap_2 snd) in Hi.
Qed.

(** ** A signed order rests on an accepted intent check *)

Section Seen.
Context (seen : forall X, call X -> X -> Prop).
Context (Hgenuine : forall X (c : call X) x, seen X c x -> genuine limiter (ev c x)).
Abbreviation S := (wp (fun _ _ => True) seen).

(** The request was refused, or [P] holds. *)
Definition refused_or {A} (P : Prop) (r : result SignResponse A) : Prop :=
  match r with Ok _ => P | Err resp => P \/ refused resp end.

Lemma wp_any {A} (p : prog A) (Q : A -> Prop) : (forall a, Q a) -> S p Q.
Proof using. intros HQ. induction p; cbn [wp]; auto. Qed.

Lemma seen_check {A B} (r : result SignResponse A) `{!Refuses r} (k : A -> prog (result SignResponse B)) P :
  (forall a, r = Ok a -> S (k a) (refused_or P)) -> S (on_ok r k) (refused_or P).
Proof using. intros Hk. apply wp_on_ok; [|done]. intros resp Hr. right. by apply (refuses (r := r)). Qed.

Lemma seen_done {A} P (p : prog (result SignResponse A)) : P -> S p (refused_or P).
Proof using. intros HP. apply wp_any. intros [a|resp]; [done|by left]. Qed.

Lemma seen_with_blob {A} req identity (k : option Policy -> json -> option string -> prog (result SignResponse A)) P :
  (forall policy secret h, S (k policy secret h) (refused_or P)) -> S (with_blob req identity k) (refused_or P).
Proof using.
  intros Hk. unfold with_blob. apply wp_bind, wp_any. intros loaded. apply seen_check; [apply _|].
  intros [policy secret] _. apply seen_check; [apply _|]. intros h _. apply Hk.
Qed.

Definition order_venue (action : string) : string :=
  if decide (action = "sign_binance_order") then "binance" else "okx".

(** The thread made the intent check of its own order, and it passed. *)
Definition intent_checked (req : SignRequest) : Prop :=
  exists policy identity ts order, r_timestamp_ms req = Some ts /\ r_order req = Some order /\
    seen _ (IntentOrder policy identity (order_venue (r_action req)) (r_action req) ts order req) (Ok ()).

Lemma seen_intent policy identity venue action ts order req x :
  seen _ (IntentOrder policy identity venue action ts order req) x -> Refuses x.
Proof using Hgenuine.
  intros Hs. apply Hgenuine in Hs as (o & st & _ & <-). cbn [answer].
  pose proof (refuses_intent_order policy identity venue action ts order req (en_ledger st)) as Hr.
  by destruct (enforce_agent_intent_order _ _ _ _ _ _ _ _).
Qed.

Lemma seen_order_handler req identity :
  r_action req ∈ ["sign_binance_order"; "sign_okx_order"] ->
  S (dispatch req identity) (refused_or (intent_checked req)).
Proof using Hgenuine.
  intros Ha. apply elem_of_cons in Ha as [Ha|Ha]; [|apply list_elem_of_singleton in Ha].
  all: unfold dispatch; rewrite Ha; cbn [assoc]; unfold handle_sign_binance_order, handle_sign_okx_order.
  all: apply seen_check; [apply _|]; intros order Ho%ok_or_inv; apply seen_check; [apply _|]; intros ts Hts%ok_or_inv.
  all: apply seen_with_blob; intros policy secret h; apply seen_check; [apply _|]; intros [] _.
  all: apply wp_call; [done|]; intros x Hx; pose proof (seen_intent _ _ _ _ _ _ _ _ Hx) as Hrf.
  all: apply seen_check; [apply _|]; intros [] Hok%map_err_ok; subst x; apply seen_done.
  all: exists policy, identity, ts, order; unfold order_venue; rewrite Ha; auto.
Qed.

Lemma seen_attach pre resp0 : S (attach_prog pre resp0) (receipted resp0).
Proof using.
  unfold attach_prog. destruct (negb _); [by left|]. apply wp_call; [done|]. intros [pk|] _; [|by left].
  apply wp_call; [done|]. intros [r|] _; [right; eauto|by left].
Qed.

Lemma seen_order req :
  r_action req ∈ ["sign_binance_order"; "sign_okx_order"] ->
  S (handle req) (fun resp => s_error resp = None -> intent_checked req).
Proof using Hgenuine.
  intros Ha. unfold handle. rewrite (signing_not_bypassed req).
  2:{ unfold signing_actions. set_unfold. tauto. }
  destruct (_ <? _); [done|]. apply wp_bind, wp_any. intros tenant. apply wp_call; [done|]. intros allowed _.
  destruct (negb allowed); [done|]. destruct tenant as [who|]; [|done].
  assert (forall resp0 resp, receipted resp0 resp -> refused resp0 -> s_error resp = None -> intent_checked req) as Hno.
  { intros resp0 resp Hr [code Hc] Herr. rewrite (receipted_error _ _ Hr) in Herr. congruence. }
  destruct (tenant_mode_gate who req) as [[]|resp0] eqn:Hm.
  - apply wp_bind. unfold respond. apply wp_bind. eapply wp_mono; [by apply seen_order_handler|].
    intros [resp0|resp0] Hr; cbn [wp refused_or] in *; (eapply wp_mono; [apply seen_attach|]); intros resp Hresp Herr.
    + exact Hr.
    + destruct Hr as [Hr|Hr]; [exact Hr|by eapply Hno].
  - eapply wp_mono; [apply seen_attach|]. intros resp Hresp. eapply Hno; [exact Hresp|]. by apply refuses in Hm.
Qed.
End Seen.

(** C18: In every run, with any interleaving, two different requests answered
    with a structured order signature each had the intent check of their own
    order pass; and where both policies name an intent key, the digests of the
    two intents differ, as long as no more than 100,000 intents were accepted
    since boot: one signed intent yields at most one signature. *)
Theorem order_intent_single_use ttl max cf h i j req1 resp1 req2 resp2 :
  rtc (hstep limiter handle) ({| cf_state := enclave_boot ttl max; cf_threads := [] |}, []) (cf, h) ->
  cf_threads cf !! i = Some (req1, Ret resp1) -> cf_threads cf !! j = Some (req2, Ret resp2) -> i <> j ->
  r_action req1 ∈ ["sign_binance_order"; "sign_okx_order"] -> r_action req2 ∈ ["sign_binance_order"; "sign_okx_order"] ->
  s_error resp1 = None -> s_error resp2 = None ->
  Z.of_nat (length (accepted h)) <= MAX_TRACKED_NONCES ->
  exists policy1 id1 ts1 order1 policy2 id2 ts2 order2,
    r_order req1 = Some order1 /\ r_timestamp_ms req1 = Some ts1 /\
    r_order req2 = Some order2 /\ r_timestamp_ms req2 = Some ts2 /\
    (i, ev (IntentOrder policy1 id1 (order_venue (r_action req1)) (r_action req1) ts1 order1 req1) (Ok ())) ∈ h /\
    (j, ev (IntentOrder policy2 id2 (order_venue (r_action req2)) (r_action req2) ts2 order2 req2) (Ok ())) ∈ h /\
    forall pk1 pk2 coid1 coid2, (policy1 ≫= p_intent_pubkey) = Some pk1 -> (policy2 ≫= p_intent_pubkey) = Some pk2 ->
      o_client_order_id order1 = Some coid1 -> o_client_order_id order2 = Some coid2 ->
      order_digest id1 (order_venue (r_action req1)) (r_action req1) ts1 coid1 order1 <>
      order_digest id2 (order_venue (r_action req2)) (r_action req2) ts2 coid2 order2.
Proof.
  intros Hrun Hi Hj Hne Ha1 Ha2 Herr1 Herr2 Hlen.
  destruct (history_sound limiter handle _ _ Hrun) as [Hgen Hfol]. cbn [fst snd] in *.
  assert (forall n req resp, cf_threads cf !! n = Some (req, Ret resp) ->
    r_action req ∈ ["sign_binance_order"; "sign_okx_order"] -> s_error resp = None ->
    intent_checked (fun X c x => (n, ev c x) ∈ h) req) as Hchk.
  { intros n req resp Hn Ha Herr. revert Herr.
    change (wp (fun _ _ => True) (fun X c x => (n, ev c x) ∈ h) (Ret resp)
      (fun resp => s_error resp = None -> intent_checked (fun X c x => (n, ev c x) ∈ h) req)).
    eapply wp_follows; [|intros X c x; apply calls_of_in|by apply (Hfol n)].
    apply seen_order; [|done]. intros X c x Hin. apply (proj1 (Forall_forall _ _) Hgen) in Hin. apply Hin. }
  destruct (Hchk i req1 resp1 Hi Ha1 Herr1) as (policy1 & id1 & ts1 & order1 & Hts1 & Ho1 & Hev1).
  destruct (Hchk j req2 resp2 Hj Ha2 Herr2) as (policy2 & id2 & ts2 & order2 & Hts2 & Ho2 & Hev2).
  exists policy1, id1, ts1, order1, policy2, id2, ts2, order2. do 6 (split; [done|]).
  intros pk1 pk2 coid1 coid2 Hpk1 Hpk2 Hc1 Hc2 Heq. apply Hne.
  eapply (accepted_once ttl max (cf, h)); [exact Hrun|exact Hlen| |]; cbn [snd].
  - eapply accepted_in; [exact Hev1|]. cbn [event_digest ev accepted_digest]. by rewrite Hpk1, Hc1.
  - eapply accepted_in; [exact Hev2|]. cbn [event_digest ev accepted_digest]. by rewrite Hpk2, Hc2, Heq.
Qed.

End Replay.
