(* ===== verification/Provision.v ===== *)
(** * Provisioned keys (handler.rs, [handle_provision_agent_key])

    A key minted in the enclave leaves it only sealed.  The theorem follows the
    envelope: whoever presents it later, it opens for the tenant and venue it
    was minted for and for nobody else, to the policy and key it was minted
    with. *)

From S2P Require Import Prelude RustStr Crates Proto Registry PolicyGate Stores DekCache Limiter Eip712 Receipt.
From S2P Require Import Program Handler Enclave.

Open Scope string_scope.
Open Scope list_scope.
Open Scope Z_scope.

(** [serde_json]: an envelope printed is the envelope read back. *)
Class EnvelopeLaws `{BlobSerde, HandlerSerde} := {
  envelope_roundtrip env blob : envelope_to_vec env = Some blob ->
    envelope_of_slice blob = Some env /\
    exists v, json_of_slice blob = Some v /\ (jget "version" v ≫= as_u64) = Some (env_version env)
}.

(** KMS: a wrapped key is released only under the encryption context it was
    wrapped with, and is then the key that was wrapped. *)
Class KmsLaws `{Kms} := {
  kms_unwraps now creds key_id dek ctx w ctx' dek' :
    kms_wrap now creds key_id dek ctx = Ok w -> kms_released w ctx' dek' -> dek' = dek /\ ctx' = ctx
}.

Section Provision.
Context `{Crates, RegistryEnv, ReceiptEnv, Kms, PolicyEnv, BlobSerde, HandlerSerde, Msgpack, !SizeLaws}.
Context `{!AeadLaws, !EnvelopeLaws, !KmsLaws}.
Context (limiter : RateLimiter).

(** The blob is an envelope around one wrapped key [w].  It opens to [plaintext]
    for this tenant and venue once KMS releases [w] to them, and to nothing else
    and for nobody else, short of one event: for that identity the DEK cache
    held, under the cache key of this very [w], a DEK that KMS had released for
    another wrapped key (a SHA-256 collision between the two), and AES-GCM
    accepted the envelope under that DEK and that identity's additional data. *)
Definition sealed_for (e customer venue plaintext : string) : Prop :=
  exists now creds key_id dek w id0 blob env,
    id_customer_id id0 = customer /\ kms_wrap now creds key_id dek (encryption_context id0 venue) = Ok w /\
    b64_decode e = Some blob /\ parse_envelope blob = Ok env /\ b64_decode (env_wrapped_dek env) = Some w /\
    (forall req identity, r_ciphertext_blob_base64 req = Some e -> id_customer_id identity = customer ->
       kms_released w (encryption_context identity venue) dek -> opened req identity venue plaintext) /\
    (forall req identity venue' pt, r_ciphertext_blob_base64 req = Some e -> opened req identity venue' pt ->
       (id_customer_id identity = customer /\ venue' = venue /\ pt = plaintext) \/
       exists dek', cache_key_clash w (encryption_context identity venue') dek' /\
         decrypt_with_dek dek' env (sealed_aad identity venue' KEY_VERSION) = Ok pt).

Lemma context_inj id v id' v' :
  encryption_context id v = encryption_context id' v' -> id_customer_id id = id_customer_id id' /\ v = v'.
Proof.
  unfold encryption_context. intros He. split.
  - apply (f_equal (.!! "customer_id")) in He. cbn beta in He. by simplify_map_eq.
  - apply (f_equal (.!! "venue_id")) in He. cbn beta in He. by simplify_map_eq.
Qed.

Lemma aad_customer id id' venue k :
  id_customer_id id = id_customer_id id' -> sealed_aad id venue k = sealed_aad id' venue k.
Proof. intros He. unfold sealed_aad. by rewrite He. Qed.

Lemma sealed_blob_opens id venue now creds key_id dek w pt nonce env blob :
  kms_wrap now creds key_id dek (encryption_context id venue) = Ok w -> String.length nonce = NONCE_LEN ->
  seal_with_dek dek w pt (sealed_aad id venue KEY_VERSION) nonce = Ok env -> envelope_to_vec env = Some blob ->
  sealed_for (b64_encode blob) (id_customer_id id) venue pt.
Proof.
  intros Hw Hn Hs Hb. destruct (seal_open_roundtrip _ _ _ _ _ _ Hn Hs) as (Hd & Hwd & Hv).
  destruct (envelope_roundtrip _ _ Hb) as (Hes & v & Hj & Hver). rewrite Hv in Hver.
  assert (is_envelope blob = true) as Hie by (unfold is_envelope; by rewrite Hj, Hver).
  assert (parse_envelope blob = Ok env) as Hpe by (unfold parse_envelope; rewrite Hes; cbn; by rewrite Hv).
  exists now, creds, key_id, dek, w, id, blob, env. do 2 (split; [done|]). split; [apply b64_decode_encode|]. do 2 (split; [done|]). split.
  - intros req identity He Hid Hr. exists (b64_encode blob), blob. split; [done|]. split; [apply b64_decode_encode|]. right.
    exists env, w, dek. rewrite (aad_customer identity id) by done. auto.
  - intros req identity venue' pt' He (b64 & raw & Hb64 & Hraw & Ho). rewrite He in Hb64. injection Hb64 as <-.
    rewrite b64_decode_encode in Hraw. injection Hraw as <-. destruct Ho as [[Hf _]|(env' & w' & dek' & Hp & Hw' & Hd' & Hk)].
    { by rewrite Hie in Hf. }
    rewrite Hpe in Hp. injection Hp as <-. rewrite Hwd in Hw'. injection Hw' as <-.
    destruct Hk as [Hk|Hk]; [left|right; by exists dek'].
    destruct (kms_unwraps _ _ _ _ _ _ _ _ Hw Hk) as [-> [Hc ->]%context_inj]. split; [done|]. split; [done|].
    rewrite (aad_customer identity id), Hd in Hd' by done. by injection Hd' as <-.
Qed.

(** What a minted key's response carries. *)
Definition minted (ctx_id : ResolvedIdentity) (venue : string) (plaintext_of : string -> string -> string)
    (resp : SignResponse) : Prop :=
  exists pk pubkey address e, secp_key_ok pk = true /\ attested_data_pubkey pk = Ok (pubkey, address) /\
    s_provision resp = Some {| pk_envelope_b64 := e; pk_pubkey_compressed := pubkey; pk_pubkey_address := address |} /\
    sealed_for e (id_customer_id ctx_id) venue (plaintext_of (hex_encode pk) address).

Lemma wp_provision creds key_id id venue plaintext_of :
  wp call_pre call_post
    (provision creds key_id (encryption_context id venue) (sealed_aad id venue KEY_VERSION) plaintext_of)
    (answered (minted id venue plaintext_of)).
Proof.
  unfold provision. apply wp_call; [done|]. intros pk Hpk. cbn [call_post] in Hpk.
  apply wp_check; [apply _|]. intros [pubkey address] Hpub%map_err_ok.
  apply wp_call; [done|]. intros dek Hdek. apply wp_call; [done|]. intros wrapped Hwrap.
  apply wp_check; [apply _|]. intros w Hw%map_err_ok. subst wrapped. destruct Hwrap as [now Hwrap].
  apply wp_call; [done|]. intros nonce Hnonce.
  apply wp_check; [apply _|]. intros env Henv%map_err_ok. apply wp_check; [apply _|]. intros blob Hblob%ok_or_inv.
  cbn [wp answered]. exists pk, pubkey, address, (b64_encode blob). do 3 (split; [done|]).
  by eapply sealed_blob_opens.
Qed.

Lemma non_empty_field_ok o s : non_empty_field o = Ok s -> o = Some s.
Proof.
  unfold non_empty_field, need. intros Hn. apply bind_ok_inv in Hn as (t & Ht%ok_or_inv & Hn).
  destruct (is_empty t); [done|]. by injection Hn as <-.
Qed.

Definition agent_key_minted (req : SignRequest) (resp : SignResponse) : Prop :=
  exists venue customer policy_raw policy,
    r_provision_venue req = Some venue /\ is_agent_key_venue venue = true /\
    r_provision_customer_id req = Some customer /\ is_safe_id customer = true /\
    r_provision_policy req = Some policy_raw /\ policy_of_str policy_raw = Some policy /\
    agent_policy_allowed policy customer venue = Ok () /\
    minted (for_provisioned_agent customer venue) venue (build_agent_key_plaintext policy_raw venue) resp.

Lemma wp_provision_agent req :
  wp call_pre call_post (handle_provision_agent_key req) (answered (agent_key_minted req)).
Proof.
  unfold handle_provision_agent_key.
  apply wp_check; [apply _|]. intros creds _.
  apply wp_check; [unfold non_empty_field, bad_request; apply _|]. intros key_id _.
  apply wp_check; [unfold non_empty_field, bad_request; apply _|]. intros venue Hvenue%non_empty_field_ok.
  apply wp_check; [unfold non_empty_field, bad_request; apply _|]. intros customer Hcust%non_empty_field_ok.
  apply wp_check; [unfold non_empty_field, bad_request; apply _|]. intros raw Hraw%non_empty_field_ok.
  apply wp_check; [apply _|]. intros [] Hav. destruct (is_agent_key_venue venue) eqn:Eav; [|done].
  apply wp_check; [apply _|]. intros [] Hsafe%guard_bad_ok.
  apply wp_check; [apply _|]. intros policy Hpol%ok_or_inv.
  apply wp_check; [unfold agent_policy_allowed; refuses_cases|]. intros [] Hallowed.
  eapply wp_mono; [apply wp_provision|]. intros [resp|resp] Hr; [|exact Hr]. cbn [answered] in *.
  exists venue, customer, raw, policy. auto 10.
Qed.

(** C20: In every interleaving, an agent key is minted only for a
    Hyperliquid venue and a safe tenant id, under a policy the floor allows; the
    envelope returned opens, once KMS releases the key wrapped in it, for exactly
    that tenant and venue, to exactly that policy and a fresh valid key whose
    address the response names.  It opens for no other tenant or venue and to no
    other plaintext, except where the DEK cache holds under this envelope's own
    cache key a DEK that KMS released for another wrapped key (a SHA-256
    collision) and AES-GCM accepts the envelope under that DEK. *)
Theorem provisioned_key_isolated ttl max cf req resp :
  reachable limiter ttl max cf -> (req, Ret resp) ∈ cf_threads cf ->
  r_action req = "provision_agent_key" -> s_error resp = None -> agent_key_minted req resp.
Proof.
  intros Hr Hin Ha Herr.
  eapply (interleaving_sound limiter handle call_pre call_post enclave_inv
    (fun req resp => r_action req = "provision_agent_key" -> s_error resp = None -> agent_key_minted req resp))
    in Hr as [_ Hq]; [by apply Hq|apply enclave_answers_ok| |apply boot_inv].
  intros req'. destruct (decide (r_action req' = "provision_agent_key")) as [Ha'|Hn].
  - unfold handle, bypass. rewrite Ha'. cbn [assoc].
    eapply wp_respond; [apply wp_provision_agent|auto|]. intros resp' [code Hc] _ Herr'. congruence.
  - eapply wp_mono; [apply (wp_handle req' (fun _ _ => True)); intros; by apply wp_dispatch|]. done.
Qed.

End Provision.
