(* ===== verification/Scenario.v ===== *)
(** * A concrete enclave

    Toy crates, a KMS that checks the encryption context and deserialisers for
    five fixed blobs; an enclave booted, given a signed registry and asked for
    signatures.  The run instantiates the theorems about every interleaving. *)

From S2P Require Import Prelude RustStr Crates Decimal Proto DateTime Venue Jcs Evm Ledger Registry Intent.
From S2P Require Import PolicyGate Caps Generic Asterdex Allowance Stores DekCache Limiter Eip712 Receipt.
From S2P Require Import Program Handler Enclave Replay Provision.

Open Scope string_scope.
Open Scope list_scope.
Open Scope Z_scope.

#[local] Existing Instance demo_crates.
#[local] Existing Instance demo_msgpack.

(** ** The environment *)

Definition demo_tenants : list RefreshEntry :=
  [{| re_token := "tok"; re_customer_id := "cust"; re_allowed_venues := ["binance"; "hyperliquid_main"; "permit2"; "asterdex"];
      re_mode := None |};
   {| re_token := "pay"; re_customer_id := X402_CUSTOMER_ID; re_allowed_venues := ["x402"]; re_mode := Some "active" |}].

#[local] Instance demo_registry_env : RegistryEnv := {|
  registry_pubkey_env := Some (zeros 64);
  registry_key := "key";
  parse_entries s := if decide (s = "registry") then Some demo_tenants else None
|}.

#[local] Instance demo_receipt_env : ReceiptEnv := {|
  json_to_vec _ := Some "{}"; order_to_vec o := Some (o_symbol o); cancel_to_vec c := Some (c_symbol c);
  x402_to_vec x := Some (x_value x); permit2_to_vec q := Some (q_amount q); boot_id := "boot"
|}.

(** A ciphertext names the context it was made under: customer and venue in
    hex, then the plaintext. *)
Definition toy_context (customer venue : string) : gmap string string :=
  <["venue_id" := venue]> (<["customer_id" := customer]> ∅).
Definition toy_seal (customer venue pt : string) : string :=
  hex_encode customer +:+ String "/" (hex_encode venue +:+ String ":" pt).
Definition toy_open (ct : string) : option (string * string * string) :=
  '(hc, rest) ← split_once "/" ct; '(hv, pt) ← split_once ":" rest;
  customer ← hex_decode hc; venue ← hex_decode hv; Some (customer, venue, pt).

#[local] Instance demo_kms : Kms := {|
  kms_decrypt _ _ ct ctx :=
    match toy_open ct with
    | Some (customer, venue, pt) => if decide (ctx = toy_context customer venue) then Ok pt else Err AccessDenied
    | None => Err KmsInternal
    end;
  kms_wrap _ _ _ dek ctx :=
    match ctx !! "customer_id", ctx !! "venue_id" with
    | Some customer, Some venue =>
        if decide (ctx = toy_context customer venue) then Ok (toy_seal customer venue dek) else Err KmsInternal
    | _, _ => Err KmsInternal
    end
|}.

Lemma hex_no_char c s : is_ascii_hexdigit c = false -> contains_char c (hex_encode s) = false.
Proof. intros Hc. eapply contains_char_all; [exact Hc|]. apply hex_encode_hex. Qed.

Lemma toy_open_seal customer venue pt : toy_open (toy_seal customer venue pt) = Some (customer, venue, pt).
Proof.
  unfold toy_open, toy_seal. rewrite split_once_app by (by apply hex_no_char). cbn [mbind option_bind].
  rewrite split_once_app by (by apply hex_no_char). cbn [mbind option_bind]. by rewrite !hex_decode_encode.
Qed.

#[local] Instance demo_kms_laws : KmsLaws.
Proof.
  constructor. intros now creds key_id dek ctx w ctx' dek'. cbn [kms_wrap demo_kms].
  destruct (ctx !! "customer_id") as [customer|]; [|done]. destruct (ctx !! "venue_id") as [venue|]; [|done].
  case_decide as Hctx; [|done]. intros [= <-] (now' & creds' & Hd). cbn [kms_decrypt demo_kms] in Hd.
  rewrite toy_open_seal in Hd. case_decide; [|done]. injection Hd as <-. split; [done|congruence].
Qed.

#[local] Instance demo_policy_env : PolicyEnv := {|
  policy_to_vec p := Some (default "{}" (p_label p)); require_policy_env := Some "1"; policy_pubkey_env := Some (zeros 64)
|}.

(** What the toy Ed25519 accepts under the all-zero key. *)
Definition toy_sign (msg : string) : string := hex_encode (demo_digest (be_bytes 32 0 +:+ msg) +:+ demo_digest msg).

Definition toy_policy (venue : string) : Policy :=
  let unsigned := {|
    p_allowed_actions := None; p_allowed_methods := None; p_allowed_path_prefixes := None;
    p_denied_path_prefixes := None; p_max_requests_per_minute := None; p_label := Some venue;
    p_allowed_asterdex_endpoints := None; p_x402 := p_x402 demo_hl_policy; p_permit2 := p_permit2 demo_permit2_policy;
    p_order_caps := Some [{| oc_symbol := "BTCUSDT"; oc_max_qty := "2"; oc_max_notional := Some "100000" |}];
    p_allowed_vaults := Some [demo_addr]; p_hl_order_caps := p_hl_order_caps demo_hl_policy;
    p_signer_pubkey := None; p_policy_signature := None; p_policy_authority_sig := None;
    p_intent_pubkey := if decide (venue = "binance") then Some (zeros 64) else None |} in
  {| p_allowed_actions := None; p_allowed_methods := None; p_allowed_path_prefixes := None;
     p_denied_path_prefixes := None; p_max_requests_per_minute := None; p_label := p_label unsigned;
     p_allowed_asterdex_endpoints := None; p_x402 := p_x402 unsigned; p_permit2 := p_permit2 unsigned;
     p_order_caps := p_order_caps unsigned; p_allowed_vaults := p_allowed_vaults unsigned;
     p_hl_order_caps := p_hl_order_caps unsigned; p_signer_pubkey := None; p_policy_signature := None;
     p_policy_authority_sig := Some (toy_sign (policy_authority_message "cust" venue venue));
     p_intent_pubkey := p_intent_pubkey unsigned |}.

Definition toy_key : string := be_bytes 32 9.
Definition toy_address : string :=
  match derive_address_from_private_key toy_key with Ok a => "0x" +:+ hex_encode a | Err e => e end.

(** Envelopes as bar-separated text. *)
Definition no_bar (s : string) : bool := negb (contains_char "|" s).
Definition toy_envelope_text (env : Envelope) : option string :=
  if (env_version env =? ENVELOPE_VERSION) && no_bar (env_wrapped_dek env) && no_bar (env_nonce env)
  then Some (env_wrapped_dek env +:+ String "|" (env_nonce env +:+ String "|" (env_ciphertext env)))
  else None.
Definition toy_envelope_read (s : string) : option Envelope :=
  '(w, rest) ← split_once "|" s; '(n, c) ← split_once "|" rest;
  Some {| env_version := ENVELOPE_VERSION; env_wrapped_dek := w; env_nonce := n; env_ciphertext := c |}.

#[local] Instance demo_blob_serde : BlobSerde := {|
  json_of_slice s :=
    if str_in s ["binance"; "hyperliquid_main"; "permit2"; "asterdex"; "x402"]
    then Some (JObj [("policy", JStr s); ("secret", JNull)])
    else env ← toy_envelope_read s; Some (JObj [("version", JNum (PosInt (env_version env)))]);
  envelope_of_slice := toy_envelope_read
|}.

#[local] Instance demo_handler_serde : HandlerSerde := {|
  wrapped_of_json v := match jget "policy" v with Some (JStr venue) => Some (toy_policy venue, JNull) | _ => None end;
  policy_of_str s := if decide (s = "{}") then Some (toy_policy "hyperliquid_main") else None;
  kucoin_of_json _ := None;
  binance_of_json _ := Some {| bn_key := "api"; bn_secret := "secret" |};
  bybit_of_json _ := None;
  okx_of_json _ := None;
  hyperliquid_of_json _ := Some {| hl_exchange := "hyperliquid"; hl_private_key := "0x" +:+ hex_encode toy_key;
                                   hl_wallet_address := toy_address; hl_vault_address := None |};
  asterdex_of_json _ := Some {| as_exchange := "asterdex"; as_private_key := "0x" +:+ hex_encode toy_key;
                                as_signer_address := toy_address |};
  envelope_to_vec := toy_envelope_text;
  json_tree_of_str _ := None
|}.

#[local] Instance demo_size_laws : SizeLaws.
Proof.
  constructor.
  - intros s b Hd. apply demo_hex_decode_length in Hd. lia.
  - intros blob env. cbn [envelope_of_slice demo_blob_serde]. unfold toy_envelope_read.
    destruct (split_once "|" blob) as [[w rest]|] eqn:E1; [|done]. cbn [mbind option_bind].
    destruct (split_once "|" rest) as [[n c]|]; [|done]. intros [= <-]. cbn [env_wrapped_dek].
    apply split_once_Some in E1 as [-> _]. rewrite length_append. lia.
Qed.

Lemma toy_envelope_roundtrip env blob : toy_envelope_text env = Some blob -> toy_envelope_read blob = Some env.
Proof.
  unfold toy_envelope_text, no_bar. destruct env as [v w n c]. cbn [env_version env_wrapped_dek env_nonce env_ciphertext].
  destruct (Z.eqb_spec v ENVELOPE_VERSION) as [->|]; [|done].
  destruct (contains_char "|" w) eqn:Hw; [done|]. destruct (contains_char "|" n) eqn:Hn; [done|]. intros [= <-].
  unfold toy_envelope_read. rewrite split_once_app by done. cbn [mbind option_bind]. by rewrite split_once_app.
Qed.

(** A string with a bar is not the name of a venue. *)
Lemma toy_envelope_json env blob :
  toy_envelope_read blob = Some env -> str_in blob ["binance"; "hyperliquid_main"; "permit2"; "asterdex"; "x402"] = false.
Proof.
  intros Hr. apply not_true_is_false. rewrite str_in_spec. intros Hin.
  repeat (apply elem_of_cons in Hin as [->|Hin]; [vm_compute in Hr; discriminate Hr|]). by apply elem_of_nil in Hin.
Qed.

#[local] Instance demo_envelope_laws : EnvelopeLaws.
Proof.
  constructor. intros env blob Hb%toy_envelope_roundtrip. split; [exact Hb|].
  exists (JObj [("version", JNum (PosInt (env_version env)))]). split; [|reflexivity].
  cbn [json_of_slice demo_blob_serde]. rewrite (toy_envelope_json _ _ Hb), Hb. reflexivity.
Qed.

(** ** The requests *)

Definition demo_credentials : AwsCredentials := {| access_key_id := "AK"; secret_access_key := "SK"; session_token := "ST" |}.

(** A request for a tenant's venue, with one structured payload. *)
Definition toy_request (action token blob : string) (refresh : option RegistryRefreshParams) (order : option OrderRequest)
    (intent : option string) (hl : option json) (x : option X402Request) (p2 : option Permit2Request) (body : option string) : SignRequest :=
  {| r_action := action; r_proto_version := 1; r_opaque_token := Some token; r_method := (fun _ => "POST") <$> body;
     r_path := None; r_body := body; r_timestamp_ms := Some 1700000000000; r_key_blob_s3_key := None; r_key_id := None;
     r_aws_credentials := Some demo_credentials; r_ciphertext_blob_base64 := Some (b64_encode blob); r_query := None;
     r_op := None; r_payload := None; r_hl_action := hl; r_nonce := Some 7; r_vault_address := None; r_x402 := x;
     r_permit2 := p2; r_order := order; r_cancel := None; r_data := None; r_registry_refresh := refresh;
     r_intent_signature := intent; r_intent_nonce := None; r_attestation_nonce := None;
     r_attestation_user_data := None; r_client_nonce := None; r_provision_venue := None;
     r_provision_customer_id := None; r_provision_policy := None |}.

Definition ask_challenge : SignRequest := toy_request "registry_challenge" "" "" None None None None None None None.

Definition ask_refresh : SignRequest :=
  toy_request "registry_refresh" "" (toy_seal "registry-system" "registry" "registry")
    (Some {| rr_nonce_hex := hex_encode (be_bytes 32 5); rr_version := 1;
             rr_signature_hex := toy_sign (signed_message (be_bytes 32 5) 1 (sha256 "registry")) |})
    None None None None None None.

Definition ask_order : SignRequest :=
  toy_request "sign_binance_order" "tok" (toy_seal "cust" "binance" "binance") None (Some demo_order)
    (Some (toy_sign (build_agent_intent_msg_order "cust" "binance" "sign_binance_order" 1700000000000 "coid-1" demo_order)))
    None None None None.

(** The same order again, under another client order id. *)
Definition demo_order2 : OrderRequest :=
  {| o_symbol := "BTCUSDT"; o_side := "buy"; o_qty := "0.5"; o_ord_type := "limit"; o_price := Some "100";
     o_reduce_only := false; o_client_order_id := Some "coid-2" |}.

Definition ask_order2 : SignRequest :=
  toy_request "sign_binance_order" "tok" (toy_seal "cust" "binance" "binance") None (Some demo_order2)
    (Some (toy_sign (build_agent_intent_msg_order "cust" "binance" "sign_binance_order" 1700000000000 "coid-2" demo_order2)))
    None None None None.

Definition ask_x402 : SignRequest :=
  toy_request "sign_x402_eip3009" "pay" (toy_seal X402_CUSTOMER_ID "x402" "x402") None None None None
    (Some {| x_token_name := "USDC"; x_token_version := "2"; x_chain_id := 8453; x_token_address := demo_addr;
             x_from := toy_address; x_to := demo_addr; x_value := "1000000"; x_valid_after := 0;
             x_valid_before := 1700000600; x_nonce := "0x" +:+ zeros 64 |}) None None.

Definition ask_permit2 : SignRequest :=
  toy_request "sign_permit2_permit_single" "tok" (toy_seal "cust" "permit2" "permit2") None None None None None
    (Some {| q_chain_id := 1; q_verifying_contract := demo_addr; q_token := demo_addr; q_amount := "500";
             q_expiration := 1700000000; q_nonce := 0; q_spender := demo_addr; q_sig_deadline := "1700000600" |}) None.

Definition ask_hl : SignRequest :=
  toy_request "sign_hyperliquid_main_order" "tok" (toy_seal "cust" "hyperliquid_main" "hyperliquid_main") None None None
    (Some (demo_hl_action [demo_hl_order "0.5" "100"; demo_hl_order "1" "100"])) None None None.

Definition ask_asterdex : SignRequest :=
  toy_request "sign_asterdex" "tok" (toy_seal "cust" "asterdex" "asterdex") None None None None None None
    (Some ("symbol=BTCUSDT&side=BUY&type=LIMIT&quantity=1.5&price=60000&nonce=1700000000000000&signer=" +:+ toy_address)).

Definition ask_provision : SignRequest :=
  {| r_action := "provision_agent_key"; r_proto_version := 1; r_opaque_token := None; r_method := None; r_path := None;
     r_body := None; r_timestamp_ms := None; r_key_blob_s3_key := None; r_key_id := Some "kms-key";
     r_aws_credentials := Some demo_credentials; r_ciphertext_blob_base64 := None; r_query := None; r_op := None;
     r_payload := None; r_hl_action := None; r_nonce := None; r_vault_address := None; r_x402 := None; r_permit2 := None;
     r_order := None; r_cancel := None; r_data := None; r_registry_refresh := None; r_intent_signature := None;
     r_intent_nonce := None; r_attestation_nonce := None; r_attestation_user_data := None; r_client_nonce := None;
     r_provision_venue := Some "hyperliquid_main"; r_provision_customer_id := Some "cust";
     r_provision_policy := Some "{}" |}.

Definition requests : list SignRequest :=
  [ask_challenge; ask_refresh; ask_order; ask_x402; ask_permit2; ask_hl; ask_asterdex; ask_provision; ask_order2].

(** ** The run *)

Definition demo_limiter : RateLimiter := RateLimiter_new 10 1.
Definition demo_oracle (n : nat) : Oracle :=
  {| o_now := Z.of_nat n; o_random k := be_bytes k 5; o_key := be_bytes 32 9; o_nsm _ _ _ := None |}.
Definition demo_run_cf : Config :=
  serve_all demo_limiter handle demo_oracle requests {| cf_state := enclave_boot 60 16; cf_threads := [] |}.

Lemma demo_reachable : reachable demo_limiter 60 16 demo_run_cf.
Proof.
  apply serve_all_reaches. intros n. split; [reflexivity|]. split; [reflexivity|]. intros k. apply length_be_bytes.
Qed.

Definition thread_response (t : option (SignRequest * prog SignResponse)) : SignResponse :=
  match t with Some (_, Ret resp) => resp | _ => resp_err err_code.INTERNAL_ERROR end.
Definition demo_response (n : nat) : SignResponse := thread_response (cf_threads demo_run_cf !! n).


Definition finished (p : prog SignResponse) : bool := match p with Ret _ => true | Call _ _ => false end.
Definition outcome (t : SignRequest * prog SignResponse) : SignRequest * bool * option string :=
  (fst t, finished (snd t), s_error (thread_response (Some t))).

(** The whole run, evaluated: who was asked what, and that everybody was served. *)
Lemma demo_transcript : outcome <$> cf_threads demo_run_cf = (fun req => (req, true, None)) <$> requests.
Proof. vm_compute. reflexivity. Qed.

Lemma transcript_served ts (reqs : list SignRequest) n req :
  outcome <$> ts = (fun req => (req, true, None)) <$> reqs -> reqs !! n = Some req ->
  ts !! n = Some (req, Ret (thread_response (ts !! n))) /\ s_error (thread_response (ts !! n)) = None.
Proof.
  intros Ht Hn. apply (f_equal (lookup n)) in Ht. rewrite !list_lookup_fmap, Hn in Ht.
  destruct (ts !! n) as [[req' p]|] eqn:E; [|done]. cbn [fmap option_fmap option_map] in Ht. unfold outcome in Ht. cbn [fst snd] in Ht.
  injection Ht as -> Hf Herr. by destruct p.
Qed.

Lemma demo_thread n req :
  requests !! n = Some req ->
  cf_threads demo_run_cf !! n = Some (req, Ret (demo_response n)) /\ s_error (demo_response n) = None.
Proof. exact (transcript_served _ _ n req demo_transcript). Qed.

Lemma demo_served n req :
  requests !! n = Some req ->
  (req, Ret (demo_response n)) ∈ cf_threads demo_run_cf /\ s_error (demo_response n) = None.
Proof.
  intros Hn. destruct (demo_thread n req Hn) as [Hl Herr]. split; [|exact Herr]. exact (list_elem_of_lookup_2 _ _ _ Hl).
Qed.

(** ** Instances of the theorems *)

Lemma signature_needs_authority_witness :
  exists token reg identity venue,
    r_opaque_token ask_order = Some token /\ registry_signed reg /\ resolve token reg = Some identity /\
    venue_for_action (r_action ask_order) = Some venue /\ venue_allowed identity venue = true.
Proof.
  destruct (demo_served 2 ask_order eq_refl) as [Hin Herr].
  destruct (signature_needs_authority demo_limiter 60 16 demo_run_cf ask_order (demo_response 2) demo_reachable Hin)
    as (token & reg & identity & venue & policy & secret & h & H1 & H2 & H3 & H4 & H5 & H6 & _).
  - apply (bool_decide_unpack _). vm_compute. exact I.
  - exact Herr.
  - exists token, reg, identity, venue. repeat (split; [assumption|]). assumption.
Defined.

Lemma order_signature_within_policy_witness :
  exists identity resp0, admitted ask_order identity /\ id_mode identity = Active /\
    order_signed ask_order identity resp0 /\ receipted resp0 (demo_response 2).
Proof.
  destruct (demo_served 2 ask_order eq_refl) as [Hin Herr].
  apply (order_signature_within_policy demo_limiter 60 16 demo_run_cf ask_order (demo_response 2) demo_reachable Hin).
  - apply (bool_decide_unpack _). vm_compute. exact I.
  - exact Herr.
Defined.

Lemma x402_signature_within_policy_witness :
  exists identity resp0, admitted ask_x402 identity /\ id_mode identity = Active /\
    id_customer_id identity = X402_CUSTOMER_ID /\ x402_signed ask_x402 identity resp0 /\
    receipted resp0 (demo_response 3).
Proof.
  destruct (demo_served 3 ask_x402 eq_refl) as [Hin Herr].
  apply (x402_signature_within_policy demo_limiter 60 16 demo_run_cf ask_x402 (demo_response 3) demo_reachable Hin);
    [reflexivity|exact Herr].
Defined.

Lemma permit2_signature_within_policy_witness :
  exists identity resp0, admitted ask_permit2 identity /\ id_mode identity = Active /\
    permit2_signed ask_permit2 identity resp0 /\ receipted resp0 (demo_response 4).
Proof.
  destruct (demo_served 4 ask_permit2 eq_refl) as [Hin Herr].
  apply (permit2_signature_within_policy demo_limiter 60 16 demo_run_cf ask_permit2 (demo_response 4) demo_reachable Hin);
    [reflexivity|exact Herr].
Defined.

Lemma hl_mainnet_signature_within_caps_witness :
  exists identity p caps orders,
    verify_policy_authority p (id_customer_id identity) "hyperliquid_main" = Ok () /\
    p_hl_order_caps p = Some caps /\ (length orders <= 64)%nat /\ batch_within caps orders.
Proof.
  destruct (demo_served 5 ask_hl eq_refl) as [Hin Herr].
  destruct (hl_mainnet_signature_within_caps demo_limiter 60 16 demo_run_cf ask_hl (demo_response 5) demo_reachable Hin)
    as (identity & resp0 & p & caps & action & orders & _ & _ & _ & _ & Hauth & Hcaps & _ & _ & _ & Hlen & Hw);
    [reflexivity|exact Herr|].
  exists identity, p, caps, orders. auto.
Defined.

Lemma asterdex_signature_within_policy_witness :
  exists identity resp0, admitted ask_asterdex identity /\ asterdex_signed ask_asterdex identity resp0 /\
    receipted resp0 (demo_response 6).
Proof.
  destruct (demo_served 6 ask_asterdex eq_refl) as [Hin Herr].
  apply (asterdex_signature_within_policy demo_limiter 60 16 demo_run_cf ask_asterdex (demo_response 6) demo_reachable Hin);
    [reflexivity|exact Herr].
Defined.

Lemma provisioned_key_isolated_witness : agent_key_minted ask_provision (demo_response 7).
Proof.
  destruct (demo_served 7 ask_provision eq_refl) as [Hin Herr].
  apply (provisioned_key_isolated demo_limiter 60 16 demo_run_cf ask_provision (demo_response 7) demo_reachable Hin);
    [reflexivity|exact Herr].
Defined.

Lemma order_intent_single_use_witness :
  exists (h : list (nat * event)) policy1 id1 policy2 id2,
    (2%nat, ev (IntentOrder policy1 id1 "binance" "sign_binance_order" 1700000000000 demo_order ask_order) (Ok ())) ∈ h /\
    (8%nat, ev (IntentOrder policy2 id2 "binance" "sign_binance_order" 1700000000000 demo_order2 ask_order2) (Ok ())) ∈ h.
Proof.
  destruct (rtc_cstep_history demo_limiter handle _ _ [] demo_reachable) as [h Hh]. exists h.
  destruct (order_intent_single_use demo_limiter 60 16 demo_run_cf h 2%nat 8%nat ask_order (demo_response 2) ask_order2
    (demo_response 8) Hh
    (proj1 (demo_thread 2 ask_order eq_refl)) (proj1 (demo_thread 8 ask_order2 eq_refl)))
    as (policy1 & id1 & ts1 & order1 & policy2 & id2 & ts2 & order2 & Ho1 & Ht1 & Ho2 & Ht2 & He1 & He2 & _).
  - discriminate.
  - apply (bool_decide_unpack _). vm_compute. exact I.
  - apply (bool_decide_unpack _). vm_compute. exact I.
  - apply (demo_served 2 ask_order eq_refl).
  - apply (demo_served 8 ask_order2 eq_refl).
  - apply (accepted_bounded demo_limiter 60 16 (demo_run_cf, h) Hh). vm_compute. reflexivity.
  - injection Ho1 as <-. injection Ht1 as <-. injection Ho2 as <-. injection Ht2 as <-.
    exists policy1, id1, policy2, id2. split; [exact He1|exact He2].
Defined.
