(* ===== verification/KmsClient.v ===== *)
(** * The KMS client and its child process (kms_client.rs, secrets_stdin.h)

    The enclave reaches KMS through a child process: arguments on its command
    line, secrets on its standard input.  The first part is the Rust side of
    kms_client.rs; the second is the child of the vendored tool, its reader of
    standard input written out from secrets_stdin.h and its command from
    main.c, over the SDK it is linked with.  The theorems show that the two
    together are the direct call the handlers of [Handler] make. *)

From S2P Require Import Prelude RustStr Decimal Crates Proto Program Provision Scenario.

Open Scope string_scope.
Open Scope list_scope.
Open Scope Z_scope.

Definition LF : ascii := "010".
Definition CR : ascii := "013".
Definition NUL : ascii := "000".

(** ** The Rust side *)

Definition REGION : string := "us-east-1".
Definition PROXY_PORT : Z := 8000.

Record Output := { out_success : bool; out_stdout : string; out_stderr : string }.
(** What becomes of a child: each of the steps around it may fail. *)
Inductive ChildFault := SpawnFailed | NoStdin | WriteFailed | WaitFailed.
Inductive Child := Faulted (f : ChildFault) | Exited (o : Output).
(** The child process, given its arguments and what it is sent on standard input. *)
Class Kmstool := kmstool : Z -> list string -> string -> Child.

(** [to_lowercase]: outside ASCII only the Kelvin sign and the dotted capital I
    have lower-case forms with an ASCII letter, a [k], which no mark has, and an
    [i] followed by a combining dot, which no mark has either. *)
Definition stderr_says (marks : list string) (stderr : string) : bool :=
  let lc := to_ascii_lowercase (from_utf8_lossy stderr) in existsb (fun mark => contains mark lc) marks.
Definition DECRYPT_DENIALS : list string := ["accessdenied"; "access denied"; "not authorized"; "invalidciphertext"; "pcr"].
Definition ENCRYPT_DENIALS : list string := ["accessdenied"; "access denied"; "not authorized"; "pcr"].

Definition secret_ok (value : string) : bool :=
  negb (contains_char LF value || contains_char CR value) && negb (is_empty value).
Definition record_line (key value : string) : string := key +:+ "=" +:+ value +:+ String LF "".

Definition build_stdin_secrets (creds : AwsCredentials) (dek_b64 : option string) : option string :=
  if forallb secret_ok ([access_key_id creds; secret_access_key creds; session_token creds] ++ option_list dek_b64)
  then Some (record_line "AWS_ACCESS_KEY_ID" (access_key_id creds) +:+
             record_line "AWS_SECRET_ACCESS_KEY" (secret_access_key creds) +:+
             record_line "AWS_SESSION_TOKEN" (session_token creds) +:+
             match dek_b64 with Some dek => record_line "PLAINTEXT_B64" dek | None => "" end)
  else None.

Definition encrypt_argv (tail : list string) : list string :=
  ["encrypt"; "--secrets-from-stdin"; "--region"; REGION; "--proxy-port"; u64_to_string PROXY_PORT] ++ tail.
Definition decrypt_argv (ciphertext_b64 : string) : list string :=
  ["decrypt"; "--secrets-from-stdin"; "--region"; REGION; "--proxy-port"; u64_to_string PROXY_PORT;
   "--ciphertext"; ciphertext_b64].

Definition has_forbidden (s : string) : bool :=
  contains_char "=" s || contains_char NUL s || existsb (fun w => contains w s) white_space.
Definition validate_context_pair (key value : string) : result KmsError () :=
  if is_empty key || is_empty value || has_forbidden key || has_forbidden value then Err KmsInternal else Ok tt.

(** The loop over the sorted keys, in [decrypt] and in [build_encrypt_args]. *)
Fixpoint context_args (ctx : Context_) (keys : list string) : result KmsError (list string) :=
  match keys with
  | [] => Ok []
  | k :: rest =>
      let v := default "" (ctx !! k) in
      _ ← validate_context_pair k v;
      args ← context_args ctx rest;
      Ok ("--encryption-context" :: (k +:+ "=" +:+ v) :: args)
  end.
Definition sorted_keys (ctx : Context_) : list string := merge_sort str_le (map_to_list ctx).*1.
Definition build_encrypt_args (key_id : string) (ctx : Context_) : result KmsError (list string) :=
  if decide (ctx = ∅) then Err KmsInternal
  else args ← context_args ctx (sorted_keys ctx); Ok (["--key-id"; key_id] ++ args).

Definition parse_kmstool_line (stdout prefix : string) : option string :=
  s ← from_utf8 stdout;
  first_some (fun line =>
    let trimmed := trim line in
    head ← get_to (String.length prefix) trimmed;
    if eq_ignore_ascii_case head prefix then Some (trim (str_drop (String.length prefix) trimmed)) else None) (lines s).
Definition parse_kmstool_stdout (stdout : string) : option string := parse_kmstool_line stdout "PLAINTEXT:".

(** Every path that spawned a child also reaps it. *)
Inductive ChildOp := Kill | Wait.
Definition run_with_stdin_secrets (c : Child) : option Output * list ChildOp :=
  match c with
  | Faulted SpawnFailed => (None, [])
  | Faulted (NoStdin | WriteFailed) => (None, [Kill; Wait])
  | Faulted WaitFailed => (None, [Wait])
  | Exited o => (Some o, [Wait])
  end.

Section Client.
Context `{Crates} {child_process : Kmstool}.

Definition wrap_dek_with_context (now : Z) (creds : AwsCredentials) (key_id dek : string) (encryption_context : option Context_)
    : result KmsError string :=
  match encryption_context with
  | None => Err KmsInternal
  | Some ctx =>
      if decide (ctx = ∅) then Err KmsInternal
      else if negb (String.length dek =? 32)%nat then Err KmsInternal
      else
        tail ← build_encrypt_args key_id ctx;
        payload ← ok_or (build_stdin_secrets creds (Some (b64_encode dek))) KmsInternal;
        output ← ok_or (run_with_stdin_secrets (kmstool now (encrypt_argv tail) payload)).1 KmsInternal;
        if negb (out_success output)
        then Err (if stderr_says ENCRYPT_DENIALS (out_stderr output) then AccessDenied else KmsInternal)
        else
          ciphertext_b64 ← ok_or (parse_kmstool_line (out_stdout output) "CIPHERTEXT:") KmsInternal;
          wrapped ← ok_or (b64_decode ciphertext_b64) KmsInternal;
          if is_empty wrapped then Err KmsInternal else Ok wrapped
  end.

Definition decrypt (now : Z) (creds : AwsCredentials) (ciphertext : string) (encryption_context : option Context_)
    : result KmsError string :=
  args ← match encryption_context with Some ctx => context_args ctx (sorted_keys ctx) | None => Ok [] end;
  let argv := decrypt_argv (b64_encode ciphertext) ++ args in
  payload ← ok_or (build_stdin_secrets creds None) KmsInternal;
  output ← ok_or (run_with_stdin_secrets (kmstool now argv payload)).1 KmsInternal;
  if negb (out_success output)
  then Err (if stderr_says DECRYPT_DENIALS (out_stderr output) then AccessDenied else KmsInternal)
  else
    plaintext_b64 ← ok_or (parse_kmstool_stdout (out_stdout output)) KmsInternal;
    ok_or (b64_decode plaintext_b64) KmsInternal.

(** What the handlers call. *)
Definition client_kms : Kms := {|
  kms_decrypt now creds ciphertext ctx := decrypt now creds ciphertext (Some ctx);
  kms_wrap now creds key_id dek ctx := wrap_dek_with_context now creds key_id dek (Some ctx)
|}.
End Client.

(** ** The child: secrets_stdin.h *)

Definition KMSTOOL_STDIN_MAX_VALUE : nat := 8 * 1024.
Definition KMSTOOL_STDIN_MAX_LINES : nat := 8.

Inductive StdinError := LineTooLong | TooManyLines | NoEquals | UnknownKey | DuplicateKey | EmptyValue.
Record StdinSecrets := {
  ss_access_key_id : option string; ss_secret_access_key : option string; ss_session_token : option string;
  ss_plaintext_b64 : option string
}.
Definition no_secrets : StdinSecrets :=
  {| ss_access_key_id := None; ss_secret_access_key := None; ss_session_token := None; ss_plaintext_b64 := None |}.

Definition kmstool_stdin_assign (out : StdinSecrets) (key value : string) : result StdinError StdinSecrets :=
  let '{| ss_access_key_id := a; ss_secret_access_key := s; ss_session_token := t; ss_plaintext_b64 := p |} := out in
  let put slot out' := match slot with Some _ => Err DuplicateKey | None => Ok out' end in
  if decide (key = "AWS_ACCESS_KEY_ID") then
    put a {| ss_access_key_id := Some value; ss_secret_access_key := s; ss_session_token := t; ss_plaintext_b64 := p |}
  else if decide (key = "AWS_SECRET_ACCESS_KEY") then
    put s {| ss_access_key_id := a; ss_secret_access_key := Some value; ss_session_token := t; ss_plaintext_b64 := p |}
  else if decide (key = "AWS_SESSION_TOKEN") then
    put t {| ss_access_key_id := a; ss_secret_access_key := s; ss_session_token := Some value; ss_plaintext_b64 := p |}
  else if decide (key = "PLAINTEXT_B64") then
    put p {| ss_access_key_id := a; ss_secret_access_key := s; ss_session_token := t; ss_plaintext_b64 := Some value |}
  else Err UnknownKey.

(** A C string ends at its first NUL. *)
Fixpoint c_str (s : string) : string :=
  match s with
  | EmptyString => EmptyString
  | String c s' => if decide (c = NUL) then EmptyString else String c (c_str s')
  end.
(** The string without a last [c]. *)
Fixpoint chop (c : ascii) (s : string) : option string :=
  match s with
  | EmptyString => None
  | String d EmptyString => if decide (d = c) then Some EmptyString else None
  | String d s' => String d <$> chop c s'
  end.
(** [fgets] with room for [n] characters. *)
Fixpoint fgets (n : nat) (s : string) : string * string :=
  match n, s with
  | S n', String c s' =>
      if decide (c = LF) then (String c "", s') else let '(line, rest) := fgets n' s' in (String c line, rest)
  | _, _ => (EmptyString, s)
  end.

(** The loop body, after the line count. *)
Definition read_line (raw : string) (out : StdinSecrets) : result StdinError StdinSecrets :=
  let line := c_str raw in
  if bool_decide (chop LF line = None) && (String.length line =? KMSTOOL_STDIN_MAX_VALUE + 1)%nat then Err LineTooLong
  else
    let line := default line (chop LF line) in
    let line := default line (chop CR line) in
    if is_empty line then Ok out
    else match split_once "=" line with
         | None => Err NoEquals
         | Some (key, val) =>
             if is_empty val then Err EmptyValue
             else if (KMSTOOL_STDIN_MAX_VALUE <? String.length val)%nat then Err LineTooLong
             else kmstool_stdin_assign out key val
         end.

(** The loop; each turn reads at least one byte, so the length of the stream is
    fuel enough.  Allocation and read errors are not modelled. *)
Fixpoint read_lines (fuel count : nat) (input : string) (out : StdinSecrets) : result StdinError StdinSecrets :=
  match fuel, input with
  | S fuel, String _ _ =>
      let '(raw, rest) := fgets (KMSTOOL_STDIN_MAX_VALUE + 1) input in
      if (KMSTOOL_STDIN_MAX_LINES <? S count)%nat then Err TooManyLines
      else out ← read_line raw out; read_lines fuel (S count) rest out
  | _, _ => Ok out
  end.
Definition kmstool_stdin_read_secrets (input : string) : result StdinError StdinSecrets :=
  read_lines (String.length input) 0 input no_secrets.

(** ** The child: main.c *)

Inductive OptArg := NoArgument | RequiredArgument.
Definition s_long_options : list (string * (OptArg * ascii)) :=
  [("region", (RequiredArgument, "r"%char)); ("proxy-port", (RequiredArgument, "x"%char));
   ("aws-access-key-id", (RequiredArgument, "k"%char)); ("aws-secret-access-key", (RequiredArgument, "s"%char));
   ("aws-session-token", (RequiredArgument, "t"%char)); ("ciphertext", (RequiredArgument, "c"%char));
   ("key-id", (RequiredArgument, "K"%char)); ("key-spec", (RequiredArgument, "p"%char));
   ("encryption-algorithm", (RequiredArgument, "a"%char)); ("encryption-context", (RequiredArgument, "e"%char));
   ("length", (RequiredArgument, "l"%char)); ("plaintext", (RequiredArgument, "P"%char));
   ("secrets-from-stdin", (NoArgument, "S"%char)); ("help", (NoArgument, "h"%char))].

(** A long option on a command line, and the code and value it is read as. *)
Definition words (o : string * option string) : list string := ("--" +:+ o.1) :: option_list o.2.
Fixpoint option_code (table : list (string * (OptArg * ascii))) (o : string * option string) : option (ascii * string) :=
  match table with
  | [] => None
  | (name, (takes, code)) :: rest =>
      if decide (name = o.1) then
        match takes, o.2 with
        | RequiredArgument, Some v => Some (code, v)
        | NoArgument, None => Some (code, "")
        | _, _ => None
        end
      else option_code rest o
  end.

(** [atoi] on a decimal number. *)
Fixpoint digit_prefix (s : string) : string :=
  match s with
  | String c s' => if is_ascii_digit c then String c (digit_prefix s') else EmptyString
  | EmptyString => EmptyString
  end.
Definition atoi (s : string) : Z := msf_val (str_digits (digit_prefix s)).

(** What the tool is linked with: the option parser, base64, and the two KMS
    calls (region, port, credentials, key, algorithm), which print to standard
    error when they fail.  [host_fault] says whether the system runs the child. *)
Class NitroSdk := {
  getopt_long : list string -> list (ascii * string);
  aws_b64_encode : string -> string;
  aws_b64_decode : string -> option string;
  sdk_decrypt : Z -> string -> Z -> AwsCredentials -> option string -> option string -> string -> Context_ -> result string string;
  sdk_encrypt : Z -> string -> Z -> AwsCredentials -> string -> string -> Context_ -> result string string;
  usage : string -> string;
  other_command : list string -> string -> Output;
  host_fault : Z -> option ChildFault
}.

Record AppCtx := {
  ax_region : option string; ax_proxy_port : Z; ax_secrets_from_stdin : bool;
  ax_access_key : option string; ax_secret_key : option string; ax_session : option string;
  ax_ciphertext_b64 : option string; ax_key_id : option string; ax_algorithm : option string;
  ax_plaintext_b64 : option string; ax_context : Context_
}.

(** [s_parse_encryption_context_arg]: up to the first [=], then the rest. *)
Definition parse_encryption_context_arg (m : Context_) (arg : string) : Context_ :=
  match split_once "=" arg with Some (k, v) => <[k := v]> m | None => m end.

Inductive Subcommand := CmdDecrypt | CmdEncrypt.
Definition set_stdin_flag (x : AppCtx) : AppCtx :=
  {| ax_region := ax_region x; ax_proxy_port := ax_proxy_port x; ax_secrets_from_stdin := true; ax_access_key := ax_access_key x;
     ax_secret_key := ax_secret_key x; ax_session := ax_session x; ax_ciphertext_b64 := ax_ciphertext_b64 x; ax_key_id := ax_key_id x;
     ax_algorithm := ax_algorithm x; ax_plaintext_b64 := ax_plaintext_b64 x; ax_context := ax_context x |}.
Definition set_region (v : string) (x : AppCtx) : AppCtx :=
  {| ax_region := Some v; ax_proxy_port := ax_proxy_port x; ax_secrets_from_stdin := ax_secrets_from_stdin x;
     ax_access_key := ax_access_key x; ax_secret_key := ax_secret_key x; ax_session := ax_session x;
     ax_ciphertext_b64 := ax_ciphertext_b64 x; ax_key_id := ax_key_id x; ax_algorithm := ax_algorithm x;
     ax_plaintext_b64 := ax_plaintext_b64 x; ax_context := ax_context x |}.
Definition set_port (p : Z) (x : AppCtx) : AppCtx :=
  {| ax_region := ax_region x; ax_proxy_port := p; ax_secrets_from_stdin := ax_secrets_from_stdin x;
     ax_access_key := ax_access_key x; ax_secret_key := ax_secret_key x; ax_session := ax_session x;
     ax_ciphertext_b64 := ax_ciphertext_b64 x; ax_key_id := ax_key_id x; ax_algorithm := ax_algorithm x;
     ax_plaintext_b64 := ax_plaintext_b64 x; ax_context := ax_context x |}.
(** The four secrets. *)
Definition set_secrets (a s t p : option string) (x : AppCtx) : AppCtx :=
  {| ax_region := ax_region x; ax_proxy_port := ax_proxy_port x; ax_secrets_from_stdin := ax_secrets_from_stdin x;
     ax_access_key := a; ax_secret_key := s; ax_session := t;
     ax_ciphertext_b64 := ax_ciphertext_b64 x; ax_key_id := ax_key_id x; ax_algorithm := ax_algorithm x;
     ax_plaintext_b64 := p; ax_context := ax_context x |}.
(** What the request is about. *)
Definition set_request (c k a : option string) (m : Context_) (x : AppCtx) : AppCtx :=
  {| ax_region := ax_region x; ax_proxy_port := ax_proxy_port x; ax_secrets_from_stdin := ax_secrets_from_stdin x;
     ax_access_key := ax_access_key x; ax_secret_key := ax_secret_key x; ax_session := ax_session x;
     ax_ciphertext_b64 := c; ax_key_id := k; ax_algorithm := a; ax_plaintext_b64 := ax_plaintext_b64 x; ax_context := m |}.

(** One option; [None] prints the usage and exits. *)
Definition option_step (sub : Subcommand) (code : ascii) (arg : string) (x : AppCtx) : option AppCtx :=
  let secrets := set_secrets in
  match code, sub with
  | "r", _ => Some (set_region arg x)
  | "x", _ => Some (set_port (atoi arg) x)
  | "S", _ => Some (set_stdin_flag x)
  | "k", _ => Some (secrets (Some arg) (ax_secret_key x) (ax_session x) (ax_plaintext_b64 x) x)
  | "s", _ => Some (secrets (ax_access_key x) (Some arg) (ax_session x) (ax_plaintext_b64 x) x)
  | "t", _ => Some (secrets (ax_access_key x) (ax_secret_key x) (Some arg) (ax_plaintext_b64 x) x)
  | "h", _ => None
  | "c", CmdDecrypt => Some (set_request (Some arg) (ax_key_id x) (ax_algorithm x) (ax_context x) x)
  | "a", CmdDecrypt => Some (set_request (ax_ciphertext_b64 x) (ax_key_id x) (Some arg) (ax_context x) x)
  | "K", _ => Some (set_request (ax_ciphertext_b64 x) (Some arg) (ax_algorithm x) (ax_context x) x)
  | "P", CmdEncrypt => Some (secrets (ax_access_key x) (ax_secret_key x) (ax_session x) (Some arg) x)
  | "e", _ => Some (set_request (ax_ciphertext_b64 x) (ax_key_id x) (ax_algorithm x) (parse_encryption_context_arg (ax_context x) arg) x)
  | _, _ => None
  end%char.

Fixpoint option_loop (sub : Subcommand) (opts : list (ascii * string)) (x : AppCtx) : option AppCtx :=
  match opts with
  | [] => Some x
  | (code, arg) :: rest => x ← option_step sub code arg x; option_loop sub rest x
  end.

Definition failed (stderr : string) : Output := {| out_success := false; out_stdout := ""; out_stderr := stderr |}.
Definition printed (stdout : string) : Output := {| out_success := true; out_stdout := stdout; out_stderr := "" |}.

Section Child.
Context `{NitroSdk}.

(** [secrets_from_stdin] is the one field [s_parse_options] does not set first. *)
Definition fresh_ctx (garbage : bool) : AppCtx :=
  {| ax_region := None; ax_proxy_port := 8000; ax_secrets_from_stdin := garbage; ax_access_key := None; ax_secret_key := None;
     ax_session := None; ax_ciphertext_b64 := None; ax_key_id := None; ax_algorithm := None; ax_plaintext_b64 := None;
     ax_context := ∅ |}.

(** After the option loop: secrets from standard input, never mixed with flags. *)
Definition take_secrets (stdin : string) (x : AppCtx) : result string AppCtx :=
  if negb (ax_secrets_from_stdin x) then Ok x
  else match ax_access_key x, ax_secret_key x, ax_session x, ax_plaintext_b64 x with
       | None, None, None, None =>
           match kmstool_stdin_read_secrets stdin with
           | Err _ => Err "--secrets-from-stdin: malformed"
           | Ok s => Ok (set_secrets (ss_access_key_id s) (ss_secret_access_key s) (ss_session_token s) (ss_plaintext_b64 s) x)
           end
       | _, _, _, _ => Err "--secrets-from-stdin was given together with a secret flag"
       end.

(** The required-argument checks. *)
Record Ready := { rd_region : string; rd_creds : AwsCredentials }.
Definition check_required (x : AppCtx) : result string Ready :=
  a ← ok_or (ax_access_key x) "--aws-access-key-id must be set";
  s ← ok_or (ax_secret_key x) "--aws-secret-access-key must be set";
  t ← ok_or (ax_session x) "--aws-session-token must be set";
  Ok {| rd_region := default "us-east-1" (ax_region x);
        rd_creds := {| access_key_id := a; secret_access_key := s; session_token := t |} |}.

Definition parse_options (garbage : bool) (sub : Subcommand) (argv : list string) (stdin : string) : result string (AppCtx * Ready) :=
  x ← ok_or (option_loop sub (getopt_long argv) (fresh_ctx garbage)) (usage (default "" (head argv)));
  x ← take_secrets stdin x;
  r ← check_required x;
  Ok (x, r).

(** [decrypt] and [encrypt_data], then what [main] prints. *)
Definition run_decrypt (now : Z) (x : AppCtx) (r : Ready) : result string string :=
  ciphertext_b64 ← ok_or (ax_ciphertext_b64 x) "--ciphertext must be set";
  ciphertext ← ok_or (aws_b64_decode ciphertext_b64) "Ciphertext not a base64 string";
  plaintext ← sdk_decrypt now (rd_region r) (ax_proxy_port x) (rd_creds r) (ax_key_id x) (ax_algorithm x) ciphertext (ax_context x);
  Ok ("PLAINTEXT: " +:+ aws_b64_encode plaintext +:+ String LF "").
Definition run_encrypt (now : Z) (x : AppCtx) (r : Ready) : result string string :=
  key_id ← ok_or (ax_key_id x) "--key-id must be set";
  plaintext_b64 ← ok_or (ax_plaintext_b64 x) "--plaintext must be set";
  if decide (ax_context x = ∅) then Err "--encryption-context must be set at least once"
  else
    plaintext ← ok_or (aws_b64_decode plaintext_b64) "Plaintext not a base64 string";
    ciphertext ← sdk_encrypt now (rd_region r) (ax_proxy_port x) (rd_creds r) key_id plaintext (ax_context x);
    Ok ("CIPHERTEXT: " +:+ aws_b64_encode ciphertext +:+ String LF "").

Definition kmstool_main (garbage : bool) (now : Z) (argv : list string) (stdin : string) : Output :=
  let run sub body :=
    match (p ← parse_options garbage sub argv stdin; body now p.1 p.2) with Ok out => printed out | Err msg => failed msg end in
  match head argv with
  | Some "decrypt" => run CmdDecrypt run_decrypt
  | Some "encrypt" => run CmdEncrypt run_encrypt
  | _ => other_command argv stdin
  end.

(** A command line with a NUL in it is refused before the child exists. *)
Definition nitro_tool (garbage : bool) : Kmstool := fun now argv stdin =>
  match host_fault now with
  | Some f => Faulted f
  | None => if existsb (contains_char NUL) argv then Faulted SpawnFailed else Exited (kmstool_main garbage now argv stdin)
  end.
End Child.

#[local] Arguments KMSTOOL_STDIN_MAX_VALUE : simpl never.

(** ** Lines through the pipe *)

Lemma fgets_line line rest n : contains_char LF line = false -> (String.length line < n)%nat ->
  fgets n (line +:+ String LF rest) = (line +:+ String LF "", rest).
Proof.
  revert n. induction line as [|c line IH]; intros [|n] Hc Hn; cbn in Hn; try lia; cbn [String.append fgets].
  - by rewrite decide_True.
  - cbn [contains_char] in Hc. apply orb_false_iff in Hc as [Hc Hl]. apply bool_decide_eq_false in Hc.
    rewrite decide_False by done. by rewrite IH by (done || lia).
Qed.
Lemma c_str_plain s : contains_char NUL s = false -> c_str s = s.
Proof. induction s as [|c s IH]; [done|]. cbn [contains_char c_str].
  intros [?%bool_decide_eq_false ?]%orb_false_iff. rewrite decide_False by done. by rewrite IH. Qed.
Lemma chop_last c s : chop c (s +:+ String c "") = Some s.
Proof.
  induction s as [|d s IH]; [by cbn; rewrite decide_True|]. cbn [String.append chop].
  rewrite IH. by destruct s as [|e s]; cbn [String.append].
Qed.
Lemma chop_without c s : contains_char c s = false -> chop c s = None.
Proof.
  induction s as [|d s IH]; [done|]. cbn [contains_char chop]. intros [Hd%bool_decide_eq_false Hs]%orb_false_iff.
  destruct s as [|e s]; [by rewrite decide_False|]. by rewrite IH.
Qed.

(** A value the reader takes unchanged: no NUL, and a line that fits its buffer. *)
Definition deliverable (key value : string) : Prop :=
  contains_char NUL value = false /\ (String.length key + String.length value < KMSTOOL_STDIN_MAX_VALUE)%nat.
#[global] Instance deliverable_dec key value : Decision (deliverable key value).
Proof. unfold deliverable. apply _. Defined.
(** The keys of the format. *)
Definition key_ok (key : string) : bool :=
  negb (is_empty key) && forallb (fun c => negb (contains_char c key)) [LF; CR; NUL; "="%char].

Lemma key_ok_spec key : key_ok key = true ->
  key <> "" /\ contains_char LF key = false /\ contains_char CR key = false /\ contains_char NUL key = false /\
  contains_char "=" key = false.
Proof. unfold key_ok. cbn [forallb]. rewrite !andb_true_iff, !negb_true_iff. destruct key; naive_solver. Qed.
Lemma secret_ok_spec v : secret_ok v = true -> contains_char LF v = false /\ contains_char CR v = false /\ v <> "".
Proof. unfold secret_ok. rewrite andb_true_iff, !negb_true_iff, orb_false_iff. destruct v; naive_solver. Qed.

Lemma read_record key v out rest : key_ok key = true -> secret_ok v = true -> deliverable key v ->
  exists raw, fgets (KMSTOOL_STDIN_MAX_VALUE + 1) (record_line key v +:+ rest) = (raw, rest) /\
    read_line raw out = kmstool_stdin_assign out key v.
Proof.
  intros (Hk & KL & KC & KN & KE)%key_ok_spec (VL & VC & Hv)%secret_ok_spec (VN & Hlen).
  set (line := key +:+ "=" +:+ v).
  assert (forall c, contains_char c key = false -> contains_char c v = false -> c <> "="%char -> contains_char c line = false) as Hno.
  { intros c H1 H2 H3. unfold line. rewrite !contains_char_app, H1, H2. cbn. by rewrite bool_decide_eq_false_2 by congruence. }
  assert (record_line key v +:+ rest = line +:+ String LF rest) as -> by (unfold record_line, line; by rewrite !append_assoc).
  exists (line +:+ String LF ""). split.
  { apply fgets_line; [by apply Hno|]. unfold line. rewrite !length_append. cbn [String.length]. lia. }
  unfold read_line. cbv zeta. rewrite c_str_plain by (rewrite contains_char_app, (Hno NUL) by done; by vm_compute).
  rewrite chop_last. cbn [default bool_decide]. rewrite bool_decide_eq_false_2 by done. cbn [andb default].
  rewrite (chop_without CR) by (by apply Hno). cbn [default].
  unfold id. assert (is_empty line = false) as -> by (unfold line; destruct key; done).
  unfold line at 1. change ("=" +:+ v) with (String "=" v). rewrite split_once_app by done.
  destruct (is_empty v) eqn:E; [by destruct v|].
  destruct (Nat.ltb_spec KMSTOOL_STDIN_MAX_VALUE (String.length v)); [lia|done].
Qed.

Lemma read_lines_record fuel n key v out out' rest : key_ok key = true -> secret_ok v = true -> deliverable key v ->
  kmstool_stdin_assign out key v = Ok out' -> (n < 8)%nat ->
  read_lines (S fuel) n (record_line key v +:+ rest) out = read_lines fuel (S n) rest out'.
Proof.
  intros Hk Hs Hd Ha Hn. destruct (read_record key v out rest Hk Hs Hd) as (raw & Hf & Hr).
  cbn [read_lines]. destruct (record_line key v +:+ rest) as [|c s] eqn:E; [by destruct key|]. rewrite Hf.
  unfold KMSTOOL_STDIN_MAX_LINES. destruct (Nat.ltb_spec 8 (S n)); [lia|]. by rewrite Hr, Ha.
Qed.

Definition all_deliverable (creds : AwsCredentials) (dek_b64 : option string) : Prop :=
  deliverable "AWS_ACCESS_KEY_ID" (access_key_id creds) /\ deliverable "AWS_SECRET_ACCESS_KEY" (secret_access_key creds) /\
  deliverable "AWS_SESSION_TOKEN" (session_token creds) /\ from_option (deliverable "PLAINTEXT_B64") True dek_b64.

(** What the Rust side writes is what the C side reads: every secret in its own
    slot, nothing else and nothing changed. *)
Lemma secrets_delivered creds dek_b64 payload :
  build_stdin_secrets creds dek_b64 = Some payload -> all_deliverable creds dek_b64 ->
  kmstool_stdin_read_secrets payload = Ok {|
    ss_access_key_id := Some (access_key_id creds); ss_secret_access_key := Some (secret_access_key creds);
    ss_session_token := Some (session_token creds); ss_plaintext_b64 := dek_b64 |}.
Proof.
  unfold build_stdin_secrets. destruct (forallb secret_ok _) eqn:Hok; [|done]. intros <-%(inj Some) (HA & HS & HT & HD).
  cbn [app forallb] in Hok. rewrite !andb_true_iff in Hok. destruct Hok as (OA & OS & OT & OD).
  unfold kmstool_stdin_read_secrets. match goal with |- context [read_lines ?n _ _ _] => assert (exists f, n = S (S (S (S f)))) as [f Hf] by (eexists; reflexivity) end. rewrite Hf.
  erewrite read_lines_record; [|done..|lia]. erewrite read_lines_record; [|done..|lia].
  destruct dek_b64 as [dek|].
  - erewrite read_lines_record; [|done..|lia]. cbn [option_list forallb from_option] in *. apply andb_true_iff in OD as [OD _].
    rewrite <- (append_nil_r (record_line "PLAINTEXT_B64" dek)). erewrite read_lines_record; [|done..|lia]. by destruct f.
  - erewrite read_lines_record; [|done..|lia]. by destruct f.
Qed.

(** *** Any secrets at all

    A value may hold a NUL, and the reader then takes only what comes before it,
    or be too long, and be refused.  Whatever the values are, the last record is
    read as a record of its own. *)

Lemma fgets_split n s rest raw r : (0 < n)%nat -> fgets n (s +:+ String LF rest) = (raw, r) ->
  r = rest \/ exists s', r = s' +:+ String LF rest /\ (String.length s' < String.length s)%nat.
Proof.
  revert n raw r. induction s as [|c s IH]; intros [|n] raw r Hn; try lia; cbn [String.append fgets].
  - rewrite decide_True by done. intros [= <- <-]. by left.
  - case_decide; [intros [= <- <-]; right; exists s; split; [done|cbn; lia]|].
    destruct (fgets n (s +:+ String LF rest)) as [line r'] eqn:E. intros [= <- <-]. destruct n as [|n].
    + cbn in E. injection E as <- <-. right. exists s. split; [done|cbn; lia].
    + apply IH in E as [->|(s' & -> & Hs)]; [by left| |lia]. right. exists s'. split; [done|cbn; lia].
Qed.

Lemma read_lines_reaches s rest : forall fuel n out o,
  (String.length (s +:+ String LF rest) <= fuel)%nat -> read_lines fuel n (s +:+ String LF rest) out = Ok o ->
  exists fuel' n' out', (String.length rest <= fuel')%nat /\ read_lines fuel' n' rest out' = Ok o.
Proof.
  induction s as [s IH] using (induction_ltof1 _ String.length). unfold ltof in IH. intros fuel n out o Hf.
  destruct fuel as [|fuel]; [rewrite length_append in Hf; cbn in Hf; lia|]. cbn [read_lines].
  destruct (s +:+ String LF rest) as [|c t] eqn:E; [by destruct s|]. rewrite <- E in *. clear E c t.
  destruct (fgets _ _) as [raw r] eqn:Eg. destruct (_ <? _)%nat; [done|].
  destruct (read_line raw out) as [out'|]; [|done]. cbn [mbind result_bind]. intros Hr. rewrite length_append in Hf. cbn [String.length] in Hf.
  apply fgets_split in Eg as [->|(s' & -> & Hs)]; [| |lia].
  2: { eapply (IH s' Hs); [|exact Hr]. rewrite length_append. cbn [String.length]. lia. }
  exists fuel, (S n), out'. split; [lia|done].
Qed.

Lemma fgets_length n s : (0 < n)%nat -> s <> "" -> (String.length (fgets n s).2 < String.length s)%nat.
Proof.
  revert n. induction s as [|c s IH]; intros [|n] Hn Hs; try lia; try done. cbn [fgets]. case_decide; [cbn; lia|].
  destruct n as [|n]; [cbn; lia|]. destruct s as [|d s]; [cbn; lia|]. specialize (IH (S n) ltac:(lia) ltac:(done)).
  destruct (fgets (S n) (String d s)) as [line rest]. cbn [snd String.length] in *. lia.
Qed.
Lemma read_lines_enough f1 f2 n s out : (String.length s <= f1)%nat -> (String.length s <= f2)%nat -> read_lines f1 n s out = read_lines f2 n s out.
Proof.
  revert f2 n s out. induction f1 as [|f1 IH]; intros [|f2] n [|c s] out H1 H2; cbn in H1, H2; try lia; try done. cbn [read_lines].
  pose proof (fgets_length (KMSTOOL_STDIN_MAX_VALUE + 1) (String c s) ltac:(lia) ltac:(done)) as Hl.
  destruct (fgets _ _) as [raw rest]. cbn [snd String.length] in Hl. destruct (_ <? _)%nat; [done|].
  destruct (read_line raw out) as [out'|]; [|done]. cbn [mbind result_bind]. apply IH; lia.
Qed.

Lemma assign_plaintext out v o : kmstool_stdin_assign out "PLAINTEXT_B64" v = Ok o -> ss_plaintext_b64 o = Some v.
Proof. destruct out as [a t u [p|]]; cbn; [done|]. by intros [= <-]. Qed.

(** The key to wrap cannot be replaced through a credential. *)
Lemma last_record_read creds dek_b64 payload secrets :
  build_stdin_secrets creds (Some dek_b64) = Some payload -> deliverable "PLAINTEXT_B64" dek_b64 ->
  kmstool_stdin_read_secrets payload = Ok secrets -> ss_plaintext_b64 secrets = Some dek_b64.
Proof.
  unfold build_stdin_secrets. destruct (forallb secret_ok _) eqn:Hok; [|done]. intros <-%(inj Some) Hd Hread.
  assert (secret_ok dek_b64 = true) as OD by (eapply forallb_forall; [exact Hok|]; cbn; tauto). clear Hok.
  set (a := record_line _ (access_key_id creds)) in *. set (b := record_line _ (secret_access_key creds)) in *.
  assert (exists s, a +:+ b +:+ record_line "AWS_SESSION_TOKEN" (session_token creds) +:+ record_line "PLAINTEXT_B64" dek_b64 =
    s +:+ String LF (record_line "PLAINTEXT_B64" dek_b64)) as [s Hs].
  { exists (a +:+ b +:+ "AWS_SESSION_TOKEN=" +:+ session_token creds). unfold record_line at 1. by rewrite !append_assoc. }
  rewrite Hs in Hread. apply read_lines_reaches in Hread as (fuel & n & out & Hf & Hread); [|done].
  destruct (read_record "PLAINTEXT_B64" dek_b64 out "" eq_refl OD Hd) as (raw & Hg & Hl). rewrite append_nil_r in Hg.
  destruct fuel as [|fuel]; [cbn in Hf; lia|]. cbn [read_lines] in Hread.
  destruct (record_line "PLAINTEXT_B64" dek_b64) as [|c t] eqn:E; [done|]. rewrite Hg in Hread.
  destruct (_ <? _)%nat; [done|]. rewrite Hl in Hread.
  destruct (kmstool_stdin_assign out "PLAINTEXT_B64" dek_b64) as [o|] eqn:Ea; [|done]. cbn [mbind result_bind] in Hread.
  destruct fuel; injection Hread as <-; by eapply assign_plaintext.
Qed.

(** ** The command line *)

Section Laws.
Context `{Crates, NitroSdk}.

(** Documented behaviour of [getopt_long] (a long option that takes an argument
    takes the next word) and of base64 (the standard alphabet, both ways). *)
Class NitroLaws := {
  getopt_long_spec cmd opts codes :
    mapM (option_code s_long_options) opts = Some codes -> getopt_long (cmd :: concat (map words opts)) = codes;
  aws_b64_standard s : aws_b64_encode s = b64_encode s;
  aws_b64_reads s : aws_b64_decode (b64_encode s) = Some s;
  b64_encode_visible s : bytes_all (in_range 33 127) (b64_encode s) = true;
  b64_encode_length s : (String.length (b64_encode s) <= 4 * String.length s)%nat;
  b64_encode_some s : s <> "" -> b64_encode s <> ""
}.
End Laws.

Definition context_options (ctx : Context_) (keys : list string) : list (string * option string) :=
  (fun k => ("encryption-context", Some (k +:+ "=" +:+ default "" (ctx !! k)))) <$> keys.

Lemma context_args_options ctx keys args : context_args ctx keys = Ok args ->
  args = concat (map words (context_options ctx keys)) /\
  Forall (fun k => validate_context_pair k (default "" (ctx !! k)) = Ok tt) keys.
Proof.
  revert args. induction keys as [|k keys IH]; intros args; cbn [context_args]; [by intros [= <-]|].
  destruct (validate_context_pair _ _) as [[]|] eqn:E; [|done]. cbn [mbind result_bind].
  destruct (context_args ctx keys) as [rest|]; [|done]. cbn [mbind result_bind]. intros [= <-].
  destruct (IH rest eq_refl) as [-> Hall]. split; [done|]. by constructor.
Qed.
Lemma context_codes (ctx : Context_) keys :
  mapM (option_code s_long_options) (context_options ctx keys) =
  Some ((fun k => ("e"%char, k +:+ "=" +:+ default "" (ctx !! k))) <$> keys).
Proof. apply mapM_Some_2. unfold context_options. apply Forall2_fmap, Forall_Forall2_diag, Forall_true. done. Qed.

Lemma elem_sorted_keys ctx k : k ∈ sorted_keys ctx <-> is_Some (ctx !! k).
Proof.
  unfold sorted_keys. rewrite merge_sort_Permutation. rewrite list_elem_of_fmap. split.
  - intros ([k' v] & -> & Hin). apply elem_of_map_to_list in Hin. by eexists.
  - intros [v Hv]. exists (k, v). split; [done|]. by apply elem_of_map_to_list.
Qed.

(** The context survives the command line. *)
Lemma context_read (ctx : Context_) keys (m : Context_) : Forall (fun k => validate_context_pair k (default "" (ctx !! k)) = Ok tt) keys ->
  foldl parse_encryption_context_arg m ((fun k => k +:+ "=" +:+ default "" (ctx !! k)) <$> keys) =
  foldl (fun m k => <[k := default "" (ctx !! k)]> m) m keys.
Proof.
  intros Hall. revert m. induction Hall as [|k keys Hk Hall IH]; intros m; [done|]. cbn [fmap list_fmap foldl]. rewrite <- IH. f_equal.
  unfold parse_encryption_context_arg. change ("=" +:+ ?v) with (String "=" v). rewrite split_once_app; [done|].
  unfold validate_context_pair, has_forbidden in Hk. destruct (contains_char "=" k) eqn:E; [|done]. by rewrite !orb_true_r in Hk.
Qed.
Lemma context_rebuilt (ctx : Context_) : foldl (fun m k => <[k := default "" (ctx !! k)]> m) ∅ (sorted_keys ctx) = ctx.
Proof.
  assert (forall keys (m : Context_) i, foldl (fun m k => <[k := default "" (ctx !! k)]> m) m keys !! i =
    if decide (i ∈ keys) then Some (default "" (ctx !! i)) else m !! i) as Hgen.
  { induction keys as [|k keys IH]; intros m i; [by rewrite decide_False by apply not_elem_of_nil|]. cbn [foldl]. rewrite IH.
    destruct (decide (i ∈ keys)); [by rewrite decide_True by set_solver|]. destruct (decide (i = k)) as [->|].
    - rewrite decide_True by set_solver. by simplify_map_eq.
    - rewrite decide_False by set_solver. by simplify_map_eq. }
  apply map_eq. intros i. rewrite Hgen. destruct (ctx !! i) eqn:E.
  - rewrite decide_True; [done|]. apply elem_sorted_keys. by rewrite E.
  - rewrite decide_False; [done|]. rewrite elem_sorted_keys, E. by intros [].
Qed.

Section Refinement.
Context `{Crates, !AeadLaws, NitroSdk, !NitroLaws} (garbage : bool).
#[local] Instance tool : Kmstool := nitro_tool garbage.

Lemma option_loop_app sub l1 l2 x : option_loop sub (l1 ++ l2) x = (y ← option_loop sub l1 x; option_loop sub l2 y).
Proof.
  revert x. induction l1 as [|[c a] l1 IH]; intros x; [done|]. cbn [app option_loop]. destruct (option_step sub c a x); [|done].
  cbn [mbind option_bind]. apply IH.
Qed.
Lemma option_loop_context sub (ctx : Context_) keys x : option_loop sub ((fun k => ("e"%char, k +:+ "=" +:+ default "" (ctx !! k))) <$> keys) x =
  Some (set_request (ax_ciphertext_b64 x) (ax_key_id x) (ax_algorithm x)
    (foldl parse_encryption_context_arg (ax_context x) ((fun k => k +:+ "=" +:+ default "" (ctx !! k)) <$> keys)) x).
Proof.
  revert x. induction keys as [|k keys IH]; intros x; [by destruct x|]. cbn [fmap list_fmap option_loop option_step mbind option_bind].
  rewrite IH. by destruct x.
Qed.

Lemma argv_codes cmd opts codes (ctx : Context_) args : mapM (option_code s_long_options) opts = Some codes ->
  context_args ctx (sorted_keys ctx) = Ok args ->
  getopt_long (cmd :: concat (map words opts) ++ args) =
  codes ++ ((fun k => ("e"%char, k +:+ "=" +:+ default "" (ctx !! k))) <$> sorted_keys ctx).
Proof.
  intros Hopts [-> _]%context_args_options. rewrite <- concat_app, <- map_app. apply getopt_long_spec.
  apply mapM_Some_2. apply Forall2_app; apply mapM_Some_1; [done|]. apply context_codes.
Qed.

(** What the child knows of a decrypt before it reads its standard input. *)
Definition decrypt_ctx (ciphertext_b64 : string) (ctx : Context_) : AppCtx :=
  {| ax_region := Some REGION; ax_proxy_port := PROXY_PORT; ax_secrets_from_stdin := true; ax_access_key := None;
     ax_secret_key := None; ax_session := None; ax_ciphertext_b64 := Some ciphertext_b64; ax_key_id := None;
     ax_algorithm := None; ax_plaintext_b64 := None; ax_context := ctx |}.
Definition encrypt_ctx (key_id : string) (ctx : Context_) : AppCtx :=
  {| ax_region := Some REGION; ax_proxy_port := PROXY_PORT; ax_secrets_from_stdin := true; ax_access_key := None;
     ax_secret_key := None; ax_session := None; ax_ciphertext_b64 := None; ax_key_id := Some key_id;
     ax_algorithm := None; ax_plaintext_b64 := None; ax_context := ctx |}.

(** The fixed part of each command line, and how it is read. *)
Definition fixed_opts (last : string) (v : string) : list (string * option string) :=
  [("secrets-from-stdin", None); ("region", Some REGION); ("proxy-port", Some (u64_to_string PROXY_PORT)); (last, Some v)].
Definition fixed_codes (last : ascii) (v : string) : list (ascii * string) :=
  [("S"%char, ""); ("r"%char, REGION); ("x"%char, u64_to_string PROXY_PORT); (last, v)].

Lemma decrypt_options ct (ctx : Context_) args : context_args ctx (sorted_keys ctx) = Ok args ->
  option_loop CmdDecrypt (getopt_long (decrypt_argv ct ++ args)) (fresh_ctx garbage) = Some (decrypt_ctx ct ctx).
Proof.
  intros Hargs. change (decrypt_argv ct ++ args) with ("decrypt" :: concat (map words (fixed_opts "ciphertext" ct)) ++ args).
  rewrite (argv_codes "decrypt" (fixed_opts "ciphertext" ct) (fixed_codes "c" ct) ctx args eq_refl Hargs). rewrite option_loop_app. cbn [fixed_codes option_loop option_step mbind option_bind].
  rewrite option_loop_context. apply context_args_options in Hargs as [_ Hall]. rewrite context_read by done.
  cbn [ax_context set_request set_port set_region set_stdin_flag fresh_ctx]. by rewrite context_rebuilt.
Qed.
Lemma encrypt_options key_id (ctx : Context_) tail : build_encrypt_args key_id ctx = Ok tail ->
  ctx <> ∅ /\ option_loop CmdEncrypt (getopt_long (encrypt_argv tail)) (fresh_ctx garbage) = Some (encrypt_ctx key_id ctx).
Proof.
  unfold build_encrypt_args. destruct (decide (ctx = ∅)) as [|Hne]; [done|].
  destruct (context_args ctx (sorted_keys ctx)) as [args|] eqn:Hargs; [|done]. cbn [mbind result_bind]. intros [= <-]. split; [done|].
  match goal with |- context [getopt_long ?l] => change l with ("encrypt" :: concat (map words (fixed_opts "key-id" key_id)) ++ args) end.
  rewrite (argv_codes "encrypt" (fixed_opts "key-id" key_id) (fixed_codes "K" key_id) ctx args eq_refl Hargs). rewrite option_loop_app. cbn [fixed_codes option_loop option_step mbind option_bind].
  rewrite option_loop_context. apply context_args_options in Hargs as [_ Hall]. rewrite context_read by done.
  cbn [ax_context set_request set_port set_region set_stdin_flag fresh_ctx]. by rewrite context_rebuilt.
Qed.

(** ** What the child prints *)

Lemma ascii_valid s : bytes_all (in_range 0 127) s = true -> from_utf8 s = Some s.
Proof.
  intros Hs. unfold from_utf8. assert (forall fuel s, bytes_all (in_range 0 127) s = true -> utf8_valid_fuel fuel s = true) as Hgen.
  { clear. induction fuel as [|fuel IH]; intros [|c s]; try done. cbn [bytes_all utf8_valid_fuel]. intros [Hc Hs]%andb_true_iff.
    unfold lead_plan. unfold in_range in Hc. destruct (Z.ltb_spec (byte_val c) 128); [|lia]. cbn [take_plan]. by rewrite IH. }
  by rewrite Hgen.
Qed.

Lemma b64_no_char c s : in_range 33 127 c = false -> contains_char c (b64_encode s) = false.
Proof. intros Hc. eapply contains_char_all; [exact Hc|]. apply b64_encode_visible. Qed.

Lemma visible_no_char c s : in_range 33 127 c = false -> bytes_all (in_range 33 127) s = true -> contains_char c s = false.
Proof. intros Hc Hs. by eapply contains_char_all. Qed.

Lemma trim_after_space s : bytes_all (in_range 33 127) s = true -> trim_end (String " " s) = if is_empty s then "" else String " " s.
Proof.
  intros Hs. cbn [trim_end]. destruct s as [|c s]; [done|]. change (trim_start (String " " (String c s))) with (trim_start (String c s)).
  rewrite trim_start_visible by done. cbn [is_empty]. f_equal. pose proof (trim_visible (String c s) Hs) as Ht.
  unfold trim in Ht. by rewrite trim_start_visible in Ht.
Qed.

Lemma parse_printed prefix s : bytes_all (in_range 33 127) prefix = true -> prefix <> "" -> bytes_all (in_range 33 127) s = true ->
  parse_kmstool_line (prefix +:+ String " " (s +:+ String LF "")) prefix = Some s.
Proof.
  intros Hp Hne Hs. unfold parse_kmstool_line. rewrite ascii_valid.
  2: { rewrite !bytes_all_app. cbn [bytes_all]. rewrite bytes_all_app. cbn [bytes_all].
       rewrite !(bytes_all_impl (in_range 33 127) (in_range 0 127)); try done;
         intros c; unfold in_range; rewrite !andb_true_iff, !Z.leb_le; lia. }
  cbn [mbind option_bind]. assert (prefix +:+ String " " (s +:+ String LF "") = (prefix +:+ String " " s) +:+ String LF "") as -> by by rewrite append_assoc.
  assert (contains_char LF (prefix +:+ String " " s) = false /\ contains_char CR (prefix +:+ String " " s) = false) as [HL HC].
  { split; rewrite contains_char_app, (visible_no_char _ prefix) by done; cbn [orb contains_char]; by rewrite (visible_no_char _ s). }
  unfold lines. rewrite split_app by done. cbn [split length Nat.sub take drop filter list_filter fmap list_fmap app].
  assert (strip_cr (prefix +:+ String " " s) = prefix +:+ String " " s) as Hcr.
  { unfold strip_cr. destruct (ends_with _ _) eqn:E; [|done]. exfalso.
    assert (forall t, ends_with (String "013" "") t = true -> contains_char CR t = true) as Hends.
    { induction t as [|c t IH]; cbn [ends_with]; case_decide as Et; try done.
      - injection Et as <- <-. by vm_compute.
      - intros ?%IH. cbn [contains_char]. by rewrite orb_true_iff; right. }
    apply Hends in E. congruence. }
  rewrite Hcr. cbn [first_some].
  set (t := trim (prefix +:+ String " " s)).
  assert (t = prefix +:+ if is_empty s then "" else String " " s) as Ht.
  { subst t. unfold trim. destruct prefix as [|c prefix]; [done|]. cbn [String.append]. rewrite trim_start_head.
    2: { cbn in Hp. by apply andb_true_iff in Hp as [? _]. }
    change (String c (prefix +:+ String " " s)) with (String c prefix +:+ String " " s). rewrite trim_end_after by done.
    by rewrite trim_after_space. }
  rewrite Ht. unfold get_to. rewrite length_append.
  destruct (Nat.leb_spec (String.length prefix) (String.length prefix + String.length (if is_empty s then "" else String " " s))); [|lia].
  assert (at_boundary (prefix +:+ if is_empty s then "" else String " " s) (String.length prefix) = true) as ->.
  { unfold at_boundary, byte_at. clear. induction prefix as [|c prefix IH]; [by destruct s|exact IH]. }
  cbn [andb mbind option_bind]. rewrite str_take_app, str_drop_app. unfold eq_ignore_ascii_case. rewrite bool_decide_eq_true_2 by done.
  f_equal. destruct s as [|c s]; [done|]. cbn [is_empty]. unfold trim.
  change (trim_start (String " " (String c s))) with (trim_start (String c s)).
  change (trim (String c s) = String c s). by apply trim_visible.
Qed.
(** ** The whole call *)

Lemma context_args_clean (ctx : Context_) keys args : context_args ctx keys = Ok args -> existsb (contains_char NUL) args = false.
Proof.
  revert args. induction keys as [|k keys IH]; intros args; cbn [context_args]; [by intros [= <-]|].
  destruct (validate_context_pair _ _) as [[]|] eqn:E; [|done]. cbn [mbind result_bind].
  destruct (context_args ctx keys) as [rest|]; [|done]. cbn [mbind result_bind]. intros [= <-].
  cbn [existsb]. rewrite (IH rest eq_refl), orb_false_r. cbn [contains_char String.append].
  change ("=" +:+ ?v) with (String "=" v). rewrite contains_char_app. cbn [contains_char].
  unfold validate_context_pair, has_forbidden in E.
  destruct (contains_char NUL k) eqn:EK; [by rewrite !orb_true_r in E|].
  destruct (contains_char NUL (default "" (ctx !! k))) eqn:EV; [by rewrite !orb_true_r in E|]. done.
Qed.

(** What the child's secrets become once read; [None] when the stream is refused. *)
Definition child_reads (payload : string) : option (AwsCredentials * option string) :=
  match kmstool_stdin_read_secrets payload with
  | Ok {| ss_access_key_id := Some a; ss_secret_access_key := Some s; ss_session_token := Some t; ss_plaintext_b64 := p |} =>
      Some ({| access_key_id := a; secret_access_key := s; session_token := t |}, p)
  | _ => None
  end.

Lemma child_decrypts now ct ctx args payload : context_args ctx (sorted_keys ctx) = Ok args ->
  match kmstool_main garbage now (decrypt_argv (b64_encode ct) ++ args) payload, child_reads payload with
  | out, Some (creds, _) =>
      out = match sdk_decrypt now REGION PROXY_PORT creds None None ct ctx with
            | Ok pt => printed ("PLAINTEXT: " +:+ b64_encode pt +:+ String LF "") | Err msg => failed msg end
  | out, None => out_success out = false
  end.
Proof.
  intros Hargs. unfold kmstool_main, child_reads. cbn [decrypt_argv app head]. unfold parse_options.
  change ("decrypt" :: _) with (decrypt_argv (b64_encode ct) ++ args). rewrite (decrypt_options _ ctx) by done.
  cbn [ok_or mbind result_bind take_secrets decrypt_ctx ax_secrets_from_stdin negb ax_access_key ax_secret_key ax_session ax_plaintext_b64].
  destruct (kmstool_stdin_read_secrets payload) as [[[a|] [s|] [t|] p]|]; try done. cbn.
  rewrite aws_b64_reads. cbn. destruct (sdk_decrypt _ _ _ _ _ _ _ _) as [pt|]; [|done]. cbn. by rewrite aws_b64_standard.
Qed.
Lemma child_encrypts now key_id ctx tail payload : build_encrypt_args key_id ctx = Ok tail ->
  match kmstool_main garbage now (encrypt_argv tail) payload, child_reads payload with
  | out, Some (creds, Some dek_b64) =>
      forall dek, dek_b64 = b64_encode dek ->
      out = match sdk_encrypt now REGION PROXY_PORT creds key_id dek ctx with
            | Ok w => printed ("CIPHERTEXT: " +:+ b64_encode w +:+ String LF "") | Err msg => failed msg end
  | out, _ => out_success out = false
  end.
Proof.
  intros Htail. destruct (encrypt_options _ _ _ Htail) as [Hne Hopts]. unfold kmstool_main, child_reads. cbn [encrypt_argv app head]. unfold parse_options.
  change ("encrypt" :: _) with (encrypt_argv tail). rewrite Hopts.
  cbn [ok_or mbind result_bind take_secrets encrypt_ctx ax_secrets_from_stdin negb ax_access_key ax_secret_key ax_session ax_plaintext_b64].
  destruct (kmstool_stdin_read_secrets payload) as [[[a|] [s|] [t|] [p|]]|]; try done. cbn. intros dek ->.
  rewrite decide_False by done. rewrite aws_b64_reads. cbn. destruct (sdk_encrypt _ _ _ _ _ _ _) as [w|]; [|done]. cbn. by rewrite aws_b64_standard.
Qed.
(** ** Theorems *)

Definition context_fits (ctx : Context_) : Prop := map_Forall (fun k v => validate_context_pair k v = Ok tt) ctx.

Lemma context_fits_args (ctx : Context_) : context_fits ctx <-> exists args, context_args ctx (sorted_keys ctx) = Ok args.
Proof.
  split.
  - intros Hctx. assert (Forall (fun k => validate_context_pair k (default "" (ctx !! k)) = Ok tt) (sorted_keys ctx)) as Hall.
    { apply Forall_forall. intros k [v Hv]%elem_sorted_keys. rewrite Hv. by apply Hctx. }
    induction Hall as [|k keys Hk Hall [args IH]]; [by eexists|]. cbn [context_args]. rewrite Hk, IH. by eexists.
  - intros (args & [_ Hall]%context_args_options) k v Hv. rewrite Forall_forall in Hall.
    specialize (Hall k). rewrite Hv in Hall. apply Hall, elem_sorted_keys. by rewrite Hv.
Qed.

Lemma argv_spawns ct (ctx : Context_) args : context_args ctx (sorted_keys ctx) = Ok args ->
  existsb (contains_char NUL) (decrypt_argv (b64_encode ct) ++ args) = false.
Proof.
  intros Hargs%context_args_clean. rewrite existsb_app, Hargs, orb_false_r. cbn [decrypt_argv existsb]. by rewrite b64_no_char.
Qed.

Lemma parse_plaintext s : parse_kmstool_stdout ("PLAINTEXT: " +:+ b64_encode s +:+ String LF "") = Some (b64_encode s).
Proof. apply (parse_printed "PLAINTEXT:"); [done..|]. apply b64_encode_visible. Qed.
Lemma parse_ciphertext s : parse_kmstool_line ("CIPHERTEXT: " +:+ b64_encode s +:+ String LF "") "CIPHERTEXT:" = Some (b64_encode s).
Proof. apply (parse_printed "CIPHERTEXT:"); [done..|]. apply b64_encode_visible. Qed.

Lemma child_reads_back creds dek_b64 payload : build_stdin_secrets creds dek_b64 = Some payload -> all_deliverable creds dek_b64 ->
  child_reads payload = Some (creds, dek_b64).
Proof. intros Hp Hd. unfold child_reads. rewrite (secrets_delivered _ _ _ Hp Hd). by destruct creds. Qed.

(** C22: With credentials and a context the format can carry, decrypting through the
    child process is KMS's Decrypt with exactly those credentials, that
    ciphertext and that context, and its refusals are told apart as the code
    says: the command line, the pipe and the printed answer lose nothing. *)
Theorem decrypt_is_the_service now creds ct ctx : context_fits ctx -> is_Some (build_stdin_secrets creds None) ->
  all_deliverable creds None -> host_fault now = None ->
  decrypt now creds ct (Some ctx) =
  match sdk_decrypt now REGION PROXY_PORT creds None None ct ctx with
  | Ok pt => Ok pt
  | Err msg => Err (if stderr_says DECRYPT_DENIALS msg then AccessDenied else KmsInternal)
  end.
Proof.
  intros [args Hargs]%context_fits_args [payload Hp] Hd Hhost. unfold decrypt. rewrite Hargs, Hp.
  cbn [mbind result_bind ok_or]. unfold kmstool, tool, nitro_tool. rewrite Hhost, (argv_spawns _ _ _ Hargs).
  cbn [run_with_stdin_secrets fst ok_or mbind result_bind]. pose proof (child_decrypts now ct ctx args payload Hargs) as Hc.
  rewrite (child_reads_back _ _ _ Hp Hd) in Hc. rewrite Hc. destruct (sdk_decrypt _ _ _ _ _ _ _ _) as [pt|msg]; [|done].
  cbn [out_success printed negb out_stdout mbind result_bind]. rewrite parse_plaintext. cbn [ok_or mbind result_bind]. by rewrite b64_decode_encode.
Qed.

Lemma decrypt_sound now creds ct ctx pt : decrypt now creds ct (Some ctx) = Ok pt ->
  context_fits ctx /\ exists creds', sdk_decrypt now REGION PROXY_PORT creds' None None ct ctx = Ok pt.
Proof.
  intros Hok. unfold decrypt in Hok. destruct (context_args ctx (sorted_keys ctx)) as [args|] eqn:Hargs; [|done].
  split; [by apply context_fits_args; exists args|]. destruct (build_stdin_secrets creds None) as [payload|]; [|done].
  cbn [mbind result_bind ok_or] in Hok. unfold kmstool, tool, nitro_tool in Hok. destruct (host_fault now) as [[]|]; try done.
  rewrite (argv_spawns _ _ _ Hargs) in Hok. cbn [run_with_stdin_secrets fst ok_or mbind result_bind] in Hok.
  pose proof (child_decrypts now ct ctx args payload Hargs) as Hc. destruct (child_reads payload) as [[creds' p]|]; [|by rewrite Hc in Hok].
  exists creds'. rewrite Hc in Hok. destruct (sdk_decrypt _ _ _ _ _ _ _ _) as [pt'|]; [|done].
  cbn [out_success printed negb out_stdout mbind result_bind] in Hok. rewrite parse_plaintext in Hok.
  cbn [ok_or mbind result_bind] in Hok. rewrite b64_decode_encode in Hok. by injection Hok as ->.
Qed.

Lemma wrap_sound now creds key_id dek ctx w : wrap_dek_with_context now creds key_id dek (Some ctx) = Ok w ->
  context_fits ctx /\ ctx <> ∅ /\ String.length dek = 32%nat /\
  exists creds', sdk_encrypt now REGION PROXY_PORT creds' key_id dek ctx = Ok w.
Proof.
  intros Hok. unfold wrap_dek_with_context in Hok. destruct (decide (ctx = ∅)) as [|Hne]; [done|].
  destruct (Nat.eqb_spec (String.length dek) 32) as [Hlen|]; [|done]. cbn [negb] in Hok.
  destruct (build_encrypt_args key_id ctx) as [tail|] eqn:Htail; [|done].
  split; [|split; [done|split; [done|]]].
  { apply context_fits_args. unfold build_encrypt_args in Htail. rewrite decide_False in Htail by done.
    destruct (context_args _ _) as [args|]; [by exists args|done]. }
  destruct (build_stdin_secrets creds _) as [payload|] eqn:Hp; [|done].
  cbn [mbind result_bind ok_or] in Hok. unfold kmstool, tool, nitro_tool in Hok. destruct (host_fault now) as [[]|]; try done.
  destruct (existsb _ _); [done|]. cbn [run_with_stdin_secrets fst ok_or mbind result_bind] in Hok.
  pose proof (child_encrypts now key_id ctx tail payload Htail) as Hc.
  assert (deliverable "PLAINTEXT_B64" (b64_encode dek)) as Hd.
  { split; [by apply b64_no_char|]. pose proof (b64_encode_length dek). unfold KMSTOOL_STDIN_MAX_VALUE. cbn [String.length]. lia. }
  destruct (child_reads payload) as [[creds' p]|] eqn:Er; [|by rewrite Hc in Hok].
  assert (p = Some (b64_encode dek)) as ->.
  { unfold child_reads in Er. destruct (kmstool_stdin_read_secrets payload) as [ss|] eqn:Es; [|done].
    apply (last_record_read _ _ _ _ Hp Hd) in Es. destruct ss as [[] [] [] q]; try done. cbn in Es. congruence. }
  exists creds'. rewrite (Hc dek eq_refl) in Hok. destruct (sdk_encrypt _ _ _ _ _ _ _) as [w'|]; [|done].
  cbn [out_success printed negb out_stdout mbind result_bind] in Hok. rewrite parse_ciphertext in Hok.
  cbn [ok_or mbind result_bind] in Hok. rewrite b64_decode_encode in Hok.
  cbn [ok_or mbind result_bind] in Hok. destruct (is_empty w'); [done|]. by injection Hok as ->.
Qed.

(** Whatever the credentials hold and whatever goes wrong around the child, a
    plaintext the client returns was released by KMS for that very ciphertext
    under that very context, and a wrapped key it returns is KMS's encryption of
    that very 32-byte key under that very context, which is not empty. *)
Theorem client_answers_are_kms :
  (forall now creds ct ctx pt, decrypt now creds ct (Some ctx) = Ok pt ->
    context_fits ctx /\ exists creds', sdk_decrypt now REGION PROXY_PORT creds' None None ct ctx = Ok pt) /\
  (forall now creds key_id dek ctx w, wrap_dek_with_context now creds key_id dek (Some ctx) = Ok w ->
    context_fits ctx /\ ctx <> ∅ /\ String.length dek = 32%nat /\
    exists creds', sdk_encrypt now REGION PROXY_PORT creds' key_id dek ctx = Ok w).
Proof. split; intros; [by eapply decrypt_sound|by eapply wrap_sound]. Qed.

(** KMS: a wrapped key is released only under the context it was wrapped with. *)
Class SdkLaws := {
  sdk_unwraps now region port creds key_id dek ctx w now' creds' ctx' dek' :
    sdk_encrypt now region port creds key_id dek ctx = Ok w ->
    sdk_decrypt now' region port creds' None None w ctx' = Ok dek' -> dek' = dek /\ ctx' = ctx
}.

(** So the client is a [Kms] as [Provision] asks for one. *)
Lemma client_kms_laws : SdkLaws -> @KmsLaws client_kms.
Proof.
  intros Hsdk. constructor. intros now creds key_id dek ctx w ctx' dek' Hw (now' & creds' & Hd).
  destruct (wrap_sound _ _ _ _ _ _ Hw) as (_ & _ & _ & c & He). destruct (decrypt_sound _ _ _ _ _ Hd) as (_ & c' & Hx).
  by eapply sdk_unwraps.
Qed.
End Refinement.

(** ** A concrete tool *)

Section Demo.
#[local] Existing Instance demo_crates.


Fixpoint demo_getopt (words : list string) : list (ascii * string) :=
  match words with
  | [] => []
  | w :: rest =>
      match strip_prefix "--" w ≫= fun name => (list_to_map s_long_options : gmap string (OptArg * ascii)) !! name with
      | Some (NoArgument, code) => (code, "") :: demo_getopt rest
      | Some (RequiredArgument, code) => match rest with v :: rest => (code, v) :: demo_getopt rest | [] => [] end
      | None => []
      end
  end.

#[local] Instance demo_sdk : NitroSdk := {|
  getopt_long argv := demo_getopt (tail argv);
  aws_b64_encode := b64_encode;
  aws_b64_decode := b64_decode;
  sdk_decrypt _ _ _ _ _ _ ct ctx :=
    match toy_open ct with
    | Some (customer, venue, pt) => if decide (ctx = toy_context customer venue) then Ok pt else Err "AccessDeniedException"
    | None => Err "InvalidCiphertextException"
    end;
  sdk_encrypt _ _ _ _ _ dek ctx :=
    match ctx !! "customer_id", ctx !! "venue_id" with
    | Some customer, Some venue => if decide (ctx = toy_context customer venue) then Ok (toy_seal customer venue dek) else Err ""
    | _, _ => Err ""
    end;
  usage _ := "usage";
  other_command _ _ := failed "usage";
  host_fault _ := None
|}.

Lemma option_code_lookup table o c : option_code table o = Some c ->
  exists takes code, (list_to_map table : gmap string (OptArg * ascii)) !! o.1 = Some (takes, code) /\
    match takes, o.2 with RequiredArgument, Some v => c = (code, v) | NoArgument, None => c = (code, "") | _, _ => False end.
Proof.
  induction table as [|[name [takes code]] table IH]; [done|]. cbn [option_code list_to_map foldr uncurry]. case_decide as E.
  - intros Hc. exists takes, code. rewrite <- E, lookup_insert_eq. split; [done|]. destruct takes, (o.2); first [discriminate Hc | by injection Hc as <-].
  - intros (t & c' & Hl & Hm)%IH. exists t, c'. by rewrite lookup_insert_ne.
Qed.

#[local] Instance demo_nitro_laws : NitroLaws.
Proof.
  constructor.
  - intros cmd opts codes Ho%mapM_Some. cbn [getopt_long demo_sdk tail]. induction Ho as [|[name v] c opts codes Hc Ho IH]; [done|].
    apply option_code_lookup in Hc as (takes & code & Hl & Hm). cbn [map concat words fst snd] in *. cbn [app demo_getopt].
    unfold words at 1. cbn [fst snd app demo_getopt]. rewrite strip_prefix_app. cbn [mbind option_bind]. rewrite Hl. destruct takes, v as [v|]; try done; cbn; by rewrite IH, Hm.
  - done.
  - intros s. apply b64_decode_encode.
  - intros s. cbn [b64_encode demo_crates demo_with_verify]. pose proof (hex_encode_hex s) as Hh. cbn [hex_encode demo_crates demo_with_verify] in Hh.
    revert Hh. apply bytes_all_impl. intros c. unfold is_ascii_hexdigit, is_ascii_digit, in_range. rewrite !orb_true_iff, !andb_true_iff, !Z.leb_le. lia.
  - intros s. pose proof (hex_decode_length _ _ (hex_decode_encode s)) as Hl. cbn [b64_encode hex_encode demo_crates demo_with_verify] in *. lia.
  - intros [|c s] Hs; done.
Qed.

#[local] Instance demo_sdk_laws : SdkLaws.
Proof.
  constructor. intros now region port creds key_id dek ctx w now' creds' ctx' dek'. cbn [sdk_encrypt sdk_decrypt demo_sdk].
  destruct (ctx !! "customer_id") as [customer|]; [|done]. destruct (ctx !! "venue_id") as [venue|]; [|done].
  case_decide as Hctx; [|done]. intros [= <-]. rewrite toy_open_seal. case_decide; [|done]. intros [= <-]. split; [done|congruence].
Qed.
#[local] Existing Instance tool.

Definition demo_creds : AwsCredentials := {| access_key_id := "AKIA"; secret_access_key := "s/cr=t"; session_token := "tok=en" |}.
Definition demo_ctx : Context_ := toy_context "acme" "binance".
Definition demo_dek : string := "0123456789abcdef0123456789abcdef".

Lemma decrypt_is_the_service_witness :
  decrypt (child_process := tool false) 7 demo_creds (toy_seal "acme" "binance" demo_dek) (Some demo_ctx) = Ok demo_dek.
Proof.
  rewrite (decrypt_is_the_service false).
  - reflexivity.
  - intros k v Hkv. unfold demo_ctx, toy_context in Hkv. apply lookup_insert_Some in Hkv as [[<- <-]|[_ Hkv]]; [reflexivity|].
    apply lookup_insert_Some in Hkv as [[<- <-]|[_ Hkv]]; [reflexivity|]. by rewrite lookup_empty in Hkv.
  - eexists. reflexivity.
  - unfold all_deliverable, deliverable, KMSTOOL_STDIN_MAX_VALUE. repeat split; cbn; lia.
  - reflexivity.
Defined.

Lemma client_answers_are_kms_witness :
  wrap_dek_with_context (child_process := tool false) 7 demo_creds "key" demo_dek (Some demo_ctx) = Ok (toy_seal "acme" "binance" demo_dek) /\
  exists creds', sdk_encrypt 7 REGION PROXY_PORT creds' "key" demo_dek demo_ctx = Ok (toy_seal "acme" "binance" demo_dek).
Proof.
  assert (wrap_dek_with_context (child_process := tool false) 7 demo_creds "key" demo_dek (Some demo_ctx) =
    Ok (toy_seal "acme" "binance" demo_dek)) as Hrun by (vm_compute; reflexivity).
  split; [exact Hrun|]. by apply (proj2 (client_answers_are_kms false)) in Hrun as (_ & _ & _ & Hok).
Defined.

(** A NUL is not refused by the writer, and cuts the value at the reader: the
    call is made with half of the secret. *)
Definition nul_creds : AwsCredentials :=
  {| access_key_id := "AKIA"; secret_access_key := "half" +:+ String NUL "other"; session_token := "token" |}.
Lemma nul_halves_secret : (p ← build_stdin_secrets nul_creds None; child_reads p) =
  Some ({| access_key_id := "AKIA"; secret_access_key := "half"; session_token := "token" |}, None).
Proof. reflexivity. Qed.

(** The cap is on the line, name included, not on the value. *)
Definition long_creds (n : nat) : AwsCredentials :=
  {| access_key_id := "AKIA"; secret_access_key := "s"; session_token := zeros n |}.
Lemma value_under_cap_refused : (p ← build_stdin_secrets (long_creds 8175) None; Some (kmstool_stdin_read_secrets p)) = Some (Err LineTooLong).
Proof. vm_compute. reflexivity. Qed.

(** A line break is refused before anything is started. *)
Example line_break_refused : decrypt (child_process := tool false) 7
  {| access_key_id := "AKIA"; secret_access_key := "s" +:+ String LF "PLAINTEXT_B64=ZXZpbA=="; session_token := "t" |}
  (toy_seal "acme" "binance" demo_dek) (Some demo_ctx) = Err KmsInternal.
Proof. vm_compute. reflexivity. Qed.
End Demo.
