(* ===== verification/GwProto.v ===== *)
(** * Gateway wire types (gateway/src/proto.rs)

    The pure decisions of the HTTP boundary: which enclave action a request
    names, which kinds are never signable, which error codes may leave the
    gateway, the status and the explanation each of them gets, and the
    timestamp window. *)

From S2P Require Import Prelude RustStr Proto.

Open Scope string_scope.
Open Scope list_scope.
Open Scope Z_scope.

Module gw_code.
Definition BAD_REQUEST : string := "bad_request".
Definition PAYLOAD_TOO_LARGE : string := "payload_too_large".
Definition KMS_DECRYPT_DENIED : string := "kms_decrypt_denied".
Definition INTERNAL_ERROR : string := "internal_error".
Definition ENCLAVE_UNREACHABLE : string := "enclave_unreachable".
Definition UNAUTHORIZED : string := "unauthorized".
Definition RATE_LIMITED : string := "rate_limited".
Definition POLICY_DENIED : string := "policy_denied".
Definition POLICY_REQUIRED : string := "policy_required".
Definition CONTEXT_REQUIRED : string := "context_required".
Definition UNIMPLEMENTED_POLICY_FIELD : string := "unimplemented_policy_field".
Definition RECEIPTS_UNAVAILABLE : string := "receipts_unavailable".
Definition VERIFY_FAILED : string := "verify_failed".
Definition ACTION_NOT_ALLOWED : string := "action_not_allowed".
Definition SIZE_OVER_CAP : string := "size_over_cap".
Definition NOTIONAL_OVER_CAP : string := "notional_over_cap".
Definition WITHDRAWAL_NOT_SIGNABLE : string := "withdrawal_not_signable".
Definition DAILY_CAP : string := "daily_cap".
Definition TENANT_CANCEL_ONLY : string := "tenant_cancel_only".
Definition TENANT_HALTED : string := "tenant_halted".
End gw_code.

(** ** Requests *)

Definition MAX_TIMESTAMP_SKEW_MS : Z := 5000.

Definition ALLOWED_EXCHANGES : list string :=
  ["kucoin"; "binance"; "binance_futures"; "bybit"; "okx"; "hyperliquid_main"; "hyperliquid_testnet"; "asterdex"].

Definition enclave_action_for (exchange : string) (kind : option string) : option string :=
  if str_in exchange ["kucoin"] then Some "sign_kucoin"
  else if str_in exchange ["binance"; "binance_futures"] then Some "sign_binance"
  else if str_in exchange ["bybit"] then Some "sign_bybit"
  else if str_in exchange ["okx"] then Some "sign_okx"
  else if str_in exchange ["hyperliquid_main"] then
    match kind with
    | Some k =>
        if str_in k ["order"] then Some "sign_hyperliquid_main_order"
        else if str_in k ["cancel"] then Some "sign_hyperliquid_main_cancel"
        else None
    | None => None
    end
  else if str_in exchange ["hyperliquid_testnet"] then
    match kind with
    | Some k =>
        if str_in k ["order"] then Some "sign_hyperliquid_testnet_order"
        else if str_in k ["cancel"] then Some "sign_hyperliquid_testnet_cancel"
        else None
    | None => None
    end
  else if str_in exchange ["asterdex"] then Some "sign_asterdex"
  else None.

Definition is_withdrawal_kind (kind : option string) : bool :=
  match kind with
  | Some k => str_in k ["withdraw"; "withdraw3"; "withdrawal"; "usdSend"; "spotSend"; "usdClassTransfer";
                        "vaultTransfer"; "subAccountTransfer"; "hip3LiquidatorTransfer"; "cWithdraw"]
  | None => false
  end.

(** [now_ms.abs_diff(ts_ms) <= MAX_TIMESTAMP_SKEW_MS] *)
Definition timestamp_in_window (now_ms ts_ms : Z) : bool := Z.abs (now_ms - ts_ms) <=? MAX_TIMESTAMP_SKEW_MS.

(** The deserialiser of [client_order_id]: a blank id is no id. *)
Definition blank_as_none (v : option string) : option string :=
  match v with
  | Some s => if is_empty (trim s) then None else Some s
  | None => None
  end.

(** ** Error responses *)

Definition WIRE_OK_ERROR_CODES : list string :=
  [gw_code.BAD_REQUEST; gw_code.PAYLOAD_TOO_LARGE; gw_code.KMS_DECRYPT_DENIED; gw_code.INTERNAL_ERROR;
   gw_code.ENCLAVE_UNREACHABLE; gw_code.UNAUTHORIZED; gw_code.RATE_LIMITED; gw_code.POLICY_DENIED;
   gw_code.POLICY_REQUIRED; gw_code.CONTEXT_REQUIRED; gw_code.UNIMPLEMENTED_POLICY_FIELD;
   gw_code.RECEIPTS_UNAVAILABLE; gw_code.VERIFY_FAILED; gw_code.ACTION_NOT_ALLOWED; gw_code.SIZE_OVER_CAP;
   gw_code.NOTIONAL_OVER_CAP; gw_code.WITHDRAWAL_NOT_SIGNABLE; gw_code.DAILY_CAP].

Fixpoint find_known (code : string) (known : list string) : option string :=
  match known with
  | [] => None
  | k :: rest => if decide (k = code) then Some k else find_known code rest
  end.

Definition safe_wire_code (code : string) : string :=
  match find_known code WIRE_OK_ERROR_CODES with
  | Some known => known
  | None =>
      if starts_with "op_not_allowed:" code || starts_with "param_not_allowed:" code
      then gw_code.ACTION_NOT_ALLOWED
      else gw_code.INTERNAL_ERROR
  end.

(** A [match] on string constants with a default arm. *)
Fixpoint arm {A} (code : string) (arms : list (string * A)) (otherwise : A) : A :=
  match arms with
  | [] => otherwise
  | (k, a) :: rest => if decide (code = k) then a else arm code rest otherwise
  end.

Definition http_status_for (code : string) : Z :=
  arm code
    [(gw_code.BAD_REQUEST, 400); (gw_code.UNAUTHORIZED, 401); (gw_code.PAYLOAD_TOO_LARGE, 413);
     (gw_code.KMS_DECRYPT_DENIED, 503); (gw_code.ENCLAVE_UNREACHABLE, 503); (gw_code.RATE_LIMITED, 429);
     (gw_code.VERIFY_FAILED, 502); (gw_code.POLICY_DENIED, 403); (gw_code.POLICY_REQUIRED, 403);
     (gw_code.CONTEXT_REQUIRED, 400); (gw_code.UNIMPLEMENTED_POLICY_FIELD, 501);
     (gw_code.RECEIPTS_UNAVAILABLE, 501); (gw_code.ACTION_NOT_ALLOWED, 403); (gw_code.SIZE_OVER_CAP, 403);
     (gw_code.NOTIONAL_OVER_CAP, 403); (gw_code.WITHDRAWAL_NOT_SIGNABLE, 403); (gw_code.DAILY_CAP, 429);
     (gw_code.INTERNAL_ERROR, 500)]
    403.

Definition denial_meta (code : string) : bool * string * string :=
  arm code
    [(gw_code.ACTION_NOT_ALLOWED, (true, gw_code.ACTION_NOT_ALLOWED, "policy"));
     (gw_code.SIZE_OVER_CAP, (true, gw_code.SIZE_OVER_CAP, "policy"));
     (gw_code.NOTIONAL_OVER_CAP, (true, gw_code.NOTIONAL_OVER_CAP, "policy"));
     (gw_code.WITHDRAWAL_NOT_SIGNABLE, (true, gw_code.WITHDRAWAL_NOT_SIGNABLE, "policy"));
     (gw_code.POLICY_DENIED, (true, gw_code.POLICY_DENIED, "policy"));
     (gw_code.POLICY_REQUIRED, (true, gw_code.POLICY_REQUIRED, "policy"));
     (gw_code.CONTEXT_REQUIRED, (true, gw_code.CONTEXT_REQUIRED, "policy"));
     (gw_code.UNIMPLEMENTED_POLICY_FIELD, (true, gw_code.UNIMPLEMENTED_POLICY_FIELD, "policy"));
     (gw_code.RATE_LIMITED, (true, gw_code.RATE_LIMITED, "rate"));
     (gw_code.DAILY_CAP, (true, gw_code.DAILY_CAP, "rate"));
     (gw_code.TENANT_CANCEL_ONLY, (true, gw_code.TENANT_CANCEL_ONLY, "tenant_state"));
     (gw_code.TENANT_HALTED, (true, gw_code.TENANT_HALTED, "tenant_state"));
     (gw_code.UNAUTHORIZED, (true, gw_code.UNAUTHORIZED, "auth"));
     (gw_code.KMS_DECRYPT_DENIED, (true, gw_code.KMS_DECRYPT_DENIED, "attestation"));
     (gw_code.BAD_REQUEST, (false, gw_code.BAD_REQUEST, "request"));
     (gw_code.PAYLOAD_TOO_LARGE, (false, gw_code.PAYLOAD_TOO_LARGE, "request"));
     (gw_code.VERIFY_FAILED, (false, gw_code.VERIFY_FAILED, "infra"));
     (gw_code.RECEIPTS_UNAVAILABLE, (false, gw_code.RECEIPTS_UNAVAILABLE, "infra"));
     (gw_code.ENCLAVE_UNREACHABLE, (false, gw_code.ENCLAVE_UNREACHABLE, "infra"));
     (gw_code.INTERNAL_ERROR, (false, gw_code.INTERNAL_ERROR, "infra"))]
    (true, gw_code.POLICY_DENIED, "policy").

Record ErrorResponse := {
  er_denied : bool;
  er_reason_code : string;
  er_rule_class : string;
  er_error : string;
  er_decided_by : string;
  er_receipt : option json
}.

Definition ErrorResponse_new (code : string) : ErrorResponse :=
  let '(denied, reason_code, rule_class) := denial_meta code in
  {| er_denied := denied; er_reason_code := reason_code; er_rule_class := rule_class; er_error := code;
     er_decided_by := "gateway"; er_receipt := None |}.

Definition from_enclave (code : string) (receipt : option json) : ErrorResponse :=
  let r := ErrorResponse_new code in
  {| er_denied := er_denied r; er_reason_code := er_reason_code r; er_rule_class := er_rule_class r;
     er_error := er_error r; er_decided_by := "enclave"; er_receipt := receipt |}.

(** ** The boundary leaks nothing and hides no denial *)

Lemma find_known_Some code known k : find_known code known = Some k -> k = code /\ k ∈ known.
Proof.
  induction known as [|x known IH]; cbn [find_known]; [done|]. case_decide as Hx.
  - intros [= <-]. split; [done|by left].
  - intros [Hk Hin]%IH. split; [done|by right].
Qed.

Lemma find_known_None code known : find_known code known = None -> code ∉ known.
Proof.
  induction known as [|x known IH]; cbn [find_known]; [intros _; apply not_elem_of_nil|].
  case_decide as Hx; [done|]. intros Hn%IH. apply not_elem_of_cons. split; [congruence|done].
Qed.

Lemma safe_wire_code_listed code : safe_wire_code code ∈ WIRE_OK_ERROR_CODES.
Proof.
  unfold safe_wire_code. destruct (find_known _ _) as [k|] eqn:E; [by apply find_known_Some in E as [_ ?]|].
  destruct (_ || _); apply (bool_decide_unpack _); vm_compute; exact I.
Qed.

Lemma safe_wire_code_fix code : code ∈ WIRE_OK_ERROR_CODES -> safe_wire_code code = code.
Proof.
  intros Hin. unfold safe_wire_code. destruct (find_known _ _) as [k|] eqn:E; [by apply find_known_Some in E as [-> _]|].
  by apply find_known_None in E.
Qed.

Definition wire_entry_ok (code : string) : Prop :=
  match denial_meta code with
  | (denied, reason, _) => reason = code /\
      (denied = true -> http_status_for code ∈ [400; 401; 403; 429; 501; 503]) /\
      (denied = false -> http_status_for code <> 403)
  end.
#[global] Instance wire_entry_dec code : Decision (wire_entry_ok code).
Proof. unfold wire_entry_ok. destruct (denial_meta code) as [[denied reason] class]. destruct denied; apply _. Defined.

Lemma wire_table : Forall wire_entry_ok WIRE_OK_ERROR_CODES.
Proof. apply (bool_decide_unpack _). vm_compute. exact I. Qed.

(** Whatever string the enclave (or anything standing in for it) sends as
    an error code, the error the gateway puts on the wire is one of the 18
    listed codes, a listed code passes unchanged, the stated reason is the code
    itself, no denial is answered with a 5xx other than 501/503, and an error
    that is not a denial is never a 403. *)
Theorem wire_error_closed code receipt :
  let wire := safe_wire_code code in
  let r := from_enclave wire receipt in
  wire ∈ WIRE_OK_ERROR_CODES /\ (code ∈ WIRE_OK_ERROR_CODES -> wire = code) /\ safe_wire_code wire = wire /\
  er_reason_code r = wire /\ er_error r = wire /\ er_receipt r = receipt /\ er_decided_by r = "enclave" /\
  (er_denied r = true -> http_status_for wire ∈ [400; 401; 403; 429; 501; 503]) /\
  (er_denied r = false -> http_status_for wire <> 403).
Proof.
  intros wire r. pose proof (safe_wire_code_listed code) as Hl. fold wire in Hl.
  pose proof wire_table as Ht. rewrite Forall_forall in Ht. specialize (Ht wire Hl). unfold wire_entry_ok in Ht.
  subst r. unfold from_enclave, ErrorResponse_new. destruct (denial_meta wire) as [[denied reason] class].
  destruct Ht as (-> & Hs & H3). cbn [er_reason_code er_error er_receipt er_decided_by er_denied].
  split_and!; [done|apply safe_wire_code_fix|by apply safe_wire_code_fix|done|done|done|done|exact Hs|exact H3].
Qed.

(** ** What [/sign] can ask of the enclave *)

(** The generic route reaches the enclave only for an exchange of the
    allow-list, only with one of nine enclave actions, and never with a
    fund-moving kind on an EIP-712 venue. *)
Theorem enclave_action_reach exchange kind action :
  enclave_action_for exchange kind = Some action ->
  exchange ∈ ALLOWED_EXCHANGES /\
  action ∈ ["sign_kucoin"; "sign_binance"; "sign_bybit"; "sign_okx"; "sign_asterdex";
            "sign_hyperliquid_main_order"; "sign_hyperliquid_main_cancel";
            "sign_hyperliquid_testnet_order"; "sign_hyperliquid_testnet_cancel"] /\
  (is_withdrawal_kind kind = true -> exchange ∈ ["kucoin"; "binance"; "binance_futures"; "bybit"; "okx"; "asterdex"]).
Proof.
  unfold enclave_action_for, ALLOWED_EXCHANGES. intros Ha.
  repeat match type of Ha with (if str_in exchange ?l then _ else _) = _ =>
    let E := fresh "E" in destruct (str_in exchange l) eqn:E; [apply str_in_spec in E; clear - E Ha|clear E] end; [..|done].
  all: try (injection Ha as <-; set_unfold; tauto).
  all: destruct kind as [k|]; [|done]; repeat match type of Ha with (if str_in k ?l then _ else _) = _ =>
    let E := fresh "E" in destruct (str_in k l) eqn:E; [apply str_in_spec, list_elem_of_singleton in E; subst k|clear E] end; try done.
  all: injection Ha as <-; set_unfold; split; [tauto|]; split; [tauto|]; intros Hw; vm_compute in Hw; discriminate Hw.
Qed.

Lemma enclave_action_reach_witness : "okx" ∈ ALLOWED_EXCHANGES.
Proof. apply (enclave_action_reach "okx" (Some "withdraw") "sign_okx"). reflexivity. Defined.
