(* ===== verification/GwWire.v ===== *)
(** * The gateway's wire types (gateway/src/vsock.rs, proto.rs)

    Requests and responses of the HTTP routes, the message to the enclave and
    its answer, and the JSON the gateway builds from typed parameters. *)

From S2P Require Import Prelude RustStr Crates Proto GwProto.

Open Scope string_scope.
Open Scope list_scope.
Open Scope Z_scope.

Abbreviation Headers := (gmap string string).

(** ** The message to the enclave *)

Record VsockRequest := {
  vq_action : string;
  vq_proto_version : Z;
  vq_opaque_token : option string;
  vq_method : option string;
  vq_path : option string;
  vq_body : option string;
  vq_timestamp_ms : option Z;
  vq_aws_credentials : option AwsCredentials;
  vq_ciphertext_blob_base64 : option string;
  vq_key_blob_s3_key : option string;
  vq_query : option string;
  vq_op : option string;
  vq_payload : option string;
  vq_hl_action : option json;
  vq_nonce : option Z;
  vq_vault_address : option string;
  vq_x402 : option json;
  vq_permit2 : option json;
  vq_order : option json;
  vq_cancel : option json;
  vq_attestation_nonce : option string;
  vq_attestation_user_data : option string;
  vq_data : option string;
  vq_intent_signature : option string;
  vq_intent_nonce : option string;
  vq_client_nonce : option string
}.

(** Everything [None] but the action; the handlers set what they send. *)
Definition bare_request (action : string) : VsockRequest :=
  {| vq_action := action; vq_proto_version := 1; vq_opaque_token := None; vq_method := None; vq_path := None;
     vq_body := None; vq_timestamp_ms := None; vq_aws_credentials := None; vq_ciphertext_blob_base64 := None;
     vq_key_blob_s3_key := None; vq_query := None; vq_op := None; vq_payload := None; vq_hl_action := None;
     vq_nonce := None; vq_vault_address := None; vq_x402 := None; vq_permit2 := None; vq_order := None;
     vq_cancel := None; vq_attestation_nonce := None; vq_attestation_user_data := None; vq_data := None;
     vq_intent_signature := None; vq_intent_nonce := None; vq_client_nonce := None |}.

Record HlSignatureVsock := { hv_r : string; hv_s : string; hv_v : Z }.
Record AttestedDataVsock := { av_signature : HlSignatureVsock; av_pubkey_compressed : string; av_pubkey_address : string }.

Record VsockResponse := {
  vs_signature_base64 : string;
  vs_headers : option Headers;
  vs_hl_signature : option HlSignatureVsock;
  vs_error : option string;
  vs_plaintext_sha256 : option string;
  vs_plaintext_len : option Z;
  vs_canonical_body : option string;
  vs_attested : option AttestedDataVsock;
  vs_attestation_document_b64 : option string;
  vs_receipt : option json;
  vs_heartbeat : option json
}.

(** ** Typed parameters and the JSON built from them *)

Record X402Params := {
  xq_token_name : string; xq_token_version : string; xq_chain_id : Z; xq_token_address : string;
  xq_from : string; xq_to : string; xq_value : string; xq_valid_after : Z; xq_valid_before : Z; xq_nonce : string
}.
Record Permit2Params := {
  pq_chain_id : Z; pq_verifying_contract : string; pq_token : string; pq_amount : string;
  pq_expiration : Z; pq_nonce : Z; pq_spender : string; pq_sig_deadline : string
}.
Record OrderParams := {
  oq_symbol : string; oq_side : string; oq_qty : string; oq_ord_type : string; oq_price : option string;
  oq_reduce_only : bool; oq_client_order_id : option string
}.
Record CancelParams := { cq_symbol : string; cq_order_id : string }.

Definition ju64 (n : Z) : json := JNum (PosInt n).
(** [skip_serializing_if = "Option::is_none"] *)
Definition jopt (k : string) (v : option string) : list (string * json) :=
  match v with Some s => [(k, JStr s)] | None => [] end.

Definition x402_to_value (p : X402Params) : json :=
  JObj [("token_name", JStr (xq_token_name p)); ("token_version", JStr (xq_token_version p));
        ("chain_id", ju64 (xq_chain_id p)); ("token_address", JStr (xq_token_address p)); ("from", JStr (xq_from p));
        ("to", JStr (xq_to p)); ("value", JStr (xq_value p)); ("valid_after", ju64 (xq_valid_after p));
        ("valid_before", ju64 (xq_valid_before p)); ("nonce", JStr (xq_nonce p))].
Definition permit2_to_value (p : Permit2Params) : json :=
  JObj [("chain_id", ju64 (pq_chain_id p)); ("verifying_contract", JStr (pq_verifying_contract p));
        ("token", JStr (pq_token p)); ("amount", JStr (pq_amount p)); ("expiration", ju64 (pq_expiration p));
        ("nonce", ju64 (pq_nonce p)); ("spender", JStr (pq_spender p)); ("sig_deadline", JStr (pq_sig_deadline p))].
Definition order_to_value (o : OrderParams) : json :=
  JObj ([("symbol", JStr (oq_symbol o)); ("side", JStr (oq_side o)); ("qty", JStr (oq_qty o));
         ("ord_type", JStr (oq_ord_type o))] ++ jopt "price" (oq_price o) ++
        [("reduce_only", JBool (oq_reduce_only o))] ++ jopt "client_order_id" (oq_client_order_id o)).
Definition cancel_to_value (c : CancelParams) : json :=
  JObj [("symbol", JStr (cq_symbol c)); ("order_id", JStr (cq_order_id c))].

(** ** HTTP requests *)

Record SignHttpRequest := {
  sq_exchange : string; sq_method : string; sq_path : string; sq_body : string; sq_timestamp_ms : option Z;
  sq_query : option string; sq_kind : option string; sq_action : option json; sq_nonce : option Z;
  sq_vault_address : option string
}.
Record SignX402Request := { x4_key_id : string; x4_x402 : X402Params }.
Record SignPermit2Request := { p2_key_id : string; p2_permit2 : Permit2Params }.
(** [SignBinanceOrderRequest] and [SignOkxOrderRequest] have the same fields. *)
Record SignOrderRequest := {
  so_key_id : string; so_order : OrderParams; so_timestamp_ms : option Z; so_intent_signature : option string
}.
Record SignCancelRequest := {
  sc_key_id : string; sc_cancel : CancelParams; sc_timestamp_ms : option Z; sc_intent_signature : option string;
  sc_intent_nonce : option string
}.
Record SignBinanceRequestHttp := { br_key_id : string; br_op : string; br_payload : string }.
Record UserTradesQuery := {
  ut_symbol : option string; ut_order_id : option string; ut_start_time : option string; ut_end_time : option string;
  ut_from_id : option string; ut_inst_type : option string; ut_inst_id : option string; ut_ord_id : option string;
  ut_after : option string; ut_before : option string; ut_begin : option string; ut_end : option string;
  ut_limit : option string
}.

(** ** HTTP responses *)

Record SignedReadRequest := { rd_method : string; rd_url : string; rd_headers : Headers }.

(** [hedge.rs] *)
Inductive LegOutcome := LegOk | LegRejected | LegUnknown.
#[global] Instance LegOutcome_eq_dec : EqDecision LegOutcome.
Proof. solve_decision. Defined.
Record HedgeLegResult := {
  lr_venue : string; lr_phase : string; lr_outcome : LegOutcome; lr_ok : bool; lr_env : option string;
  lr_http_status : option Z; lr_response : option json; lr_error : option string
}.
(** Why a hedge is refused before signing; the hint's wording is left out. *)
Inductive HedgeShapeError :=
| NotTwoLegs
| NotMarket (leg : Z) (ord_type : string)
| DoubleDown
| SameClientOrderId (venue id : string)
| StraddlesEnvironments (env_a env_b : string).

Inductive Body :=
| ErrorBody (e : ErrorResponse)
| SignHttpResponse (headers : Headers) (signature : option HlSignatureVsock) (receipt : option json)
| SignX402Response (signature from : string) (receipt : option json)
| SignPermit2Response (signature owner : string) (receipt : option json)
| SignVenueResponse (venue method url : string) (headers : Headers) (body : option string) (receipt : option json)
| SignBinanceRequestResponse (signature api_key : string) (receipt : option json)
| VerifyBlobResponse (venue_id plaintext_sha256 : string) (plaintext_len : option Z) (decrypted_at_epoch_ms : Z)
| SignDataHttpResponse (signature : HlSignatureVsock) (pubkey_compressed pubkey_address : string)
| AccountOkxResponse (balance positions : SignedReadRequest)
| SignedVenueRequest (venue method url : string) (headers : Headers)
| HeartbeatResponse (heartbeat : json)
| AttestationResponse (pcr0_sha384 attestation_doc_b64 : string) (nonce pubkey_compressed pubkey_address : option string)
    (timestamp_ms : Z)
| HealthResponse (sign_checked sign_ok : bool) (sign_age_s : option Z)
| HealthUnavailableResponse (error : string)
| HedgeRefused (hint : HedgeShapeError)
| HedgeResponse (status : string) (legs : list HedgeLegResult)
| HedgeUnknown.

Record Response := { h_status : Z; h_body : Body; h_retry_after : option string; h_no_store : bool }.
Definition answer_with (status : Z) (body : Body) : Response :=
  {| h_status := status; h_body := body; h_retry_after := None; h_no_store := false |}.

Definition error_response (code : string) : Response := answer_with (http_status_for code) (ErrorBody (ErrorResponse_new code)).
Definition enclave_error_response (code : string) (receipt : option json) : Response :=
  answer_with (http_status_for code) (ErrorBody (from_enclave code receipt)).
