(* ===== verification/Framing.v ===== *)
(** * The channel between gateway and enclave (enclave/src/vsock_server.rs,
      gateway/src/vsock.rs)

    Both ends of one connection, byte for byte: a 4-byte big-endian length, then
    that many bytes of JSON.  A stream is the bytes the peer sends before it
    closes; serde's printers and parsers are parameters. *)

From S2P Require Import Prelude RustStr Crates Proto Intent GwProto GwWire.

Open Scope string_scope.
Open Scope Z_scope.

Definition MAX_MESSAGE_BYTES : Z := 64 * 1024.
Definition LENGTH_PREFIX_BYTES : nat := 4.

(** [u32::from_be_bytes] *)
Fixpoint be_value_from (acc : Z) (s : string) : Z :=
  match s with EmptyString => acc | String c s' => be_value_from (acc * 256 + byte_val c) s' end.
Definition be_value (s : string) : Z := be_value_from 0 s.

(** [read_exact] of [n] bytes: what was read and what is left, or the peer hung up. *)
Definition read_exact (n : nat) (stream : string) : option (string * string) :=
  if (String.length stream <? n)%nat then None else Some (str_take n stream, str_drop n stream).

Inductive FrameError := TooLarge | FrameIo.

Definition read_frame (stream : string) : result FrameError string :=
  match read_exact LENGTH_PREFIX_BYTES stream with
  | None => Err FrameIo
  | Some (len_buf, stream) =>
      let len := be_value len_buf in
      if (len =? 0) || (MAX_MESSAGE_BYTES <? len) then Err TooLarge
      else match read_exact (Z.to_nat len) stream with
           | None => Err FrameIo
           | Some (body, _) => Ok body
           end
  end.

(** What both writers put on the stream. *)
Definition frame (body : string) : string := u32_be (Z.of_nat (String.length body)) +:+ body.
Definition write_frame (body : string) : option string :=
  if MAX_MESSAGE_BYTES <? Z.of_nat (String.length body) then None else Some (frame body).

Class ChannelSerde := {
  vsock_request_to_vec : VsockRequest -> option string;
  sign_request_of_slice : string -> option SignRequest;
  sign_response_to_vec : SignResponse -> option string;
  vsock_response_of_slice : string -> option VsockResponse
}.

Section Channel.
Context `{ChannelSerde}.

Definition write_response (resp : SignResponse) : option string :=
  json ← sign_response_to_vec resp; write_frame json.

(** One connection: the bytes written back, [None] when it ends in an error. *)
Definition handle_connection (handle : SignRequest -> SignResponse) (stream : string) : option string :=
  match read_frame stream with
  | Err TooLarge => write_response (resp_err err_code.PAYLOAD_TOO_LARGE)
  | Err FrameIo => None
  | Ok bytes =>
      match sign_request_of_slice bytes with
      | None => write_response (resp_err err_code.BAD_REQUEST)
      | Some req => write_response (handle req)
      end
  end.

(** The gateway's side; [enclave] is what comes back for the bytes sent. *)
Definition round_trip (enclave : string -> option string) (req : VsockRequest) : option VsockResponse :=
  body ← vsock_request_to_vec req;
  wire ← write_frame body;
  stream ← enclave wire;
  match read_frame stream with Ok resp_buf => vsock_response_of_slice resp_buf | Err _ => None end.

(** ** Facts *)

Lemma be_value_from_bytes w n acc :
  0 <= n < 256 ^ Z.of_nat w -> be_value_from acc (be_bytes w n) = acc * 256 ^ Z.of_nat w + n.
Proof using.
  revert n acc. induction w as [|w IH]; intros n acc Hn; [cbn in *; lia|].
  rewrite Nat2Z.inj_succ, Z.pow_succ_r in * by lia. set (P := 256 ^ Z.of_nat w) in *.
  assert (0 < P) by (apply Z.pow_pos_nonneg; lia). cbn [be_bytes be_value_from]. fold P.
  assert (byte_val (byte_of (n / P)) = n / P) as ->.
  { rewrite byte_val_of. apply Z.mod_small. split; [apply Z.div_pos; lia|apply Z.div_lt_upper_bound; lia]. }
  rewrite be_bytes_mod, IH by (apply Z.mod_pos_bound; lia). fold P. pose proof (Z.div_mod n P). lia.
Qed.

Lemma length_str_take n s : (n <= String.length s)%nat -> String.length (str_take n s) = n.
Proof using. revert s. induction n as [|n IH]; intros [|c s]; cbn; intros; [lia..|]. rewrite IH by lia. done. Qed.

Lemma read_exact_app s t : read_exact (String.length s) (s +:+ t) = Some (s, t).
Proof using.
  unfold read_exact. rewrite length_append, str_take_app, str_drop_app.
  destruct (Nat.ltb_spec (String.length s + String.length t) (String.length s)); [lia|done].
Qed.

(** A frame is read back whole, whatever follows it. *)
Lemma read_frame_frame body rest :
  0 < Z.of_nat (String.length body) <= MAX_MESSAGE_BYTES -> read_frame (frame body +:+ rest) = Ok body.
Proof using.
  intros Hb. unfold read_frame, frame. set (len := Z.of_nat (String.length body)) in *.
  rewrite append_assoc. change LENGTH_PREFIX_BYTES with 4%nat.
  rewrite <- (length_be_bytes 4 len) at 1. change (be_bytes 4 len) with (u32_be len). rewrite read_exact_app.
  unfold be_value, u32_be. rewrite be_value_from_bytes by (unfold MAX_MESSAGE_BYTES in *; cbn; lia). cbn [Z.mul].
  rewrite Z.add_0_l. destruct (Z.eqb_spec len 0); [lia|]. destruct (Z.ltb_spec MAX_MESSAGE_BYTES len); [lia|]. cbn [orb].
  subst len. by rewrite Nat2Z.id, read_exact_app.
Qed.

(** Neither reader ever buffers more than the cap. *)
Lemma read_frame_bounded stream body :
  read_frame stream = Ok body -> 0 < Z.of_nat (String.length body) <= MAX_MESSAGE_BYTES.
Proof using.
  unfold read_frame. destruct (read_exact _ stream) as [[len_buf rest]|]; [|done].
  destruct (Z.eqb_spec (be_value len_buf) 0); [done|]. destruct (Z.ltb_spec MAX_MESSAGE_BYTES (be_value len_buf)); [done|]. cbn [orb].
  unfold read_exact. destruct (Nat.ltb_spec (String.length rest) (Z.to_nat (be_value len_buf))); [done|]. intros [= <-].
  rewrite length_str_take by done.
  assert (forall s acc, 0 <= acc -> 0 <= be_value_from acc s) as Hpos.
  { induction s as [|c s IH]; cbn; intros acc Ha; [done|]. apply IH. pose proof (byte_val_range c). lia. }
  specialize (Hpos len_buf 0). unfold be_value in *. lia.
Qed.

Lemma write_frame_Some body wire :
  write_frame body = Some wire <-> wire = frame body /\ Z.of_nat (String.length body) <= MAX_MESSAGE_BYTES.
Proof using.
  unfold write_frame. destruct (Z.ltb_spec MAX_MESSAGE_BYTES (Z.of_nat (String.length body))); split; try done.
  - intros [-> ?]. lia.
  - by intros [= <-].
  - by intros [-> _].
Qed.

Lemma read_frame_frame' body :
  0 < Z.of_nat (String.length body) <= MAX_MESSAGE_BYTES -> read_frame (frame body) = Ok body.
Proof using. intros Hb. rewrite <- (append_nil_r (frame body)). by apply read_frame_frame. Qed.

(** What the handler answers to the bytes of a request. *)
Definition answered (handle : SignRequest -> SignResponse) (body : string) : SignResponse :=
  match sign_request_of_slice body with Some req => handle req | None => resp_err err_code.BAD_REQUEST end.

Lemma handle_connection_frame handle body :
  0 < Z.of_nat (String.length body) <= MAX_MESSAGE_BYTES ->
  handle_connection handle (frame body) = write_response (answered handle body).
Proof using.
  intros Hb. unfold handle_connection. rewrite read_frame_frame' by done. unfold answered.
  by destruct (sign_request_of_slice body).
Qed.

(** An answer that reached the gateway is some response, read back; an error
    of the channel's own, or what the handler said to the request as parsed. *)
Lemma round_trip_inv handle req v : round_trip (handle_connection handle) req = Some v ->
  exists resp answer, sign_response_to_vec resp = Some answer /\ vsock_response_of_slice answer = Some v /\
    (is_Some (s_error resp) \/
     exists body sreq, vsock_request_to_vec req = Some body /\ sign_request_of_slice body = Some sreq /\ resp = handle sreq).
Proof using.
  unfold round_trip. destruct (vsock_request_to_vec req) as [body|]; [|done]. cbn [mbind option_bind].
  destruct (write_frame body) as [wire|] eqn:Hw; [|done]. cbn [mbind option_bind]. apply write_frame_Some in Hw as [-> Hle].
  assert (forall resp, write_response resp ≫= (fun stream =>
      match read_frame stream with Ok resp_buf => vsock_response_of_slice resp_buf | Err _ => None end) = Some v ->
    exists answer, sign_response_to_vec resp = Some answer /\ vsock_response_of_slice answer = Some v) as Hwr.
  { intros resp. unfold write_response. destruct (sign_response_to_vec resp) as [answer|]; [|done]. cbn [mbind option_bind].
    destruct (write_frame answer) as [w|] eqn:Hw; [|done]. apply write_frame_Some in Hw as [-> Hle']. cbn [mbind option_bind].
    destruct (decide (String.length answer = 0%nat)) as [Hz|Hnz]; [by destruct answer|]. rewrite read_frame_frame' by lia. eauto. }
  destruct (decide (String.length body = 0%nat)) as [Hz|Hnz].
  { destruct body; [|done]. intros Hs. destruct (Hwr (resp_err err_code.PAYLOAD_TOO_LARGE) Hs) as (answer & ? & ?).
    exists (resp_err err_code.PAYLOAD_TOO_LARGE), answer. split_and!; [done..|]. left. by eexists. }
  rewrite handle_connection_frame by lia. unfold answered. destruct (sign_request_of_slice body) as [sreq|] eqn:Hp; intros Hs;
    destruct (Hwr _ Hs) as (answer & ? & ?); eexists _, answer; (split_and!; [done..|]).
  - right. by exists body, sreq.
  - left. by eexists.
Qed.

(** C24: The channel is transparent: the gateway gets an answer to a request of
    1 to 64 KiB exactly when the answer of the enclave's handler, to the request
    as the enclave parsed it (bad_request when it did not parse), is itself of
    1 to 64 KiB and parses, and then that is the answer.  A larger request never
    leaves the gateway. *)
Theorem channel_transparent handle req body resp :
  vsock_request_to_vec req = Some body -> 0 < Z.of_nat (String.length body) ->
  (round_trip (handle_connection handle) req = Some resp) <->
  (Z.of_nat (String.length body) <= MAX_MESSAGE_BYTES) /\
  exists answer, (sign_response_to_vec (answered handle body) = Some answer) /\
    (0 < Z.of_nat (String.length answer) <= MAX_MESSAGE_BYTES) /\ vsock_response_of_slice answer = Some resp.
Proof using.
  intros Hb Hpos. unfold round_trip. rewrite Hb. cbn [mbind option_bind].
  destruct (write_frame body) as [wire|] eqn:Hw; cbn [mbind option_bind].
  2:{ split; [done|]. intros [Hle _]. assert (write_frame body = Some (frame body)) by (by apply write_frame_Some). congruence. }
  apply write_frame_Some in Hw as [-> Hle]. rewrite handle_connection_frame by done. unfold write_response.
  destruct (sign_response_to_vec (answered handle body)) as [answer|]; cbn [mbind option_bind];
    [|split; [done|by intros (_ & ? & ? & _)]].
  destruct (write_frame answer) as [wire|] eqn:Hw; cbn [mbind option_bind].
  - apply write_frame_Some in Hw as [-> Hle']. destruct (decide (String.length answer = 0%nat)) as [Hz|Hnz].
    + destruct answer; [|done]. split; [done|]. intros (_ & a & [= <-] & Ha & _). cbn in Ha. lia.
    + rewrite read_frame_frame' by lia. split; [intros Hs; split; [done|]; exists answer; split_and!; [done|lia..|done]|].
      by intros (_ & a & [= <-] & _ & Ha).
  - split; [done|]. intros (_ & a & [= <-] & Ha & _).
    assert (write_frame answer = Some (frame answer)) by (apply write_frame_Some; split; [done|lia]). congruence.
Qed.

(** An oversized or empty announcement is refused without reading the body. *)
Lemma handle_connection_oversized handle prefix rest :
  String.length prefix = 4%nat -> be_value prefix = 0 \/ MAX_MESSAGE_BYTES < be_value prefix ->
  handle_connection handle (prefix +:+ rest) = write_response (resp_err err_code.PAYLOAD_TOO_LARGE).
Proof using.
  intros Hl Hv. unfold handle_connection, read_frame. change LENGTH_PREFIX_BYTES with 4%nat. rewrite <- Hl, read_exact_app.
  destruct (Z.eqb_spec (be_value prefix) 0); [done|]. by destruct (Z.ltb_spec MAX_MESSAGE_BYTES (be_value prefix)); [|lia].
Qed.
End Channel.

(** ** A toy serde: requests by their action, responses by their signature *)

#[local] Instance demo_channel : ChannelSerde := {|
  vsock_request_to_vec r := Some (vq_action r);
  sign_request_of_slice s := if String.eqb s "ping" then Some (empty_request s) else None;
  sign_response_to_vec r := Some (s_signature_base64 r +:+ default "" (s_error r));
  vsock_response_of_slice s :=
    Some {| vs_signature_base64 := s; vs_headers := None; vs_hl_signature := None; vs_error := None;
            vs_plaintext_sha256 := None; vs_plaintext_len := None; vs_canonical_body := None; vs_attested := None;
            vs_attestation_document_b64 := None; vs_receipt := None; vs_heartbeat := None |}
|}.

Lemma channel_transparent_witness :
  exists resp, round_trip (handle_connection (fun _ => resp_ok "pong")) (bare_request "ping") = Some resp /\
    vs_signature_base64 resp = "pong".
Proof.
  eexists. split; [|].
  - apply (channel_transparent (fun _ => resp_ok "pong") (bare_request "ping") "ping"); [reflexivity|cbn; lia|].
    split; [vm_compute; discriminate|]. exists "pong". split; [reflexivity|]. split; [vm_compute; split; [reflexivity|discriminate]|].
    reflexivity.
  - reflexivity.
Defined.
