(* ===== verification/Server.v ===== *)
(** * The enclave's server (enclave/src/vsock_server.rs, main.rs, attestation.rs)

    The accept loop of [serve] as a transition system: it takes a permit, then
    accepts, then leaves the connection to its own task, which gives the permit
    back when it ends.  A connection is [Framing.handle_connection] on the bytes
    of its stream.  The NSM driver is a class of functions; what is modelled of
    [nsm_attestation] is the order of its calls and the handling of the answer. *)

From S2P Require Import Prelude RustStr Crates Permits Proto Intent GwProto GwWire Framing.

Open Scope string_scope.
Open Scope list_scope.
Open Scope Z_scope.

Definition MAX_CONCURRENT_CONNECTIONS : nat := 64.
Definition VSOCK_PORT : Z := 5000.

(** ** The accept loop *)

(** Where the loop is: waiting for a permit, or holding one in [accept]. *)
Inductive Phase := Acquiring | Accepting.

Record Server `{Permits} := {
  sv_sem : Sem;
  sv_phase : Phase;
  (** the connections being handled, with the bytes their peer sends *)
  sv_open : gmap nat string;
  sv_next : nat;
  (** what each ended connection wrote back, latest first *)
  sv_ended : list (nat * option string)
}.

(** [SEnd i handle]: the task of connection [i] ends, its request having been
    answered as [handle] does at that moment. *)
Inductive sop :=
| SPoll
| SAccept (stream : option string)
| SEnd (i : nat) (handle : SignRequest -> SignResponse).

Section Serve.
Context `{Permits, ChannelSerde}.

(** [serve] up to its loop; [None] when binding fails. *)
Definition serve_start (vsock_bind : Z -> bool) (port : Z) : option Server :=
  if vsock_bind port
  then Some {| sv_sem := sem_new MAX_CONCURRENT_CONNECTIONS; sv_phase := Acquiring; sv_open := ∅; sv_next := 0; sv_ended := [] |}
  else None.
Definition run (vsock_bind : Z -> bool) : option Server := serve_start vsock_bind VSOCK_PORT.

Definition sstep (op : sop) (sv : Server) : Server :=
  match op with
  | SPoll =>
      match sv_phase sv with
      | Accepting => sv
      | Acquiring =>
          match sem_try (sv_sem sv) with
          | None => sv
          | Some sem => {| sv_sem := sem; sv_phase := Accepting; sv_open := sv_open sv; sv_next := sv_next sv; sv_ended := sv_ended sv |}
          end
      end
  | SAccept stream =>
      match sv_phase sv with
      | Acquiring => sv
      | Accepting =>
          match stream with
          | Some stream =>
              {| sv_sem := sv_sem sv; sv_phase := Acquiring; sv_open := <[sv_next sv := stream]> (sv_open sv);
                 sv_next := S (sv_next sv); sv_ended := sv_ended sv |}
          | None =>
              {| sv_sem := sem_release (sv_sem sv); sv_phase := Acquiring; sv_open := sv_open sv; sv_next := sv_next sv;
                 sv_ended := sv_ended sv |}
          end
      end
  | SEnd i handle =>
      match sv_open sv !! i with
      | None => sv
      | Some stream =>
          {| sv_sem := sem_release (sv_sem sv); sv_phase := sv_phase sv; sv_open := delete i (sv_open sv); sv_next := sv_next sv;
             sv_ended := (i, handle_connection handle stream) :: sv_ended sv |}
      end
  end.

Definition sexec (ops : list sop) (sv : Server) : Server := foldl (fun sv op => sstep op sv) sv ops.
End Serve.

(** ** The NSM device *)

Record NsmRequest := { nr_user_data : option string; nr_nonce : option string; nr_public_key : option string }.
Inductive NsmResponse := NsmAttestation (document : string) | NsmOther.
Inductive AttestationError := NsmInit | NsmRequestFailed | Unavailable.

Class NsmDriver := {
  (** a descriptor, negative when the device cannot be opened *)
  nsm_init : Z;
  nsm_process_request : Z -> NsmRequest -> NsmResponse
}.
Inductive nsm_call := CInit | CRequest (fd : Z) (req : NsmRequest) | CExit (fd : Z).

(** The result and the calls made on the driver, in order. *)
Definition nsm_attestation `{NsmDriver} (nonce user_data public_key : option string)
    : result AttestationError string * list nsm_call :=
  let fd := nsm_init in
  if fd <? 0 then (Err NsmInit, [CInit])
  else
    let request := {| nr_user_data := user_data; nr_nonce := nonce; nr_public_key := public_key |} in
    let response := nsm_process_request fd request in
    (match response with NsmAttestation document => Ok document | NsmOther => Err NsmRequestFailed end,
     [CInit; CRequest fd request; CExit fd]).

(** Every descriptor opened is released, and a document is the device's answer
    to a request that binds all three fields. *)
Lemma nsm_attestation_calls `{NsmDriver} nonce user_data public_key r calls :
  nsm_attestation nonce user_data public_key = (r, calls) ->
  (CExit nsm_init ∈ calls <-> 0 <= nsm_init) /\
  (forall document, r = Ok document <-> 0 <= nsm_init /\
     nsm_process_request nsm_init {| nr_user_data := user_data; nr_nonce := nonce; nr_public_key := public_key |} = NsmAttestation document).
Proof.
  unfold nsm_attestation. destruct (Z.ltb_spec nsm_init 0) as [Hi|Hi]; intros [= <- <-]; split.
  - rewrite list_elem_of_singleton. split; [done|lia].
  - intros d. split; [done|lia].
  - split; [done|]. intros _. do 2 right. by left.
  - intros d. destruct (nsm_process_request _ _); split; [intros [= ->]; done|by intros [_ [= ->]]|done|by intros [_ ?]].
Qed.

(** ** Facts *)

Section Facts.
Context `{PermitLaws, ChannelSerde}.

Definition in_accept (p : Phase) : nat := match p with Accepting => 1 | Acquiring => 0 end.

(** Every permit that is out belongs to a live connection or to the loop. *)
Record server_inv (sv : Server) : Prop := {
  si_permits : accounts_for MAX_CONCURRENT_CONNECTIONS (size (sv_open sv) + in_accept (sv_phase sv)) (sv_sem sv);
  si_next : forall i stream, sv_open sv !! i = Some stream -> (i < sv_next sv)%nat
}.

Lemma server_inv_start vsock_bind port sv : serve_start vsock_bind port = Some sv -> server_inv sv.
Proof using All. unfold serve_start. destruct (vsock_bind port); [|done]. intros [= <-]. split; [apply accounts_new|done]. Qed.

Lemma server_inv_step op sv : server_inv sv -> server_inv (sstep op sv).
Proof using All.
  intros [Hp Hn]. unfold sstep. destruct op as [|stream|i handle].
  - destruct (sv_phase sv) eqn:E; [|by split; [rewrite E|]]. destruct (sem_try _) as [sem|] eqn:Ht; [|by split; [rewrite E|]].
    split; [|done]. cbn [sv_sem sv_phase sv_open in_accept] in *. rewrite Nat.add_1_r. rewrite Nat.add_0_r in Hp. by eapply accounts_try.
  - destruct (sv_phase sv) eqn:E; [by split; [rewrite E|]|]. cbn [in_accept] in Hp. rewrite Nat.add_1_r in Hp.
    destruct stream as [stream|]; split; cbn [sv_sem sv_phase sv_open sv_next in_accept]; rewrite ?Nat.add_0_r.
    + rewrite map_size_insert_None; [done|]. destruct (sv_open sv !! sv_next sv) as [s|] eqn:El; [apply Hn in El; lia|done].
    + intros i s. destruct (decide (i = sv_next sv)) as [->|Hi]; [lia|]. rewrite lookup_insert_ne by done. intros Hl%Hn. lia.
    + by apply accounts_release.
    + done.
  - destruct (sv_open sv !! i) as [stream|] eqn:E; [|by split]. split; cbn [sv_sem sv_phase sv_open sv_next].
    + apply accounts_release. rewrite map_size_delete_Some by eauto. assert (size (sv_open sv) <> 0%nat) as Hs.
      { intros He%map_size_empty_inv. rewrite He in E. done. }
      replace (S (pred (size (sv_open sv)) + in_accept (sv_phase sv))) with (size (sv_open sv) + in_accept (sv_phase sv))%nat by lia. done.
    + intros j s. rewrite lookup_delete_Some. intros [_ Hl]. by eapply Hn.
Qed.

Lemma server_inv_exec ops : forall sv, server_inv sv -> server_inv (sexec ops sv).
Proof using All. induction ops as [|op ops IH]; intros sv Hs; [done|]. apply IH. by apply server_inv_step. Qed.

(** C39: However connections arrive, fail to be accepted, and end, the enclave
    handles at most 64 at once, loses no permit, and never stops serving: its
    loop is in [accept], or gets there at once, or 64 connections are open and
    the end of any one of them brings it there. *)
Theorem server_bounded_and_live vsock_bind sv0 ops :
  run vsock_bind = Some sv0 ->
  let sv := sexec ops sv0 in
  (size (sv_open sv) <= 64)%nat /\
  (sv_phase (sstep SPoll sv) = Accepting \/
   (size (sv_open sv) = 64%nat /\
    forall i handle, is_Some (sv_open sv !! i) -> sv_phase (sstep SPoll (sstep (SEnd i handle) sv)) = Accepting)).
Proof using All.
  intros Hstart%server_inv_start sv. pose proof (server_inv_exec ops _ Hstart) as [Hp _]. fold sv in Hp. clearbody sv.
  split; [apply accounts_le in Hp; unfold MAX_CONCURRENT_CONNECTIONS in Hp; lia|].
  unfold sstep at 1. destruct (sv_phase sv) eqn:E; [|by left]. rewrite Nat.add_0_r in Hp.
  destruct (sem_try (sv_sem sv)) as [sem|] eqn:Ht; [by left|right]. split; [by apply (accounts_full _ _ _ Hp) in Ht|].
  intros i handle [stream Hi]. unfold sstep. rewrite Hi. cbn [sv_phase sv_sem]. rewrite E.
  destruct (sem_try (sem_release _)) as [sem|] eqn:Ht'; [done|]. apply sem_try_none in Ht'. rewrite sem_release_available in Ht'. lia.
Qed.

(** A connection is answered once, as [handle_connection] answers its stream. *)
Lemma end_answers i handle stream sv : sv_open sv !! i = Some stream ->
  let sv' := sstep (SEnd i handle) sv in
  sv_ended sv' = (i, handle_connection handle stream) :: sv_ended sv /\ forall handle', sstep (SEnd i handle') sv' = sv'.
Proof using. intros Hi. cbn. rewrite Hi. cbn. split; [done|]. intros. by rewrite lookup_delete_eq. Qed.
End Facts.

(** Sixty-four peers that send nothing, and one that then hangs up. *)
#[local] Instance silent_serde : ChannelSerde := {|
  vsock_request_to_vec _ := None; sign_request_of_slice _ := None; sign_response_to_vec _ := Some "err"; vsock_response_of_slice _ := None
|}.
Definition demo_arrivals (n : nat) : list sop := SPoll :: SAccept None :: concat (replicate n [SPoll; SAccept (Some "")]).

Lemma server_bounded_and_live_witness : exists sv0 : Server, run (fun _ => true) = Some sv0 /\
  let sv := sexec (demo_arrivals 65) sv0 in
  size (sv_open sv) = 64%nat /\ sv_phase (sstep SPoll sv) = Acquiring /\
  sv_phase (sstep SPoll (sstep (SEnd 7 (fun _ => resp_ok "pong")) sv)) = Accepting.
Proof.
  eexists. split; [reflexivity|]. cbv zeta. split; [vm_compute; reflexivity|]. split; [vm_compute; reflexivity|].
  destruct (server_bounded_and_live (fun _ => true) _ (demo_arrivals 65) eq_refl) as [_ [Ha|[_ He]]].
  - exfalso. revert Ha. vm_compute. discriminate.
  - apply He. exists "". vm_compute. reflexivity.
Defined.
