(* ===== verification/GwHost.v ===== *)
(** * The gateway's host: environment and files

    Environment variables as a function, files as a map from path to content.
    [atomic_write_bytes] (gateway/src/limits.rs) is the one writer of state
    files; every moment the file system goes through is recorded, with the
    directory syncs that make renames durable, so that a crash at any point can
    be examined. *)

From S2P Require Import Prelude RustStr Decimal.

Open Scope string_scope.
Open Scope list_scope.
Open Scope Z_scope.

(** ** Environment ([std::env::var(..).ok()]) *)

Definition Env := string -> option string.

(** [str::parse] for an unsigned type with [2 ^ bits] values. *)
Definition parse_unsigned (bits : Z) (s : string) : option Z :=
  let ds := default s (strip_prefix "+" s) in
  if is_empty ds || negb (bytes_all is_ascii_digit ds) then None
  else
    let n := msf_val (str_digits ds) in
    if n <? 2 ^ bits then Some n else None.

Definition env_flag_enabled (env : Env) (var : string) : bool :=
  match env var with
  | Some v =>
      let v := trim v in
      eq_ignore_ascii_case v "1" || eq_ignore_ascii_case v "true" || eq_ignore_ascii_case v "yes"
  | None => false
  end.

(** ** Files *)

(** A file's content, and whether it was synced since it was last written. *)
Record File := { f_data : string; f_synced : bool }.
Abbreviation Fs := (gmap string File).

Inductive io_error := NotFound | InvalidData | IoFailure.

(** Which of the system calls of one operation succeed; [io_written] is how
    much of a failing write reached the file. *)
Record Io := {
  io_read : bool; io_create : bool; io_write : bool; io_written : nat; io_sync : bool; io_rename : bool; io_remove : bool;
  io_dirsync : bool
}.
Definition io_fine : Io :=
  {| io_read := true; io_create := true; io_write := true; io_written := 0; io_sync := true; io_rename := true;
     io_remove := true; io_dirsync := true |}.

(** [std::fs::read]: absence is the only source of [NotFound]. *)
Definition fs_read (io : Io) (path : string) (fs : Fs) : result io_error string :=
  if negb (io_read io) then Err IoFailure
  else match fs !! path with Some f => Ok (f_data f) | None => Err NotFound end.

(** ** Atomic writes *)

(** A moment of the disk: what a running process sees, and whether the
    directory was just synced, so that no older entry can come back. *)
Record Moment := { m_fs : Fs; m_dirsync : bool }.
Definition at_moment (fs : Fs) : Moment := {| m_fs := fs; m_dirsync := false |}.

(** The moments an operation went through, latest first. *)
Definition Trail := list Moment.

Definition tmp_name (path : string) : string := path +:+ ".tmp".

(** [File::create], [write_all], [sync_all], [rename]. *)
Definition write_then_rename (io : Io) (path bytes : string) (fs : Fs) : result io_error () * Fs * Trail :=
  let tmp := tmp_name path in
  if negb (io_create io) then (Err IoFailure, fs, []) else
  let created := <[tmp := {| f_data := ""; f_synced := false |}]> fs in
  if negb (io_write io) then
    let partial := <[tmp := {| f_data := str_take (io_written io) bytes; f_synced := false |}]> fs in
    (Err IoFailure, partial, at_moment <$> [partial; created])
  else
  let written := <[tmp := {| f_data := bytes; f_synced := false |}]> fs in
  if negb (io_sync io) then (Err IoFailure, written, at_moment <$> [written; created]) else
  let synced := <[tmp := {| f_data := bytes; f_synced := true |}]> fs in
  if negb (io_rename io) then (Err IoFailure, synced, at_moment <$> [synced; written; created]) else
  let renamed := <[path := {| f_data := bytes; f_synced := true |}]> (delete tmp synced) in
  (Ok (), renamed, at_moment <$> [renamed; synced; written; created]).

(** [path.parent().filter(|d| !d.as_os_str().is_empty())]: a separator is left
    once trailing separators and [.] components are gone. *)
Fixpoint drop_trailing (reversed : list ascii) : list ascii :=
  match reversed with
  | c :: rest =>
      if decide (c = "/"%char) then drop_trailing rest
      else match rest with
           | c' :: _ => if decide (c = "."%char /\ c' = "/"%char) then drop_trailing rest else reversed
           | [] => reversed
           end
  | [] => []
  end.
Definition has_parent_dir (path : string) : bool :=
  bool_decide ("/"%char ∈ drop_trailing (reverse (list_ascii_of_string path))).

(** On failure the temporary file is removed, if that works; on success the
    parent directory is synced, and a failure of that is only logged. *)
Definition atomic_write_bytes (io : Io) (path bytes : string) (fs : Fs) : result io_error () * Fs * Trail :=
  match write_then_rename io path bytes fs with
  | (Err e, fs', trail) =>
      if io_remove io then let cleaned := delete (tmp_name path) fs' in (Err e, cleaned, at_moment cleaned :: trail)
      else (Err e, fs', trail)
  | (Ok tt, fs', trail) =>
      if has_parent_dir path && io_dirsync io then (Ok (), fs', {| m_fs := fs'; m_dirsync := true |} :: trail)
      else (Ok (), fs', trail)
  end.

(** What a path may hold when its directory entry is that of a moment: the
    content of a synced file, anything where the file was not synced. *)
Definition may_hold (fs : Fs) (path : string) (content : option string) : Prop :=
  match fs !! path with
  | None => content = None
  | Some f => if f_synced f then content = Some (f_data f) else True
  end.

(** What a path may hold after the host lost power, with all that happened
    before (latest first): its entry is that of some moment no older than the
    last directory sync. *)
Fixpoint after_crash (history : Trail) (path : string) (content : option string) : Prop :=
  match history with
  | [] => False
  | m :: older => may_hold (m_fs m) path content \/ (m_dirsync m = false /\ after_crash older path content)
  end.

Definition synced_at (fs : Fs) (path : string) : Prop :=
  match fs !! path with Some f => f_synced f = true | None => True end.

(** ** Lemmas *)

Lemma tmp_name_ne path : tmp_name path <> path.
Proof. intros He. apply (f_equal String.length) in He. unfold tmp_name in He. rewrite length_append in He. cbn in He. lia. Qed.

Ltac fs_lookup :=
  repeat first [rewrite lookup_insert_eq | rewrite lookup_insert_ne by congruence | rewrite lookup_delete_eq
    | rewrite lookup_delete_ne by congruence].

(** Nothing but the two paths is touched. *)
Lemma atomic_write_frame io path bytes fs r fs' trail other :
  atomic_write_bytes io path bytes fs = (r, fs', trail) -> other <> path -> other <> tmp_name path ->
  fs' !! other = fs !! other.
Proof.
  intros Hw Hp Ht. unfold atomic_write_bytes, write_then_rename in Hw.
  repeat case_match; simplify_eq; fs_lookup; done.
Qed.

(** Success stores the bytes, failure leaves the file as it was. *)
Lemma atomic_write_result io path bytes fs r fs' trail :
  atomic_write_bytes io path bytes fs = (r, fs', trail) ->
  match r with
  | Ok _ => fs' !! path = Some {| f_data := bytes; f_synced := true |}
  | Err _ => fs' !! path = fs !! path
  end.
Proof.
  intros Hw. pose proof (tmp_name_ne path). unfold atomic_write_bytes, write_then_rename in Hw.
  repeat case_match; simplify_eq; fs_lookup; done.
Qed.

Lemma may_hold_entry fs fs' path content : fs !! path = fs' !! path -> may_hold fs path content -> may_hold fs' path content.
Proof. intros He. unfold may_hold. by rewrite He. Qed.

Definition new_file (bytes : string) : File := {| f_data := bytes; f_synced := true |}.
Lemma may_hold_new fs path bytes content : fs !! path = Some (new_file bytes) -> (may_hold fs path content <-> content = Some bytes).
Proof. intros He. unfold may_hold. by rewrite He. Qed.

(** Up to the rename the path is as it was, and nothing is synced. *)
Definition unchanged (fs : Fs) (path : string) (m : Moment) : Prop := m_fs m !! path = fs !! path /\ m_dirsync m = false.

Lemma write_then_rename_trail io path bytes fs r fs' trail :
  write_then_rename io path bytes fs = (r, fs', trail) ->
  match r with
  | Err _ => Forall (unchanged fs path) trail
  | Ok _ => exists before, trail = at_moment fs' :: before /\ Forall (unchanged fs path) before
  end.
Proof.
  intros Hw. pose proof (tmp_name_ne path). unfold write_then_rename in Hw.
  repeat case_match; simplify_eq; [..|eexists; split; [reflexivity|]]; repeat (constructor; try (split; cbn; [by fs_lookup|done])).
Qed.

(** The moments of a write: only the rename changes the path, and only the last
    moment of a success can have the directory synced. *)
Lemma atomic_write_trail io path bytes fs r fs' trail :
  atomic_write_bytes io path bytes fs = (r, fs', trail) ->
  match r with
  | Err _ => Forall (unchanged fs path) trail
  | Ok _ => exists before, Forall (unchanged fs path) before /\
      trail = (if has_parent_dir path && io_dirsync io then [{| m_fs := fs'; m_dirsync := true |}] else []) ++ at_moment fs' :: before
  end.
Proof.
  unfold atomic_write_bytes. destruct (write_then_rename io path bytes fs) as [[[[]|e] fs0] tr] eqn:Hw;
    pose proof (write_then_rename_trail _ _ _ _ _ _ _ Hw) as Ht.
  - destruct Ht as (before & -> & Hb). destruct (_ && _); intros [= <- <- <-]; by exists before.
  - pose proof (tmp_name_ne path). assert (fs0 !! path = fs !! path) as He.
    { unfold write_then_rename in Hw. repeat case_match; simplify_eq; by fs_lookup. }
    destruct (io_remove io); intros [= <- <- <-]; [|done]. constructor; [|done]. split; cbn; [by fs_lookup|done].
Qed.

Lemma atomic_write_fine path bytes fs : exists fs' trail, atomic_write_bytes io_fine path bytes fs = (Ok (), fs', trail).
Proof. unfold atomic_write_bytes. cbn. destruct (_ && _); eauto. Qed.

Lemma atomic_write_synced io path bytes fs r fs' trail :
  atomic_write_bytes io path bytes fs = (r, fs', trail) -> synced_at fs path -> synced_at fs' path.
Proof.
  intros Hw Hs. pose proof (atomic_write_result _ _ _ _ _ _ _ Hw) as Hr. unfold synced_at in *. destruct r; by rewrite Hr.
Qed.

(** Moments that leave the path as the latest one before them has it add no
    outcome of a crash. *)
Lemma crash_unchanged fs path content trail m before : m_fs m = fs -> Forall (unchanged fs path) trail ->
  after_crash (trail ++ m :: before) path content -> after_crash (m :: before) path content.
Proof.
  intros Hm. induction 1 as [|m' trail [He Hd] _ IH]; cbn [Datatypes.app after_crash]; [done|].
  intros [Hh|[_ Hc]]; [|by apply IH]. left. rewrite Hm. by eapply may_hold_entry.
Qed.
(** They take none away either: nothing was synced. *)
Lemma crash_unsynced fs path content trail before : Forall (unchanged fs path) trail ->
  after_crash before path content -> after_crash (trail ++ before) path content.
Proof. intros Hf Hc. induction Hf as [|m' trail [_ Hd] _ IH]; [done|]. right. by split. Qed.

(** C37: A state file is never torn.  Whichever system calls of a write fail,
    and whatever happened to the disk before it: if the host loses power at any
    moment of the write, the path afterwards holds the whole new content or
    something a crash before the write could have left.  A failed write leaves
    the file, and what a crash can leave, exactly as they were.  A successful
    one leaves the new content for every later read; it is all a crash can
    leave if the parent directory could be synced, and where it could not (the
    source goes on) exactly the older outcomes remain possible beside it. *)
Theorem atomic_write_never_torn io path bytes fs r fs' trail now before :
  m_fs now = fs -> atomic_write_bytes io path bytes fs = (r, fs', trail) ->
  (forall later done content, trail = later ++ done -> after_crash (done ++ now :: before) path content ->
     content = Some bytes \/ after_crash (now :: before) path content) /\
  match r with
  | Ok _ => fs' !! path = Some (new_file bytes) /\
      forall content, after_crash (trail ++ now :: before) path content <->
        content = Some bytes \/ (has_parent_dir path && io_dirsync io = false /\ after_crash (now :: before) path content)
  | Err _ => fs' !! path = fs !! path /\
      forall content, after_crash (trail ++ now :: before) path content <-> after_crash (now :: before) path content
  end.
Proof.
  intros Hnow Hw. pose proof (atomic_write_result _ _ _ _ _ _ _ Hw) as Hr. pose proof (atomic_write_trail _ _ _ _ _ _ _ Hw) as Ht.
  destruct r as [u|e].
  - destruct Ht as (old & Hold & ->). fold (new_file bytes) in Hr. pose proof (fun c => may_hold_new fs' path bytes c Hr) as Hnew.
    assert (forall c, after_crash (old ++ now :: before) path c <-> after_crash (now :: before) path c) as Hc.
    { intros c. split; [by eapply crash_unchanged|by eapply crash_unsynced]. }
    assert (forall c, after_crash (at_moment fs' :: old ++ now :: before) path c <-> c = Some bytes \/ after_crash (now :: before) path c) as Hc'.
    { intros c. cbn [after_crash at_moment m_fs m_dirsync]. rewrite Hnew, Hc. clear. naive_solver. }
    split; [|split; [exact Hr|]].
    + intros later done content Hsplit Hcrash.
      assert (Forall (fun m => unchanged fs path m \/ m_fs m = fs') done) as Hd.
      { eapply proj2, Forall_app. rewrite <- Hsplit.
        destruct (_ && _); repeat constructor; try (by right); (eapply Forall_impl; [exact Hold|]; auto). }
      clear - Hd Hcrash Hnow Hnew. induction Hd as [|m done Hm _ IH]; [by right|]. destruct Hcrash as [Hh|[_ Hcr]]; [|by apply IH].
      destruct Hm as [[He _]|He]; [right; left; rewrite Hnow; by eapply may_hold_entry|left; rewrite He in Hh; by apply Hnew].
    + intros content. destruct (_ && _) eqn:E; cbn [Datatypes.app].
      * cbn [after_crash m_fs m_dirsync]. rewrite Hnew. clear. naive_solver.
      * rewrite Hc'. clear. naive_solver.
  - assert (forall c, after_crash (trail ++ now :: before) path c <-> after_crash (now :: before) path c) as Hc.
    { intros c. split; [by eapply crash_unchanged|by eapply crash_unsynced]. }
    split; [|by split]. intros later done content -> Hcrash. right. apply Forall_app in Ht as [_ Hd]. by eapply crash_unchanged.
Qed.

(** With the old file durable: a crash leaves the old or the new content, and
    only the new once the directory is synced. *)
Definition demo_disk : Moment := {| m_fs := {["/state/orders.json" := new_file "old"]}; m_dirsync := true |}.
Definition demo_write (io : Io) : result io_error () * Fs * Trail := atomic_write_bytes io "/state/orders.json" "new" (m_fs demo_disk).
Definition io_no_dirsync : Io :=
  {| io_read := true; io_create := true; io_write := true; io_written := 0; io_sync := true; io_rename := true;
     io_remove := true; io_dirsync := false |}.

Lemma atomic_write_never_torn_witness :
  (forall content, after_crash (snd (demo_write io_fine) ++ [demo_disk]) "/state/orders.json" content -> content = Some "new") /\
  after_crash (snd (demo_write io_no_dirsync) ++ [demo_disk]) "/state/orders.json" (Some "old").
Proof.
  pose proof (proj2 (atomic_write_never_torn io_fine "/state/orders.json" "new" (m_fs demo_disk) (Ok ()) _ _ demo_disk [] eq_refl eq_refl)) as [_ H1'].
  pose proof (proj2 (atomic_write_never_torn io_no_dirsync "/state/orders.json" "new" (m_fs demo_disk) (Ok ()) _ _ demo_disk [] eq_refl eq_refl)) as [_ H2'].
  split.
  - intros content Hc. apply H1' in Hc as [->|[Hn _]]; [reflexivity|]. exfalso.
    assert (has_parent_dir "/state/orders.json" = true) as Hp by (vm_compute; reflexivity). rewrite Hp in Hn. discriminate Hn.
  - apply H2'. right. split; [vm_compute; reflexivity|]. left. vm_compute. reflexivity.
Defined.

(** ** A toy serialiser: the bits of a value's code *)

Fixpoint bits_of (p : positive) : string :=
  match p with xH => "" | xO q => String "0" (bits_of q) | xI q => String "1" (bits_of q) end.
Fixpoint of_bits (s : string) : positive :=
  match s with
  | EmptyString => xH
  | String c rest => if decide (c = "1"%char) then xI (of_bits rest) else xO (of_bits rest)
  end.

Lemma of_bits_of p : of_bits (bits_of p) = p.
Proof. induction p as [p IH|p IH|]; cbn [bits_of of_bits]; [rewrite decide_True by done|rewrite decide_False by done|]; congruence. Qed.

Definition toy_write {A} `{Countable A} (a : A) : string := bits_of (encode a).
Definition toy_read {A} `{Countable A} (s : string) : option A := decode (of_bits s).
Lemma toy_read_write {A} `{Countable A} (a : A) : toy_read (toy_write a) = Some a.
Proof. unfold toy_read, toy_write. by rewrite of_bits_of, decode_encode. Qed.
