(* ===== verification/ParentClient.v ===== *)
(** * The parent's client (parent/src/main.rs)

    The operator's command line on the enclave's host: it asks for a registry
    challenge, delivers a signed refresh, has keys minted and writes what comes
    back.  Requests are built from files and the environment and travel in the
    frames of [Framing]; [as_enclave] is how the enclave reads them.  Argument
    parsing is left out; printing is a list of lines. *)

From S2P Require Import Prelude RustStr Crates Proto Registry Intent PolicyGate Stores Eip712 Receipt PolicyCli Program Handler Scenario GwProto GwHost GwWire Framing.

Open Scope string_scope.
Open Scope list_scope.
Open Scope Z_scope.

(** ** Requests and responses *)

Record PSignRequest := {
  pr_action : string;
  pr_method : option string;
  pr_path : option string;
  pr_body : option string;
  pr_timestamp_ms : option Z;
  pr_key_blob_s3_key : option string;
  pr_key_id : option string;
  pr_aws_credentials : option AwsCredentials;
  pr_ciphertext_blob_base64 : option string;
  pr_registry_refresh : option RegistryRefreshParams;
  pr_provision_venue : option string;
  pr_provision_customer_id : option string;
  pr_provision_policy : option string
}.

Record PSignResponse := {
  ps_signature_base64 : string;
  ps_headers : option headers;
  ps_provision : option ProvisionDataKeyResponse;
  ps_error : option string
}.

(** The fields the enclave sees: those the client has no name for take serde's defaults. *)
Definition as_enclave (r : PSignRequest) : SignRequest :=
  {| r_action := pr_action r; r_proto_version := 0; r_opaque_token := None; r_method := pr_method r; r_path := pr_path r;
     r_body := pr_body r; r_timestamp_ms := pr_timestamp_ms r; r_key_blob_s3_key := pr_key_blob_s3_key r; r_key_id := pr_key_id r;
     r_aws_credentials := pr_aws_credentials r; r_ciphertext_blob_base64 := pr_ciphertext_blob_base64 r; r_query := None; r_op := None;
     r_payload := None; r_hl_action := None; r_nonce := None; r_vault_address := None; r_x402 := None; r_permit2 := None;
     r_order := None; r_cancel := None; r_data := None; r_registry_refresh := pr_registry_refresh r; r_intent_signature := None;
     r_intent_nonce := None; r_attestation_nonce := None; r_attestation_user_data := None; r_client_nonce := None;
     r_provision_venue := pr_provision_venue r; r_provision_customer_id := pr_provision_customer_id r;
     r_provision_policy := pr_provision_policy r |}.

Class ParentSerde := {
  parent_request_to_vec : PSignRequest -> option string;
  parent_response_of_slice : string -> option PSignResponse;
  parent_response_pretty : PSignResponse -> option string;
  refresh_params_of_slice : string -> option RegistryRefreshParams;
  is_json_text : string -> bool
}.
(** Both crates derive serde on the same field names. *)
Class ParentSerdeLaws `{ParentSerde, ChannelSerde} := {
  parent_request_read r body : parent_request_to_vec r = Some body -> sign_request_of_slice body = Some (as_enclave r)
}.

(** ** Commands *)

Inductive Cmd :=
| Ping
| Sign (method path body : string) (timestamp_ms : Z) (key_blob_s3_key key_id blob : string)
| SignKucoin (method path body : string) (timestamp_ms : Z) (key_blob_s3_key key_id blob : string)
| RegistryChallenge
| RegistryRefresh (blob refresh : string)
| ProvisionDataKey (key_id out : string)
| ProvisionAgentKey (key_id venue customer_id policy out : string).

Inductive ParentError :=
| MissingVar (var : string)
| EmptyCredentials
| BadId (label value : string)
| ReadFailed (path : string)
| NotJson (path : string)
| EmptyBlob
| NotBase64
| BadRefreshParams
| Transport
| Refused (code : string)
| NoProvision
| BadEnvelope
| OutDir
| AlreadyExists
| WriteFailed
| PrintFailed.

(** [std::fs::read]; [read_to_string] also wants UTF-8. *)
Abbreviation Disk := (string -> option string).
Definition read_to_string (disk : Disk) (path : string) : option string := bytes ← disk path; from_utf8 bytes.

Definition bare (action : string) : PSignRequest :=
  {| pr_action := action; pr_method := None; pr_path := None; pr_body := None; pr_timestamp_ms := None; pr_key_blob_s3_key := None;
     pr_key_id := None; pr_aws_credentials := None; pr_ciphertext_blob_base64 := None; pr_registry_refresh := None;
     pr_provision_venue := None; pr_provision_customer_id := None; pr_provision_policy := None |}.

Section Requests.
Context `{Crates, ParentSerde} (env : Env) (disk : Disk).

Definition load_credentials_from_env : result ParentError AwsCredentials :=
  id ← ok_or (env "AWS_ACCESS_KEY_ID") (MissingVar "AWS_ACCESS_KEY_ID");
  secret ← ok_or (env "AWS_SECRET_ACCESS_KEY") (MissingVar "AWS_SECRET_ACCESS_KEY");
  token ← ok_or (env "AWS_SESSION_TOKEN") (MissingVar "AWS_SESSION_TOKEN");
  if is_empty id || is_empty secret || is_empty token then Err EmptyCredentials
  else Ok {| access_key_id := id; secret_access_key := secret; session_token := token |}.

(** The closure [is_safe_id] of the next function. *)
Definition parent_safe_id (s : string) : bool :=
  negb (is_empty s) && (String.length s <=? 64)%nat &&
  bytes_all (fun b => is_ascii_alphanumeric b || bool_decide (b = "-"%char) || bool_decide (b = "_"%char)) s.

Definition build_provision_agent_request (key_id venue customer_id policy : string) : result ParentError PSignRequest :=
  if negb (parent_safe_id venue) then Err (BadId "venue" venue)
  else if negb (parent_safe_id customer_id) then Err (BadId "customer_id" customer_id)
  else
    creds ← load_credentials_from_env;
    policy_json ← ok_or (read_to_string disk policy) (ReadFailed policy);
    if negb (is_json_text policy_json) then Err (NotJson policy)
    else Ok {| pr_action := "provision_agent_key"; pr_method := None; pr_path := None; pr_body := None; pr_timestamp_ms := None;
               pr_key_blob_s3_key := None; pr_key_id := Some key_id; pr_aws_credentials := Some creds;
               pr_ciphertext_blob_base64 := None; pr_registry_refresh := None; pr_provision_venue := Some venue;
               pr_provision_customer_id := Some customer_id; pr_provision_policy := Some policy_json |}.

Definition build_provision_request (key_id : string) : result ParentError PSignRequest :=
  creds ← load_credentials_from_env;
  Ok {| pr_action := "provision_data_key"; pr_method := None; pr_path := None; pr_body := None; pr_timestamp_ms := None;
        pr_key_blob_s3_key := None; pr_key_id := Some key_id; pr_aws_credentials := Some creds; pr_ciphertext_blob_base64 := None;
        pr_registry_refresh := None; pr_provision_venue := None; pr_provision_customer_id := None; pr_provision_policy := None |}.

Definition build_kucoin_request (action method path body : string) (timestamp_ms : Z) (key_blob_s3_key key_id blob : string)
    : result ParentError PSignRequest :=
  creds ← load_credentials_from_env;
  ciphertext ← ok_or (disk blob) (ReadFailed blob);
  Ok {| pr_action := action; pr_method := Some method; pr_path := Some path; pr_body := Some body; pr_timestamp_ms := Some timestamp_ms;
        pr_key_blob_s3_key := Some key_blob_s3_key; pr_key_id := Some key_id; pr_aws_credentials := Some creds;
        pr_ciphertext_blob_base64 := Some (b64_encode ciphertext); pr_registry_refresh := None; pr_provision_venue := None;
        pr_provision_customer_id := None; pr_provision_policy := None |}.

Definition build_registry_refresh_request (blob refresh : string) : result ParentError PSignRequest :=
  creds ← load_credentials_from_env;
  text ← ok_or (read_to_string disk blob) (ReadFailed blob);
  let ciphertext_b64 := trim text in
  if is_empty ciphertext_b64 then Err EmptyBlob
  else
    _ ← ok_or (b64_decode ciphertext_b64) NotBase64;
    refresh_bytes ← ok_or (disk refresh) (ReadFailed refresh);
    params ← ok_or (refresh_params_of_slice refresh_bytes) BadRefreshParams;
    Ok {| pr_action := "registry_refresh"; pr_method := None; pr_path := None; pr_body := None; pr_timestamp_ms := None;
          pr_key_blob_s3_key := None; pr_key_id := None; pr_aws_credentials := Some creds;
          pr_ciphertext_blob_base64 := Some ciphertext_b64; pr_registry_refresh := Some params; pr_provision_venue := None;
          pr_provision_customer_id := None; pr_provision_policy := None |}.

Definition build_request (cmd : Cmd) : result ParentError PSignRequest :=
  match cmd with
  | Ping => Ok (bare "ping")
  | RegistryChallenge => Ok (bare "registry_challenge")
  | RegistryRefresh blob refresh => build_registry_refresh_request blob refresh
  | Sign method path body ts s3_key key_id blob => build_kucoin_request "sign" method path body ts s3_key key_id blob
  | SignKucoin method path body ts s3_key key_id blob => build_kucoin_request "sign_kucoin" method path body ts s3_key key_id blob
  | ProvisionDataKey key_id _ => build_provision_request key_id
  | ProvisionAgentKey key_id venue customer_id policy _ => build_provision_agent_request key_id venue customer_id policy
  end.
End Requests.

(** ** One round trip, and what is done with the answer *)

(** [enclave]: what comes back for the bytes sent; [None] when there is no connection. *)
Definition roundtrip `{ParentSerde} (enclave : string -> option string) (req : PSignRequest) : option PSignResponse :=
  body ← parent_request_to_vec req;
  wire ← write_frame body;
  stream ← enclave wire;
  match read_frame stream with Ok resp_buf => parent_response_of_slice resp_buf | Err _ => None end.

Record OutFile := { of_bytes : string; of_mode : Z }.
Abbreviation OutFiles := (gmap string OutFile).

(** Which of the system calls succeed; [oi_written] is how much a failing write left. *)
Record OutIo := { oi_mkdir : bool; oi_open : bool; oi_write : bool; oi_written : nat; oi_flush : bool }.

(** [create_new] with mode 0600, [write_all], [flush]. *)
Definition write_new_private_file (io : OutIo) (path bytes : string) (fs : OutFiles) : result ParentError () * OutFiles :=
  match fs !! path with
  | Some _ => (Err AlreadyExists, fs)
  | None =>
      if negb (oi_open io) then (Err WriteFailed, fs)
      else if negb (oi_write io) then
        (Err WriteFailed, <[path := {| of_bytes := str_take (oi_written io) bytes; of_mode := 384 (* 0o600 *) |}]> fs)
      else
        let written := <[path := {| of_bytes := bytes; of_mode := 384 |}]> fs in
        (if oi_flush io then Ok () else Err WriteFailed, written)
  end.

Definition data_key_lines (out : string) (prov : ProvisionDataKeyResponse) : list string :=
  ["attested-data key provisioned:"; "  sealed envelope -> " +:+ out;
   "  SIGNER_DATA_PUBKEY=" +:+ pk_pubkey_compressed prov; "  SIGNER_DATA_ADDRESS=" +:+ pk_pubkey_address prov].
Definition agent_key_lines (venue customer_id out : string) (prov : ProvisionDataKeyResponse) : list string :=
  ["agent key provisioned for " +:+ customer_id +:+ " on " +:+ venue +:+ ":"; "  sealed envelope -> " +:+ out;
   "  AGENT_PUBKEY=" +:+ pk_pubkey_compressed prov; "  AGENT_ADDRESS=" +:+ pk_pubkey_address prov; "";
   "  NEXT: approve " +:+ pk_pubkey_address prov +:+ " as an agent/API wallet on " +:+ venue;
   "        from the account owner's own wallet. The private key";
   "        never left the enclave — there is nothing else to move."].

Definition provision_out (cmd : Cmd) : option (string * option (string * string)) :=
  match cmd with
  | ProvisionDataKey _ out => Some (out, None)
  | ProvisionAgentKey _ venue customer_id _ out => Some (out, Some (venue, customer_id))
  | _ => None
  end.

(** [parent_main]: the exit status, the lines printed and the files. *)
Definition parent_main `{Crates, ParentSerde} (env : Env) (disk : Disk) (enclave : string -> option string) (io : OutIo) (cmd : Cmd)
    (fs : OutFiles) : result ParentError () * list string * OutFiles :=
  match build_request env disk cmd with
  | Err e => (Err e, [], fs)
  | Ok req =>
      match roundtrip enclave req with
      | None => (Err Transport, [], fs)
      | Some resp =>
          match ps_error resp with
          | Some code =>
              match parent_response_pretty resp with
              | Some text => (Err (Refused code), [text], fs)
              | None => (Err PrintFailed, [], fs)
              end
          | None =>
              match provision_out cmd with
              | Some (out, agent) =>
                  match ps_provision resp with
                  | None => (Err NoProvision, [], fs)
                  | Some prov =>
                      match b64_decode (pk_envelope_b64 prov) with
                      | None => (Err BadEnvelope, [], fs)
                      | Some blob =>
                          if negb (oi_mkdir io) then (Err OutDir, [], fs)
                          else match write_new_private_file io out blob fs with
                               | (Err e, fs') => (Err e, [], fs')
                               | (Ok _, fs') =>
                                   (Ok (), match agent with
                                           | None => data_key_lines out prov
                                           | Some (venue, customer_id) => agent_key_lines venue customer_id out prov
                                           end, fs')
                               end
                      end
                  end
              | None =>
                  match parent_response_pretty resp with
                  | Some text => (Ok (), [text], fs)
                  | None => (Err PrintFailed, [], fs)
                  end
              end
          end
      end
  end.

(** ** Key files *)

Lemma write_new_keeps io out blob fs r fs' path f : write_new_private_file io out blob fs = (r, fs') -> fs !! path = Some f -> fs' !! path = Some f.
Proof.
  unfold write_new_private_file. destruct (fs !! out) eqn:E; [by intros [= <- <-]|].
  destruct (negb (oi_open io)); [by intros [= <- <-]|].
  destruct (negb (oi_write io)); intros [= <- <-] Hp; (rewrite lookup_insert_ne; [done|congruence]).
Qed.
Lemma write_new_ok io out blob fs fs' : write_new_private_file io out blob fs = (Ok (), fs') ->
  fs !! out = None /\ fs' = <[out := {| of_bytes := blob; of_mode := 384 |}]> fs.
Proof.
  unfold write_new_private_file. destruct (fs !! out); [done|]. destruct (negb (oi_open io)); [done|]. destruct (negb (oi_write io)); [done|].
  destruct (oi_flush io); [by intros [= <-]|done].
Qed.
Lemma write_new_private io out blob fs r fs' path f : write_new_private_file io out blob fs = (r, fs') -> fs' !! path = Some f ->
  fs !! path = Some f \/ (path = out /\ of_mode f = 384).
Proof.
  unfold write_new_private_file. destruct (fs !! out) eqn:E; [intros [= <- <-]; auto|].
  destruct (negb (oi_open io)); [intros [= <- <-]; auto|].
  destruct (negb (oi_write io)); intros [= <- <-]; (destruct (decide (path = out)) as [->|Hne];
    [rewrite lookup_insert_eq; intros [= <-]; auto|rewrite lookup_insert_ne by done; auto]).
Qed.

(** Whatever the enclave, the disk and the channel do, the client never
    changes a file that was there, and any file it creates is the requested
    output with mode 0600.  A provisioning command that succeeds found no file at
    its output, the enclave answered without an error, and the file now holds
    exactly the sealed envelope of that answer, whose address is the one printed;
    every other command leaves the files alone. *)
Theorem parent_never_clobbers `{Crates, ParentSerde} env disk enclave io cmd fs r lines fs' :
  parent_main env disk enclave io cmd fs = (r, lines, fs') ->
  (forall path f, fs !! path = Some f -> fs' !! path = Some f) /\
  (forall path f, fs' !! path = Some f -> fs !! path = None -> of_mode f = 384 /\ exists agent, provision_out cmd = Some (path, agent)) /\
  (forall out agent, r = Ok () -> provision_out cmd = Some (out, agent) ->
     fs !! out = None /\ exists req resp prov blob,
       build_request env disk cmd = Ok req /\ roundtrip enclave req = Some resp /\ ps_error resp = None /\
       ps_provision resp = Some prov /\ b64_decode (pk_envelope_b64 prov) = Some blob /\
       fs' = <[out := {| of_bytes := blob; of_mode := 384 |}]> fs /\
       ("  " +:+ (match agent with Some _ => "AGENT_ADDRESS=" | None => "SIGNER_DATA_ADDRESS=" end) +:+ pk_pubkey_address prov) ∈ lines) /\
  (provision_out cmd = None -> fs' = fs).
Proof.
  unfold parent_main. intros Hm.
  match goal with |- ?G => assert (forall e ls, (Err e : result ParentError (), ls, fs) = (r, lines, fs') -> G) as Hfail end.
  { intros e ls [= <- <- <-]. split_and!; try done. intros path f Hs Hn. congruence. }
  destruct (build_request env disk cmd) as [req|e] eqn:Eq; [|by eapply Hfail].
  destruct (roundtrip enclave req) as [resp|] eqn:Er; [|by eapply Hfail].
  destruct (ps_error resp) as [code|] eqn:Ee; [destruct (parent_response_pretty resp); by eapply Hfail|].
  destruct (provision_out cmd) as [[out agent]|] eqn:Eo.
  - destruct (ps_provision resp) as [prov|] eqn:Ep; [|by eapply Hfail]. destruct (b64_decode (pk_envelope_b64 prov)) as [blob|] eqn:Eb; [|by eapply Hfail].
    destruct (negb (oi_mkdir io)); [by eapply Hfail|]. destruct (write_new_private_file io out blob fs) as [wr fsw] eqn:Ew.
    assert (fs' = fsw) as -> by (destruct wr; by injection Hm). split; [intros; by eapply write_new_keeps|]. split; [|split; [|done]].
    + intros path f Hf Hn. destruct (write_new_private _ _ _ _ _ _ _ _ Ew Hf) as [Hf'|[-> Hmode]]; [congruence|]. split; [done|by exists agent].
    + intros out' agent' -> [= <- <-]. destruct wr as [[]|e]; [|done]. injection Hm as <-. apply write_new_ok in Ew as [Hnone ->].
      split; [done|]. exists req, resp, prov, blob. split_and!; try done. destruct agent as [[venue customer]|]; cbn; set_solver.
  - destruct (parent_response_pretty resp); [|by eapply Hfail]. injection Hm as <- <- <-. split_and!; try done. intros path f Hs Hn. congruence.
Qed.

(** ** The registry ceremony *)

Section Ceremony.
Context `{Crates, RegistryEnv, ReceiptEnv, Kms, PolicyEnv, BlobSerde, HandlerSerde, Msgpack, SigningKey, CliSerde, ParentSerde}.
Context {SL : SigningLaws} {HL : HexLaws} {AL : AeadLaws}.

Lemma refresh_request_fields env disk blob refresh req : build_registry_refresh_request env disk blob refresh = Ok req ->
  exists creds text refresh_bytes params, load_credentials_from_env env = Ok creds /\ read_to_string disk blob = Some text /\
    disk refresh = Some refresh_bytes /\ refresh_params_of_slice refresh_bytes = Some params /\
    as_enclave req = as_enclave {| pr_action := "registry_refresh"; pr_method := None; pr_path := None; pr_body := None;
      pr_timestamp_ms := None; pr_key_blob_s3_key := None; pr_key_id := None; pr_aws_credentials := Some creds;
      pr_ciphertext_blob_base64 := Some (trim text); pr_registry_refresh := Some params; pr_provision_venue := None;
      pr_provision_customer_id := None; pr_provision_policy := None |}.
Proof using.
  unfold build_registry_refresh_request. intros (creds & Hc & Hr)%bind_ok_inv.
  apply bind_ok_inv in Hr as (text & Ht%ok_or_inv & Hr). cbv zeta in Hr. destruct (is_empty (trim text)); [done|].
  apply bind_ok_inv in Hr as (x & _ & Hr). apply bind_ok_inv in Hr as (rb & Hrb%ok_or_inv & Hr).
  apply bind_ok_inv in Hr as (params & Hp%ok_or_inv & Hr). injection Hr as <-. by exists creds, text, rb, params.
Qed.

(** The enclave's handler, alone, on a refresh whose plaintext KMS releases:
    the registry's own operation, its answer on the wire. *)
Lemma run_refresh limiter os st req creds params ct entries_json :
  bypass (as_enclave req) = Some (respond (handle_registry_refresh (as_enclave req))) ->
  pr_registry_refresh req = Some params -> pr_aws_credentials req = Some creds -> pr_ciphertext_blob_base64 req = Some (b64_encode ct) ->
  is_empty ct = false -> (String.length ct <= MAX_CIPHERTEXT_BYTES)%nat ->
  kms_decrypt (o_now (os 0%nat)) creds ct registry_blob_context = Ok entries_json ->
  run_alone limiter os 0 (handle (as_enclave req)) st =
    let '(r, reg) := refresh entries_json (rr_nonce_hex params) (rr_version params) (rr_signature_hex params) (en_registry st) in
    (match r with Ok v => resp_ok (u64_to_string v) | Err e => resp_err (wire_code e) end, set_registry reg st).
Proof using AL.
  intros Hb Hp Hc Hct He Hlen Hk. unfold handle. rewrite Hb. unfold handle_registry_refresh.
  cbn [as_enclave r_registry_refresh r_aws_credentials r_ciphertext_blob_base64]. rewrite Hp, Hc, Hct. cbn [need ok_or on_ok mbind option_bind].
  rewrite b64_decode_encode. cbn [need ok_or on_ok]. rewrite He. cbn [negb andb].
  destruct (Nat.leb_spec (String.length ct) MAX_CIPHERTEXT_BYTES); [|lia]. cbn [guard_bad on_ok].
  unfold respond. cbn [perform mbind prog_mbind prog_bind run_alone answer]. rewrite Hk. cbn [map_err on_ok prog_bind run_alone answer].
  unfold refresh. destruct (refresh_check _ _ _ _ _) as [[nonce entries]|e].
  - cbn [map_err on_ok prog_bind run_alone answer]. destruct (refresh_commit _ _ _ _) as [[v|e] reg]; done.
  - cbn [map_err on_ok prog_bind run_alone answer]. by destruct st.
Qed.

Lemma hex32_parses b : String.length b = 32%nat -> parse_hex32 (hex_encode b) = Ok b.
Proof using HL.
  intros Hl. unfold parse_hex32. rewrite ?trim_hex, hex_decode_encode. cbn. by rewrite decide_True.
Qed.

(** The files the operator carries to the enclave's host: the signed entries
    sealed by KMS, as base64 text, and the refresh parameters. *)
Record carried (env : Env) (disk : Disk) (blob refresh : string) (s : SignedRefresh) (creds : AwsCredentials) (ct : string) : Prop := {
  ca_creds : load_credentials_from_env env = Ok creds;
  ca_blob : exists text, read_to_string disk blob = Some text /\ trim text = b64_encode ct;
  ca_size : is_empty ct = false /\ (String.length ct <= MAX_CIPHERTEXT_BYTES)%nat;
  ca_refresh : exists bytes, disk refresh = Some bytes /\
    refresh_params_of_slice bytes = Some {| rr_nonce_hex := sr_nonce_hex s; rr_version := sr_version s; rr_signature_hex := sr_signature_hex s |}
}.

(** C35: The registry ceremony, end to end: the client asks the enclave for a
    challenge, the operator's tool signs entries for the nonce that came back,
    and the client delivers them.  When the baked control-plane key is that of
    the operator's seed, the version is new, KMS releases the signed bytes under
    the registry context and they parse back, one thing decides: if an entry
    grants the data-signing venue to anyone but its owner, which the tool lets
    through, the enclave refuses and keeps the registry and the challenge as they
    were; otherwise it answers with the version and its registry is exactly
    those entries, each tenant active, with the challenge spent.  Nothing else
    of the enclave changes. *)
Theorem registry_ceremony limiter os1 os2 st resp1 st1 entries version seed s env disk blob refresh creds ct req :
  run_alone limiter os1 0 (handle (as_enclave (bare "registry_challenge"))) st = (resp1, st1) ->
  String.length (o_random (os1 0%nat) 32) = 32%nat ->
  sign_refresh entries (s_signature_base64 resp1) version seed = Ok s ->
  String.length seed = 32%nat -> registry_pubkey_env = Some (hex_encode (ed25519_public seed)) ->
  parse_entries (sr_entries_json s) = Some (map as_refresh entries) ->
  rg_version (en_registry st) < version ->
  carried env disk blob refresh s creds ct -> build_request env disk (RegistryRefresh blob refresh) = Ok req ->
  kms_decrypt (o_now (os2 0%nat)) creds ct registry_blob_context = Ok (sr_entries_json s) ->
  s_error resp1 = None /\
  run_alone limiter os2 0 (handle (as_enclave req)) st1 =
    if existsb grants_data_signing entries then (resp_err (wire_code ReservedVenue), st1)
    else (resp_ok (u64_to_string version),
          set_registry {| rg_entries := map resident (map as_refresh entries); rg_version := version; rg_pending := None |} st1).
Proof using SL HL AL.
  intros Hrun Hrnd Hsign Hseed Hpk Hparse Hver [Hcreds (text & Ht & Htrim) [He Hlen] (bytes & Hb & Hparams)] Hreq Hkms.
  change (handle (as_enclave (bare "registry_challenge"))) with handle_registry_challenge in Hrun.
  cbn [handle_registry_challenge perform mbind prog_mbind prog_bind run_alone answer challenge] in Hrun. injection Hrun as <- <-.
  split; [done|]. cbn [build_request] in Hreq. unfold build_registry_refresh_request in Hreq. rewrite Hcreds, Ht in Hreq.
  cbn [ok_or mbind result_bind] in Hreq. cbv zeta in Hreq. rewrite Htrim, b64_decode_encode, Hb in Hreq.
  destruct (is_empty (b64_encode ct)); [done|]. cbn [ok_or mbind result_bind] in Hreq. rewrite Hparams in Hreq.
  cbn [ok_or mbind result_bind] in Hreq. injection Hreq as <-.
  erewrite run_refresh; [|reflexivity|reflexivity|reflexivity|reflexivity|done|done|exact Hkms]. cbn [rr_nonce_hex rr_version rr_signature_hex].
  erewrite (cli_refresh_installs entries _ version seed s (o_random (os1 0%nat) 32) _ Hsign); try done; [|by apply hex32_parses].
  by destruct (existsb grants_data_signing entries).
Qed.

(** What the client cannot do: its requests carry neither a protocol version nor
    a token, so the enclave refuses its two signing commands outright. *)
Lemma parent_sign_refused env disk cmd req :
  build_request env disk cmd = Ok req -> match cmd with Sign _ _ _ _ _ _ _ | SignKucoin _ _ _ _ _ _ _ => True | _ => False end ->
  handle (as_enclave req) = Ret (resp_err err_code.BAD_REQUEST).
Proof using.
  destruct cmd; try done; cbn [build_request]; unfold build_kucoin_request; intros (c & _ & Hr)%bind_ok_inv _;
    apply bind_ok_inv in Hr as (x & _ & Hr); by injection Hr as <-.
Qed.
End Ceremony.

(** Both crates spell the rule for ids the same way. *)
Lemma parent_safe_id_agrees s : parent_safe_id s = is_safe_id s.
Proof.
  unfold parent_safe_id, is_safe_id. f_equal. induction s as [|c s IH]; [done|]. cbn [bytes_all]. rewrite IH. f_equal.
  unfold safe_id_byte. destruct c as [[] [] [] [] [] [] [] []]; reflexivity.
Qed.

(** The frames carry the client's request to the handler, and its answer back. *)
Lemma roundtrip_reaches `{ParentSerde, ChannelSerde, !ParentSerdeLaws} handler req body answer :
  parent_request_to_vec req = Some body -> 0 < Z.of_nat (String.length body) <= MAX_MESSAGE_BYTES ->
  sign_response_to_vec (handler (as_enclave req)) = Some answer -> 0 < Z.of_nat (String.length answer) <= MAX_MESSAGE_BYTES ->
  roundtrip (handle_connection handler) req = parent_response_of_slice answer.
Proof.
  intros Hb Hlen Ha Hla. unfold roundtrip. rewrite Hb. cbn [mbind option_bind].
  assert (write_frame body = Some (frame body)) as -> by (apply write_frame_Some; split; [done|lia]). cbn [mbind option_bind].
  rewrite handle_connection_frame by done. unfold answered. rewrite (parent_request_read _ _ Hb). unfold write_response. rewrite Ha.
  cbn [mbind option_bind]. assert (write_frame answer = Some (frame answer)) as -> by (apply write_frame_Some; split; [done|lia]).
  cbn [mbind option_bind]. by rewrite read_frame_frame'.
Qed.

(** ** Instances *)

Section Demo.
#[local] Existing Instances demo_crates demo_msgpack demo_cli_registry demo_receipt_env demo_kms demo_policy_env demo_blob_serde
  demo_handler_serde demo_signing demo_signing_laws demo_cli_serde.

Definition demo_signed : SignedRefresh :=
  match sign_refresh demo_entries (hex_encode demo_seed) 4 demo_seed with
  | Ok s => s
  | Err _ => {| sr_entries_json := ""; sr_content_hash_hex := ""; sr_nonce_hex := ""; sr_version := 0; sr_signature_hex := "" |}
  end.
#[local] Instance demo_parent : ParentSerde := {|
  parent_request_to_vec r := Some (pr_action r);
  parent_response_of_slice s :=
    Some {| ps_signature_base64 := ""; ps_headers := None;
            ps_provision := Some {| pk_envelope_b64 := b64_encode "sealed"; pk_pubkey_compressed := "02ab"; pk_pubkey_address := "0xabcd" |};
            ps_error := None |};
  parent_response_pretty _ := Some "{}";
  refresh_params_of_slice s := if decide (s = "refresh")
    then Some {| rr_nonce_hex := sr_nonce_hex demo_signed; rr_version := sr_version demo_signed; rr_signature_hex := sr_signature_hex demo_signed |}
    else None;
  is_json_text s := starts_with "{" s
|}.
Definition demo_parent_env : Env := fun var =>
  arm var [("AWS_ACCESS_KEY_ID", Some "id"); ("AWS_SECRET_ACCESS_KEY", Some "secret"); ("AWS_SESSION_TOKEN", Some "token")] None.
Definition demo_ciphertext : string := toy_seal "registry-system" "registry" "entries".
Definition demo_disk : Disk := fun path =>
  arm path [("blob.b64", Some (b64_encode demo_ciphertext +:+ String "010" "")); ("refresh.json", Some "refresh")] None.
Definition demo_enclave : Enclave := set_registry {| rg_entries := []; rg_version := 3; rg_pending := None |} (enclave_boot 60 16).
Definition demo_ceremony_oracle : Oracle := {| o_now := 0; o_random _ := demo_seed; o_key := ""; o_nsm _ _ _ := None |}.

Lemma registry_ceremony_witness : exists resp1 st1 req,
  run_alone demo_limiter (fun _ => demo_ceremony_oracle) 0 (handle (as_enclave (bare "registry_challenge"))) demo_enclave = (resp1, st1) /\
  build_request demo_parent_env demo_disk (RegistryRefresh "blob.b64" "refresh.json") = Ok req /\
  run_alone demo_limiter (fun _ => demo_ceremony_oracle) 0 (handle (as_enclave req)) st1 =
    (resp_ok (u64_to_string 4),
     set_registry {| rg_entries := map resident (map as_refresh demo_entries); rg_version := 4; rg_pending := None |} st1).
Proof.
  do 3 eexists. split; [reflexivity|]. split; [vm_compute; reflexivity|].
  eapply (registry_ceremony demo_limiter (fun _ => demo_ceremony_oracle) (fun _ => demo_ceremony_oracle) demo_enclave _ _
    demo_entries 4 demo_seed demo_signed demo_parent_env demo_disk "blob.b64" "refresh.json" _ demo_ciphertext);
    [reflexivity|reflexivity|vm_compute; reflexivity|reflexivity|reflexivity|vm_compute; reflexivity|reflexivity| |vm_compute; reflexivity|vm_compute; reflexivity].
  constructor; [vm_compute; reflexivity| | |].
  - eexists. split; [vm_compute; reflexivity|vm_compute; reflexivity].
  - split; [vm_compute; reflexivity|]. apply Nat.leb_le. vm_compute. reflexivity.
  - exists "refresh". by split.
Defined.

(** A provisioning run, and the same command again. *)
Definition demo_wire (s : string) : option string := Some (frame "answer").
Definition fine_out : OutIo := {| oi_mkdir := true; oi_open := true; oi_write := true; oi_written := 0; oi_flush := true |}.
Lemma parent_never_clobbers_witness :
  let run fs := parent_main demo_parent_env demo_disk demo_wire fine_out (ProvisionDataKey "alias/data" "data.enc") fs in
  (run ∅).1.1 = Ok () /\ (run ∅).2 !! "data.enc" = Some {| of_bytes := "sealed"; of_mode := 384 |} /\
  (run (run ∅).2).1.1 = Err AlreadyExists /\ (run (run ∅).2).2 !! "data.enc" = Some {| of_bytes := "sealed"; of_mode := 384 |}.
Proof.
  cbv zeta. split; [vm_compute; reflexivity|]. split; [vm_compute; reflexivity|]. split; [vm_compute; reflexivity|].
  destruct (parent_main demo_parent_env demo_disk demo_wire fine_out (ProvisionDataKey "alias/data" "data.enc")
    (parent_main demo_parent_env demo_disk demo_wire fine_out (ProvisionDataKey "alias/data" "data.enc") ∅).2) as [[r lines] fs'] eqn:E.
  apply (parent_never_clobbers _ _ _ _ _ _ _ _ _ E). vm_compute. reflexivity.
Defined.
End Demo.
