(* ===== verification/GwLimits.v ===== *)
(** * Gateway limits (gateway/src/limits.rs)

    Per-token rate windows in memory, a daily order counter and a cumulative
    x402 spend, both written through to a file before the request is let
    through.  Each operation runs under its mutex, so a run of the gateway is a
    sequence of operations; restarts and failing system calls are part of it. *)

From S2P Require Import Prelude RustStr Crates Decimal Proto GwProto GwHost.

Open Scope string_scope.
Open Scope list_scope.
Open Scope Z_scope.

Definition SECS_PER_DAY : Z := 86400.
Definition SECS_PER_MINUTE : Z := 60.

Definition DAILY_CAP_ENV : string := "SIGNER_DAILY_ORDER_CAP".
Definition COUNTER_PATH_ENV : string := "SIGNER_DAILY_COUNTER_PATH".
Definition RATE_LIMIT_ENV : string := "SIGNER_RATE_LIMIT_PER_MIN".
Definition ORDERS_PER_MIN_ENV : string := "SIGNER_ORDERS_PER_MIN".
Definition CANCELS_PER_MIN_ENV : string := "SIGNER_CANCELS_PER_MIN".
Definition X402_PERIOD_CAP_ENV : string := "SIGNER_X402_PERIOD_CAP".
Definition X402_SPEND_PATH_ENV : string := "SIGNER_X402_SPEND_PATH".
Definition DRY_RUN_ENV : string := "SIGNER_LIMITS_DRY_RUN".
Definition REQUIRE_AUTH_ENV : string := "SIGNER_REQUIRE_AUTH".

Inductive LimitsConfigError :=
| BadValue (var got : string)
| CounterPathRequired
| StrictProfileRequiresLimits (missing : string)
| BlanketAndSplitBothSet
| X402SpendPathRequired.

Inductive LimitDecision :=
| Allow
| RateLimited (retry_after_secs : Z)
| DailyCapExhausted (retry_after_secs : Z)
| X402CapExhausted (retry_after_secs : Z)
| CounterUnavailable.
#[global] Instance LimitDecision_eq_dec : EqDecision LimitDecision.
Proof. solve_decision. Defined.

(** Token hash to (window, count in the window). *)
Abbreviation RateWindows := (gmap string (Z * Z)).

Record DailyState := { d_day : Z; counts : gmap string Z }.
Record X402SpendState := { x_day : Z; spend : gmap string Z }.

(** The fields of [Limits] that are fixed at boot. *)
Record LimitsConfig := {
  daily_cap : option Z;
  counter_path : option string;
  rate_per_min : option Z;
  orders_per_min : option Z;
  cancels_per_min : option Z;
  dry_run : bool;
  x402_period_cap : option Z;
  x402_spend_path : option string
}.

(** [Limits]: those, and the fields behind a mutex. *)
Record Limits := {
  cfg : LimitsConfig;
  rate : RateWindows;
  orders_rate : RateWindows;
  cancels_rate : RateWindows;
  daily_state : option DailyState;
  x402_spend_state : option X402SpendState
}.

Definition limits_new (c : LimitsConfig) : Limits :=
  {| cfg := c; rate := ∅; orders_rate := ∅; cancels_rate := ∅; daily_state := None; x402_spend_state := None |}.

Definition disabled : Limits :=
  limits_new {| daily_cap := None; counter_path := None; rate_per_min := None; orders_per_min := None;
    cancels_per_min := None; dry_run := false; x402_period_cap := None; x402_spend_path := None |}.

Definition set_rate (l : Limits) (m : RateWindows) : Limits :=
  {| cfg := cfg l; rate := m; orders_rate := orders_rate l; cancels_rate := cancels_rate l;
     daily_state := daily_state l; x402_spend_state := x402_spend_state l |}.
Definition set_orders_rate (l : Limits) (m : RateWindows) : Limits :=
  {| cfg := cfg l; rate := rate l; orders_rate := m; cancels_rate := cancels_rate l;
     daily_state := daily_state l; x402_spend_state := x402_spend_state l |}.
Definition set_cancels_rate (l : Limits) (m : RateWindows) : Limits :=
  {| cfg := cfg l; rate := rate l; orders_rate := orders_rate l; cancels_rate := m;
     daily_state := daily_state l; x402_spend_state := x402_spend_state l |}.
Definition set_daily (l : Limits) (s : option DailyState) : Limits :=
  {| cfg := cfg l; rate := rate l; orders_rate := orders_rate l; cancels_rate := cancels_rate l;
     daily_state := s; x402_spend_state := x402_spend_state l |}.
Definition set_spend (l : Limits) (s : option X402SpendState) : Limits :=
  {| cfg := cfg l; rate := rate l; orders_rate := orders_rate l; cancels_rate := cancels_rate l;
     daily_state := daily_state l; x402_spend_state := s |}.

(** ** Configuration *)

Section Config.
Context (env : Env).

Definition parse_positive (bits : Z) (var : string) : result LimitsConfigError (option Z) :=
  match env var with
  | None => Ok None
  | Some raw =>
      let raw := trim raw in
      if is_empty raw then Ok None
      else match parse_unsigned bits raw with
           | Some v => if 0 <? v then Ok (Some v) else Err (BadValue var raw)
           | None => Err (BadValue var raw)
           end
  end.
Definition parse_positive_u64 (var : string) : result LimitsConfigError (option Z) := parse_positive 64 var.
Definition parse_positive_u128 (var : string) : result LimitsConfigError (option Z) := parse_positive 128 var.

Definition parse_positive_u32 (var : string) : result LimitsConfigError (option Z) :=
  v ← parse_positive_u64 var;
  match v with
  | Some v => if 2 ^ 32 - 1 <? v then Err (BadValue var (u64_to_string v)) else Ok (Some v)
  | None => Ok None
  end.

(** [var(..).ok().map(trim).filter(non-empty)] *)
Definition env_path (var : string) : option string :=
  s ← env var; let s := trim s in if is_empty s then None else Some s.

Definition RATE_CONTROL_MISSING : string :=
  "a rate control (SIGNER_RATE_LIMIT_PER_MIN, or BOTH SIGNER_ORDERS_PER_MIN + SIGNER_CANCELS_PER_MIN)".

Definition from_env : result LimitsConfigError LimitsConfig :=
  daily_cap ← parse_positive_u64 DAILY_CAP_ENV;
  rate_per_min ← parse_positive_u32 RATE_LIMIT_ENV;
  orders_per_min ← parse_positive_u32 ORDERS_PER_MIN_ENV;
  cancels_per_min ← parse_positive_u32 CANCELS_PER_MIN_ENV;
  let counter_path := env_path COUNTER_PATH_ENV in
  x402_period_cap ← parse_positive_u128 X402_PERIOD_CAP_ENV;
  let x402_spend_path := env_path X402_SPEND_PATH_ENV in
  let dry_run := env_flag_enabled env DRY_RUN_ENV in
  if bool_decide (is_Some daily_cap) && bool_decide (counter_path = None) then Err CounterPathRequired
  else if bool_decide (is_Some x402_period_cap) && bool_decide (x402_spend_path = None) then Err X402SpendPathRequired
  else
  let split_mode := bool_decide (is_Some orders_per_min) || bool_decide (is_Some cancels_per_min) in
  if split_mode && bool_decide (is_Some rate_per_min) then Err BlanketAndSplitBothSet
  else
  let full_rate_control := bool_decide (is_Some rate_per_min) ||
    (bool_decide (is_Some orders_per_min) && bool_decide (is_Some cancels_per_min)) in
  let missing :=
    (if bool_decide (daily_cap = None) then [DAILY_CAP_ENV] else []) ++
    (if negb full_rate_control then [RATE_CONTROL_MISSING] else []) ++
    (if dry_run then ["SIGNER_LIMITS_DRY_RUN must be unset"] else []) in
  if env_flag_enabled env REQUIRE_AUTH_ENV && negb (bool_decide (missing = []))
  then Err (StrictProfileRequiresLimits (String.concat ", " missing))
  else Ok {| daily_cap := daily_cap; counter_path := counter_path; rate_per_min := rate_per_min;
             orders_per_min := orders_per_min; cancels_per_min := cancels_per_min; dry_run := dry_run;
             x402_period_cap := x402_period_cap; x402_spend_path := x402_spend_path |}.
End Config.

Definition daily_enabled (l : Limits) : bool := bool_decide (is_Some (daily_cap (cfg l))).
Definition x402_spend_enabled (l : Limits) : bool := bool_decide (is_Some (x402_period_cap (cfg l))).
Definition split_mode (l : Limits) : bool :=
  bool_decide (is_Some (orders_per_min (cfg l))) || bool_decide (is_Some (cancels_per_min (cfg l))).
Definition blanket_rate_active (l : Limits) : bool := bool_decide (is_Some (rate_per_min (cfg l))) && negb (split_mode l).

(** ** Days *)

(** [now_secs / SECS_PER_DAY] *)
Definition today (now_secs : Z) : Z := now_secs / SECS_PER_DAY.

(** A state file that belongs to one day: the two structs and their JSON. *)
Class DayState (S : Type) := {
  ds_day : S -> Z;
  ds_total : S -> string -> Z;
  ds_empty : Z -> S;
  (** one more than the largest total the field's type holds *)
  ds_bound : Z;
  ds_of_slice : string -> option S;
  ds_to_vec : S -> option string
}.
(** [serde_json] on these structs: writing cannot fail, reading inverts it and
    yields unsigned numbers. *)
Class DayStateLaws (S : Type) `{DayState S} := {
  ds_written s : exists b, ds_to_vec s = Some b /\ ((forall k, 0 <= ds_total s k < ds_bound) -> ds_of_slice b = Some s);
  ds_unsigned b s k : ds_of_slice b = Some s -> 0 <= ds_total s k < ds_bound
}.

(** A new day starts at zero. *)
Class DayEmpty (S : Type) `{DayState S} := {
  ds_empty_day d : ds_day (ds_empty d) = d;
  ds_empty_total d k : ds_total (ds_empty d) k = 0;
  ds_bound_pos : 0 < ds_bound
}.

(** [load_daily_state] and [load_x402_spend_state]: forward-only day handling. *)
Definition load_day_state {S} `{DayState S} (io : Io) (path : string) (now_day : Z) (fs : Fs) : result io_error S :=
  match fs_read io path fs with
  | Err NotFound => Ok (ds_empty now_day)
  | Err e => Err e
  | Ok raw =>
      match ds_of_slice raw with
      | None => Err InvalidData
      | Some s =>
          match ds_day s ?= now_day with
          | Lt => Ok (ds_empty now_day)
          | Eq => Ok s
          | Gt => Err InvalidData
          end
      end
  end.

Definition store_day_state {S} `{DayState S} (io : Io) (path : string) (s : S) (fs : Fs) : result io_error () * Fs :=
  match ds_to_vec s with
  | None => (Err InvalidData, fs)
  | Some bytes => let '(r, fs', _) := atomic_write_bytes io path bytes fs in (r, fs')
  end.

(** The day's state of a charge: the cache of that day, a reset at a rollover,
    the file when nothing is cached; a cache of a later day is a clock that
    went backwards, [None] here. *)
Definition resolve_day_state {S} `{DayState S} (io : Io) (path : string) (cache : option S) (now_day : Z) (fs : Fs)
    : option (result io_error S) :=
  match cache with
  | Some s =>
      if ds_day s =? now_day then Some (Ok s)
      else if ds_day s <? now_day then Some (Ok (ds_empty now_day))
      else None
  | None => Some (load_day_state io path now_day fs)
  end.

Section Limits.
Context `{Crates}.

(** The derived [serde] code of the two structs. *)
Class LimitsSerde := {
  daily_of_slice : string -> option DailyState;
  daily_to_vec : DailyState -> option string;
  spend_of_slice : string -> option X402SpendState;
  spend_to_vec : X402SpendState -> option string
}.
Context `{LimitsSerde}.

#[global] Instance daily_day_state : DayState DailyState := {|
  ds_day := d_day;
  ds_total s k := default 0 (counts s !! k);
  ds_empty d := {| d_day := d; counts := ∅ |};
  ds_bound := 2 ^ 64;
  ds_of_slice := daily_of_slice;
  ds_to_vec := daily_to_vec
|}.
#[global] Instance spend_day_state : DayState X402SpendState := {|
  ds_day := x_day;
  ds_total s k := default 0 (spend s !! k);
  ds_empty d := {| x_day := d; spend := ∅ |};
  ds_bound := 2 ^ 128;
  ds_of_slice := spend_of_slice;
  ds_to_vec := spend_to_vec
|}.

#[global] Instance daily_empty : DayEmpty DailyState.
Proof. by split. Qed.
#[global] Instance spend_empty : DayEmpty X402SpendState.
Proof. by split. Qed.

Definition load_daily_state (io : Io) (path : string) (now_day : Z) (fs : Fs) : result io_error DailyState :=
  load_day_state io path now_day fs.
Definition store_daily_state (io : Io) (path : string) (s : DailyState) (fs : Fs) : result io_error () * Fs :=
  store_day_state io path s fs.
Definition load_x402_spend_state (io : Io) (path : string) (now_day : Z) (fs : Fs) : result io_error X402SpendState :=
  load_day_state io path now_day fs.
Definition store_x402_spend_state (io : Io) (path : string) (s : X402SpendState) (fs : Fs) : result io_error () * Fs :=
  store_day_state io path s fs.

Definition token_key (token : string) : string := sha256 token.

(** [boot_probe]: load, write back and prime the cache of each configured file;
    [io] answers the first file's calls and [io2] the second's. *)
Definition probe_daily (l : Limits) (io : Io) (now_secs : Z) (fs : Fs) : result io_error () * Limits * Fs :=
  match daily_cap (cfg l), counter_path (cfg l) with
  | Some _, Some path =>
      match load_daily_state io path (today now_secs) fs with
      | Err e => (Err e, l, fs)
      | Ok state =>
          match store_daily_state io path state fs with
          | (Err e, fs') => (Err e, l, fs')
          | (Ok _, fs') => (Ok (), set_daily l (Some state), fs')
          end
      end
  | _, _ => (Ok (), l, fs)
  end.
Definition probe_x402 (l : Limits) (io : Io) (now_secs : Z) (fs : Fs) : result io_error () * Limits * Fs :=
  match x402_period_cap (cfg l), x402_spend_path (cfg l) with
  | Some _, Some path =>
      match load_x402_spend_state io path (today now_secs) fs with
      | Err e => (Err e, l, fs)
      | Ok state =>
          match store_x402_spend_state io path state fs with
          | (Err e, fs') => (Err e, l, fs')
          | (Ok _, fs') => (Ok (), set_spend l (Some state), fs')
          end
      end
  | _, _ => (Ok (), l, fs)
  end.
Definition boot_probe (l : Limits) (io io2 : Io) (now_secs : Z) (fs : Fs) : result io_error () * Limits * Fs :=
  match probe_daily l io now_secs fs with
  | (Err e, l', fs') => (Err e, l', fs')
  | (Ok _, l', fs') => probe_x402 l' io2 now_secs fs'
  end.

(** Dry run logs the refusal and lets the request through. *)
Definition unless_dry_run (l : Limits) (d : LimitDecision) : LimitDecision := if dry_run (cfg l) then Allow else d.
Definition counter_error (l : Limits) : LimitDecision := unless_dry_run l CounterUnavailable.
Definition x402_spend_error (l : Limits) : LimitDecision := unless_dry_run l CounterUnavailable.

(** ** Rate windows *)

Definition check_bucket (dry : bool) (cap : option Z) (map : RateWindows) (token : string) (now_secs : Z)
    : LimitDecision * RateWindows :=
  match cap with
  | None => (Allow, map)
  | Some cap =>
      if now_secs =? 0 then (if dry then Allow else CounterUnavailable, map)
      else
        let window := now_secs / SECS_PER_MINUTE in
        let retry_after_secs := SECS_PER_MINUTE - now_secs mod SECS_PER_MINUTE in
        let key := token_key token in
        let entry := default (window, 0) (map !! key) in
        let entry := if fst entry =? window then entry else (window, 0) in
        if cap <=? snd entry then (if dry then Allow else RateLimited retry_after_secs, <[key := entry]> map)
        else (Allow, <[key := (fst entry, snd entry + 1)]> map)
  end.

Definition check_rate (l : Limits) (token : string) (now_secs : Z) : LimitDecision * Limits :=
  let '(d, m) := check_bucket (dry_run (cfg l)) (rate_per_min (cfg l)) (rate l) token now_secs in (d, set_rate l m).
Definition check_orders_rate (l : Limits) (token : string) (now_secs : Z) : LimitDecision * Limits :=
  let '(d, m) := check_bucket (dry_run (cfg l)) (orders_per_min (cfg l)) (orders_rate l) token now_secs in
  (d, set_orders_rate l m).
Definition check_cancels_rate (l : Limits) (token : string) (now_secs : Z) : LimitDecision * Limits :=
  let '(d, m) := check_bucket (dry_run (cfg l)) (cancels_per_min (cfg l)) (cancels_rate l) token now_secs in
  (d, set_cancels_rate l m).

(** ** The daily order counter *)

Definition check_and_count_order (l : Limits) (io : Io) (token : string) (now_secs : Z) (fs : Fs)
    : LimitDecision * Limits * Fs :=
  match daily_cap (cfg l), counter_path (cfg l) with
  | Some cap, Some path =>
      if now_secs =? 0 then (unless_dry_run l CounterUnavailable, l, fs)
      else
        let now_day := today now_secs in
        let retry_after_secs := SECS_PER_DAY - now_secs mod SECS_PER_DAY in
        let key_hex := hex_encode (token_key token) in
        match resolve_day_state io path (daily_state l) now_day fs with
        | None => (unless_dry_run l CounterUnavailable, l, fs)
        | Some (Err e) => (counter_error l, set_daily l None, fs)
        | Some (Ok state) =>
            let count := default 0 (counts state !! key_hex) in
            if (cap <=? count) && negb (dry_run (cfg l)) then
              (DailyCapExhausted retry_after_secs,
               set_daily l (Some {| d_day := d_day state; counts := <[key_hex := count]> (counts state) |}), fs)
            else
              let state' := {| d_day := d_day state; counts := <[key_hex := (count + 1) mod 2 ^ 64]> (counts state) |} in
              match store_daily_state io path state' fs with
              | (Err e, fs') => (counter_error l, set_daily l (Some state'), fs')
              | (Ok _, fs') => (Allow, set_daily l (Some state'), fs')
              end
        end
  | _, _ => (Allow, l, fs)
  end.

(** ** The x402 spend *)

Definition check_and_count_x402_spend (l : Limits) (io : Io) (scope : string) (value now_secs : Z) (fs : Fs)
    : LimitDecision * Limits * Fs :=
  match x402_period_cap (cfg l), x402_spend_path (cfg l) with
  | Some cap, Some path =>
      let key_hex := hex_encode (token_key scope) in
      if now_secs =? 0 then (unless_dry_run l CounterUnavailable, l, fs)
      else
        let now_day := today now_secs in
        let retry_after_secs := SECS_PER_DAY - now_secs mod SECS_PER_DAY in
        match resolve_day_state io path (x402_spend_state l) now_day fs with
        | None => (unless_dry_run l CounterUnavailable, l, fs)
        | Some (Err e) => (x402_spend_error l, set_spend l None, fs)
        | Some (Ok state) =>
            let current := default 0 (spend state !! key_hex) in
            let new_total := current + value in
            if 2 ^ 128 <=? new_total then (unless_dry_run l CounterUnavailable, set_spend l (Some state), fs)
            else if (cap <? new_total) && negb (dry_run (cfg l)) then
              (X402CapExhausted retry_after_secs, set_spend l (Some state), fs)
            else
              let state' := {| x_day := x_day state; spend := <[key_hex := new_total]> (spend state) |} in
              match store_x402_spend_state io path state' fs with
              | (Err e, fs') => (x402_spend_error l, set_spend l (Some state'), fs')
              | (Ok _, fs') => (Allow, set_spend l (Some state'), fs')
              end
        end
  | _, _ => (Allow, l, fs)
  end.

(** ** Refusals on the wire *)

(** [unreachable!()] on [Allow]. *)
Definition deny_code (d : LimitDecision) : option string :=
  match d with
  | Allow => None
  | RateLimited _ | DailyCapExhausted _ | X402CapExhausted _ => Some gw_code.RATE_LIMITED
  | CounterUnavailable => Some gw_code.INTERNAL_ERROR
  end.

(** Status, body and [Retry-After] header. *)
Record DenyResponse := { dr_status : Z; dr_body : ErrorResponse; dr_retry_after : option string }.

Definition deny_response (d : LimitDecision) : option DenyResponse :=
  let shape (code : string) (retry_after : option Z) :=
    Some {| dr_status := http_status_for code; dr_body := ErrorResponse_new code;
            dr_retry_after := u64_to_string <$> retry_after |} in
  match d with
  | Allow => None
  | RateLimited r | DailyCapExhausted r | X402CapExhausted r => shape gw_code.RATE_LIMITED (Some r)
  | CounterUnavailable => shape gw_code.INTERNAL_ERROR None
  end.

(** The middleware: [Some] refuses, [None] passes the request on. *)
Definition rate_limit_mw (l : Limits) (token : option string) (now_secs : Z) : option DenyResponse * Limits :=
  if negb (blanket_rate_active l) then (None, l)
  else let '(d, l') := check_rate l (default "" token) now_secs in (deny_response d, l').

(** ** A gateway process across restarts *)

(** [None] while the process is down (a failed boot probe ends it). *)
Record Gateway := { g_limits : option Limits; g_fs : Fs }.

Inductive gop :=
| GRestart (now_secs : Z) (io io2 : Io)
| GRate (token : string) (now_secs : Z)
| GOrdersRate (token : string) (now_secs : Z)
| GCancelsRate (token : string) (now_secs : Z)
| GOrder (token : string) (now_secs : Z) (io : Io)
| GSpend (scope : string) (value : N) (now_secs : Z) (io : Io).

(** One operation under its mutex; [main] boots with [from_env]'s result and a
    boot probe that must succeed. *)
Definition gstep (c : LimitsConfig) (op : gop) (g : Gateway) : option LimitDecision * Gateway :=
  match op, g_limits g with
  | GRestart now io io2, _ =>
      match boot_probe (limits_new c) io io2 now (g_fs g) with
      | (Ok _, l, fs) => (None, {| g_limits := Some l; g_fs := fs |})
      | (Err _, _, fs) => (None, {| g_limits := None; g_fs := fs |})
      end
  | _, None => (None, g)
  | GRate token now, Some l => let '(d, l') := check_rate l token now in (Some d, {| g_limits := Some l'; g_fs := g_fs g |})
  | GOrdersRate token now, Some l =>
      let '(d, l') := check_orders_rate l token now in (Some d, {| g_limits := Some l'; g_fs := g_fs g |})
  | GCancelsRate token now, Some l =>
      let '(d, l') := check_cancels_rate l token now in (Some d, {| g_limits := Some l'; g_fs := g_fs g |})
  | GOrder token now io, Some l =>
      let '(d, l', fs) := check_and_count_order l io token now (g_fs g) in (Some d, {| g_limits := Some l'; g_fs := fs |})
  | GSpend scope value now io, Some l =>
      let '(d, l', fs) := check_and_count_x402_spend l io scope (Z.of_N value) now (g_fs g) in
      (Some d, {| g_limits := Some l'; g_fs := fs |})
  end.

(** The operations so far with their answers, latest first. *)
Definition Events := list (gop * option LimitDecision).
Fixpoint gexec (c : LimitsConfig) (ops : list gop) (ev : Events) (g : Gateway) : Events * Gateway :=
  match ops with
  | [] => (ev, g)
  | op :: rest => let '(d, g') := gstep c op g in gexec c rest ((op, d) :: ev) g'
  end.

(** What was granted: key, day, amount. *)
Definition Grants := list (string * Z * Z).
Definition order_grant (e : gop * option LimitDecision) : option (string * Z * Z) :=
  match e with (GOrder token now _, Some Allow) => Some (hex_encode (token_key token), today now, 1) | _ => None end.
Definition spend_grant (e : gop * option LimitDecision) : option (string * Z * Z) :=
  match e with
  | (GSpend scope value now _, Some Allow) => Some (hex_encode (token_key scope), today now, Z.of_N value)
  | _ => None
  end.
Fixpoint granted (k : string) (d : Z) (log : Grants) : Z :=
  match log with
  | [] => 0
  | (k', d', v) :: rest => (if decide (k' = k /\ d' = d) then v else 0) + granted k d rest
  end.

(** The two state files are different files, also from each other's temporary. *)
Definition paths_apart (c : LimitsConfig) : bool :=
  match counter_path c, x402_spend_path c with
  | Some p, Some q => negb (str_in p [q; tmp_name q]) && negb (str_in q [p; tmp_name p])
  | _, _ => true
  end.

(** ** Day files cover what was granted *)

Section Cover.
Context {S : Type} `{DayState S}.

Definition covers (log : Grants) (s : S) : Prop :=
  forall k, 0 <= ds_total s k < ds_bound /\ granted k (ds_day s) log <= ds_total s k /\
    forall d, ds_day s < d -> granted k d log = 0.

Definition file_covers (log : Grants) (file : option File) : Prop :=
  match file with
  | None => forall k d, granted k d log = 0
  | Some f => match ds_of_slice (f_data f) with None => True | Some s => covers log s end
  end.

Definition cache_covers (log : Grants) (cache : option S) : Prop :=
  match cache with None => True | Some s => covers log s end.

Context `{!DayEmpty S}.

Lemma covers_empty log d : (forall k d', d <= d' -> granted k d' log = 0) -> covers log (ds_empty d).
Proof using DayEmpty0.
  intros Hz k. rewrite ds_empty_day, ds_empty_total. pose proof ds_bound_pos. split; [lia|]. split; [rewrite Hz; lia|].
  intros d' Hd. apply Hz. lia.
Qed.

Lemma load_covers io path now_day fs log s :
  file_covers log (fs !! path) -> load_day_state io path now_day fs = Ok s -> ds_day s = now_day /\ covers log s.
Proof using DayEmpty0.
  unfold load_day_state, fs_read. destruct (negb (io_read io)); [done|].
  destruct (fs !! path) as [f|]; cbn [file_covers].
  - destruct (ds_of_slice (f_data f)) as [s0|]; [|done]. intros Hc. destruct (Z.compare_spec (ds_day s0) now_day); [| |done].
    + intros [= <-]. done.
    + intros [= <-]. rewrite ds_empty_day. split; [done|]. apply covers_empty. intros k d' Hd. apply Hc. lia.
  - intros Hz [= <-]. rewrite ds_empty_day. split; [done|]. apply covers_empty. auto.
Qed.

Lemma resolve_covers io path cache now_day fs log s :
  file_covers log (fs !! path) -> cache_covers log cache ->
  resolve_day_state io path cache now_day fs = Some (Ok s) -> ds_day s = now_day /\ covers log s.
Proof using DayEmpty0.
  intros Hf Hc. unfold resolve_day_state. destruct cache as [s0|]; [|intros [= Hl]; by eapply load_covers].
  destruct (Z.eqb_spec (ds_day s0) now_day); [by intros [= <-]|]. destruct (Z.ltb_spec (ds_day s0) now_day); [|done].
  intros [= <-]. rewrite ds_empty_day. split; [done|]. apply covers_empty. intros k d' Hd. apply Hc. lia.
Qed.

(** Charging one key by [v] covers the log before and after the grant. *)
Lemma charge_covers log s s' k v :
  covers log s -> 0 <= v -> ds_day s' = ds_day s -> ds_total s' k = ds_total s k + v -> ds_total s k + v < ds_bound ->
  (forall k', k' <> k -> ds_total s' k' = ds_total s k') ->
  covers log s' /\ covers ((k, ds_day s, v) :: log) s'.
Proof using.
  intros Hc Hv Hd Hk Hb Ho. split; intros k'; rewrite Hd; destruct (Hc k') as (Hr & Hle & Hz); cbn [granted].
  - destruct (decide (k' = k)) as [->|Hne]; [rewrite Hk; split_and!; [lia..|done]|]. by rewrite Ho.
  - destruct (decide (k' = k)) as [->|Hne]; [rewrite Hk|rewrite Ho by done]; split_and!; try lia.
    + case_decide; lia.
    + intros d Hlt. rewrite Hz by done. case_decide; lia.
    + case_decide; [naive_solver|lia].
    + intros d Hlt. rewrite Hz by done. case_decide; lia.
Qed.

Lemma store_covers `{!DayStateLaws S} io path s fs log r fs' :
  store_day_state io path s fs = (r, fs') -> covers log s ->
  match r with Ok _ => file_covers log (fs' !! path) | Err _ => fs' !! path = fs !! path end.
Proof using.
  unfold store_day_state. intros Hs Hc. destruct (ds_written s) as (b & Hb & Hr). rewrite Hb in Hs.
  specialize (Hr (fun k => proj1 (Hc k))).
  destruct (atomic_write_bytes io path b fs) as [[r0 fs0] trail] eqn:Hw. injection Hs as <- <-.
  apply atomic_write_result in Hw. destruct r0; [|done]. rewrite Hw. cbn [file_covers f_data]. by rewrite Hr.
Qed.

Lemma store_frame io path s fs r fs' other :
  store_day_state io path s fs = (r, fs') -> other <> path -> other <> tmp_name path -> fs' !! other = fs !! other.
Proof using.
  unfold store_day_state. intros Hs Hp Ht. destruct (ds_to_vec s) as [b|]; [|by injection Hs as _ <-].
  destruct (atomic_write_bytes io path b fs) as [[r0 fs0] trail] eqn:Hw. injection Hs as _ <-. by eapply atomic_write_frame.
Qed.
End Cover.

(** ** The caps hold across restarts *)

Section Run.
Context `{!DayStateLaws DailyState, !DayStateLaws X402SpendState}.
Context (c : LimitsConfig) (Hdry : dry_run c = false) (Happart : paths_apart c = true).

Definition limits_up (P : Limits -> Prop) (g : Gateway) : Prop :=
  match g_limits g with None => True | Some l => cfg l = c /\ P l end.

Lemma paths_apart_ne p q :
  counter_path c = Some p -> x402_spend_path c = Some q -> p <> q /\ p <> tmp_name q /\ q <> tmp_name p.
Proof using Happart.
  intros Hp Hq. revert Happart. unfold paths_apart. rewrite Hp, Hq. intros [H1 H2]%andb_true_iff.
  apply negb_true_iff in H1, H2.
  assert (forall s l, str_in s l = false -> s ∉ l) as Hin by (intros s l Hf Hs%str_in_spec; congruence).
  apply Hin in H1, H2. clear - H1 H2. set_unfold. tauto.
Qed.

(** [l] keeps its configuration, the daily cache included unless said. *)
Lemma bucket_keeps l l' d token now :
  (d, l') = check_rate l token now \/ (d, l') = check_orders_rate l token now \/ (d, l') = check_cancels_rate l token now ->
  cfg l' = cfg l /\ daily_state l' = daily_state l /\ x402_spend_state l' = x402_spend_state l.
Proof using.
  unfold check_rate, check_orders_rate, check_cancels_rate.
  intros [Hd|[Hd|Hd]]; destruct (check_bucket _ _ _ _ _); by injection Hd as -> ->.
Qed.

Section Daily.
Context (cap : Z) (path : string) (Hcap : daily_cap c = Some cap) (Hpath : counter_path c = Some path) (Hrange : 0 < cap < 2 ^ 64).

Definition daily_ok (log : Grants) (g : Gateway) : Prop :=
  (forall k d, granted k d log <= cap) /\ file_covers (S := DailyState) log (g_fs g !! path) /\
  limits_up (fun l => cache_covers log (daily_state l)) g.

Lemma order_step l io token now fs d l' fs' log :
  cfg l = c -> (forall k d, granted k d log <= cap) -> file_covers (S := DailyState) log (fs !! path) ->
  cache_covers log (daily_state l) -> check_and_count_order l io token now fs = (d, l', fs') ->
  let log' := match order_grant (GOrder token now io, Some d) with Some x => x :: log | None => log end in
  cfg l' = c /\ x402_spend_state l' = x402_spend_state l /\ (forall k d, granted k d log' <= cap) /\
  file_covers (S := DailyState) log' (fs' !! path) /\ cache_covers log' (daily_state l').
Proof using All.
  intros Hl Hg Hf Hc. unfold check_and_count_order, counter_error, unless_dry_run. rewrite Hl, Hcap, Hpath, Hdry. cbn [negb].
  destruct (now =? 0); [intros [= <- <- <-]; cbn; auto|].
  destruct (resolve_day_state io path (daily_state l) (today now) fs) as [[s|e]|] eqn:Hr;
    [|intros [= <- <- <-]; cbn; auto|intros [= <- <- <-]; cbn; auto].
  apply (resolve_covers _ _ _ _ _ log) in Hr as [Hday Hs]; [|done..].
  set (k := hex_encode (token_key token)). set (count := default 0 (counts s !! k)). rewrite andb_true_r.
  destruct (Z.leb_spec cap count) as [Hge|Hlt].
  - intros [= <- <- <-]. cbn. repeat (split; [done|]). intros k'. cbn [ds_day ds_total daily_day_state d_day counts].
    destruct (Hs k') as (Hr & Hle & Hz). cbn [ds_day ds_total daily_day_state] in Hr, Hle.
    destruct (decide (k' = k)) as [->|Hne]; [by rewrite lookup_insert_eq|by rewrite lookup_insert_ne].
  - set (s' := {| d_day := _; counts := _ |}).
    destruct (charge_covers log s s' k 1 Hs) as [Hs1 Hs2]; [lia|done| | | |].
    { cbn [ds_total daily_day_state counts s']. rewrite lookup_insert_eq. cbn [default from_option id]. fold count.
      apply Z.mod_small. pose proof (proj1 (Hs k)) as Hc0. cbn [ds_total daily_day_state] in Hc0. fold count in Hc0. lia. }
    { cbn [ds_total ds_bound daily_day_state]. fold count. lia. }
    { intros k' Hne. cbn [ds_total daily_day_state counts s']. by rewrite lookup_insert_ne. }
    destruct (store_daily_state io path s' fs) as [[[]|e] fs1] eqn:Hst; intros [= <- <- <-]; cbn [order_grant]; fold k.
    + rewrite <- Hday. apply (store_covers io path s' fs _ _ _ Hst) in Hs2 as Hf'. repeat (split; [done|]).
      split; [|by split]. intros k' d. cbn [granted]. case_decide as He; [|apply Hg].
      destruct He as [<- <-]. destruct (Hs k) as (_ & Hle & _). cbn [ds_total daily_day_state] in Hle. fold count in Hle. lia.
    + apply (store_covers io path s' fs _ _ _ Hst) in Hs1 as Hf'. rewrite Hf'. auto.
Qed.

End Daily.

(** The same for the x402 spend. *)
Section Spend.
Context (cap : Z) (path : string) (Hcap : x402_period_cap c = Some cap) (Hpath : x402_spend_path c = Some path).
Context (Hrange : 0 < cap).

Definition spend_ok (log : Grants) (g : Gateway) : Prop :=
  (forall k d, granted k d log <= cap) /\ file_covers (S := X402SpendState) log (g_fs g !! path) /\
  limits_up (fun l => cache_covers log (x402_spend_state l)) g.

Lemma spend_step l io scope value now fs d l' fs' log :
  cfg l = c -> (forall k d, granted k d log <= cap) -> file_covers (S := X402SpendState) log (fs !! path) ->
  cache_covers log (x402_spend_state l) -> check_and_count_x402_spend l io scope (Z.of_N value) now fs = (d, l', fs') ->
  let log' := match spend_grant (GSpend scope value now io, Some d) with Some x => x :: log | None => log end in
  (forall k d, granted k d log' <= cap) /\
  file_covers (S := X402SpendState) log' (fs' !! path) /\ cache_covers log' (x402_spend_state l').
Proof using Hdry Hcap Hpath DayStateLaws1.
  intros Hl Hg Hf Hc. unfold check_and_count_x402_spend, x402_spend_error, unless_dry_run.
  rewrite Hl, Hcap, Hpath, Hdry. cbn [negb].
  destruct (now =? 0); [intros [= <- <- <-]; cbn; auto|].
  destruct (resolve_day_state io path (x402_spend_state l) (today now) fs) as [[s|e]|] eqn:Hr;
    [|intros [= <- <- <-]; cbn; auto|intros [= <- <- <-]; cbn; auto].
  apply (resolve_covers _ _ _ _ _ log) in Hr as [Hday Hs]; [|done..].
  set (k := hex_encode (token_key scope)). set (current := default 0 (spend s !! k)). rewrite andb_true_r.
  destruct (Z.leb_spec (2 ^ 128) (current + Z.of_N value)) as [|Hover]; [intros [= <- <- <-]; cbn; auto|].
  destruct (Z.ltb_spec cap (current + Z.of_N value)) as [Hgt|Hle]; [intros [= <- <- <-]; cbn; auto|].
  set (s' := {| x_day := _; spend := _ |}).
  destruct (charge_covers log s s' k (Z.of_N value) Hs) as [Hs1 Hs2]; [lia|done| | | |].
  { cbn [ds_total spend_day_state spend s']. rewrite lookup_insert_eq. done. }
  { cbn [ds_total ds_bound spend_day_state]. fold current. lia. }
  { intros k' Hne. cbn [ds_total spend_day_state spend s']. by rewrite lookup_insert_ne. }
  destruct (store_x402_spend_state io path s' fs) as [[[]|e] fs1] eqn:Hst; intros [= <- <- <-]; cbn [spend_grant]; fold k.
  - rewrite <- Hday. apply (store_covers io path s' fs _ _ _ Hst) in Hs2 as Hf'. split; [|by split].
    intros k' d. cbn [granted]. case_decide as He; [|apply Hg]. destruct He as [<- <-].
    destruct (Hs k) as (_ & Hk & _). cbn [ds_total spend_day_state] in Hk. fold current in Hk. lia.
  - apply (store_covers io path s' fs _ _ _ Hst) in Hs1 as Hf'. rewrite Hf'. auto.
Qed.
End Spend.

(** What each operation leaves alone. *)
Lemma spend_frame l io scope value now fs d l' fs' other :
  check_and_count_x402_spend l io scope value now fs = (d, l', fs') -> cfg l = c ->
  cfg l' = c /\ daily_state l' = daily_state l /\
  (match x402_spend_path c with Some q => other <> q /\ other <> tmp_name q | None => True end -> fs' !! other = fs !! other).
Proof using.
  intros Hr Hl. unfold check_and_count_x402_spend in Hr. rewrite Hl in Hr.
  destruct (x402_period_cap c); [|by injection Hr as _ <- <-]. destruct (x402_spend_path c) as [q|]; [|by injection Hr as _ <- <-].
  repeat (case_match; try by injection Hr as _ <- <-).
  all: injection Hr as _ <- <-; split_and!; [done|done|]; intros [Hq Ht]; by eapply (store_frame (S := X402SpendState)).
Qed.

Lemma order_frame l io token now fs d l' fs' other :
  check_and_count_order l io token now fs = (d, l', fs') -> cfg l = c ->
  cfg l' = c /\ x402_spend_state l' = x402_spend_state l /\
  (match counter_path c with Some q => other <> q /\ other <> tmp_name q | None => True end -> fs' !! other = fs !! other).
Proof using.
  intros Hr Hl. unfold check_and_count_order in Hr. rewrite Hl in Hr.
  destruct (daily_cap c); [|by injection Hr as _ <- <-]. destruct (counter_path c) as [q|]; [|by injection Hr as _ <- <-].
  repeat (case_match; try by injection Hr as _ <- <-).
  all: injection Hr as _ <- <-; split_and!; [done|done|]; intros [Hq Ht]; by eapply (store_frame (S := DailyState)).
Qed.

Lemma covered_load {S} `{DayState S, !DayEmpty S, !DayStateLaws S} io path now_day fs log s r fs' :
  file_covers (S := S) log (fs !! path) -> load_day_state io path now_day fs = Ok s -> store_day_state io path s fs = (r, fs') ->
  file_covers (S := S) log (fs' !! path) /\ covers log s.
Proof using.
  intros Hf Hl Hs. destruct (load_covers _ _ _ _ _ _ Hf Hl) as [_ Hc]. split; [|done].
  pose proof (store_covers _ _ _ _ _ _ _ Hs Hc) as Hr. destruct r; [done|by rewrite Hr].
Qed.

Lemma probe_daily_frame l io now fs r l' fs' other :
  probe_daily l io now fs = (r, l', fs') -> cfg l = c ->
  cfg l' = c /\ x402_spend_state l' = x402_spend_state l /\
  (match counter_path c with Some q => other <> q /\ other <> tmp_name q | None => True end -> fs' !! other = fs !! other).
Proof using.
  intros Hr Hl. unfold probe_daily in Hr. rewrite Hl in Hr.
  destruct (daily_cap c); [|by injection Hr as _ <- <-]. destruct (counter_path c) as [q|]; [|by injection Hr as _ <- <-].
  repeat (case_match; try by injection Hr as _ <- <-).
  all: injection Hr as _ <- <-; split_and!; [done|done|]; intros [Hq Ht]; by eapply (store_frame (S := DailyState)).
Qed.

Lemma probe_x402_frame l io now fs r l' fs' other :
  probe_x402 l io now fs = (r, l', fs') -> cfg l = c ->
  cfg l' = c /\ daily_state l' = daily_state l /\
  (match x402_spend_path c with Some q => other <> q /\ other <> tmp_name q | None => True end -> fs' !! other = fs !! other).
Proof using.
  intros Hr Hl. unfold probe_x402 in Hr. rewrite Hl in Hr.
  destruct (x402_period_cap c); [|by injection Hr as _ <- <-]. destruct (x402_spend_path c) as [q|]; [|by injection Hr as _ <- <-].
  repeat (case_match; try by injection Hr as _ <- <-).
  all: injection Hr as _ <- <-; split_and!; [done|done|]; intros [Hq Ht]; by eapply (store_frame (S := X402SpendState)).
Qed.

(** A probe keeps its file covering the log, and caches what it read. *)
Lemma probe_daily_covers l io now fs r l' fs' log path :
  probe_daily l io now fs = (r, l', fs') -> cfg l = c -> counter_path c = Some path ->
  file_covers (S := DailyState) log (fs !! path) -> cache_covers log (daily_state l) ->
  file_covers (S := DailyState) log (fs' !! path) /\ cache_covers log (daily_state l').
Proof using DayStateLaws0.
  intros Hr Hl Hp Hf Hc. unfold probe_daily in Hr. rewrite Hl, Hp in Hr.
  destruct (daily_cap c); [|by injection Hr as _ <- <-].
  destruct (load_daily_state _ _ _ _) as [s|] eqn:El; [|by injection Hr as _ <- <-].
  destruct (store_daily_state _ _ _ _) as [r0 fs0] eqn:Es. pose proof (covered_load _ _ _ _ _ _ _ _ Hf El Es) as [Hf' Hs].
  destruct r0; by injection Hr as _ <- <-.
Qed.

Lemma probe_x402_covers l io now fs r l' fs' log path :
  probe_x402 l io now fs = (r, l', fs') -> cfg l = c -> x402_spend_path c = Some path ->
  file_covers (S := X402SpendState) log (fs !! path) -> cache_covers log (x402_spend_state l) ->
  file_covers (S := X402SpendState) log (fs' !! path) /\ cache_covers log (x402_spend_state l').
Proof using DayStateLaws1.
  intros Hr Hl Hp Hf Hc. unfold probe_x402 in Hr. rewrite Hl, Hp in Hr.
  destruct (x402_period_cap c); [|by injection Hr as _ <- <-].
  destruct (load_x402_spend_state _ _ _ _) as [s|] eqn:El; [|by injection Hr as _ <- <-].
  destruct (store_x402_spend_state _ _ _ _) as [r0 fs0] eqn:Es. pose proof (covered_load _ _ _ _ _ _ _ _ Hf El Es) as [Hf' Hs].
  destruct r0; by injection Hr as _ <- <-.
Qed.

Definition push (grant : option (string * Z * Z)) (log : Grants) : Grants :=
  match grant with Some x => x :: log | None => log end.

(** A step that touches neither the file nor the cache keeps the invariant. *)
Lemma daily_bystander cap path log l l' fs fs' :
  daily_ok cap path log {| g_limits := Some l; g_fs := fs |} -> cfg l' = c -> daily_state l' = daily_state l ->
  fs' !! path = fs !! path -> daily_ok cap path log {| g_limits := Some l'; g_fs := fs' |}.
Proof using.
  intros (Hg & Hf & Hl & Hc) Hl' Hd Hfs. unfold daily_ok, limits_up in *. cbn [g_limits g_fs] in *.
  rewrite Hfs, Hd. by split_and!.
Qed.

Lemma spend_bystander cap path log l l' fs fs' :
  spend_ok cap path log {| g_limits := Some l; g_fs := fs |} -> cfg l' = c -> x402_spend_state l' = x402_spend_state l ->
  fs' !! path = fs !! path -> spend_ok cap path log {| g_limits := Some l'; g_fs := fs' |}.
Proof using.
  intros (Hg & Hf & Hl & Hc) Hl' Hd Hfs. unfold spend_ok, limits_up in *. cbn [g_limits g_fs] in *.
  rewrite Hfs, Hd. by split_and!.
Qed.

Lemma daily_restart cap path log now io io2 g d g' :
  counter_path c = Some path -> daily_ok cap path log g -> gstep c (GRestart now io io2) g = (d, g') ->
  daily_ok cap path log g'.
Proof using Happart DayStateLaws0.
  intros Hp (Hg & Hf & _) Hs. cbn [gstep] in Hs. unfold boot_probe in Hs.
  destruct (probe_daily _ _ _ _) as [[r1 l1] fs1] eqn:E1.
  destruct (probe_daily_covers _ _ _ _ _ _ _ log path E1 eq_refl Hp Hf I) as [Hf1 Hc1].
  destruct (probe_daily_frame _ _ _ _ _ _ _ path E1 eq_refl) as (Hl1 & _).
  destruct r1; [|injection Hs as _ <-; by split_and!].
  destruct (probe_x402 _ _ _ _) as [[r2 l2] fs2] eqn:E2.
  destruct (probe_x402_frame _ _ _ _ _ _ _ path E2 Hl1) as (Hl2 & Hd2 & Hfr).
  assert (fs2 !! path = fs1 !! path) as Hsame.
  { apply Hfr. destruct (x402_spend_path c) as [q|] eqn:Hq; [|done]. by destruct (paths_apart_ne _ _ Hp Hq) as (? & ? & _). }
  destruct r2; injection Hs as _ <-; unfold daily_ok, limits_up; cbn [g_fs g_limits]; rewrite Hsame, ?Hd2; by split_and!.
Qed.

Lemma spend_restart cap path log now io io2 g d g' :
  x402_spend_path c = Some path -> spend_ok cap path log g -> gstep c (GRestart now io io2) g = (d, g') ->
  spend_ok cap path log g'.
Proof using Happart DayStateLaws1.
  intros Hp (Hg & Hf & _) Hs. cbn [gstep] in Hs. unfold boot_probe in Hs.
  destruct (probe_daily _ _ _ _) as [[r1 l1] fs1] eqn:E1.
  destruct (probe_daily_frame _ _ _ _ _ _ _ path E1 eq_refl) as (Hl1 & Hd1 & Hfr).
  assert (fs1 !! path = g_fs g !! path) as Hsame.
  { apply Hfr. destruct (counter_path c) as [q|] eqn:Hq; [|done]. destruct (paths_apart_ne _ _ Hq Hp) as (? & ? & ?). split; congruence. }
  rewrite <- Hsame in Hf. destruct r1; [|injection Hs as _ <-; by split_and!].
  destruct (probe_x402 _ _ _ _) as [[r2 l2] fs2] eqn:E2.
  destruct (probe_x402_frame _ _ _ _ _ _ _ path E2 Hl1) as (Hl2 & _).
  destruct (probe_x402_covers _ _ _ _ _ _ _ log path E2 Hl1 Hp Hf) as [Hf2 Hc2]; [by rewrite Hd1|].
  destruct r2; injection Hs as _ <-; by split_and!.
Qed.

Lemma daily_gstep cap path log op g d g' :
  daily_cap c = Some cap -> counter_path c = Some path -> 0 < cap < 2 ^ 64 -> daily_ok cap path log g ->
  gstep c op g = (d, g') -> daily_ok cap path (push (order_grant (op, d)) log) g'.
Proof using All.
  intros Hcap Hp Hrange Hok Hs.
  destruct op as [now io io2|token now|token now|token now|token now io|scope value now io];
    cbn [order_grant spend_grant push].
  1: by eapply daily_restart.
  all: destruct g as [[l|] fs]; cbn [gstep g_limits g_fs] in Hs; [|by injection Hs as <- <-].
  all: pose proof Hok as (Hg & Hf & Hl & Hc); cbn [g_fs] in Hf.
  - destruct (check_rate _ _ _) as [x l'] eqn:E. injection Hs as <- <-.
    destruct (bucket_keeps l l' x token now) as (Hk & Hd & _); [by left|]. eapply daily_bystander; [done|congruence|done|done].
  - destruct (check_orders_rate _ _ _) as [x l'] eqn:E. injection Hs as <- <-.
    destruct (bucket_keeps l l' x token now) as (Hk & Hd & _); [by right; left|]. eapply daily_bystander; [done|congruence|done|done].
  - destruct (check_cancels_rate _ _ _) as [x l'] eqn:E. injection Hs as <- <-.
    destruct (bucket_keeps l l' x token now) as (Hk & Hd & _); [by right; right|]. eapply daily_bystander; [done|congruence|done|done].
  - destruct (check_and_count_order _ _ _ _ _) as [[x l'] fs'] eqn:E. injection Hs as <- <-.
    destruct (order_step cap path Hcap Hp Hrange l io token now fs x l' fs' log Hl Hg Hf Hc E) as (Hl' & _ & Hg' & Hf' & Hc').
    unfold push. by split_and!.
  - destruct (check_and_count_x402_spend _ _ _ _ _ _) as [[x l'] fs'] eqn:E. injection Hs as <- <-.
    destruct (spend_frame _ _ _ _ _ _ _ _ _ path E Hl) as (Hl' & Hd & Hfr). eapply daily_bystander; [done|done|done|].
    apply Hfr. destruct (x402_spend_path c) as [q|] eqn:Hq; [|done]. by destruct (paths_apart_ne _ _ Hp Hq) as (? & ? & _).
Qed.

Lemma spend_gstep cap path log op g d g' :
  x402_period_cap c = Some cap -> x402_spend_path c = Some path -> spend_ok cap path log g ->
  gstep c op g = (d, g') -> spend_ok cap path (push (spend_grant (op, d)) log) g'.
Proof using All.
  intros Hcap Hp Hok Hs.
  destruct op as [now io io2|token now|token now|token now|token now io|scope value now io];
    cbn [order_grant spend_grant push].
  1: by eapply spend_restart.
  all: destruct g as [[l|] fs]; cbn [gstep g_limits g_fs] in Hs; [|by injection Hs as <- <-].
  all: pose proof Hok as (Hg & Hf & Hl & Hc); cbn [g_fs] in Hf.
  - destruct (check_rate _ _ _) as [x l'] eqn:E. injection Hs as <- <-.
    destruct (bucket_keeps l l' x token now) as (Hk & _ & Hd); [by left|]. eapply spend_bystander; [done|congruence|done|done].
  - destruct (check_orders_rate _ _ _) as [x l'] eqn:E. injection Hs as <- <-.
    destruct (bucket_keeps l l' x token now) as (Hk & _ & Hd); [by right; left|]. eapply spend_bystander; [done|congruence|done|done].
  - destruct (check_cancels_rate _ _ _) as [x l'] eqn:E. injection Hs as <- <-.
    destruct (bucket_keeps l l' x token now) as (Hk & _ & Hd); [by right; right|]. eapply spend_bystander; [done|congruence|done|done].
  - destruct (check_and_count_order _ _ _ _ _) as [[x l'] fs'] eqn:E. injection Hs as <- <-.
    destruct (order_frame _ _ _ _ _ _ _ _ path E Hl) as (Hl' & Hd & Hfr). eapply spend_bystander; [done|done|done|].
    apply Hfr. destruct (counter_path c) as [q|] eqn:Hq; [|done]. destruct (paths_apart_ne _ _ Hq Hp) as (? & ? & ?). split; congruence.
  - destruct (check_and_count_x402_spend _ _ _ _ _ _) as [[x l'] fs'] eqn:E. injection Hs as <- <-.
    destruct (spend_frame _ _ _ _ _ _ _ _ _ path E Hl) as (Hl' & _ & _).
    destruct (spend_step cap path Hcap Hp l io scope value now fs x l' fs' log Hl Hg Hf Hc E) as (Hg' & Hf' & Hc').
    unfold push. by split_and!.
Qed.

(** The grants of a list of events. *)
Definition grants (grant : gop * option LimitDecision -> option (string * Z * Z)) (ev : Events) : Grants :=
  foldr (fun e log => push (grant e) log) [] ev.

Lemma gexec_invariant (grant : gop * option LimitDecision -> option (string * Z * Z)) (Inv : Grants -> Gateway -> Prop) ops :
  (forall log op g d g', Inv log g -> gstep c op g = (d, g') -> Inv (push (grant (op, d)) log) g') ->
  forall ev g, Inv (grants grant ev) g ->
  Inv (grants grant (fst (gexec c ops ev g))) (snd (gexec c ops ev g)).
Proof using.
  intros Hstep. induction ops as [|op ops IH]; intros ev g Hi; [done|]. cbn [gexec].
  destruct (gstep c op g) as [d g'] eqn:E. apply IH. cbn [grants foldr]. by eapply Hstep.
Qed.

End Run.

(** ** Configuration facts *)

Lemma parse_positive_range env bits var v :
  parse_positive env bits var = Ok (Some v) -> 0 < v < 2 ^ bits.
Proof.
  unfold parse_positive. destruct (env var) as [raw|]; [|done]. destruct (is_empty _); [done|].
  unfold parse_unsigned. destruct (_ || _); [done|]. destruct (Z.ltb_spec (msf_val (str_digits (default (trim raw) (strip_prefix "+" (trim raw))))) (2 ^ bits)); [|done].
  destruct (Z.ltb_spec 0 (msf_val (str_digits (default (trim raw) (strip_prefix "+" (trim raw)))))); [|done]. intros [= <-]. done.
Qed.

Lemma parse_positive_u32_range env var v : parse_positive_u32 env var = Ok (Some v) -> 0 < v < 2 ^ 32.
Proof.
  unfold parse_positive_u32. intros Hv. apply bind_ok_inv in Hv as (o & Ho & Hv). destruct o as [x|]; [|done].
  apply parse_positive_range in Ho. destruct (Z.ltb_spec (2 ^ 32 - 1) x); [done|]. injection Hv as <-. lia.
Qed.

(** What a configuration that boots looks like. *)
Record config_ok (strict : bool) (c : LimitsConfig) : Prop := {
  ok_daily cap : daily_cap c = Some cap -> 0 < cap < 2 ^ 64 /\ is_Some (counter_path c);
  ok_spend cap : x402_period_cap c = Some cap -> 0 < cap < 2 ^ 128 /\ is_Some (x402_spend_path c);
  ok_rates cap : cap ∈ [rate_per_min c; orders_per_min c; cancels_per_min c] -> forall v, cap = Some v -> 0 < v < 2 ^ 32;
  ok_modes : rate_per_min c = None \/ (orders_per_min c = None /\ cancels_per_min c = None);
  ok_strict : strict = true -> is_Some (daily_cap c) /\ dry_run c = false /\
    (is_Some (rate_per_min c) \/ (is_Some (orders_per_min c) /\ is_Some (cancels_per_min c)))
}.

Lemma from_env_ok env c : from_env env = Ok c -> config_ok (env_flag_enabled env REQUIRE_AUTH_ENV) c.
Proof.
  unfold from_env. intros He.
  apply bind_ok_inv in He as (daily & Hd & He). apply bind_ok_inv in He as (rpm & Hr & He).
  apply bind_ok_inv in He as (opm & Ho & He). apply bind_ok_inv in He as (cpm & Hc & He).
  apply bind_ok_inv in He as (xcap & Hx & He). cbv zeta in He.
  destruct (bool_decide (is_Some daily) && _) eqn:E1; [done|]. destruct (bool_decide (is_Some xcap) && _) eqn:E2; [done|].
  destruct ((_ || _) && _) eqn:E3; [done|]. destruct (env_flag_enabled env REQUIRE_AUTH_ENV && _) eqn:E4; [done|].
  injection He as <-. constructor; cbn.
  - intros cap ->. split; [by apply parse_positive_range in Hd|]. rewrite bool_decide_true in E1 by eauto.
    apply bool_decide_eq_false in E1. destruct (env_path env COUNTER_PATH_ENV); [eauto|done].
  - intros cap ->. split; [by apply parse_positive_range in Hx|]. rewrite bool_decide_true in E2 by eauto.
    apply bool_decide_eq_false in E2. destruct (env_path env X402_SPEND_PATH_ENV); [eauto|done].
  - intros cap Hin v ->. rewrite !elem_of_cons, elem_of_nil in Hin. destruct Hin as [Hv|[Hv|[Hv|[]]]]; subst;
      by eapply parse_positive_u32_range.
  - destruct rpm, opm, cpm; cbn in E3; try done; auto.
  - intros Hs. rewrite Hs in E4. destruct daily as [cap|], (env_flag_enabled env DRY_RUN_ENV), rpm, opm, cpm;
      cbn in E4; try done; eauto 10.
Qed.

(** ** Properties *)

Context `{!DayStateLaws DailyState, !DayStateLaws X402SpendState}.

Lemma file_covers_nothing {S} `{DayState S, !DayStateLaws S} file : file_covers (S := S) [] file.
Proof using.
  destruct file as [f|]; cbn [file_covers]; [|done]. destruct (ds_of_slice (f_data f)) as [s|] eqn:E; [|done].
  intros k. pose proof (ds_unsigned _ _ k E). split; [done|]. split; [cbn; lia|done].
Qed.

Definition boot_state (fs : Fs) : Gateway := {| g_limits := None; g_fs := fs |}.

Lemma daily_order_cap_spec env c cap fs ops k d :
  from_env env = Ok c -> dry_run c = false -> paths_apart c = true -> daily_cap c = Some cap ->
  granted k d (grants order_grant (fst (gexec c ops [] (boot_state fs)))) <= cap.
Proof using DayStateLaws0 DayStateLaws1.
  intros He Hdry Hap Hcap. destruct (ok_daily _ _ (from_env_ok env c He) cap Hcap) as [Hrange [path Hp]].
  pose proof (gexec_invariant c order_grant (daily_ok c cap path) ops) as Hinv.
  destruct (Hinv (fun log op g d g' Hok Hs => daily_gstep c Hdry Hap cap path log op g d g' Hcap Hp Hrange Hok Hs)
    [] (boot_state fs)) as [Hg _]; [|apply Hg].
  split_and!; [intros; cbn; lia|apply file_covers_nothing|done].
Qed.

Lemma x402_spend_cap_spec env c cap fs ops k d :
  from_env env = Ok c -> dry_run c = false -> paths_apart c = true -> x402_period_cap c = Some cap ->
  granted k d (grants spend_grant (fst (gexec c ops [] (boot_state fs)))) <= cap.
Proof using DayStateLaws0 DayStateLaws1.
  intros He Hdry Hap Hcap. destruct (ok_spend _ _ (from_env_ok env c He) cap Hcap) as [Hrange [path Hp]].
  pose proof (gexec_invariant c spend_grant (spend_ok c cap path) ops) as Hinv.
  destruct (Hinv (fun log op g d g' Hok Hs => spend_gstep c Hdry Hap cap path log op g d g' Hcap Hp Hok Hs)
    [] (boot_state fs)) as [Hg _]; [|apply Hg].
  split_and!; [intros; cbn; lia|apply file_covers_nothing|done].
Qed.

(** With the daily cap enforced, one bearer token is granted at most
    [cap] orders per UTC day: over every sequence of requests and restarts,
    whatever the clock reads (also backwards), whichever system calls fail, and
    whatever the counter file held at first. *)
Theorem daily_order_cap_holds env c cap fs ops token d :
  from_env env = Ok c -> dry_run c = false -> paths_apart c = true -> daily_cap c = Some cap ->
  granted (hex_encode (token_key token)) d (grants order_grant (fst (gexec c ops [] (boot_state fs)))) <= cap.
Proof using DayStateLaws0 DayStateLaws1. apply daily_order_cap_spec. Qed.

(** With the x402 cap enforced, the transfers granted to one payer key
    on one UTC day add up to at most the cap, under the same conditions; the
    sum never wraps, since a total beyond 128 bits is refused. *)
Theorem x402_spend_cap_holds env c cap fs ops scope d :
  from_env env = Ok c -> dry_run c = false -> paths_apart c = true -> x402_period_cap c = Some cap ->
  granted (hex_encode (token_key scope)) d (grants spend_grant (fst (gexec c ops [] (boot_state fs)))) <= cap.
Proof using DayStateLaws0 DayStateLaws1. apply x402_spend_cap_spec. Qed.

(** ** The rate windows *)

Fixpoint bucket_exec (cap : Z) (reqs : list (string * Z)) (log : Grants) (m : RateWindows) : Grants * RateWindows :=
  match reqs with
  | [] => (log, m)
  | (token, now) :: rest =>
      let '(d, m') := check_bucket false (Some cap) m token now in
      bucket_exec cap rest (if decide (d = Allow) then (token_key token, now / SECS_PER_MINUTE, 1) :: log else log) m'
  end.

(** A clock that does not go backwards. *)
Fixpoint ticks_from (t : Z) (reqs : list (string * Z)) : Prop :=
  match reqs with [] => True | (_, now) :: rest => t <= now /\ ticks_from now rest end.

(** The windows account for the requests let through up to time [t]. *)
Definition windows_ok (cap t : Z) (log : Grants) (m : RateWindows) : Prop :=
  forall k, (forall w, granted k w log <= cap) /\
    match m !! k with
    | None => forall w, granted k w log = 0
    | Some (w0, n) => w0 <= t / SECS_PER_MINUTE /\ granted k w0 log = n /\ n <= cap /\ forall w, w0 < w -> granted k w log = 0
    end.

Lemma bucket_step cap t log m token now d m' :
  0 < cap -> t <= now -> windows_ok cap t log m -> check_bucket false (Some cap) m token now = (d, m') ->
  windows_ok cap now (if decide (d = Allow) then (token_key token, now / SECS_PER_MINUTE, 1) :: log else log) m'.
Proof using.
  intros Hcap Ht Hok. unfold check_bucket. set (w := now / SECS_PER_MINUTE). set (key := token_key token).
  assert (t / SECS_PER_MINUTE <= w) as Hw by (apply Z.div_le_mono; [done|lia]).
  assert (windows_ok cap now log m) as Hnow.
  { intros k. destruct (Hok k) as [Hg Hm]. split; [done|]. destruct (m !! k) as [[w0 n]|]; [|done].
    destruct Hm as (H1 & H2). fold w. split; [lia|done]. }
  destruct (now =? 0); [intros [= <- <-]; by rewrite decide_False|].
  set (entry := default (w, 0) (m !! key)). set (entry' := if fst entry =? w then entry else (w, 0)).
  assert (fst entry' = w /\ granted key w log = snd entry' /\ snd entry' <= cap /\ forall w', w < w' -> granted key w' log = 0) as (Hf & Hn & Hle & Hz).
  { destruct (Hok key) as [Hg Hm]. subst entry' entry. destruct (m !! key) as [[w0 n]|]; cbn [default from_option id fst snd].
    - destruct Hm as (H1 & H2 & H3 & H4). destruct (Z.eqb_spec w0 w) as [->|Hne]; [done|]. cbn [fst snd].
      split_and!; [done| |lia|]; [|intros w' Hw']; apply H4; lia.
    - rewrite Z.eqb_refl. cbn [fst snd]. split_and!; [done|apply Hm|lia|]. intros w' _. apply Hm. }
  destruct (Z.leb_spec cap (snd entry')) as [Hfull|Hroom]; intros [= <- <-].
  - rewrite decide_False by done. intros k. destruct (decide (k = key)) as [->|Hne]; [|rewrite lookup_insert_ne by done; apply Hnow].
    rewrite lookup_insert_eq. split; [apply Hok|]. destruct entry' as [w0 n]. cbn [fst snd] in *. subst w0. fold w. split_and!; [lia|done..].
  - rewrite decide_True by done. intros k. destruct (Hnow k) as [Hg Hm]. destruct (decide (k = key)) as [->|Hne].
    + rewrite lookup_insert_eq. cbn [granted fst snd]. rewrite Hf. fold w. split.
      * intros w'. case_decide as He; [destruct He as [_ <-]; lia|apply Hg].
      * split_and!; [lia|rewrite decide_True by done; lia|lia|]. intros w' Hw'. rewrite decide_False by lia. by rewrite Hz.
    + rewrite lookup_insert_ne by done. cbn [granted]. split; [intros w'; rewrite decide_False by naive_solver; apply Hg|].
      destruct (m !! k) as [[w0 n]|]; [|intros w'; rewrite decide_False by naive_solver; apply Hm].
      destruct Hm as (H1 & H2 & H3 & H4). rewrite decide_False by naive_solver. split_and!; [done|done|done|].
      intros w' Hw'. rewrite decide_False by naive_solver. by apply H4.
Qed.

Lemma bucket_exec_ok cap reqs (Hcap : 0 < cap) : forall t log m, ticks_from t reqs -> windows_ok cap t log m ->
  exists t', windows_ok cap t' (fst (bucket_exec cap reqs log m)) (snd (bucket_exec cap reqs log m)).
Proof using.
  induction reqs as [|[token now] reqs IH]; intros t log m Ht Hok; [by exists t|]. cbn [bucket_exec].
  destruct Ht as [Hle Ht]. destruct (check_bucket false (Some cap) m token now) as [d m'] eqn:E.
  apply (IH now); [done|]. by eapply bucket_step.
Qed.

(** While the clock does not go backwards, a token gets at most [cap]
    requests through in any minute, whatever the other tokens do. *)
Theorem rate_window_cap_holds cap reqs token w :
  0 < cap -> ticks_from 0 reqs -> granted (token_key token) w (fst (bucket_exec cap reqs [] ∅)) <= cap.
Proof using.
  intros Hcap Ht. destruct (bucket_exec_ok cap reqs Hcap 0 [] ∅ Ht) as [t' Hok]; [|apply Hok].
  intros k. rewrite lookup_empty. split; [intros; cbn; lia|done].
Qed.

(** ** Throttling ends by itself *)

Lemma next_boundary (unit now : Z) :
  0 < unit -> let r := unit - now mod unit in 0 < r <= unit /\ (now + r) / unit = now / unit + 1.
Proof.
  intros Hu r. pose proof (Z.mod_pos_bound now unit Hu). pose proof (Z.div_mod now unit ltac:(lia)) as Hd. subst r.
  split; [lia|]. replace (now + (unit - now mod unit)) with ((now / unit + 1) * unit) by lia. apply Z.div_mul. lia.
Qed.

Lemma store_fine {S} `{DayState S, !DayStateLaws S} path (s : S) fs :
  exists fs', store_day_state io_fine path s fs = (Ok (), fs').
Proof using.
  unfold store_day_state. destruct (ds_written s) as (b & -> & _). destruct (atomic_write_fine path b fs) as (fs' & trail & ->). by eexists.
Qed.

(** A new day with a working disk is open. *)
Lemma new_day_opens c l token now s fs :
  cfg l = c -> config_ok false c -> dry_run c = false -> daily_state l = Some s -> d_day s < today now -> now <> 0 ->
  fst (fst (check_and_count_order l io_fine token now fs)) = Allow.
Proof using DayStateLaws0.
  intros Hl Hc Hdry Hs Hday Hnow. unfold check_and_count_order. rewrite Hl.
  destruct (daily_cap c) as [cap|] eqn:Hcap; [|done]. destruct (ok_daily _ _ Hc cap Hcap) as [Hr [path ->]].
  destruct (Z.eqb_spec now 0); [done|]. unfold resolve_day_state. rewrite Hs. cbn [ds_day daily_day_state].
  destruct (Z.eqb_spec (d_day s) (today now)); [lia|]. destruct (Z.ltb_spec (d_day s) (today now)); [|lia].
  cbn [ds_empty daily_day_state counts d_day]. rewrite lookup_empty. cbn [default from_option id].
  destruct (Z.leb_spec cap 0); [lia|]. cbn [andb].
  match goal with |- context [store_daily_state io_fine path ?s' fs] => destruct (store_fine path s' fs) as [fs' Hst] end.
  unfold store_daily_state. by rewrite Hst.
Qed.

(** A refusal for an exhausted daily cap names the seconds to the next
    UTC midnight, and at that moment, with a working disk, the same token is
    served again. *)
Theorem throttle_lifts env c l io token now fs r l' fs' :
  from_env env = Ok c -> cfg l = c -> dry_run c = false -> 0 < now ->
  check_and_count_order l io token now fs = (DailyCapExhausted r, l', fs') ->
  0 < r <= SECS_PER_DAY /\ today (now + r) = today now + 1 /\
  fst (fst (check_and_count_order l' io_fine token (now + r) fs')) = Allow.
Proof using DayStateLaws0.
  intros He Hl Hdry Hnow Hr. pose proof (from_env_ok env c He) as Hc.
  unfold check_and_count_order in Hr. rewrite Hl in Hr. unfold counter_error, unless_dry_run in Hr. rewrite Hl, Hdry in Hr.
  destruct (daily_cap c) as [cap|] eqn:Hcap; [|done]. destruct (counter_path c) as [path|]; [|done].
  destruct (now =? 0); [done|].
  destruct (resolve_day_state _ _ _ _ _) as [[s|]|] eqn:Hres; [|done..].
  assert (d_day s = today now) as Hday.
  { unfold resolve_day_state in Hres. destruct (daily_state l) as [s0|].
    - cbn [ds_day ds_empty daily_day_state] in Hres. destruct (Z.eqb_spec (d_day s0) (today now)); [by injection Hres as <-|].
      destruct (d_day s0 <? today now); [by injection Hres as <-|done].
    - injection Hres as Hres. unfold load_day_state in Hres. destruct (fs_read _ _ _) as [raw|[]]; [|by injection Hres as <-|done..].
      destruct (ds_of_slice raw) as [s0|]; [|done]. cbn [ds_day ds_empty daily_day_state] in Hres.
      destruct (Z.compare_spec (d_day s0) (today now)); [by injection Hres as <-|by injection Hres as <-|done]. }
  destruct (_ && _); [|destruct (store_daily_state _ _ _ _) as [[] ?]; done]. injection Hr as <- <- <-.
  destruct (next_boundary SECS_PER_DAY now ltac:(done)) as [Hr Hnext]. split; [done|]. split; [done|].
  assert (config_ok false c) as Hc' by (destruct Hc; constructor; auto; done).
  eapply (new_day_opens c); [exact Hl|exact Hc'|exact Hdry|reflexivity| |lia]. cbn [d_day]. unfold today in *. lia.
Qed.

(** A gateway that boots with SIGNER_REQUIRE_AUTH set enforces: the
    daily cap is positive and has a file behind it, dry run is off, and either
    the blanket limiter is active or orders and cancels both have a bucket. *)
Theorem strict_profile_enforces env c :
  from_env env = Ok c -> env_flag_enabled env REQUIRE_AUTH_ENV = true ->
  dry_run c = false /\ (exists cap path, daily_cap c = Some cap /\ 0 < cap < 2 ^ 64 /\ counter_path c = Some path) /\
  (blanket_rate_active (limits_new c) = true \/ (is_Some (orders_per_min c) /\ is_Some (cancels_per_min c))).
Proof using.
  intros He Hs. pose proof (from_env_ok env c He) as Hc. destruct (ok_strict _ _ Hc Hs) as ([cap Hcap] & Hdry & Hrate).
  split; [done|]. destruct (ok_daily _ _ Hc cap Hcap) as [Hr [path Hp]]. split; [by exists cap, path|].
  destruct Hrate as [Hrate|Hrate]; [left|by right]. unfold blanket_rate_active, split_mode, limits_new. cbn [cfg].
  destruct (ok_modes _ _ Hc) as [Hn|[-> ->]]; [by rewrite Hn in Hrate; destruct Hrate|]. by rewrite bool_decide_true.
Qed.

(** Refusals carry a retry hint exactly when retrying later helps. *)
Lemma deny_response_spec d :
  match deny_response d with
  | None => d = Allow
  | Some r => deny_code d = Some (er_error (dr_body r)) /\ dr_status r = http_status_for (er_error (dr_body r)) /\
      (is_Some (dr_retry_after r) <-> dr_status r = 429)
  end.
Proof using. destruct d; cbn; try done; split_and!; try done; split; try done; by intros [].  Qed.
End Limits.

(** ** Instances *)

#[local] Existing Instance demo_crates.

Definition totals_fit (bound : Z) (m : gmap string Z) : bool := bool_decide (map_Forall (fun _ v => 0 <= v < bound) m).

Lemma totals_fit_spec bound m : 0 < bound -> (forall k, 0 <= default 0 (m !! k) < bound) <-> totals_fit bound m = true.
Proof.
  intros Hb. unfold totals_fit. rewrite bool_decide_eq_true. split.
  - intros Hk k v Hv. specialize (Hk k). by rewrite Hv in Hk.
  - intros Hm k. destruct (m !! k) as [v|] eqn:E; cbn; [by eapply Hm|lia].
Qed.

#[local] Instance demo_limits_serde : LimitsSerde := {|
  daily_of_slice s := '(d, m) ← toy_read s; if totals_fit (2 ^ 64) m then Some {| d_day := d; counts := m |} else None;
  daily_to_vec s := Some (toy_write (d_day s, counts s));
  spend_of_slice s := '(d, m) ← toy_read s; if totals_fit (2 ^ 128) m then Some {| x_day := d; spend := m |} else None;
  spend_to_vec s := Some (toy_write (x_day s, spend s))
|}.

#[local] Instance demo_daily_laws : DayStateLaws DailyState.
Proof.
  split.
  - intros [d m]. cbn. eexists. split; [done|]. rewrite totals_fit_spec by done. intros Hf. rewrite toy_read_write. cbn. by rewrite Hf.
  - intros b s k. cbn. destruct (toy_read b) as [[d m]|]; [|done]. cbn. destruct (totals_fit _ m) eqn:E; [|done].
    intros [= <-]. apply totals_fit_spec; done.
Qed.
#[local] Instance demo_spend_laws : DayStateLaws X402SpendState.
Proof.
  split.
  - intros [d m]. cbn. eexists. split; [done|]. rewrite totals_fit_spec by done. intros Hf. rewrite toy_read_write. cbn. by rewrite Hf.
  - intros b s k. cbn. destruct (toy_read b) as [[d m]|]; [|done]. cbn. destruct (totals_fit _ m) eqn:E; [|done].
    intros [= <-]. apply totals_fit_spec; done.
Qed.

(** Two orders and 100 units a day, mainnet profile. *)
Definition demo_env : Env := fun var =>
  arm var [(DAILY_CAP_ENV, Some "2"); (COUNTER_PATH_ENV, Some "/state/orders.json"); (X402_PERIOD_CAP_ENV, Some " 100 ");
           (X402_SPEND_PATH_ENV, Some "/state/spend.json"); (RATE_LIMIT_ENV, Some "60"); (REQUIRE_AUTH_ENV, Some "YES")] None.
Definition demo_config : LimitsConfig :=
  {| daily_cap := Some 2; counter_path := Some "/state/orders.json"; rate_per_min := Some 60; orders_per_min := None;
     cancels_per_min := None; dry_run := false; x402_period_cap := Some 100; x402_spend_path := Some "/state/spend.json" |}.

Lemma demo_from_env : from_env demo_env = Ok demo_config.
Proof. vm_compute. reflexivity. Qed.

(** Orders around a failed write and a restart, a payment, a clock set back. *)
Definition io_full_disk : Io :=
  {| io_read := true; io_create := true; io_write := false; io_written := 3; io_sync := true; io_rename := true;
     io_remove := true; io_dirsync := true |}.
Definition demo_ops : list gop :=
  [GRestart 864000 io_fine io_fine; GOrder "tok" 864010 io_fine; GOrder "tok" 864020 io_full_disk;
   GRestart 864030 io_fine io_fine; GOrder "tok" 864040 io_fine; GOrder "tok" 864050 io_fine;
   GSpend "pay" 70 864060 io_fine; GSpend "pay" 31 864070 io_fine; GOrder "tok" 777600 io_fine].

Lemma daily_order_cap_holds_witness :
  let ev := fst (gexec demo_config demo_ops [] (boot_state ∅)) in
  snd <$> reverse ev = [None; Some Allow; Some CounterUnavailable; None; Some Allow; Some (DailyCapExhausted 86350);
    Some Allow; Some (X402CapExhausted 86330); Some CounterUnavailable] /\
  granted (hex_encode (token_key "tok")) 10 (grants order_grant ev) <= 2.
Proof.
  split; [vm_compute; reflexivity|].
  apply (daily_order_cap_holds demo_env demo_config 2 ∅ demo_ops "tok" 10);
    [exact demo_from_env|reflexivity|vm_compute; reflexivity|reflexivity].
Defined.

Lemma x402_spend_cap_holds_witness :
  granted (hex_encode (token_key "pay")) 10 (grants spend_grant (fst (gexec demo_config demo_ops [] (boot_state ∅)))) <= 100.
Proof.
  apply (x402_spend_cap_holds demo_env demo_config 100 ∅ demo_ops "pay" 10);
    [exact demo_from_env|reflexivity|vm_compute; reflexivity|reflexivity].
Defined.

Lemma rate_window_cap_holds_witness :
  granted (token_key "tok") 1 (fst (bucket_exec 2 [("tok", 61); ("tok", 62); ("bot", 70); ("tok", 80)] [] ∅)) <= 2.
Proof. apply (rate_window_cap_holds 2 [("tok", 61); ("tok", 62); ("bot", 70); ("tok", 80)] "tok" 1); cbn; lia. Defined.

Definition demo_exhausted : Limits :=
  set_daily (limits_new demo_config)
    (Some {| d_day := 10; counts := {[hex_encode (token_key "tok") := 2]} |}).

Lemma throttle_lifts_witness :
  fst (fst (check_and_count_order demo_exhausted io_fine "tok" (864050 + 86350) ∅)) = Allow.
Proof.
  destruct (check_and_count_order demo_exhausted io_fine "tok" 864050 ∅) as [[d l'] fs'] eqn:E.
  assert (d = DailyCapExhausted 86350 /\ l' = demo_exhausted /\ fs' = ∅) as (-> & -> & ->)
    by (vm_compute in E; injection E as <- <- <-; done).
  apply (throttle_lifts demo_env demo_config demo_exhausted io_fine "tok" 864050 ∅ 86350 demo_exhausted ∅);
    [exact demo_from_env|reflexivity|reflexivity|lia|exact E].
Defined.

Lemma strict_profile_enforces_witness : dry_run demo_config = false.
Proof. apply (strict_profile_enforces demo_env demo_config); [exact demo_from_env|vm_compute; reflexivity]. Defined.
