(* ===== verification/GwTenant.v ===== *)
(** * Tenant kill switch (gateway/src/tenant_state.rs)

    The store of tenant states, written through to a file under its lock; the
    transition rules; the classification of routes and the gates that consult
    the state.  Operations of the store are atomic (one lock), so a history of
    the gateway is a sequence of operations, restarts included. *)

From S2P Require Import Prelude RustStr Crates Proto GwProto GwHost GwLimits.

Open Scope string_scope.
Open Scope list_scope.
Open Scope Z_scope.

(** ** Data *)

Inductive TenantState := Active | CancelOnly | Halted.
#[global] Instance TenantState_eq_dec : EqDecision TenantState.
Proof. solve_decision. Defined.

(** The derived [Ord]. *)
Definition level (s : TenantState) : Z := match s with Active => 0 | CancelOnly => 1 | Halted => 2 end.

Definition TenantState_as_str (s : TenantState) : string :=
  match s with Active => "active" | CancelOnly => "cancel_only" | Halted => "halted" end.
Definition TenantState_parse (s : string) : option TenantState :=
  arm (trim s)
    [("active", Some Active); ("cancel_only", Some CancelOnly); ("cancel-only", Some CancelOnly);
     ("halted", Some Halted); ("halt", Some Halted)]
    None.

Inductive Actor := Operator | Client | Automation.
#[global] Instance Actor_eq_dec : EqDecision Actor.
Proof. solve_decision. Defined.
Definition Actor_as_str (a : Actor) : string :=
  match a with Operator => "operator" | Client => "client" | Automation => "automation" end.

Inductive ReconcilePhase := Pending | Running | Done | Failed | Terminated.
#[global] Instance ReconcilePhase_eq_dec : EqDecision ReconcilePhase.
Proof. solve_decision. Defined.

Record VenueReconcile := {
  vr_found : Z;
  vr_cancelled : Z;
  vr_resting : option Z;
  vr_error : option string;
  vr_unsupported : bool
}.
#[global] Instance VenueReconcile_eq_dec : EqDecision VenueReconcile.
Proof. solve_decision. Defined.
Definition VenueReconcile_default : VenueReconcile :=
  {| vr_found := 0; vr_cancelled := 0; vr_resting := None; vr_error := None; vr_unsupported := false |}.

Record ReconcileStatus := {
  rs_phase : ReconcilePhase;
  rs_started : Z;
  rs_finished : option Z;
  rs_rounds : Z;
  rs_venues : gmap string VenueReconcile;
  rs_incident_path : option string;
  rs_error : option string
}.
#[global] Instance ReconcileStatus_eq_dec : EqDecision ReconcileStatus.
Proof. solve_decision. Defined.

Definition reconcile_pending (now_unix : Z) : ReconcileStatus :=
  {| rs_phase := Pending; rs_started := now_unix; rs_finished := None; rs_rounds := 0; rs_venues := ∅;
     rs_incident_path := None; rs_error := None |}.
Definition is_final (s : ReconcileStatus) : bool := bool_decide (rs_phase s ∈ [Done; Failed; Terminated]).

Record TenantRecord := {
  tr_state : TenantState;
  tr_since : Z;
  tr_by : Actor;
  tr_reason : string;
  tr_reconcile : option ReconcileStatus
}.

Inductive Transition :=
| Changed (from to : TenantState)
| Unchanged (s : TenantState).

Inductive TransitionError :=
| NotEscalation (current requested : TenantState)
| AutomationScope
| ReasonRequired.
Definition TransitionError_as_str (e : TransitionError) : string :=
  match e with
  | NotEscalation _ _ => "not_an_escalation"
  | AutomationScope => "automation_scope"
  | ReasonRequired => "reason_required"
  end.

Abbreviation Tenants := (gmap string TenantRecord).

(** The [serde] code of the state file. *)
Class TenantSerde := {
  tenants_of_slice : string -> option Tenants;
  tenants_to_vec : Tenants -> option string
}.
(** Writing cannot fail and reading inverts it. *)
Class TenantSerdeLaws `{TenantSerde} := {
  tenants_written t : exists b, tenants_to_vec t = Some b /\ tenants_of_slice b = Some t
}.

Record TenantStateStore := { ts_inner : Tenants; ts_path : option string; ts_durable : bool }.

Definition in_memory : TenantStateStore := {| ts_inner := ∅; ts_path := None; ts_durable := false |}.

Section Store.
Context `{TenantSerde}.

(** [load]: a missing file is an empty store, an unreadable one a boot error. *)
Definition tenants_load (io : Io) (path : string) (fs : Fs) : result io_error TenantStateStore :=
  let store (t : Tenants) := Ok {| ts_inner := t; ts_path := Some path; ts_durable := true |} in
  match fs_read io path fs with
  | Ok bytes => match tenants_of_slice bytes with Some t => store t | None => Err InvalidData end
  | Err NotFound => store ∅
  | Err e => Err e
  end.

(** [boot_probe]; [io_create] also answers for the parent directory. *)
Definition tenants_probe (io : Io) (s : TenantStateStore) (fs : Fs) : result io_error TenantStateStore * Fs :=
  match ts_path s with
  | None => (Ok s, fs)
  | Some path =>
      match tenants_to_vec (ts_inner s) with
      | None => (Err InvalidData, fs)
      | Some bytes =>
          let '(r, fs', _) := atomic_write_bytes io path bytes fs in
          match r with
          | Err e => (Err e, fs')
          | Ok _ => (Ok {| ts_inner := ts_inner s; ts_path := ts_path s; ts_durable := true |}, fs')
          end
      end
  end.

(** [persist_locked]: the new durability flag. *)
Definition persist_locked (io : Io) (s : TenantStateStore) (tenants : Tenants) (fs : Fs) : bool * Fs :=
  match ts_path s with
  | None => (ts_durable s, fs)
  | Some path =>
      match tenants_to_vec tenants with
      | None => (false, fs)
      | Some bytes => let '(r, fs', _) := atomic_write_bytes io path bytes fs in (is_ok r, fs')
      end
  end.

(** Insert under the lock, then write through. *)
Definition write_through (io : Io) (s : TenantStateStore) (tenants : Tenants) (fs : Fs) : TenantStateStore * Fs :=
  let '(durable, fs') := persist_locked io s tenants fs in
  ({| ts_inner := tenants; ts_path := ts_path s; ts_durable := durable |}, fs').

Definition state_of (s : TenantStateStore) (customer : string) : TenantState :=
  match ts_inner s !! customer with Some r => tr_state r | None => Active end.

Definition transition (io : Io) (s : TenantStateStore) (customer : string) (to : TenantState) (by_ : Actor) (reason : string)
    (now_unix : Z) (fs : Fs) : result TransitionError Transition * TenantStateStore * Fs :=
  let reason := trim reason in
  if bool_decide (by_ = Operator) && is_empty reason then (Err ReasonRequired, s, fs)
  else if bool_decide (by_ = Automation) && negb (bool_decide (to = CancelOnly)) then (Err AutomationScope, s, fs)
  else
    let current := state_of s customer in
    if bool_decide (to = current) then (Ok (Unchanged current), s, fs)
    else if negb (bool_decide (by_ = Operator)) && (level to <? level current)
    then (Err (NotEscalation current to), s, fs)
    else
      let prev_reconcile := ts_inner s !! customer ≫= tr_reconcile in
      let keep := bool_decide (to = Active) ||
        match prev_reconcile with Some r => negb (is_final r) | None => false end in
      let reconcile := if keep then prev_reconcile else Some (reconcile_pending now_unix) in
      let rec := {| tr_state := to; tr_since := now_unix; tr_by := by_; tr_reason := reason; tr_reconcile := reconcile |} in
      let '(s', fs') := write_through io s (<[customer := rec]> (ts_inner s)) fs in
      (Ok (Changed current to), s', fs').

Definition update_reconcile (io : Io) (s : TenantStateStore) (customer : string) (now_unix : Z)
    (f : ReconcileStatus -> ReconcileStatus) (fs : Fs) : bool * TenantStateStore * Fs :=
  match ts_inner s !! customer with
  | None => (false, s, fs)
  | Some rec =>
      let status := default (reconcile_pending now_unix) (tr_reconcile rec) in
      let rec' := {| tr_state := tr_state rec; tr_since := tr_since rec; tr_by := tr_by rec; tr_reason := tr_reason rec;
                     tr_reconcile := Some (f status) |} in
      let '(s', fs') := write_through io s (<[customer := rec']> (ts_inner s)) fs in (true, s', fs')
  end.

(** A tenant whose job should run: stopped, with a job that is not over. *)
Definition is_candidate (r : TenantRecord) : bool :=
  negb (bool_decide (tr_state r = Active)) &&
  match tr_reconcile r with Some s => negb (is_final s) | None => true end.
Definition reconcile_candidates (s : TenantStateStore) : list string :=
  (map_to_list (filter (fun p => is_candidate (snd p) = true) (ts_inner s))).*1.
End Store.

(** ** Routes *)

Inductive Method := GET | POST | OtherMethod (name : string).
#[global] Instance Method_eq_dec : EqDecision Method.
Proof. solve_decision. Defined.

Inductive RouteClass := ROrder | RCancel | RRead | MoneyMoving | BodyDecides | Exempt | RUnknown.
#[global] Instance RouteClass_eq_dec : EqDecision RouteClass.
Proof. solve_decision. Defined.

(** [trim_end_matches('/')] *)
Fixpoint trim_slashes (s : string) : string :=
  match s with
  | EmptyString => EmptyString
  | String c rest =>
      let t := trim_slashes rest in if is_empty t && bool_decide (c = "/"%char) then EmptyString else String c t
  end.

Definition classify (method : Method) (path : string) : RouteClass :=
  let p := trim_slashes path in
  match method with
  | POST =>
      if str_in p ["/tenant/halt"] then Exempt
      else if str_in p ["/receipts/heartbeat"] then Exempt
      else if str_in p ["/sign"; "/sign/binance-request"] then BodyDecides
      else if str_in p ["/sign-x402"] then MoneyMoving
      else if str_in p ["/hedge"] then ROrder
      else if starts_with "/sign/" p && ends_with "-order" p then ROrder
      else if starts_with "/sign/" p && ends_with "-cancel" p then RCancel
      else if starts_with "/cancel-all/" p then RCancel
      else RUnknown
  | GET =>
      if starts_with "/account/" p || starts_with "/open-orders/" p || starts_with "/user-trades/" p then RRead
      else RUnknown
  | OtherMethod _ => RUnknown
  end.

Definition tenant_decide (state : TenantState) (class : RouteClass) : result string () :=
  match state with
  | Active => Ok ()
  | CancelOnly =>
      match class with
      | RCancel | RRead | Exempt | BodyDecides => Ok ()
      | ROrder | MoneyMoving | RUnknown => Err gw_code.TENANT_CANCEL_ONLY
      end
  | Halted => match class with Exempt => Ok () | _ => Err gw_code.TENANT_HALTED end
  end.

(** The middleware: the code of the refusal, or [None] to pass the request on. *)
Definition tenant_state_mw (s : TenantStateStore) (customer : option string) (method : Method) (path : string) : option string :=
  match customer with
  | None => None
  | Some customer =>
      let tstate := state_of s customer in
      if bool_decide (tstate = Active) then None
      else match tenant_decide tstate (classify method path) with Ok _ => None | Err code => Some code end
  end.

Definition body_route_gate (s : TenantStateStore) (customer : string) (class : RouteClass) : option string :=
  match tenant_decide (state_of s customer) class with Ok _ => None | Err code => Some code end.

(** ** The two switches *)

Section Switches.
Context `{TenantSerde}.

(** Status, code and, when the state changed, that [reconcile::kick] is called. *)
Inductive SwitchResponse :=
| Refused (status : Z) (code hint : string)
| View (customer : string) (state : TenantState) (changed durable : bool).

(** [chars().take(n)] on UTF-8: continuation bytes ride with their char. *)
Fixpoint take_chars (n : nat) (s : string) : string :=
  match s with
  | EmptyString => EmptyString
  | String c rest =>
      if in_range 128 191 c then String c (take_chars n rest)
      else match n with O => EmptyString | S n' => String c (take_chars n' rest) end
  end.

Definition after_transition (s : TenantStateStore) (customer : string) (r : result TransitionError Transition)
    : SwitchResponse * bool :=
  match r with
  | Ok (Changed _ _) => (View customer (state_of s customer) true (ts_durable s), true)
  | Ok (Unchanged _) => (View customer (state_of s customer) false (ts_durable s), false)
  | Err e => (Refused 409 gw_code.BAD_REQUEST (TransitionError_as_str e), false)
  end.

Definition post_tenant_halt (io : Io) (s : TenantStateStore) (customer level_ reason : string) (now : Z) (fs : Fs)
    : SwitchResponse * bool * TenantStateStore * Fs :=
  match TenantState_parse level_ with
  | None => (Refused 400 gw_code.BAD_REQUEST "level must be cancel_only or halted", false, s, fs)
  | Some lvl =>
      if bool_decide (lvl = Active)
      then (Refused 403 gw_code.POLICY_DENIED "a bearer token can only escalate; release is an operator action", false, s, fs)
      else
        let reason := if is_empty (trim reason) then "client self-halt" else take_chars 200 (trim reason) in
        let '(r, s', fs') := transition io s customer lvl Client reason now fs in
        (after_transition s' customer r, s', fs')
  end.

Definition admin_set (io : Io) (s : TenantStateStore) (customer state reason : string) (now : Z) (fs : Fs)
    : SwitchResponse * bool * TenantStateStore * Fs :=
  match TenantState_parse state with
  | None => (Refused 400 gw_code.BAD_REQUEST "state must be active | cancel_only | halted", false, s, fs)
  | Some to =>
      if is_empty (trim customer) || (128 <? Z.of_nat (String.length customer))
      then (Refused 400 gw_code.BAD_REQUEST "bad customer label", false, s, fs)
      else
        let '(r, s', fs') := transition io s customer to Operator reason now fs in
        (after_transition s' customer r, s', fs')
  end.
End Switches.

(** ** Histories *)

Section History.
Context `{TenantSerde}.
Context (path : string).

Inductive top :=
| THalt (customer level reason : string) (now : Z) (io : Io)
| TAutomation (customer : string) (to : TenantState) (reason : string) (now : Z) (io : Io)
| TAdmin (customer state reason : string) (now : Z) (io : Io)
| TUpdate (customer : string) (now : Z) (f : ReconcileStatus -> ReconcileStatus) (io : Io)
| TRestart (io : Io).

(** The process with its store, [None] while it is down. *)
Definition Switchboard : Type := option TenantStateStore * Fs.

Definition tboot (io : Io) (fs : Fs) : Switchboard :=
  match tenants_load io path fs with
  | Err _ => (None, fs)
  | Ok s => match tenants_probe io s fs with (Ok s', fs') => (Some s', fs') | (Err _, fs') => (None, fs') end
  end.

Definition tstep (op : top) (b : Switchboard) : Switchboard :=
  match op, b with
  | TRestart io, (_, fs) => tboot io fs
  | _, (None, fs) => (None, fs)
  | THalt customer lvl reason now io, (Some s, fs) =>
      let '(_, s', fs') := post_tenant_halt io s customer lvl reason now fs in (Some s', fs')
  | TAutomation customer to reason now io, (Some s, fs) =>
      let '(_, s', fs') := transition io s customer to Automation reason now fs in (Some s', fs')
  | TAdmin customer state reason now io, (Some s, fs) =>
      let '(_, s', fs') := admin_set io s customer state reason now fs in (Some s', fs')
  | TUpdate customer now f io, (Some s, fs) =>
      let '(_, s', fs') := update_reconcile io s customer now f fs in (Some s', fs')
  end.

Fixpoint texec (ops : list top) (b : Switchboard) : Switchboard :=
  match ops with [] => b | op :: rest => texec rest (tstep op b) end.
End History.

(** ** What the rules allow *)

Lemma parse_as_str s : TenantState_parse (TenantState_as_str s) = Some s.
Proof. by destruct s. Qed.

Section Rules.
Context `{TenantSerde}.

Lemma state_of_insert s customer rec c path d :
  state_of {| ts_inner := <[customer := rec]> (ts_inner s); ts_path := path; ts_durable := d |} c =
  if decide (c = customer) then tr_state rec else state_of s c.
Proof.
  unfold state_of. cbn [ts_inner]. case_decide as Hc; [subst; by rewrite lookup_insert_eq|by rewrite lookup_insert_ne].
Qed.

Lemma write_through_inner io s t fs s' fs' :
  write_through io s t fs = (s', fs') -> ts_inner s' = t /\ ts_path s' = ts_path s.
Proof. unfold write_through. destruct (persist_locked _ _ _ _) as [d fs0]. by intros [= <- <-]. Qed.

Definition may_move (by_ : Actor) (reason : string) (current to : TenantState) : Prop :=
  match by_ with
  | Operator => trim reason <> ""
  | Client => level current <= level to
  | Automation => to = CancelOnly /\ level current <= level to
  end.

Lemma is_empty_spec s : is_empty s = true <-> s = "".
Proof. destruct s; by cbn. Qed.

Lemma transition_spec io s customer to by_ reason now fs r s' fs' :
  transition io s customer to by_ reason now fs = (r, s', fs') ->
  (is_ok r = true <-> may_move by_ reason (state_of s customer) to) /\
  (is_ok r = true -> state_of s' customer = to) /\ (is_ok r = false -> s' = s /\ fs' = fs) /\
  forall other, other <> customer -> state_of s' other = state_of s other.
Proof.
  unfold transition. destruct (bool_decide (by_ = Operator) && is_empty (trim reason)) eqn:E1.
  { intros [= <- <- <-]. apply andb_true_iff in E1 as [Eb Er]. apply bool_decide_eq_true in Eb as ->. apply is_empty_spec in Er.
    cbn. naive_solver. }
  destruct (bool_decide (by_ = Automation) && negb (bool_decide (to = CancelOnly))) eqn:E2.
  { intros [= <- <- <-]. apply andb_true_iff in E2 as [Eb Er]. apply bool_decide_eq_true in Eb as ->.
    apply negb_true_iff, bool_decide_eq_false in Er. cbn. naive_solver. }
  assert (by_ = Operator -> trim reason <> "") as Hop.
  { intros ->. intros Hr. rewrite Hr in E1. discriminate E1. }
  assert (by_ = Automation -> to = CancelOnly) as Hau.
  { intros ->. rewrite bool_decide_true in E2 by done. by apply negb_false_iff, bool_decide_eq_true in E2. }
  destruct (bool_decide (to = state_of s customer)) eqn:E3.
  { intros [= <- <- <-]. apply bool_decide_eq_true in E3. cbn. split; [|naive_solver]. split; [intros _|done].
    rewrite <- E3. destruct by_; cbn; [auto|lia|split; [auto|lia]]. }
  apply bool_decide_eq_false in E3.
  destruct (negb (bool_decide (by_ = Operator)) && (level to <? level (state_of s customer))) eqn:E4.
  { intros [= <- <- <-]. apply andb_true_iff in E4 as [Eb El]. apply negb_true_iff, bool_decide_eq_false in Eb. apply Z.ltb_lt in El.
    cbn. split; [|naive_solver]. split; [done|]. destruct by_; cbn; [done|lia|lia]. }
  destruct (write_through _ _ _ _) as [s0 fs0] eqn:Ew. intros [= <- <- <-].
  apply write_through_inner in Ew as [Hi Hp]. destruct s0 as [inner0 path0 d0]. cbn [ts_inner ts_path] in *. subst inner0.
  setoid_rewrite state_of_insert. rewrite decide_True by done. cbn [is_ok tr_state].
  assert (may_move by_ reason (state_of s customer) to) as Hmay.
  { destruct by_; cbn [may_move bool_decide] in *; [auto| |]; apply andb_false_iff in E4 as [E4|E4]; try done; apply Z.ltb_ge in E4; auto. }
  split; [done|]. split; [done|]. split; [done|]. intros other Ho. by rewrite decide_False.
Qed.

(** A transition succeeds exactly when the rules allow it: the operator
    gives a reason; a client only escalates or repeats; automation only
    reaches cancel-only.  Success puts the tenant in the requested state in memory even
    when the disk fails and touches no other tenant; refusal changes nothing. *)
Theorem transition_rules io s customer to by_ reason now fs r s' fs' :
  transition io s customer to by_ reason now fs = (r, s', fs') ->
  (is_ok r = true <-> may_move by_ reason (state_of s customer) to) /\
  (is_ok r = true -> state_of s' customer = to) /\ (is_ok r = false -> s' = s /\ fs' = fs) /\
  forall other, other <> customer -> state_of s' other = state_of s other.
Proof. apply transition_spec. Qed.

(** Every change into a stopped state leaves the tenant due for an
    unwind job: one is armed, or the one that is not over yet is kept. *)
Theorem stop_arms_unwind io s customer to by_ reason now fs from s' fs' :
  transition io s customer to by_ reason now fs = (Ok (Changed from to), s', fs') -> to <> Active ->
  customer ∈ reconcile_candidates s'.
Proof.
  unfold transition. intros Ht Hto. repeat (case_match; [done|]).
  destruct (write_through _ _ _ _) as [s0 fs0] eqn:Ew. injection Ht as <- <- <-. apply write_through_inner in Ew as [Hi _].
  unfold reconcile_candidates. apply list_elem_of_fmap.
  match type of Hi with _ = <[customer := ?rec]> _ => exists (customer, rec) end. split; [done|].
  apply elem_of_map_to_list. apply map_lookup_filter_Some. rewrite Hi. split; [by rewrite lookup_insert_eq|].
  cbn [snd]. unfold is_candidate. cbn [tr_state tr_reconcile]. rewrite !(bool_decide_false (to = Active)) by done. cbn [negb andb orb].
  destruct (ts_inner s !! customer ≫= tr_reconcile) as [rs|]; [|done]. destruct (is_final rs) eqn:Ef; [done|]. cbn. by rewrite Ef.
Qed.
End Rules.

(** ** A stop holds until the operator lifts it *)

Section Stop.
Context `{TenantSerdeLaws}.
Context (path : string).

Definition file_tenants (fs : Fs) : option Tenants :=
  match fs !! path with Some f => tenants_of_slice (f_data f) | None => Some ∅ end.
Definition level_in (t : Tenants) (customer : string) : Z :=
  match t !! customer with Some r => level (tr_state r) | None => 0 end.

(** The durability flag tells the truth about the file. *)
Definition honest (s : TenantStateStore) (fs : Fs) : Prop :=
  ts_path s = Some path /\ (ts_durable s = true -> file_tenants fs = Some (ts_inner s)).

Lemma level_in_state s customer : level (state_of s customer) = level_in (ts_inner s) customer.
Proof using. unfold state_of, level_in. by destruct (ts_inner s !! customer). Qed.

Lemma written_file io t bytes fs r fs' trail :
  tenants_to_vec t = Some bytes -> atomic_write_bytes io path bytes fs = (r, fs', trail) ->
  file_tenants fs' = if is_ok r then Some t else file_tenants fs.
Proof using All.
  intros Hb Hw. apply atomic_write_result in Hw. unfold file_tenants. destruct r; rewrite Hw; [|done]. cbn [f_data is_ok].
  destruct (tenants_written t) as (b & Hb' & Hr). congruence.
Qed.

Lemma write_through_honest io s t fs s' fs' :
  honest s fs -> write_through io s t fs = (s', fs') -> honest s' fs' /\ ts_inner s' = t.
Proof using All.
  unfold write_through, persist_locked. intros [Hp Hd]. rewrite Hp. destruct (tenants_to_vec t) as [bytes|] eqn:Eb.
  - destruct (atomic_write_bytes _ _ _ _) as [[r fs0] trail] eqn:Ew. intros [= <- <-]. split; [|done]. split; [done|].
    cbn [ts_durable ts_inner]. intros Hr. rewrite (written_file _ _ _ _ _ _ _ Eb Ew). by rewrite Hr.
  - intros [= <- <-]. done.
Qed.

(** Memory and, when it can be trusted, the file put the tenant at [n] or above. *)
Definition at_least (n : Z) (customer : string) (b : Switchboard) : Prop :=
  match b with
  | (Some s, fs) => honest s fs /\ n <= level (state_of s customer)
  | (None, fs) => exists t, file_tenants fs = Some t /\ n <= level_in t customer
  end.

(** Nobody lifts this tenant's stop, and the process is not restarted while the
    file is known to be behind. *)
Definition calm_op (customer : string) (op : top) (b : Switchboard) : Prop :=
  match op, b with
  | TAdmin c _ _ _ _, _ => c <> customer
  | TRestart _, (Some s, _) => ts_durable s = true
  | _, _ => True
  end.
Fixpoint calm (customer : string) (ops : list top) (b : Switchboard) : Prop :=
  match ops with [] => True | op :: rest => calm_op customer op b /\ calm customer rest (tstep path op b) end.

Lemma boot_at_least n customer io fs t :
  file_tenants fs = Some t -> n <= level_in t customer -> at_least n customer (tboot path io fs).
Proof using All.
  intros Hf Hn. unfold tboot, tenants_load, fs_read.
  destruct (negb (io_read io)); [by exists t|].
  assert (forall t0, t0 = t -> at_least n customer
    (match tenants_probe io {| ts_inner := t0; ts_path := Some path; ts_durable := true |} fs with
     | (Ok s', fs') => (Some s', fs') | (Err _, fs') => (None, fs') end)) as Hprobe.
  { intros t0 ->. unfold tenants_probe. cbn [ts_path ts_inner]. destruct (tenants_written t) as (b & Hb & _). rewrite Hb.
    destruct (atomic_write_bytes _ _ _ _) as [[r fs'] trail] eqn:Ew. pose proof (written_file _ _ _ _ _ _ _ Hb Ew) as Hw.
    destruct r; cbn [is_ok] in Hw; cbn [at_least].
    - split; [by split|]. by rewrite level_in_state.
    - exists t. split; [congruence|done]. }
  unfold file_tenants in Hf. destruct (fs !! path) as [f|]; [|apply Hprobe; congruence].
  rewrite Hf. by apply Hprobe.
Qed.

Lemma transition_at_least n customer io s c to by_ reason now fs r s' fs' :
  honest s fs -> n <= level (state_of s customer) -> (by_ = Operator -> c <> customer) ->
  transition io s c to by_ reason now fs = (r, s', fs') -> honest s' fs' /\ n <= level (state_of s' customer).
Proof using All.
  intros Hh Hn Hop Ht. assert (honest s' fs') as Hh'.
  { unfold transition in Ht. repeat (case_match; [by injection Ht as _ <- <-|]).
    destruct (write_through _ _ _ _) as [s0 fs0] eqn:Ew. injection Ht as _ <- <-. by eapply write_through_honest. }
  split; [done|]. destruct (transition_spec _ _ _ _ _ _ _ _ _ _ _ Ht) as (Hiff & Hok & Hno & Hother).
  destruct (decide (customer = c)) as [<-|Hc]; [|by rewrite Hother].
  destruct (is_ok r) eqn:Er; [|by destruct (Hno eq_refl) as [-> _]]. rewrite (Hok eq_refl).
  destruct Hiff as [Hmay _]. specialize (Hmay eq_refl). destruct by_; cbn [may_move] in Hmay; [by destruct Hop|lia|lia].
Qed.

Lemma tstep_at_least n customer op b : at_least n customer b -> calm_op customer op b -> at_least n customer (tstep path op b).
Proof using All.
  destruct b as [[s|] fs]; cbn [at_least]; [intros [Hh Hn] Hc|intros (t & Hf & Hn) Hc].
  - destruct op as [c lvl reason now io|c to reason now io|c st reason now io|c now f io|io]; cbn [tstep calm_op] in *.
    + unfold post_tenant_halt. destruct (TenantState_parse lvl) as [l|]; [|done]. destruct (bool_decide _); [done|].
      destruct (transition _ _ _ _ _ _ _ _) as [[r s'] fs'] eqn:Et. eapply transition_at_least; [exact Hh|exact Hn| |exact Et]; done.
    + destruct (transition _ _ _ _ _ _ _ _) as [[r s'] fs'] eqn:Et. eapply transition_at_least; [exact Hh|exact Hn| |exact Et]; done.
    + unfold admin_set. destruct (TenantState_parse st) as [l|]; [|done]. destruct (_ || _); [done|].
      destruct (transition _ _ _ _ _ _ _ _) as [[r s'] fs'] eqn:Et. eapply transition_at_least; [exact Hh|exact Hn| |exact Et]; done.
    + unfold update_reconcile. destruct (ts_inner s !! c) as [rec|] eqn:Er; [|done].
      destruct (write_through _ _ _ _) as [s' fs'] eqn:Ew. destruct (write_through_honest _ _ _ _ _ _ Hh Ew) as [Hh' Hi].
      split; [done|]. rewrite level_in_state in *. rewrite Hi. unfold level_in in *.
      destruct (decide (c = customer)) as [->|Hne]; [rewrite lookup_insert_eq; by rewrite Er in Hn|by rewrite lookup_insert_ne].
    + eapply boot_at_least; [by apply Hh|]. by rewrite <- level_in_state.
  - destruct op; cbn [tstep at_least]; try (by exists t). by eapply boot_at_least.
Qed.

Lemma texec_at_least n customer ops : forall b, at_least n customer b -> calm customer ops b -> at_least n customer (texec path ops b).
Proof using All.
  induction ops as [|op ops IH]; intros b Hb Hc; [done|]. destruct Hc as [H1 H2]. cbn [texec]. apply IH; [by apply tstep_at_least|done].
Qed.

Definition store_honest (b : Switchboard) : Prop := match b with (Some s, fs) => honest s fs | (None, _) => True end.

Lemma tboot_honest io fs : store_honest (tboot path io fs).
Proof using All.
  destruct (file_tenants fs) as [t|] eqn:Hf.
  - pose proof (boot_at_least 0 "" io fs t Hf ltac:(unfold level_in; destruct (t !! ""); [by destruct (tr_state _)|done])) as Hb.
    destruct (tboot path io fs) as [[s|] fs']; [by destruct Hb|done].
  - unfold tboot, tenants_load, fs_read. unfold file_tenants in Hf. destruct (negb (io_read io)); [done|].
    destruct (fs !! path) as [f|]; [|done]. by rewrite Hf.
Qed.

Lemma tstep_honest op b : store_honest b -> store_honest (tstep path op b).
Proof using All.
  destruct b as [[s|] fs]; intros Hh; [|destruct op; try done; apply tboot_honest].
  assert (forall customer, calm_op customer op (Some s, fs) -> store_honest (tstep path op (Some s, fs))) as Hcalm.
  { intros customer Hc. pose proof (tstep_at_least 0 customer op (Some s, fs)) as Ha.
    destruct (tstep path op (Some s, fs)) as [[s'|] fs']; [|done]. apply Ha; [|done]. split; [done|]. by destruct (state_of s customer). }
  destruct op as [| |c st reason now io| |io]; try (by apply (Hcalm "")); [|apply tboot_honest].
  apply (Hcalm (String "x" c)). cbn [calm_op]. intros Hx. apply (f_equal String.length) in Hx. cbn in Hx. lia.
Qed.

(** Once a tenant is stopped, it stays at least as stopped through every
    sequence of client presses, automation, job updates, operator actions on
    other tenants, disk failures and restarts (as long as no restart happens
    while the store reports itself not durable); meanwhile the gate lets
    nothing through that creates exposure, and for a halted tenant nothing but
    the halt call itself and the audit heartbeat. *)
Theorem stop_holds customer ops s fs s' fs' method p :
  honest s fs -> calm customer ops (Some s, fs) -> texec path ops (Some s, fs) = (Some s', fs') ->
  level (state_of s customer) <= level (state_of s' customer) /\
  (state_of s customer <> Active -> tenant_state_mw s' (Some customer) method p = None ->
     classify method p ∉ [ROrder; MoneyMoving; RUnknown]) /\
  (state_of s customer = Halted -> tenant_state_mw s' (Some customer) method p = None ->
     method = POST /\ trim_slashes p ∈ ["/tenant/halt"; "/receipts/heartbeat"]).
Proof using All.
  intros Hh Hc He. pose proof (texec_at_least (level (state_of s customer)) customer ops (Some s, fs)) as Hal.
  rewrite He in Hal. destruct Hal as [_ Hle]; [by split|done|]. split; [done|].
  unfold tenant_state_mw. split; intros Hst; rewrite bool_decide_false by (intros Hz; rewrite Hz in Hle; destruct (state_of s customer); cbn in Hle; lia || done).
  - destruct (state_of s customer) eqn:E0, (state_of s' customer) eqn:E1; try done; cbn in Hle; try lia.
    all: destruct (classify method p); cbn; intros; try done; set_solver.
  - rewrite Hst in Hle. assert (state_of s' customer = Halted) as -> by (destruct (state_of s' customer); cbn in Hle; lia || done).
    cbn [tenant_decide]. destruct (classify method p) eqn:Ec; try done. intros _. unfold classify in Ec.
    destruct method; [|split; [done|]|done].
    + by destruct (_ || _).
    + destruct (str_in _ ["/tenant/halt"]) eqn:E2; [apply str_in_spec in E2; set_solver|].
      destruct (str_in _ ["/receipts/heartbeat"]) eqn:E3; [apply str_in_spec in E3; set_solver|]. by repeat case_match.
Qed.
End Stop.

(** ** Instances *)

#[local] Instance TenantState_countable : Countable TenantState.
Proof.
  refine (inj_countable' level (fun z => if z =? 0 then Active else if z =? 1 then CancelOnly else Halted) _). by intros [].
Defined.
#[local] Instance Actor_countable : Countable Actor.
Proof.
  refine (inj_countable' (fun a => match a with Operator => 0 | Client => 1 | Automation => 2 end)
    (fun z => if z =? 0 then Operator else if z =? 1 then Client else Automation) _). by intros [].
Defined.
#[local] Instance ReconcilePhase_countable : Countable ReconcilePhase.
Proof.
  refine (inj_countable' (fun p => match p with Pending => 0 | Running => 1 | Done => 2 | Failed => 3 | Terminated => 4 end)
    (fun z => if z =? 0 then Pending else if z =? 1 then Running else if z =? 2 then Done else if z =? 3 then Failed
              else Terminated) _). by intros [].
Defined.
#[local] Instance VenueReconcile_countable : Countable VenueReconcile.
Proof.
  refine (inj_countable' (fun v => (vr_found v, vr_cancelled v, vr_resting v, vr_error v, vr_unsupported v))
    (fun '(a, b, c, d, e) => {| vr_found := a; vr_cancelled := b; vr_resting := c; vr_error := d; vr_unsupported := e |}) _).
  by intros [].
Defined.
#[local] Instance ReconcileStatus_countable : Countable ReconcileStatus.
Proof.
  refine (inj_countable' (fun s => (rs_phase s, rs_started s, rs_finished s, rs_rounds s, rs_venues s, rs_incident_path s, rs_error s))
    (fun '(a, b, c, d, e, f, g) => {| rs_phase := a; rs_started := b; rs_finished := c; rs_rounds := d; rs_venues := e;
                                      rs_incident_path := f; rs_error := g |}) _).
  by intros [].
Defined.
#[local] Instance TenantRecord_eq_dec : EqDecision TenantRecord.
Proof. solve_decision. Defined.
#[local] Instance TenantRecord_countable : Countable TenantRecord.
Proof.
  refine (inj_countable' (fun r => (tr_state r, tr_since r, tr_by r, tr_reason r, tr_reconcile r))
    (fun '(a, b, c, d, e) => {| tr_state := a; tr_since := b; tr_by := c; tr_reason := d; tr_reconcile := e |}) _).
  by intros [].
Defined.

Definition demo_tenant_serde : TenantSerde := {| tenants_of_slice := toy_read; tenants_to_vec t := Some (toy_write t) |}.
#[local] Existing Instance demo_tenant_serde.
Lemma demo_tenant_laws : TenantSerdeLaws.
Proof. split. intros t. eexists. split; [reflexivity|]. apply toy_read_write. Qed.
#[local] Existing Instance demo_tenant_laws.

(** A customer halts itself; the disk is full for a later press; the gateway restarts. *)
Definition demo_board : Switchboard := tstep "/state/tenants.json" (THalt "cust" "cancel-only" "odd fills" 100 io_fine)
  (tboot "/state/tenants.json" io_fine ∅).
Definition demo_presses : list top :=
  [THalt "cust" "halted" "" 200 io_full_disk; TAdmin "other" "halted" "drill" 250 io_fine; TRestart io_fine;
   THalt "cust" "active" "let me out" 300 io_fine; TAutomation "cust" CancelOnly "storm" 400 io_fine].

Lemma transition_rules_witness :
  is_ok (fst (fst (transition io_fine in_memory "cust" Halted Client "" 5 ∅))) = true <->
  may_move Client "" Active Halted.
Proof. apply (transition_rules io_fine in_memory "cust" Halted Client "" 5 ∅ _ _ _ eq_refl). Defined.

Lemma stop_arms_unwind_witness :
  "cust" ∈ reconcile_candidates (snd (fst (transition io_fine in_memory "cust" Halted Client "" 5 ∅))).
Proof. apply (stop_arms_unwind io_fine in_memory "cust" Halted Client "" 5 ∅ Active _ ∅); [reflexivity|discriminate]. Defined.

Definition board_state (b : Switchboard) (customer : string) : option TenantState :=
  match fst b with Some s => Some (state_of s customer) | None => None end.

Lemma stop_holds_witness :
  match demo_board, texec "/state/tenants.json" demo_presses demo_board with
  | (Some s, _), (Some s', _) =>
      level (state_of s "cust") <= level (state_of s' "cust") /\ state_of s' "cust" = Halted /\
      tenant_state_mw s' (Some "cust") GET "/account/okx" = Some gw_code.TENANT_HALTED
  | _, _ => False
  end.
Proof.
  assert (board_state demo_board "cust" = Some CancelOnly) as B0 by (vm_compute; reflexivity).
  assert (board_state (texec "/state/tenants.json" demo_presses demo_board) "cust" = Some Halted) as B1 by (vm_compute; reflexivity).
  assert (calm "/state/tenants.json" "cust" demo_presses demo_board) as Hcalm by (vm_compute; repeat split; discriminate).
  assert (store_honest "/state/tenants.json" demo_board) as Hh by (apply tstep_honest, tboot_honest).
  destruct demo_board as [[s|] fs]; [|discriminate B0].
  destruct (texec "/state/tenants.json" demo_presses (Some s, fs)) as [[s'|] fs'] eqn:E1; [|discriminate B1].
  injection B1 as B1. split; [|split; [exact B1|unfold tenant_state_mw; rewrite B1; reflexivity]].
  apply (stop_holds "/state/tenants.json" "cust" demo_presses s fs s' fs' GET ""); [exact Hh|exact Hcalm|exact E1].
Defined.
