(* ===== verification/GwReconcile.v ===== *)
(** * Automatic unwind (gateway/src/reconcile.rs)

    The job that lists and cancels a stopped tenant's orders, as a program whose
    calls are the venue operations, the clock and the atomic accesses to the
    tenant store; its answers are arbitrary, so statements about all answers
    hold under every interleaving.  [Sys] adds the claims and the spawning. *)

From S2P Require Import Prelude RustStr Crates Proto GwProto GwHost GwLimits GwTenant.

Open Scope string_scope.
Open Scope list_scope.
Open Scope Z_scope.

Definition MAX_ROUNDS : nat := 5.
Definition ROUND_BACKOFF_BASE : Z := 5.
Definition CANCEL_ATTEMPTS : nat := 4.
Definition CANCEL_BACKOFF_BASE : Z := 20.
Definition INTENT_GATE_MARK : string := "af2-intent-gate".

Record OpenOrder := { oo_venue : string; oo_symbol : string; oo_order_id : string }.
#[global] Instance OpenOrder_eq_dec : EqDecision OpenOrder.
Proof. solve_decision. Defined.

Inductive CancelOutcome := Cancelled | Gone | CancelFailed (error : string).
#[global] Instance CancelOutcome_eq_dec : EqDecision CancelOutcome.
Proof. solve_decision. Defined.

Record RawExchange := { rx_venue : string; rx_op : string; rx_http_status : option Z; rx_body : string }.

Record IncidentBundle := {
  ib_customer : string;
  ib_tenant_state : string;
  ib_started : Z;
  ib_finished : Z;
  ib_phase : ReconcilePhase;
  ib_rounds : Z;
  ib_venues : gmap string VenueReconcile;
  ib_before : gmap string (list OpenOrder);
  ib_after : gmap string (list OpenOrder);
  ib_raw : list RawExchange
}.

(** [truncate]: cut at a char boundary, with an ellipsis. *)
Fixpoint char_boundary (s : string) (n : nat) : nat :=
  match n with
  | O => O
  | S n' => match byte_at n s with
            | Some c => if is_continuation c then char_boundary s n' else n
            | None => n
            end
  end.
Definition truncate (s : string) (n : nat) : string :=
  if (String.length s <=? n)%nat then s else str_take (char_boundary s n) s +:+ utf8_3 226 128 166.

(** ** Jobs *)

Inductive jcall : Type -> Type :=
| JNow : jcall Z
| JStateOf : jcall TenantState
| JUpdate (f : ReconcileStatus -> ReconcileStatus) : jcall bool
| JList (venue : string) : jcall (result string (list OpenOrder) * list RawExchange)
| JCancel (venue : string) (orders : list OpenOrder) : jcall (list CancelOutcome * list RawExchange)
| JSleep (secs : Z) : jcall ()
| JBundle (bundle : IncidentBundle) : jcall (option string).

Inductive job (A : Type) : Type :=
| JRet (a : A)
| JDo {X : Type} (c : jcall X) (k : X -> job A).
Arguments JRet {A} a.
Arguments JDo {A X} c k.

Fixpoint jbind {A B} (p : job A) (f : A -> job B) : job B :=
  match p with JRet a => f a | JDo c k => JDo c (fun x => jbind (k x) f) end.
Notation "x <- p ;; q" := (jbind p (fun x => q)) (at level 100, p at next level, right associativity).
Definition ask {X} (c : jcall X) : job X := JDo c JRet.

(** The mutable locals of [run]. *)
Record Locals := {
  lo_progress : gmap string VenueReconcile;
  lo_before : gmap string (list OpenOrder);
  lo_after : gmap string (list OpenOrder);
  lo_raw : list RawExchange;
  lo_gated : bool
}.

(** One outcome of a cancel: the venue's progress and the intent-gate flag. *)
Definition note_outcome (acc : VenueReconcile * bool) (out : CancelOutcome) : VenueReconcile * bool :=
  let '(pv, gated) := acc in
  match out with
  | Cancelled | Gone =>
      ({| vr_found := vr_found pv; vr_cancelled := (vr_cancelled pv + 1) mod 2 ^ 32; vr_resting := vr_resting pv;
          vr_error := vr_error pv; vr_unsupported := vr_unsupported pv |}, gated)
  | CancelFailed e =>
      ({| vr_found := vr_found pv; vr_cancelled := vr_cancelled pv; vr_resting := vr_resting pv;
          vr_error := Some (truncate e 300); vr_unsupported := vr_unsupported pv |},
       gated || contains INTENT_GATE_MARK e)
  end.

Section Run.
Context (customer : string) (venues : list string) (supported : string -> bool).

(** [as u32] *)
Definition len_u32 {A} (l : list A) : Z := Z.of_nat (length l) mod 2 ^ 32.

(** The [for v in &supported] loop of one round; [None] is [break 'rounds] after
    a release, otherwise whether every book was empty. *)
Fixpoint each_venue (first : bool) (vs : list string) (all_clean : bool) (lo : Locals) : job (option bool * Locals) :=
  match vs with
  | [] => JRet (Some all_clean, lo)
  | v :: rest =>
      answer <- ask (JList v);;
      let '(listed, raw) := answer in
      let pv := default VenueReconcile_default (lo_progress lo !! v) in
      match listed with
      | Err e =>
          let pv := {| vr_found := vr_found pv; vr_cancelled := vr_cancelled pv; vr_resting := None;
                       vr_error := Some (truncate e 300); vr_unsupported := vr_unsupported pv |} in
          each_venue first rest false
            {| lo_progress := <[v := pv]> (lo_progress lo); lo_before := lo_before lo; lo_after := lo_after lo;
               lo_raw := lo_raw lo ++ raw; lo_gated := lo_gated lo |}
      | Ok orders =>
          let pv := {| vr_found := if first then len_u32 orders else vr_found pv; vr_cancelled := vr_cancelled pv;
                       vr_resting := Some (len_u32 orders); vr_error := None; vr_unsupported := vr_unsupported pv |} in
          let lo := {| lo_progress := <[v := pv]> (lo_progress lo);
                       lo_before := if first then <[v := orders]> (lo_before lo) else lo_before lo;
                       lo_after := <[v := orders]> (lo_after lo); lo_raw := lo_raw lo ++ raw; lo_gated := lo_gated lo |} in
          match orders with
          | [] => each_venue first rest all_clean lo
          | _ =>
              st <- ask JStateOf;;
              if bool_decide (st = Active) then JRet (None, lo)
              else
                answer <- ask (JCancel v orders);;
                let '(outcomes, raw) := answer in
                let '(pv, gated) := foldl note_outcome (pv, lo_gated lo) (zip_with (fun _ out => out) orders outcomes) in
                each_venue first rest false
                  {| lo_progress := <[v := pv]> (lo_progress lo); lo_before := lo_before lo; lo_after := lo_after lo;
                     lo_raw := lo_raw lo ++ raw; lo_gated := gated |}
          end
      end
  end.

Definition supported_venues : list string := filter (fun v => supported v = true) venues.

Definition set_rounds (rounds : Z) (progress : gmap string VenueReconcile) (s : ReconcileStatus) : ReconcileStatus :=
  {| rs_phase := rs_phase s; rs_started := rs_started s; rs_finished := rs_finished s; rs_rounds := rounds;
     rs_venues := progress; rs_incident_path := rs_incident_path s; rs_error := rs_error s |}.

(** ['rounds: while rounds < MAX_ROUNDS]; [left] is what remains of them. *)
Fixpoint rounds_loop (left : nat) (rounds : Z) (lo : Locals) : job (ReconcilePhase * Z * Locals) :=
  match left with
  | O => JRet (Failed, rounds, lo)
  | S left' =>
      let rounds := rounds + 1 in
      st <- ask JStateOf;;
      if bool_decide (st = Active) then JRet (Terminated, rounds, lo)
      else
        swept <- each_venue (rounds =? 1) supported_venues true lo;;
        match swept with
        | (None, lo) => JRet (Terminated, rounds, lo)
        | (Some all_clean, lo) =>
            _ <- ask (JUpdate (set_rounds rounds (lo_progress lo)));;
            if lo_gated lo then JRet (Failed, rounds, lo)
            else if all_clean && (1 <? rounds) then JRet (Done, rounds, lo)
            else if all_clean && (rounds =? 1) &&
                    forallb (fun v => vr_found (default VenueReconcile_default (lo_progress lo !! v)) =? 0) supported_venues
            then JRet (Done, rounds, lo)
            else if (rounds <? Z.of_nat MAX_ROUNDS) then
              _ <- ask (JSleep (ROUND_BACKOFF_BASE * 2 ^ Z.min (rounds - 1) 3));;
              rounds_loop left' rounds lo
            else rounds_loop left' rounds lo
        end
  end.

Definition UNWIND_BY_HAND : string := "venue not unwindable by this version — unwind by hand".
Definition initial_progress : gmap string VenueReconcile :=
  foldl (fun m v =>
    <[v := if supported v then VenueReconcile_default
           else {| vr_found := 0; vr_cancelled := 0; vr_resting := None; vr_error := Some UNWIND_BY_HAND;
                   vr_unsupported := true |}]> m) ∅ venues.

Definition unsupported_venues : list string := filter (fun v => supported v = false) venues.

(** The job-level errors, the operator's instructions. *)
Definition GATED_ERROR : string :=
  "this tenant's policy requires a signed cancel intent (AF-2) and the unwind job holds no agent key — it cannot cancel ANY of these orders, now or on a retry. The stop itself is in force: no NEW signing happens. The resting book must be cleared by hand at the venue. Stopped after the first refusal rather than repeating it per order per round.".
Definition unsupported_error (vs : list string) : string :=
  u64_to_string (Z.of_nat (length vs)) +:+ " venue(s) this version cannot unwind (" +:+ String.concat ", " vs +:+
  "): their books were NOT listed and orders may still be resting — cancel by hand via the venue UI".

Definition set_final (phase : ReconcilePhase) (finished rounds : Z) (progress : gmap string VenueReconcile)
    (incident : option string) (job_error : option string) (s : ReconcileStatus) : ReconcileStatus :=
  {| rs_phase := phase; rs_started := rs_started s; rs_finished := Some finished; rs_rounds := rounds;
     rs_venues := progress; rs_incident_path := incident;
     rs_error := match job_error with Some e => Some e | None => rs_error s end |}.

Definition run : job ReconcilePhase :=
  started <- ask JNow;;
  let progress := initial_progress in
  _ <- ask (JUpdate (fun s => {| rs_phase := Running; rs_started := started; rs_finished := rs_finished s;
         rs_rounds := rs_rounds s; rs_venues := progress; rs_incident_path := rs_incident_path s; rs_error := rs_error s |}));;
  looped <- rounds_loop MAX_ROUNDS 0
              {| lo_progress := progress; lo_before := ∅; lo_after := ∅; lo_raw := []; lo_gated := false |};;
  let '(phase, rounds, lo) := looped in
  let phase := if bool_decide (phase = Done) &&
                  negb (forallb (fun v => bool_decide
                    (vr_resting (default VenueReconcile_default (lo_progress lo !! v)) = Some 0)) supported_venues)
               then Failed else phase in
  let job_error := if lo_gated lo then Some GATED_ERROR else None in
  let stuck := negb (bool_decide (unsupported_venues = [])) && negb (bool_decide (phase = Terminated)) in
  let phase := if stuck then Failed else phase in
  let job_error := if stuck then Some (unsupported_error unsupported_venues) else job_error in
  finished <- ask JNow;;
  st <- ask JStateOf;;
  incident_path <- ask (JBundle {| ib_customer := customer; ib_tenant_state := TenantState_as_str st; ib_started := started;
     ib_finished := finished; ib_phase := phase; ib_rounds := rounds; ib_venues := lo_progress lo;
     ib_before := lo_before lo; ib_after := lo_after lo; ib_raw := lo_raw lo |});;
  _ <- ask (JUpdate (set_final phase finished rounds (lo_progress lo) incident_path job_error));;
  JRet phase.
End Run.

(** ** All answers *)

Definition jevent : Type := {X : Type & (jcall X * X)%type}.
Definition jev {X} (c : jcall X) (x : X) : jevent := existT X (c, x).

(** [Q] holds of the result and the events (latest first), whatever is answered. *)
Fixpoint jall {A} (p : job A) (h : list jevent) (Q : A -> list jevent -> Prop) : Prop :=
  match p with
  | JRet a => Q a h
  | JDo c k => forall x, jall (k x) (jev c x :: h) Q
  end.

Lemma jall_mono {A} (p : job A) (Q R : A -> list jevent -> Prop) : forall h,
  jall p h Q -> (forall a h', Q a h' -> R a h') -> jall p h R.
Proof. induction p as [a|X c k IH]; cbn [jall]; intros h Hp HQR; [by apply HQR|]. intros x. by eapply IH. Qed.

Lemma jall_bind {A B} (p : job A) (f : A -> job B) Q : forall h,
  jall p h (fun a h' => jall (f a) h' Q) -> jall (jbind p f) h Q.
Proof. induction p as [a|X c k IH]; cbn [jall jbind]; intros h Hp; [done|]. intros x. by apply IH. Qed.

(** What an event says. *)
Definition listing (e : jevent) : option (string * result string (list OpenOrder)) :=
  match e with existT _ (c, x) =>
    (match c in jcall X return X -> option (string * result string (list OpenOrder)) with
     | JList v => fun x => Some (v, fst x)
     | _ => fun _ => None
     end) x
  end.
Definition cancelling (e : jevent) : option (string * list OpenOrder) :=
  match e with existT _ (c, _) => match c with JCancel v orders => Some (v, orders) | _ => None end end.
Definition state_seen (e : jevent) : option TenantState :=
  match e with existT _ (c, x) =>
    (match c in jcall X return X -> option TenantState with JStateOf => fun x => Some x | _ => fun _ => None end) x
  end.
Definition sleeping (e : jevent) : Z :=
  match e with existT _ (c, _) => match c with JSleep s => s | _ => 0 end end.

(** The latest listing of a venue. *)
Fixpoint last_listing (v : string) (h : list jevent) : option (result string (list OpenOrder)) :=
  match h with
  | [] => None
  | e :: rest => match listing e with
                 | Some (w, l) => if decide (w = v) then Some l else last_listing v rest
                 | None => last_listing v rest
                 end
  end.

Lemma last_listing_skip v new h :
  (forall e w l, e ∈ new -> listing e = Some (w, l) -> w <> v) -> last_listing v (new ++ h) = last_listing v h.
Proof.
  induction new as [|e new IH]; intros Hno; [done|]. cbn [app last_listing].
  destruct (listing e) as [[w l]|] eqn:E; [rewrite decide_False by (by eapply Hno; [by left|])|].
  all: apply IH; intros e' w' l' Hin; apply Hno; by right.
Qed.

(** What the counters of a job are bounded by. *)
Definition count {A} (f : jevent -> option A) (h : list jevent) : nat :=
  foldr (fun e n => match f e with Some _ => S n | None => n end) O h.
Abbreviation count_lists := (count listing).
Abbreviation count_cancels := (count cancelling).
(** Seconds of the pauses between rounds; those inside a listing or a cancel
    are [GwUnwind]'s and counted in [GwUnwindFacts]. *)
Definition backed_off (h : list jevent) : Z := foldr (fun e n => sleeping e + n) 0 h.
(** The orders named in cancel calls, call by call. *)
Definition orders_named (h : list jevent) : nat :=
  foldr (fun e n => match cancelling e with Some (_, orders) => length orders + n | None => n end)%nat O h.

(** Every cancel follows a fresh look at the state, right after the listing of
    exactly those orders. *)
Definition cancel_justified (e : jevent) (before : list jevent) : Prop :=
  match cancelling e with
  | None => True
  | Some (v, orders) =>
      orders <> [] /\
      match before with
      | e1 :: e2 :: _ => (exists st, state_seen e1 = Some st /\ st <> Active) /\ listing e2 = Some (v, Ok orders)
      | _ => False
      end
  end.
Fixpoint cancels_justified (h : list jevent) : Prop :=
  match h with [] => True | e :: rest => cancel_justified e rest /\ cancels_justified rest end.

(** What one sweep over the venues [vs] adds to the history. *)
Record sweep (vs : list string) (h h' : list jevent) : Prop := {
  sw_new : exists new, h' = new ++ h /\ forall e w l, e ∈ new -> listing e = Some (w, l) -> w ∈ vs;
  sw_lists : (count_lists h' <= count_lists h + length vs)%nat;
  sw_cancels : (count_cancels h' <= count_cancels h + length vs)%nat;
  sw_backoff : backed_off h' = backed_off h;
  sw_justified : cancels_justified h -> cancels_justified h'
}.

Lemma sweep_refl vs h : sweep vs h h.
Proof. constructor; try lia; try done. exists []. split; [done|]. intros e w l He. by apply elem_of_nil in He. Qed.

(** The events of one venue's turn. *)
Record visit (v : string) (evs h : list jevent) : Prop := {
  vi_only e w l : e ∈ evs -> listing e = Some (w, l) -> w = v;
  vi_lists : (count_lists (evs ++ h) <= count_lists h + 1)%nat;
  vi_cancels : (count_cancels (evs ++ h) <= count_cancels h + 1)%nat;
  vi_backoff : backed_off (evs ++ h) = backed_off h;
  vi_justified : cancels_justified h -> cancels_justified (evs ++ h)
}.

Lemma visit_list v x h : visit v [jev (JList v) x] h.
Proof.
  constructor; unfold count, backed_off; cbn; try lia; try done. intros e w l [->|He]%elem_of_cons; [by intros [= <- _]|by apply elem_of_nil in He].
Qed.
Lemma visit_look v x st h : visit v [jev JStateOf st; jev (JList v) x] h.
Proof.
  constructor; unfold count, backed_off; cbn; try lia; try done.
  intros e w l [->|[->|He]%elem_of_cons]%elem_of_cons; [done|by intros [= <- _]|by apply elem_of_nil in He].
Qed.
Lemma visit_cancel v o orders raw st out h :
  st <> Active -> visit v [jev (JCancel v (o :: orders)) out; jev JStateOf st; jev (JList v) (Ok (o :: orders), raw)] h.
Proof.
  intros Hst. constructor; unfold count, backed_off; cbn; try lia.
  - intros e w l [->|[->|[->|He]%elem_of_cons]%elem_of_cons]%elem_of_cons; [done..|by intros [= <- _]|by apply elem_of_nil in He].
  - intros Hj. split; [|done]. split; [done|]. split; [by exists st|done].
Qed.

Lemma sweep_step v vs h evs h' : visit v evs h -> sweep vs (evs ++ h) h' -> sweep (v :: vs) h h'.
Proof.
  intros [Hl Hc1 Hc2 Hs Hj] [(new & -> & Hnew) H1 H2 H3 H4]. constructor; cbn [length]; try lia; auto.
  exists (new ++ evs). rewrite <- app_assoc. split; [done|]. intros e w l [He|He]%elem_of_app Hw; apply elem_of_cons.
  - right. by eapply Hnew.
  - left. by eapply Hl.
Qed.

Definition swept_clean (vs : list string) (ac : bool) (r : option bool) (h : list jevent) : Prop :=
  r = Some true -> ac = true /\ Forall (fun v => last_listing v h = Some (Ok [])) vs.

Lemma each_venue_sweep first vs : forall ac lo h,
  jall (each_venue first vs ac lo) h (fun r h' => swept_clean vs ac (fst r) h' /\ sweep vs h h').
Proof.
  induction vs as [|v vs IH]; intros ac lo h; cbn [each_venue jall].
  { split; [by intros [= ->]|apply sweep_refl]. }
  assert (forall evs ac0 lo0, visit v evs h -> (ac0 = true -> ac = true /\ last_listing v (evs ++ h) = Some (Ok [])) ->
    jall (each_venue first vs ac0 lo0) (evs ++ h) (fun r h' => swept_clean (v :: vs) ac (fst r) h' /\ sweep (v :: vs) h h')) as Hrest.
  { intros evs ac0 lo0 Hvi Hv. eapply jall_mono; [apply IH|]. intros [r lo'] h' [Hok Hsw]; cbn [fst] in *.
    split; [|by eapply sweep_step]. intros Hr. destruct (Hok Hr) as [Hac0 Hall]. destruct (Hv Hac0) as [Hac Hlast].
    split; [done|]. constructor; [|done]. destruct (decide (v ∈ vs)) as [Hin|Hin].
    - by apply (proj1 (Forall_forall _ _) Hall).
    - destruct (sw_new _ _ _ Hsw) as (new & -> & Hnew). rewrite last_listing_skip; [done|]. intros e w l He Hw ->. by eapply Hin, Hnew. }
  cbn [jbind ask jall]. intros [[[|o orders]|e] raw].
  - apply (Hrest [jev (JList v) (Ok [], raw)]); [apply visit_list|]. intros ->. split; [done|]. cbn. by rewrite decide_True.
  - cbn [jall jbind]. intros st. case_bool_decide as Hst; cbn [jall].
    + split; [by intros ?|]. eapply (sweep_step v vs h [_; _]); [apply visit_look|apply sweep_refl].
    + intros [outcomes raw']. destruct (foldl _ _ _) as [pv gated].
      by apply (Hrest [_; _; _]); [apply visit_cancel|].
  - by apply (Hrest [jev (JList v) (Err e, raw)]); [apply visit_list|].
Qed.

(** Seconds a loop may still sleep. *)
Fixpoint sleep_budget (left : nat) (rounds : Z) : Z :=
  match left with
  | O => 0
  | S left' =>
      (if rounds + 1 <? Z.of_nat MAX_ROUNDS then ROUND_BACKOFF_BASE * 2 ^ Z.min rounds 3 else 0) +
      sleep_budget left' (rounds + 1)
  end.

Lemma sleep_budget_pos left : forall rounds, 0 <= rounds -> 0 <= sleep_budget left rounds.
Proof.
  induction left as [|left IH]; intros rounds Hr; cbn [sleep_budget]; [lia|]. specialize (IH (rounds + 1)).
  pose proof (Z.pow_nonneg 2 (Z.min rounds 3)). unfold ROUND_BACKOFF_BASE. destruct (_ <? _); lia.
Qed.

Section RunProofs.
Context (customer : string) (venues : list string) (supported : string -> bool).
Abbreviation sv := (supported_venues venues supported).
Abbreviation n := (length sv).

Definition books_clean (h : list jevent) : Prop := Forall (fun v => last_listing v h = Some (Ok [])) sv.

(** What a stretch of the job with [left] rounds may do. *)
Record stretch (left : nat) (rounds : Z) (h h' : list jevent) : Prop := {
  st_lists : (count_lists h' <= count_lists h + left * n)%nat;
  st_cancels : (count_cancels h' <= count_cancels h + left * n)%nat;
  st_backoff : backed_off h' <= backed_off h + sleep_budget left rounds;
  st_justified : cancels_justified h -> cancels_justified h'
}.

(** A call other than a listing or a cancel. *)
Definition quiet (e : jevent) : Prop := listing e = None /\ cancelling e = None.

Lemma quiet_clean e h : quiet e -> books_clean h -> books_clean (e :: h).
Proof.
  intros [Hl _]. unfold books_clean. rewrite !Forall_forall. intros Hb v Hv. cbn [last_listing]. rewrite Hl. by apply Hb.
Qed.
Lemma quiet_counts e h :
  quiet e -> count_lists (e :: h) = count_lists h /\ count_cancels (e :: h) = count_cancels h /\
  backed_off (e :: h) = sleeping e + backed_off h /\ (cancels_justified h -> cancels_justified (e :: h)).
Proof.
  intros [Hl Hc]. unfold count, backed_off. cbn [foldr cancels_justified]. rewrite Hl, Hc. split_and!; try done.
  intros Hj. split; [|done]. unfold cancel_justified. by rewrite Hc.
Qed.

Lemma stretch_stop left rounds h h' e0 :
  0 <= rounds -> quiet e0 -> sleeping e0 = 0 -> sweep sv (e0 :: h) h' \/ h' = e0 :: h -> stretch (S left) rounds h h'.
Proof.
  intros Hr Hq Hs0 Hsw. destruct (quiet_counts e0 h Hq) as (H1 & H2 & H3 & H4).
  pose proof (sleep_budget_pos (S left) rounds Hr).
  destruct Hsw as [[_ Hl Hc Hs Hj]| ->]; constructor; try lia; auto.
Qed.

Lemma stretch_quiet left rounds h h' e : stretch left rounds h h' -> quiet e -> sleeping e = 0 -> stretch left rounds h (e :: h').
Proof.
  intros [H1 H2 H3 H4] Hq Hs. destruct (quiet_counts e h' Hq) as (A1 & A2 & A3 & A4). constructor; [lia..|auto].
Qed.

Lemma stretch_step left rounds h h1 h2 h' e0 e1 :
  quiet e0 -> sleeping e0 = 0 -> quiet e1 -> sleeping e1 = 0 -> sweep sv (e0 :: h) h1 ->
  (h2 = e1 :: h1 /\ (rounds + 1 <? Z.of_nat MAX_ROUNDS) = false) \/
  (exists e2, h2 = e2 :: e1 :: h1 /\ quiet e2 /\ (rounds + 1 <? Z.of_nat MAX_ROUNDS) = true /\
     sleeping e2 = ROUND_BACKOFF_BASE * 2 ^ Z.min rounds 3) ->
  stretch left (rounds + 1) h2 h' -> stretch (S left) rounds h h'.
Proof.
  intros Hq0 Hs0 Hq1 Hs1 [_ Hl Hc Hs Hj] H2 [K1 K2 K3 K4].
  destruct (quiet_counts e0 h Hq0) as (A1 & A2 & A3 & A4). destruct (quiet_counts e1 h1 Hq1) as (B1 & B2 & B3 & B4).
  destruct H2 as [[-> Hlt]|(e2 & -> & Hq2 & Hlt & Hs2)].
  - constructor; [lia|lia| |intros Hj0; by apply K4, B4, Hj, A4]. cbn [sleep_budget]. rewrite Hlt. lia.
  - destruct (quiet_counts e2 (e1 :: h1) Hq2) as (C1 & C2 & C3 & C4).
    constructor; [lia|lia| |intros Hj0; by apply K4, C4, B4, Hj, A4]. cbn [sleep_budget]. rewrite Hlt. lia.
Qed.

Definition loop_post (left : nat) (rounds : Z) (h : list jevent) (r : ReconcilePhase * Z * Locals) (h' : list jevent) : Prop :=
  let '(phase, rounds', lo') := r in
  (phase = Done -> books_clean h' /\ lo_gated lo' = false) /\ phase ∈ [Done; Failed; Terminated] /\ stretch left rounds h h'.

Lemma rounds_loop_ok left : forall rounds lo h,
  0 <= rounds -> jall (rounds_loop venues supported left rounds lo) h (loop_post left rounds h).
Proof.
  induction left as [|left IH]; intros rounds lo h Hr; cbn [rounds_loop].
  { split_and!; [done|set_solver|]. constructor; cbn; try lia; done. }
  cbn [jbind ask jall]. intros st. case_bool_decide as Hst.
  { cbn [jall loop_post]. split_and!; [done|set_solver|]. eapply (stretch_stop _ _ _ _ (jev JStateOf st)); try done. by right. }
  apply jall_bind. eapply jall_mono; [apply each_venue_sweep|]. intros [[clean|] lo1] h1 [Hclean Hsw]; cbn [fst] in *.
  2:{ cbn [jall loop_post]. split_and!; [done|set_solver|]. eapply (stretch_stop _ _ _ _ (jev JStateOf st)); try done. by left. }
  cbn [jbind ask jall]. intros b. set (e1 := jev (JUpdate _) b).
  assert (stretch (S left) rounds h (e1 :: h1)) as Hstop.
  { apply stretch_quiet; [|done..]. eapply (stretch_stop _ _ _ _ (jev JStateOf st)); try done. by left. }
  assert (clean = true -> books_clean (e1 :: h1)) as Hbooks.
  { intros ->. apply quiet_clean; [done|]. by apply Hclean. }
  destruct (lo_gated lo1) eqn:Eg; [split_and!; [done|set_solver|done]|].
  destruct (clean && (1 <? rounds + 1)) eqn:E1.
  { apply andb_true_iff in E1 as [-> _]. split_and!; [by split; [apply Hbooks|]|set_solver|done]. }
  destruct (clean && _ && _) eqn:E2.
  { apply andb_true_iff in E2 as [[-> _]%andb_true_iff _]. split_and!; [by split; [apply Hbooks|]|set_solver|done]. }
  assert (forall h2, (h2 = e1 :: h1 /\ (rounds + 1 <? Z.of_nat MAX_ROUNDS) = false) \/
    (exists e2, h2 = e2 :: e1 :: h1 /\ quiet e2 /\ (rounds + 1 <? Z.of_nat MAX_ROUNDS) = true /\
       sleeping e2 = ROUND_BACKOFF_BASE * 2 ^ Z.min rounds 3) ->
    jall (rounds_loop venues supported left (rounds + 1) lo1) h2 (loop_post (S left) rounds h)) as Hnext.
  { intros h2 Hh2. eapply jall_mono; [apply IH; lia|]. intros [[phase r'] lo'] h' (Hd & Hp & Hs). split_and!; [done|done|].
    by eapply (stretch_step left rounds h h1 h2 h' (jev JStateOf st) e1). }
  destruct (rounds + 1 <? Z.of_nat MAX_ROUNDS) eqn:Elt; [|apply Hnext; by left].
  cbn [jbind ask jall]. intros u. apply Hnext. right. eexists. split; [reflexivity|]. split; [done|]. split; [done|].
  cbn [sleeping jev]. by replace (rounds + 1 - 1) with rounds by lia.
Qed.

Lemma run_ok :
  jall (run customer venues supported) [] (fun phase h =>
    (phase = Done -> books_clean h /\ unsupported_venues venues supported = []) /\ phase ∈ [Done; Failed; Terminated] /\
    stretch MAX_ROUNDS 0 [] h).
Proof.
  unfold run. cbn [jbind ask jall]. intros started b. apply jall_bind.
  eapply jall_mono; [apply rounds_loop_ok; lia|]. intros [[phase rounds] lo] h (Hd & Hp & Hs).
  assert (stretch MAX_ROUNDS 0 [] h) as Hs0.
  { destruct Hs as [H1 H2 H3 H4]. unfold count, backed_off in *. cbn [foldr listing cancelling sleeping jev] in *. constructor; [done..|].
    intros _. by apply H4. }
  clear Hs. set (phase1 := if bool_decide (phase = Done) && _ then Failed else phase).
  assert ((phase1 = Done -> books_clean h) /\ phase1 ∈ [Done; Failed; Terminated]) as [Hd1 Hp1].
  { subst phase1. destruct (_ && _); [split; [done|set_solver]|]. split; [by intros Hphase; apply Hd|done]. }
  clearbody phase1. cbv zeta. set (stuck := _ && _).
  set (phase2 := if stuck then Failed else phase1).
  assert ((phase2 = Done -> books_clean h /\ unsupported_venues venues supported = []) /\ phase2 ∈ [Done; Failed; Terminated]) as [Hd2 Hp2].
  { subst phase2. destruct stuck eqn:E; [split; [done|set_solver]|]. split; [|done]. intros Hph. split; [by apply Hd1|].
    subst stuck. rewrite Hph in E. apply andb_false_iff in E as [E|E]; [by apply negb_false_iff, bool_decide_eq_true in E|done]. }
  clearbody phase2. cbn [jbind ask jall]. intros finished st path b'. split_and!; [|done|].
  - intros Hph. destruct (Hd2 Hph) as [Hb Hu]. split; [|done]. by repeat (apply quiet_clean; [done|]).
  - by repeat (apply stretch_quiet; [|done..]).
Qed.

(** A job ends as [Done] only when the last listing of every venue of the
    tenant came back readable and empty, and no venue is one the job cannot
    unwind: an unreadable or unsupported book never counts as clean. *)
Lemma done_means_empty :
  jall (run customer venues supported) [] (fun phase h =>
    phase = Done -> Forall (fun v => supported v = true /\ last_listing v h = Some (Ok [])) venues).
Proof.
  eapply jall_mono; [apply run_ok|]. intros phase h (Hd & _ & _) Hph. destruct (Hd Hph) as [Hb Hu].
  apply Forall_forall. intros v Hv. assert (supported v = true) as Hsv.
  { apply not_false_iff_true. intros Hf. assert (v ∈ unsupported_venues venues supported) as Hin by (by apply list_elem_of_filter).
    rewrite Hu in Hin. by apply elem_of_nil in Hin. }
  split; [done|]. apply (proj1 (Forall_forall _ _) Hb). by apply list_elem_of_filter.
Qed.

(** The budget of a whole job, round by round. *)
Lemma run_bounded :
  jall (run customer venues supported) [] (fun phase h =>
    phase ∈ [Done; Failed; Terminated] /\
    (count_lists h <= 5 * length sv)%nat /\ (count_cancels h <= 5 * length sv)%nat /\ backed_off h <= 75 /\
    cancels_justified h).
Proof.
  eapply jall_mono; [apply run_ok|]. intros phase h (_ & Hp & [H1 H2 H3 H4]). split_and!; [done|exact H1|exact H2|exact H3|].
  by apply H4.
Qed.
End RunProofs.

(** ** Spawning and claims *)

Section Spawning.
Context `{TenantSerde}.
(** The tenant tokens in the environment, the staged venue blobs and the venues
    this version unwinds. *)
Context (token_known : string -> bool) (venues_of : string -> list string) (supported : string -> bool).

Definition NO_TOKEN_ERROR : string :=
  "no SIGNER_API_TOKENS entry for this customer in the gateway environment — cannot sign cancels; unwind by hand".

(** The spawned task without a token: the record says why it failed. *)
Definition no_token_job : job ReconcilePhase :=
  now <- ask JNow;;
  _ <- ask (JUpdate (fun s => {| rs_phase := Failed; rs_started := rs_started s; rs_finished := Some now;
         rs_rounds := rs_rounds s; rs_venues := rs_venues s; rs_incident_path := rs_incident_path s;
         rs_error := Some NO_TOKEN_ERROR |}));;
  JRet Failed.

(** The store, the [RUNNING] set and the spawned tasks. *)
Record Sys := {
  y_store : TenantStateStore; y_fs : Fs; y_claims : gset string; y_jobs : list (string * job ReconcilePhase)
}.

Definition kick (customer : string) (y : Sys) : Sys :=
  if negb (bool_decide (customer ∈ reconcile_candidates (y_store y))) then y
  else if bool_decide (customer ∈ y_claims y) then y
  else {| y_store := y_store y; y_fs := y_fs y; y_claims := {[customer]} ∪ y_claims y;
          y_jobs := y_jobs y ++ [(customer, if token_known customer then run customer (venues_of customer) supported
                                            else no_token_job)] |}.

(** [resume_all]: close the jobs of released tenants, restart the others. *)
Definition RELEASED_ERROR : string := "released before the job finished; restart closed it".
Definition close_orphan (io : Io) (now : Z) (p : TenantStateStore * Fs) (cr : string * TenantRecord) : TenantStateStore * Fs :=
  let '(s, fs) := p in
  let '(customer, rec) := cr in
  if bool_decide (tr_state rec = Active) && match tr_reconcile rec with Some r => negb (is_final r) | None => false end then
    let '(_, s', fs') := update_reconcile io s customer now
      (fun st => {| rs_phase := Terminated; rs_started := rs_started st; rs_finished := Some now; rs_rounds := rs_rounds st;
                    rs_venues := rs_venues st; rs_incident_path := rs_incident_path st; rs_error := Some RELEASED_ERROR |}) fs in
    (s', fs')
  else (s, fs).
Definition resume_all (io : Io) (now : Z) (s : TenantStateStore) (fs : Fs) : Sys :=
  let '(s', fs') := foldl (close_orphan io now) (s, fs) (map_to_list (ts_inner s)) in
  foldl (fun y c => kick c y) {| y_store := s'; y_fs := fs'; y_claims := ∅; y_jobs := [] |} (reconcile_candidates s').

(** What a call of a job may answer, and what it does to the store. *)
Definition job_answer (customer : string) (y : Sys) {X} (c : jcall X) (x : X) (s' : TenantStateStore) (fs' : Fs) : Prop :=
  (match c in jcall X return X -> Prop with
   | JStateOf => fun x => x = state_of (y_store y) customer /\ s' = y_store y /\ fs' = y_fs y
   | JUpdate f => fun x => exists io now, update_reconcile io (y_store y) customer now f (y_fs y) = (x, s', fs')
   | _ => fun _ => s' = y_store y /\ fs' = y_fs y
   end) x.

Definition set_store (y : Sys) (s : TenantStateStore) (fs : Fs) : Sys :=
  {| y_store := s; y_fs := fs; y_claims := y_claims y; y_jobs := y_jobs y |}.

(** One atomic step of the gateway: a press of either switch, a call of a job, the
    end of a job (its [ClaimGuard] is dropped), a restart. *)
Inductive sstep : Sys -> Sys -> Prop :=
| s_halt y io customer lvl reason now resp kicked s' fs' :
    post_tenant_halt io (y_store y) customer lvl reason now (y_fs y) = (resp, kicked, s', fs') ->
    sstep y (if (kicked : bool) then kick customer (set_store y s' fs') else set_store y s' fs')
| s_admin y io customer st reason now resp kicked s' fs' :
    admin_set io (y_store y) customer st reason now (y_fs y) = (resp, kicked, s', fs') ->
    sstep y (if (kicked : bool) then kick customer (set_store y s' fs') else set_store y s' fs')
| s_job y i customer X (c : jcall X) k x s' fs' :
    y_jobs y !! i = Some (customer, JDo c k) -> job_answer customer y c x s' fs' ->
    sstep y {| y_store := s'; y_fs := fs'; y_claims := y_claims y; y_jobs := <[i := (customer, k x)]> (y_jobs y) |}
| s_end y i customer phase :
    y_jobs y !! i = Some (customer, JRet phase) ->
    sstep y {| y_store := y_store y; y_fs := y_fs y; y_claims := y_claims y ∖ {[customer]};
               y_jobs := delete i (y_jobs y) |}
| s_restart y path io now s fs :
    tboot path io (y_fs y) = (Some s, fs) -> sstep y (resume_all io now s fs).

Definition sys_boot (s : TenantStateStore) (fs : Fs) : Sys := {| y_store := s; y_fs := fs; y_claims := ∅; y_jobs := [] |}.

(** *** One job per tenant *)

Definition claims_ok (y : Sys) : Prop := NoDup (y_jobs y).*1 /\ y_claims y = list_to_set (y_jobs y).*1.

Lemma kick_claims customer y : claims_ok y -> claims_ok (kick customer y).
Proof.
  intros [Hnd Hc]. unfold kick. destruct (negb _); [done|]. case_bool_decide as Hin; [done|].
  unfold claims_ok. cbn [y_jobs y_claims]. rewrite fmap_app. cbn [fmap list_fmap fst]. split.
  - apply NoDup_app. split; [done|]. split; [|apply NoDup_singleton]. intros c Hc1 Hc2%list_elem_of_singleton. subst c.
    apply Hin. rewrite Hc. by apply elem_of_list_to_set.
  - rewrite list_to_set_app_L, Hc. cbn. set_solver.
Qed.

Lemma kicks_claims cs : forall y, claims_ok y -> claims_ok (foldl (fun y c => kick c y) y cs).
Proof. induction cs as [|c cs IH]; intros y Hy; [done|]. cbn [foldl]. by apply IH, kick_claims. Qed.

Lemma sstep_claims y y' : claims_ok y -> sstep y y' -> claims_ok y'.
Proof.
  intros Hy Hs. destruct Hs as [y io customer lvl reason now resp kicked s' fs' _|y io customer st reason now resp kicked s' fs' _
    |y i customer X c k x s' fs' Hi _|y i customer phase Hi|y path io now s fs _].
  - destruct kicked; [apply kick_claims|]; exact Hy.
  - destruct kicked; [apply kick_claims|]; exact Hy.
  - destruct Hy as [Hnd Hc]. unfold claims_ok. cbn [y_jobs y_claims]. rewrite list_fmap_insert. cbn [fst].
    rewrite list_insert_id; [done|]. rewrite list_lookup_fmap, Hi. done.
  - destruct Hy as [Hnd Hc]. unfold claims_ok. cbn [y_jobs y_claims].
    rewrite list_fmap_delete.
    assert ((y_jobs y).*1 !! i = Some customer) as Hl by (by rewrite list_lookup_fmap, Hi).
    pose proof (delete_Permutation _ _ _ Hl) as Hperm. rewrite Hperm in Hnd. apply NoDup_cons in Hnd as [Hnin Hnd]. split; [done|].
    rewrite Hc, (list_to_set_perm_L _ _ Hperm). cbn [list_to_set foldr]. set_solver.
  - unfold resume_all. destruct (foldl (close_orphan io now) _ _) as [s' fs']. apply kicks_claims. split; [constructor|done].
Qed.

(** However presses, jobs, ends and restarts interleave, no tenant ever
    has two unwind jobs at once, and the claims are exactly the running jobs. *)
Theorem one_job_per_tenant s fs y :
  rtc sstep (sys_boot s fs) y -> NoDup (y_jobs y).*1 /\ y_claims y = list_to_set (y_jobs y).*1.
Proof.
  intros Hr. assert (claims_ok (sys_boot s fs)) as H0 by (split; [constructor|done]). change (claims_ok y). revert H0.
  induction Hr as [y|y1 y2 y3 Hs _ IH]; [done|]. intros Hy. apply IH. by eapply sstep_claims.
Qed.

(** *** A restart forgets no unwind *)

Lemma kick_store customer y : y_store (kick customer y) = y_store y.
Proof. unfold kick. by repeat case_match. Qed.
Lemma kick_mono customer y : y_claims y ⊆ y_claims (kick customer y).
Proof. unfold kick. repeat case_match; cbn [y_claims]; set_solver. Qed.
Lemma kick_claimed customer y :
  customer ∈ reconcile_candidates (y_store y) -> customer ∈ y_claims (kick customer y).
Proof.
  intros Hc. unfold kick. rewrite bool_decide_true by done. cbn [negb]. case_bool_decide; [done|]. cbn [y_claims]. set_solver.
Qed.

Lemma kicks_all cs : forall y,
  y_store (foldl (fun y c => kick c y) y cs) = y_store y /\ y_claims y ⊆ y_claims (foldl (fun y c => kick c y) y cs) /\
  forall c, c ∈ cs -> c ∈ reconcile_candidates (y_store y) -> c ∈ y_claims (foldl (fun y c => kick c y) y cs).
Proof.
  induction cs as [|c cs IH]; intros y; cbn [foldl]; [split_and!; try done; intros c Hc; by apply elem_of_nil in Hc|].
  destruct (IH (kick c y)) as (H1 & H2 & H3). rewrite kick_store in *. split; [done|].
  split; [etrans; [apply kick_mono|exact H2]|]. intros c' [->|Hc]%elem_of_cons Hcand; [|by apply H3].
  apply H2. by apply kick_claimed.
Qed.

(** After a restart every stopped tenant whose unwind was not over has a
    running job again, and no job runs for a tenant that was released. *)
Theorem restart_resumes io now s fs :
  let y := resume_all io now s fs in
  forall c, c ∈ reconcile_candidates (y_store y) <-> c ∈ (y_jobs y).*1.
Proof.
  cbv zeta. unfold resume_all. destruct (foldl (close_orphan io now) _ _) as [s' fs']. intros c.
  set (y0 := {| y_store := s'; y_fs := fs'; y_claims := ∅; y_jobs := [] |}).
  destruct (kicks_all (reconcile_candidates s') y0) as (Hst & _ & Hall).
  assert (claims_ok y0) as H0 by (split; [constructor|done]).
  pose proof (kicks_claims (reconcile_candidates s') y0 H0) as [_ Hcl]. rewrite Hst. cbn [y_store y0] in *. split.
  - intros Hc. specialize (Hall c Hc Hc). rewrite Hcl in Hall. by apply elem_of_list_to_set in Hall.
  - intros Hc. assert (forall cs y, (forall c, c ∈ (y_jobs y).*1 -> c ∈ reconcile_candidates (y_store y)) ->
      c ∈ (y_jobs (foldl (fun y c => kick c y) y cs)).*1 -> c ∈ reconcile_candidates (y_store y)) as Hgen.
    { clear. induction cs as [|x cs IH]; intros y Hy Hin; [by apply Hy|]. cbn [foldl] in Hin. apply IH in Hin; [by rewrite kick_store in Hin|].
      clear - Hy. intros c Hc. rewrite kick_store. unfold kick in Hc. case_bool_decide as Hx; cbn [negb] in Hc; [|by apply Hy].
      case_bool_decide; [by apply Hy|]. cbn [y_jobs] in Hc. rewrite fmap_app in Hc.
      apply elem_of_app in Hc as [Hc|Hc%list_elem_of_singleton]; [by apply Hy|by subst]. }
    apply (Hgen (reconcile_candidates s') y0); [|exact Hc]. intros c' Hc'. by apply elem_of_nil in Hc'.
Qed.

(** *** Scripted runs *)

Inductive cmd :=
| CHalt (customer lvl reason : string) (now : Z)
| CAdmin (customer st reason : string) (now : Z)
| CJob (i : nat) (now : Z)
| CEnd (i : nat).

(** Answers of a venue that cannot be reached. *)
Definition script_answer (customer : string) (now : Z) (y : Sys) {X} (c : jcall X) : X * TenantStateStore * Fs :=
  match c in jcall X return X * TenantStateStore * Fs with
  | JNow => (now, y_store y, y_fs y)
  | JStateOf => (state_of (y_store y) customer, y_store y, y_fs y)
  | JUpdate f => update_reconcile io_fine (y_store y) customer now f (y_fs y)
  | JList _ => ((Err "timeout", []), y_store y, y_fs y)
  | JCancel _ _ => (([], []), y_store y, y_fs y)
  | JSleep _ => (tt, y_store y, y_fs y)
  | JBundle _ => (None, y_store y, y_fs y)
  end.

Definition script_step (c : cmd) (y : Sys) : option Sys :=
  match c with
  | CHalt customer lvl reason now =>
      let '(_, kicked, s', fs') := post_tenant_halt io_fine (y_store y) customer lvl reason now (y_fs y) in
      Some (if (kicked : bool) then kick customer (set_store y s' fs') else set_store y s' fs')
  | CAdmin customer st reason now =>
      let '(_, kicked, s', fs') := admin_set io_fine (y_store y) customer st reason now (y_fs y) in
      Some (if (kicked : bool) then kick customer (set_store y s' fs') else set_store y s' fs')
  | CJob i now =>
      match y_jobs y !! i with
      | Some (customer, JDo c k) =>
          let '(x, s', fs') := script_answer customer now y c in
          Some {| y_store := s'; y_fs := fs'; y_claims := y_claims y; y_jobs := <[i := (customer, k x)]> (y_jobs y) |}
      | _ => None
      end
  | CEnd i =>
      match y_jobs y !! i with
      | Some (customer, JRet _) =>
          Some {| y_store := y_store y; y_fs := y_fs y; y_claims := y_claims y ∖ {[customer]}; y_jobs := delete i (y_jobs y) |}
      | _ => None
      end
  end.

Lemma script_step_sound c y y' : script_step c y = Some y' -> sstep y y'.
Proof.
  destruct c as [customer lvl reason now|customer st reason now|i now|i]; cbn [script_step].
  - destruct (post_tenant_halt _ _ _ _ _ _ _) as [[[resp kicked] s'] fs'] eqn:E. intros [= <-]. by eapply s_halt.
  - destruct (admin_set _ _ _ _ _ _ _) as [[[resp kicked] s'] fs'] eqn:E. intros [= <-]. by eapply s_admin.
  - destruct (y_jobs y !! i) as [[customer [|X c k]]|] eqn:Ei; [done| |done].
    destruct (script_answer customer now y c) as [[x s'] fs'] eqn:Ea. intros [= <-]. eapply s_job; [exact Ei|].
    destruct c; cbn [script_answer] in Ea; cbn [job_answer]; try (by injection Ea as <- <- <-). by eexists _, _.
  - destruct (y_jobs y !! i) as [[customer [phase|X c k]]|] eqn:Ei; [|done..]. intros [= <-]. by eapply s_end.
Qed.

Fixpoint script (cs : list cmd) (y : Sys) : option Sys :=
  match cs with [] => Some y | c :: rest => y' ← script_step c y; script rest y' end.

Lemma script_sound cs : forall y y', script cs y = Some y' -> rtc sstep y y'.
Proof.
  induction cs as [|c cs IH]; intros y y'; cbn [script]; [intros [= <-]; apply rtc_refl|].
  destruct (script_step c y) as [y1|] eqn:E; [|done]. intros Hs. eapply rtc_l; [by eapply script_step_sound|by apply IH].
Qed.
End Spawning.

(** *** A press that falls into the end of a job *)

#[local] Existing Instance demo_tenant_serde.

(** Stop, release while the unwind runs, and stop again after the job has seen
    the release but before it has written its verdict. *)
Definition late_press : list cmd :=
  [CHalt "cust" "cancel_only" "odd fills" 10; CJob 0 11; CJob 0 12; CAdmin "cust" "active" "false alarm" 13;
   CJob 0 14; CJob 0 15; CJob 0 16; CJob 0 17; CHalt "cust" "halted" "really" 18; CJob 0 19; CEnd 0].

(** The second stop is in force, but its unwind is lost: [kick] found the claim
    still held, the finishing job then overwrote the kept status with
    [Terminated], no job is left, and neither a later [kick] nor a restart
    considers the tenant a candidate. *)
Theorem late_press_strands_unwind :
  exists y, rtc (sstep (fun _ => true) (fun _ => ["okx"]) (fun _ => true)) (sys_boot in_memory ∅) y /\
    state_of (y_store y) "cust" = Halted /\ y_jobs y = [] /\ y_claims y = ∅ /\
    reconcile_candidates (y_store y) = [] /\
    (rs_phase <$> (ts_inner (y_store y) !! "cust" ≫= tr_reconcile)) = Some Terminated.
Proof.
  destruct (script (fun _ => true) (fun _ => ["okx"]) (fun _ => true) late_press (sys_boot in_memory ∅)) as [y|] eqn:E.
  - exists y. split; [by eapply script_sound|]. vm_compute in E. injection E as <-. vm_compute. done.
  - vm_compute in E. discriminate E.
Qed.

Lemma one_job_per_tenant_witness :
  exists y, rtc (sstep (fun _ => true) (fun _ => ["okx"]) (fun _ => true)) (sys_boot in_memory ∅) y /\ (y_jobs y).*1 = ["cust"] /\
    NoDup (y_jobs y).*1.
Proof.
  destruct (script (fun _ => true) (fun _ => ["okx"]) (fun _ => true) (take 5 late_press) (sys_boot in_memory ∅)) as [y|] eqn:E.
  - exists y. assert (rtc (sstep (fun _ => true) (fun _ => ["okx"]) (fun _ => true)) (sys_boot in_memory ∅) y) as Hr
      by (by eapply script_sound).
    split; [exact Hr|]. split; [vm_compute in E; injection E as <-; vm_compute; reflexivity|].
    apply (one_job_per_tenant (fun _ => true) (fun _ => ["okx"]) (fun _ => true) in_memory ∅ y Hr).
  - vm_compute in E. discriminate E.
Defined.
