(* ===== verification/GwAuth.v ===== *)
(** * Gateway authentication (gateway/src/auth.rs, blob keys of state.rs)

    Bearer tokens from the environment, kept as SHA-256 digests with the tenant
    they stand for; the branch-free lookup; the middleware that turns a header
    into a tenant; and the key under which a tenant's blobs are stored. *)

From S2P Require Import Prelude RustStr Crates Proto GwProto GwHost.

Open Scope string_scope.
Open Scope list_scope.
Open Scope Z_scope.

Definition DEFAULT_CUSTOMER_ID : string := "00000000-0000-0000-0000-000000000001".

(** [std::env::var], with its two errors told apart. *)
Inductive VarResult := VarOk (v : string) | VarNotPresent | VarNotUnicode (raw : string).
Definition Vars := string -> VarResult.
Definition vars_env (vars : Vars) : Env := fun var => match vars var with VarOk v => Some v | _ => None end.

Inductive AuthConfigError :=
| NoValidEntries
| CustomerLabelHasDelimiter (label : string)
| NotUnicode (raw : string)
| AuthRequired.

(** Digest and tenant label, in the order of the variable. *)
Abbreviation AuthState := (list (string * string)).

Section Auth.
Context `{Crates}.

(** The [for entry in raw.split(',')] loop. *)
Fixpoint parse_entries (entries : list string) : result AuthConfigError AuthState :=
  match entries with
  | [] => Ok []
  | entry :: rest =>
      let trimmed := trim entry in
      if is_empty trimmed then parse_entries rest
      else
        match split_once ":" trimmed with
        | None => parse_entries rest
        | Some (t, c) =>
            let token := trim t in
            let customer := trim c in
            if is_empty token || is_empty customer then parse_entries rest
            else if contains_char ":" customer || contains_char "/" customer
            then Err (CustomerLabelHasDelimiter customer)
            else hashes ← parse_entries rest; Ok ((sha256 token, customer) :: hashes)
        end
  end.

Definition from_env_var (vars : Vars) (var_name : string) : result AuthConfigError AuthState :=
  let no_tokens :=
    if env_flag_enabled (vars_env vars) "SIGNER_ALLOW_NO_AUTH" && negb (env_flag_enabled (vars_env vars) "SIGNER_REQUIRE_AUTH")
    then Ok [] else Err AuthRequired in
  match vars var_name with
  | VarNotUnicode raw => Err (NotUnicode raw)
  | VarNotPresent => no_tokens
  | VarOk raw =>
      if is_empty (trim raw) then no_tokens
      else hashes ← parse_entries (split "," raw);
           if bool_decide (hashes = []) then Err NoValidEntries else Ok hashes
  end.

Definition auth_from_env (vars : Vars) : result AuthConfigError AuthState := from_env_var vars "SIGNER_API_TOKENS".
Definition operator_from_env (vars : Vars) : result AuthConfigError AuthState := from_env_var vars "SIGNER_OPERATOR_TOKENS".

Definition enforcing (auth : AuthState) : bool := negb (bool_decide (auth = [])).

(** ** The branch-free lookup *)

(** [usize] on the 64-bit targets the gateway is built for. *)
Definition usize_max : Z := 2 ^ 64 - 1.
(** [(eq as usize).wrapping_neg()] *)
Definition ct_mask (eq : Z) : Z := (- eq) mod 2 ^ 64.
(** [(matched_idx & !mask) | (i & mask)] *)
Definition ct_update (matched_idx mask i : Z) : Z := Z.lor (Z.land matched_idx (usize_max - mask)) (Z.land i mask).

Fixpoint ct_loop (incoming : string) (i : Z) (hashes : AuthState) (matched_idx : Z) : Z :=
  match hashes with
  | [] => matched_idx
  | (h, _) :: rest =>
      let eq := if decide (h = incoming) then 1 else 0 in
      ct_loop incoming (i + 1) rest (ct_update matched_idx (ct_mask eq) i)
  end.

(** [self.hashes[matched_idx]] panics out of range; [None] then, too. *)
Definition lookup_token (auth : AuthState) (token : string) : option string :=
  let matched_idx := ct_loop (sha256 token) 0 auth usize_max in
  if matched_idx =? usize_max then None else snd <$> auth !! Z.to_nat matched_idx.

Definition shares_token_with (auth other : AuthState) : bool :=
  existsb (fun p => existsb (fun q => bool_decide (fst p = fst q)) other) auth.

(** ** The middleware *)

(** [h[..7].eq_ignore_ascii_case("Bearer ")] on a header that is visible ASCII. *)
Definition bearer_token (header : string) : option string :=
  if (7 <? Z.of_nat (String.length header)) && eq_ignore_ascii_case (str_take 7 header) "Bearer "
  then Some (trim (str_drop 7 header)) else None.

(** [None]: 401; otherwise the tenant and the raw token the handlers see. *)
Definition require_bearer (vars : Vars) (auth : AuthState) (header : option string) : option (string * string) :=
  if negb (enforcing auth) then
    if env_flag_enabled (vars_env vars) "SIGNER_REQUIRE_AUTH" then None else Some (DEFAULT_CUSTOMER_ID, "")
  else
    h ← header; token ← bearer_token h;
    if is_empty token then None
    else customer ← lookup_token auth token; Some (customer, token).

(** The tenant's own token, for jobs that sign as the tenant. *)
Fixpoint find_raw_token (label : string) (entries : list string) : option string :=
  match entries with
  | [] => None
  | entry :: rest =>
      match split_once ":" (trim entry) with
      | None => find_raw_token label rest
      | Some (t, c) =>
          let token := trim t in
          let cust := trim c in
          if is_empty token || is_empty cust then find_raw_token label rest
          else if decide (cust = label) then Some token
          else find_raw_token label rest
      end
  end.
Definition raw_token_for_customer (vars : Vars) (label : string) : option string :=
  raw ← vars_env vars "SIGNER_API_TOKENS"; find_raw_token label (split "," raw).

(** [blob_key] of state.rs *)
Definition blob_key (customer_id stem : string) : string := customer_id +:+ String "/" stem.

(** ** The lookup finds the last configured match *)

Fixpoint last_match (incoming : string) (auth : AuthState) : option string :=
  match auth with
  | [] => None
  | (h, label) :: rest =>
      match last_match incoming rest with
      | Some l => Some l
      | None => if decide (h = incoming) then Some label else None
      end
  end.

Lemma land_ones_64 z : 0 <= z <= usize_max -> Z.land z usize_max = z.
Proof. intros Hz. unfold usize_max in *. replace (2 ^ 64 - 1) with (Z.ones 64) by done. rewrite Z.land_ones by done. apply Z.mod_small. lia. Qed.

Lemma ct_update_spec m i (hit : bool) :
  0 <= m <= usize_max -> 0 <= i <= usize_max ->
  ct_update m (ct_mask (if hit then 1 else 0)) i = if hit then i else m.
Proof.
  intros Hm Hi. unfold ct_update, ct_mask. destruct hit.
  - change (- (1) mod 2 ^ 64) with usize_max. rewrite Z.sub_diag, Z.land_0_r, Z.lor_0_l. by apply land_ones_64.
  - change (- 0 mod 2 ^ 64) with 0. rewrite Z.sub_0_r, Z.land_0_r, Z.lor_0_r. by apply land_ones_64.
Qed.

Lemma ct_loop_spec incoming auth : forall i m,
  0 <= i -> i + Z.of_nat (length auth) <= usize_max -> 0 <= m <= usize_max ->
  match last_match incoming auth with
  | None => ct_loop incoming i auth m = m
  | Some label => exists j, ct_loop incoming i auth m = i + Z.of_nat j /\ snd <$> auth !! j = Some label
  end.
Proof.
  induction auth as [|[h l] auth IH]; intros i m Hi Hlen Hm; [done|]. cbn [last_match ct_loop length] in *.
  replace (if decide (h = incoming) then 1 else 0) with (if bool_decide (h = incoming) then 1 else 0)
    by (case_bool_decide; case_decide; done).
  rewrite ct_update_spec by lia.
  specialize (IH (i + 1) (if bool_decide (h = incoming) then i else m) ltac:(lia) ltac:(lia) ltac:(case_bool_decide; lia)).
  destruct (last_match incoming auth) as [label|].
  - destruct IH as (j & -> & Hj). exists (S j). split; [lia|done].
  - rewrite IH. case_bool_decide; case_decide; try done. exists O. split; [lia|done].
Qed.

Lemma lookup_token_spec auth token :
  Z.of_nat (length auth) < usize_max -> lookup_token auth token = last_match (sha256 token) auth.
Proof.
  intros Hlen. unfold lookup_token. unfold usize_max in *.
  pose proof (ct_loop_spec (sha256 token) auth 0 usize_max ltac:(lia) ltac:(unfold usize_max; lia) ltac:(unfold usize_max; lia)) as Hl.
  fold usize_max. destruct (last_match (sha256 token) auth) as [label|].
  - destruct Hl as (j & -> & Hj). assert (j < length auth)%nat as Hj'.
    { apply fmap_Some in Hj as (p & Hj & _). by apply lookup_lt_Some in Hj. }
    destruct (Z.eqb_spec (0 + Z.of_nat j) usize_max); [unfold usize_max in *; lia|]. rewrite Z.add_0_l, Nat2Z.id. exact Hj.
  - rewrite Hl. by rewrite Z.eqb_refl.
Qed.

(** C38: The branch-free scan returns exactly the label of the last configured
    token with the same digest, and nothing when there is none: the bit masks
    compute a plain search, for any number of tokens below 2^64 - 1. *)
Theorem lookup_is_last_match auth token :
  Z.of_nat (length auth) < usize_max -> lookup_token auth token = last_match (sha256 token) auth.
Proof. apply lookup_token_spec. Qed.

Lemma last_match_Some incoming auth label : last_match incoming auth = Some label -> (incoming, label) ∈ auth.
Proof.
  induction auth as [|[h l] auth IH]; cbn [last_match]; [done|]. destruct (last_match incoming auth) as [l'|].
  - intros [= ->]. right. by apply IH.
  - case_decide as Hh; [|done]. intros [= ->]. subst. by left.
Qed.
Lemma last_match_None incoming auth label : last_match incoming auth = None -> (incoming, label) ∉ auth.
Proof.
  induction auth as [|[h l] auth IH]; cbn [last_match]; [intros _; apply not_elem_of_nil|].
  destruct (last_match incoming auth); [done|]. case_decide; [done|]. intros _. apply not_elem_of_cons. split; [congruence|by apply IH].
Qed.

(** ** What the variable configures *)

Definition configures (entries : list string) (token customer : string) : Prop :=
  exists entry t c, entry ∈ entries /\ split_once ":" (trim entry) = Some (t, c) /\ token = trim t /\ customer = trim c /\
    token <> "" /\ customer <> "".

Lemma is_empty_false s : is_empty s = false <-> s <> "".
Proof. destruct s; by cbn. Qed.

Lemma parse_entries_spec entries : forall auth,
  parse_entries entries = Ok auth ->
  (forall h customer, (h, customer) ∈ auth -> exists token, configures entries token customer /\ h = sha256 token) /\
  (forall token customer, configures entries token customer -> (sha256 token, customer) ∈ auth) /\
  Forall (fun p => contains_char ":" (snd p) = false /\ contains_char "/" (snd p) = false) auth.
Proof.
  assert (forall entry entries token customer, configures entries token customer -> configures (entry :: entries) token customer) as Hmono.
  { intros entry es token customer (e & t & c & Hin & Hrest). exists e, t, c. split; [by right|done]. }
  assert (forall entry entries token customer, configures (entry :: entries) token customer ->
    (exists t c, split_once ":" (trim entry) = Some (t, c) /\ token = trim t /\ customer = trim c /\ token <> "" /\ customer <> "") \/
    configures entries token customer) as Hinv.
  { intros entry es token customer (e & t & c & Hin & Hrest). apply elem_of_cons in Hin as [->|Hin]; [left; by exists t, c|right; by exists e, t, c]. }
  induction entries as [|entry entries IH]; intros auth; cbn [parse_entries].
  { intros [= <-]. split_and!; [intros h c Hin; by apply elem_of_nil in Hin|intros t c (e & ? & ? & He & _); by apply elem_of_nil in He|constructor]. }
  assert (parse_entries entries = Ok auth ->
    (forall t c, split_once ":" (trim entry) = Some (t, c) -> trim t = "" \/ trim c = "") ->
    (forall h customer, (h, customer) ∈ auth -> exists token, configures (entry :: entries) token customer /\ h = sha256 token) /\
    (forall token customer, configures (entry :: entries) token customer -> (sha256 token, customer) ∈ auth) /\
    Forall (fun p => contains_char ":" (snd p) = false /\ contains_char "/" (snd p) = false) auth) as Hskip.
  { intros Hp Hno. destruct (IH auth Hp) as (H1 & H2 & H3). split_and!; [|intros t c [(t0 & c0 & Hs & -> & -> & Ht & Hc)|Hcf]%Hinv|done].
    - intros h c Hin. destruct (H1 h c Hin) as (token & Hcf & ->). exists token. split; [by apply Hmono|done].
    - by destruct (Hno t0 c0 Hs).
    - by apply H2. }
  destruct (is_empty (trim entry)) eqn:E1.
  { intros Hp. apply Hskip; [done|]. destruct (trim entry); [done|discriminate E1]. }
  destruct (split_once ":" (trim entry)) as [[t c]|] eqn:Es; [|intros Hp; by apply Hskip].
  destruct (is_empty (trim t) || is_empty (trim c)) eqn:E2.
  { intros Hp. apply Hskip; [done|]. intros t' c' [= <- <-]. apply orb_true_iff in E2 as [E2|E2]; [left; by destruct (trim t)|right; by destruct (trim c)]. }
  apply orb_false_iff in E2 as [Ht%is_empty_false Hc%is_empty_false].
  destruct (contains_char ":" (trim c) || contains_char "/" (trim c)) eqn:E3; [done|]. apply orb_false_iff in E3 as [E3 E4].
  intros Hp. apply bind_ok_inv in Hp as (hashes & Hh & [= <-]). destruct (IH hashes Hh) as (H1 & H2 & H3). split_and!.
  - intros h c' [[= -> ->]|Hin]%elem_of_cons.
    { exists (trim t). split; [|done]. exists entry, t, c. split; [by left|]. by split_and!. }
    destruct (H1 h c' Hin) as (token & Hcf & ->). exists token. split; [by apply Hmono|done].
  - intros token customer [(t0 & c0 & Hs & -> & -> & _)|Hcf]%Hinv; [|right; by apply H2].
    rewrite Es in Hs. injection Hs as <- <-. by left.
  - by constructor.
Qed.

Lemma from_env_var_entries vars var auth :
  from_env_var vars var = Ok auth ->
  (auth = [] /\ env_flag_enabled (vars_env vars) "SIGNER_REQUIRE_AUTH" = false) \/
  (exists raw, vars var = VarOk raw /\ parse_entries (split "," raw) = Ok auth /\ auth <> []).
Proof.
  unfold from_env_var. assert (forall r, (if env_flag_enabled (vars_env vars) "SIGNER_ALLOW_NO_AUTH" &&
    negb (env_flag_enabled (vars_env vars) "SIGNER_REQUIRE_AUTH") then Ok [] else Err AuthRequired) = r -> r = Ok auth ->
    auth = [] /\ env_flag_enabled (vars_env vars) "SIGNER_REQUIRE_AUTH" = false) as Hno.
  { intros r <-. destruct (_ && _) eqn:E; [|done]. intros [= <-]. apply andb_true_iff in E as [_ E%negb_true_iff]. done. }
  destruct (vars var) as [raw| |raw]; [|intros Hok; left; by eapply Hno|done].
  destruct (is_empty (trim raw)); [intros Hok; left; by eapply Hno|]. intros Hok. right. exists raw.
  apply bind_ok_inv in Hok as (hashes & Hh & Hok). case_bool_decide as He; [done|]. by injection Hok as <-.
Qed.

(** ** Properties *)

(** Under the mainnet profile a request gets past the gateway only with a
    bearer token whose SHA-256 is that of a configured token, it is served as
    the tenant configured for that token, and the enclave is handed the token
    exactly as it was presented (less surrounding white space). *)
Theorem bearer_identifies_tenant vars auth header customer token :
  auth_from_env vars = Ok auth -> Z.of_nat (length auth) < usize_max ->
  env_flag_enabled (vars_env vars) "SIGNER_REQUIRE_AUTH" = true ->
  require_bearer vars auth header = Some (customer, token) ->
  exists raw h configured, vars "SIGNER_API_TOKENS" = VarOk raw /\ header = Some h /\ bearer_token h = Some token /\ token <> "" /\
    configures (split "," raw) configured customer /\ sha256 configured = sha256 token.
Proof.
  intros Ha Hlen Hreq Hr. apply from_env_var_entries in Ha as [[_ Hno]|(raw & Hraw & Hp & Hne)]; [congruence|].
  destruct (parse_entries_spec _ _ Hp) as (H1 & _ & _). unfold require_bearer, enforcing in Hr.
  rewrite bool_decide_false in Hr by done. cbn [negb] in Hr. destruct header as [h|]; [|done].
  cbn [mbind option_bind] in Hr. destruct (bearer_token h) as [tok|] eqn:Et; [|done]. cbn [mbind option_bind] in Hr.
  destruct (is_empty tok) eqn:Ee; [done|]. apply is_empty_false in Ee. destruct (lookup_token auth tok) as [c|] eqn:El; [|done].
  injection Hr as <- <-. rewrite lookup_token_spec in El by done. apply last_match_Some, H1 in El as (configured & Hcf & Heq).
  by exists raw, h, configured.
Qed.

(** With no token in both lists (the boot check of main.rs), no bearer
    token opens both the tenant and the operator tier. *)
Theorem tiers_disjoint tenants operators token :
  shares_token_with tenants operators = false -> Z.of_nat (length tenants) < usize_max -> Z.of_nat (length operators) < usize_max ->
  lookup_token tenants token = None \/ lookup_token operators token = None.
Proof.
  intros Hs Ht Ho. rewrite !lookup_token_spec by done. destruct (last_match (sha256 token) tenants) as [c|] eqn:E1; [right|by left].
  destruct (last_match (sha256 token) operators) as [c'|] eqn:E2; [|done]. apply last_match_Some in E1, E2.
  assert (shares_token_with tenants operators = true) as Hc; [|congruence]. unfold shares_token_with.
  apply existsb_Exists, Exists_exists. eexists. split; [exact E1|]. apply existsb_Exists, Exists_exists. eexists. split; [exact E2|].
  by apply bool_decide_eq_true.
Qed.

(** Two tenants never share a blob: the blob keys of configured tenants
    are equal only for the same tenant and the same stem. *)
Theorem blob_key_isolates vars auth c1 c2 s1 s2 h1 h2 :
  auth_from_env vars = Ok auth -> (h1, c1) ∈ auth -> (h2, c2) ∈ auth -> blob_key c1 s1 = blob_key c2 s2 -> c1 = c2 /\ s1 = s2.
Proof.
  intros Ha H1 H2 Hk. apply from_env_var_entries in Ha as [[-> _]|(raw & _ & Hp & _)]; [by apply elem_of_nil in H1|].
  destruct (parse_entries_spec _ _ Hp) as (_ & _ & Hf). rewrite Forall_forall in Hf.
  destruct (Hf _ H1) as [_ Hs1], (Hf _ H2) as [_ Hs2]. cbn [snd] in *. apply (f_equal (split_once "/")) in Hk.
  unfold blob_key in Hk. rewrite !split_once_app in Hk by done. by injection Hk.
Qed.

Lemma find_raw_token_spec label entries token :
  find_raw_token label entries = Some token -> configures entries token label.
Proof.
  induction entries as [|entry entries IH]; cbn [find_raw_token]; [done|].
  assert (find_raw_token label entries = Some token -> configures (entry :: entries) token label) as Hrest.
  { intros (e & t & c & Hin & Hr)%IH. exists e, t, c. split; [by right|done]. }
  destruct (split_once ":" (trim entry)) as [[t c]|] eqn:Es; [|done]. destruct (_ || _) eqn:E2; [done|].
  apply orb_false_iff in E2 as [Ht%is_empty_false Hc%is_empty_false]. case_decide as Hl; [|done]. intros [= <-]. subst label.
  exists entry, t, c. split; [by left|done].
Qed.

(** The token an unwind job reads back for a tenant is one the boot
    parser configured for that tenant, and unless the same token was also given
    to somebody else, the gateway resolves it to that tenant: the job signs as
    the tenant it unwinds. *)
Theorem raw_token_is_the_tenants vars auth label token :
  auth_from_env vars = Ok auth -> enforcing auth = true -> Z.of_nat (length auth) < usize_max ->
  raw_token_for_customer vars label = Some token ->
  (sha256 token, label) ∈ auth /\
  ((forall other, (sha256 token, other) ∈ auth -> other = label) -> lookup_token auth token = Some label).
Proof.
  intros Ha He Hlen Hr. apply from_env_var_entries in Ha as [[-> _]|(raw & Hraw & Hp & _)]; [done|].
  unfold raw_token_for_customer, vars_env in Hr. rewrite Hraw in Hr. cbn [mbind option_bind] in Hr.
  apply find_raw_token_spec in Hr. destruct (parse_entries_spec _ _ Hp) as (_ & H2 & _). apply H2 in Hr as Hin. split; [done|].
  intros Hu. rewrite lookup_token_spec by done. destruct (last_match (sha256 token) auth) as [l|] eqn:El.
  - f_equal. apply Hu. by apply last_match_Some.
  - by apply (last_match_None _ _ label) in El.
Qed.
End Auth.

(** ** Instances *)

#[local] Existing Instance demo_crates.

Definition demo_vars : Vars := fun var =>
  arm var [("SIGNER_API_TOKENS", VarOk " tok-a : fund-a , tok-b:fund-b,, broken"); ("SIGNER_OPERATOR_TOKENS", VarOk "ops:root");
           ("SIGNER_REQUIRE_AUTH", VarOk "1")] VarNotPresent.
Definition demo_auth : AuthState := [(sha256 "tok-a", "fund-a"); (sha256 "tok-b", "fund-b")].

Lemma demo_auth_from_env : auth_from_env demo_vars = Ok demo_auth.
Proof. vm_compute. reflexivity. Qed.

Lemma lookup_is_last_match_witness : lookup_token demo_auth "tok-b" = Some "fund-b".
Proof. rewrite (lookup_is_last_match demo_auth "tok-b"); [vm_compute; reflexivity|vm_compute; reflexivity]. Defined.

Lemma bearer_identifies_tenant_witness :
  exists raw h configured, demo_vars "SIGNER_API_TOKENS" = VarOk raw /\ Some "bEARER  tok-a " = Some h /\ bearer_token h = Some "tok-a" /\
    "tok-a" <> "" /\ configures (split "," raw) configured "fund-a" /\ sha256 configured = sha256 "tok-a".
Proof.
  apply (bearer_identifies_tenant demo_vars demo_auth (Some "bEARER  tok-a ") "fund-a" "tok-a" demo_auth_from_env);
    vm_compute; reflexivity.
Defined.

Lemma tiers_disjoint_witness : lookup_token demo_auth "ops" = None \/ lookup_token [(sha256 "ops", "root")] "ops" = None.
Proof. apply (tiers_disjoint demo_auth [(sha256 "ops", "root")] "ops"); vm_compute; reflexivity. Defined.

Lemma blob_key_isolates_witness : "fund-a" = "fund-a" /\ "okx" = "okx".
Proof.
  apply (blob_key_isolates demo_vars demo_auth "fund-a" "fund-a" "okx" "okx" (sha256 "tok-a") (sha256 "tok-a") demo_auth_from_env);
    [left|left|reflexivity].
Defined.

Lemma raw_token_is_the_tenants_witness : (sha256 "tok-b", "fund-b") ∈ demo_auth.
Proof.
  apply (raw_token_is_the_tenants demo_vars demo_auth "fund-b" "tok-b" demo_auth_from_env); vm_compute; reflexivity.
Defined.
