(* ===== verification/GwBackoff.v ===== *)
(** * Circuit breaker and sign health (gateway/src/backoff.rs, state.rs)

    Per-key circuits that open when the enclave reports a rate limit and let
    requests through again after a doubling delay; and the record of the
    periodic self-sign probe.  Instants and durations are in nanoseconds. *)

From S2P Require Import Prelude RustStr.

Open Scope string_scope.
Open Scope list_scope.
Open Scope Z_scope.

Definition ms : Z := 1000000.
Definition INITIAL_BACKOFF : Z := 50 * ms.
Definition MAX_BACKOFF : Z := 10000 * ms.
Definition MAX_CIRCUITS : Z := 4096.

Record CircuitState := { backoff : Z; opened_at : Z; half_open : bool }.
Abbreviation Circuits := (gmap string CircuitState).

(** [Instant::elapsed], saturating. *)
Definition elapsed (now since : Z) : Z := Z.max 0 (now - since).

Definition allow (now : Z) (exchange : string) (circuits : Circuits) : bool * Circuits :=
  match circuits !! exchange with
  | None => (true, circuits)
  | Some state =>
      if backoff state <=? elapsed now (opened_at state)
      then (true, <[exchange := {| backoff := backoff state; opened_at := opened_at state; half_open := true |}]> circuits)
      else (false, circuits)
  end.

Definition report_success (exchange : string) (circuits : Circuits) : Circuits := delete exchange circuits.

(** [retain(|_, s| s.opened_at.elapsed() < s.backoff)] *)
Definition prune_expired (now : Z) (circuits : Circuits) : Circuits :=
  filter (fun p => elapsed now (opened_at (snd p)) < backoff (snd p)) circuits.

Definition open_circuit (now : Z) (exchange : string) (circuits : Circuits) : Circuits :=
  let state := default {| backoff := INITIAL_BACKOFF; opened_at := now; half_open := false |} (circuits !! exchange) in
  let b := if half_open state then Z.min (backoff state * 2) MAX_BACKOFF else backoff state in
  <[exchange := {| backoff := b; opened_at := now; half_open := false |}]> circuits.

Definition report_rate_limited (now : Z) (exchange : string) (circuits : Circuits) : Circuits :=
  if (MAX_CIRCUITS <=? Z.of_nat (size circuits)) && bool_decide (circuits !! exchange = None) then
    let circuits := prune_expired now circuits in
    if MAX_CIRCUITS <=? Z.of_nat (size circuits) then circuits else open_circuit now exchange circuits
  else open_circuit now exchange circuits.

(** ** Sequences of operations *)

Inductive bop :=
| BAllow (now : Z) (exchange : string)
| BSuccess (exchange : string)
| BRateLimited (now : Z) (exchange : string).

Definition bstep (op : bop) (c : Circuits) : Circuits :=
  match op with
  | BAllow now e => snd (allow now e c)
  | BSuccess e => report_success e c
  | BRateLimited now e => report_rate_limited now e c
  end.
Definition bexec (ops : list bop) (c : Circuits) : Circuits := foldl (fun c op => bstep op c) c ops.

(** The latest instant the operations mention. *)
Definition bop_time (op : bop) : Z := match op with BAllow now _ | BRateLimited now _ => now | BSuccess _ => 0 end.

(** ** The breaker's invariant *)

Definition circuit_ok (t : Z) (s : CircuitState) : Prop := INITIAL_BACKOFF <= backoff s <= MAX_BACKOFF /\ opened_at s <= t.
Definition breaker_ok (t : Z) (c : Circuits) : Prop :=
  map_Forall (fun _ s => circuit_ok t s) c /\ Z.of_nat (size c) <= MAX_CIRCUITS.

Lemma circuit_ok_mono t t' s : t <= t' -> circuit_ok t s -> circuit_ok t' s.
Proof. intros Ht [Hb Ho]. split; [done|lia]. Qed.

Lemma insert_size_le (e : string) (s : CircuitState) (c : Circuits) : (size (<[e := s]> c) <= S (size c))%nat.
Proof.
  destruct (c !! e) as [s0|] eqn:E; [rewrite map_size_insert_Some by eauto; lia|by rewrite map_size_insert_None].
Qed.

Lemma open_circuit_ok t now e c :
  t <= now -> breaker_ok t c -> Z.of_nat (size c) < MAX_CIRCUITS \/ is_Some (c !! e) -> breaker_ok now (open_circuit now e c).
Proof.
  intros Ht [Hc Hs] Hroom. unfold open_circuit. split.
  - apply map_Forall_insert_2; [|intros e' s' Hs'; eapply circuit_ok_mono; [exact Ht|by eapply Hc]].
    assert (circuit_ok now (default {| backoff := INITIAL_BACKOFF; opened_at := now; half_open := false |} (c !! e))) as [Hb _].
    { destruct (c !! e) as [s|] eqn:E; cbn; [eapply circuit_ok_mono; [exact Ht|by eapply Hc]|]. split; [done|]. cbn. lia. }
    split; [|done]. cbn [backoff opened_at]. unfold INITIAL_BACKOFF, MAX_BACKOFF, ms in *. destruct (half_open _); lia.
  - destruct Hroom as [Hlt|Hin].
    + match goal with |- Z.of_nat (size (<[e := ?s]> c)) <= _ => pose proof (insert_size_le e s c) end. lia.
    + by rewrite map_size_insert_Some.
Qed.

Lemma prune_ok t now c : t <= now -> breaker_ok t c -> breaker_ok now (prune_expired now c).
Proof.
  intros Ht [Hc Hs]. unfold prune_expired. split.
  - intros e s Hes. apply map_lookup_filter_Some in Hes as [Hes _]. eapply circuit_ok_mono; [exact Ht|by eapply Hc].
  - pose proof (map_size_filter (fun p => elapsed now (opened_at (snd p)) < backoff (snd p)) c). lia.
Qed.

(** A clock that does not go backwards, up to [t']. *)
Fixpoint clock_runs (t : Z) (ops : list bop) (t' : Z) : Prop :=
  match ops with
  | [] => t <= t'
  | BSuccess _ :: rest => clock_runs t rest t'
  | BAllow now _ :: rest | BRateLimited now _ :: rest => t <= now /\ clock_runs now rest t'
  end.

Lemma breaker_ok_mono t t' c : t <= t' -> breaker_ok t c -> breaker_ok t' c.
Proof. intros Ht [Hc Hs]. split; [|done]. intros e s Hes. eapply circuit_ok_mono; [exact Ht|by eapply Hc]. Qed.

Lemma allow_ok t now e c : t <= now -> breaker_ok t c -> breaker_ok now (snd (allow now e c)).
Proof.
  intros Ht Hok. apply (breaker_ok_mono t now) in Hok; [|done]. destruct Hok as [Hc Hs]. unfold allow.
  destruct (c !! e) as [s|] eqn:E; [|done]. destruct (_ <=? _); [|done]. cbn [snd]. split.
  - apply map_Forall_insert_2; [|done]. by apply (Hc e s).
  - by rewrite map_size_insert_Some by eauto.
Qed.

Lemma report_ok t now e c : t <= now -> breaker_ok t c -> breaker_ok now (report_rate_limited now e c).
Proof.
  intros Ht Hok. unfold report_rate_limited. destruct (_ && _) eqn:E.
  - destruct (Z.leb_spec MAX_CIRCUITS (Z.of_nat (size (prune_expired now c)))) as [|Hlt]; [by eapply prune_ok|].
    eapply (open_circuit_ok now); [done|by eapply prune_ok|by left].
  - eapply open_circuit_ok; [exact Ht|done|]. apply andb_false_iff in E as [E|E]; [left; by apply Z.leb_gt in E|right].
    apply bool_decide_eq_false in E. by destruct (c !! e).
Qed.

Lemma bexec_ok ops : forall t t' c, clock_runs t ops t' -> breaker_ok t c -> breaker_ok t' (bexec ops c).
Proof.
  induction ops as [|op ops IH]; intros t t' c Hr Hok; [by eapply breaker_ok_mono|].
  destruct op as [now e|e|now e]; cbn [clock_runs] in Hr.
  - destruct Hr as [Ht Hr]. apply (IH now); [done|]. by eapply allow_ok.
  - apply (IH t); [done|]. destruct Hok as [Hc Hs]. split; [by apply map_Forall_delete|].
    unfold bstep, report_success. rewrite map_size_delete. destruct (c !! e); cbn; lia.
  - destruct Hr as [Ht Hr]. apply (IH now); [done|]. by eapply report_ok.
Qed.

(** After any sequence of operations under a forward clock the breaker
    tracks at most 4096 keys, no key is held back for more than ten seconds
    past the last operation, and a key whose rate limit was just recorded is
    held back for at least fifty milliseconds. *)
Theorem breaker_bounded ops t e :
  clock_runs 0 ops t ->
  let c := bexec ops ∅ in
  Z.of_nat (size c) <= MAX_CIRCUITS /\
  (forall now, t + MAX_BACKOFF <= now -> fst (allow now e c) = true) /\
  (forall now, is_Some (c !! e) -> t <= now < t + INITIAL_BACKOFF -> fst (allow now e (report_rate_limited t e c)) = false).
Proof.
  intros Hr c. assert (breaker_ok 0 ∅) as H0 by (split; [apply map_Forall_empty|by rewrite map_size_empty]).
  pose proof (bexec_ok ops 0 t ∅ Hr H0) as [Hc Hs]. fold c in Hc, Hs. split; [done|]. split.
  - intros now Hnow. unfold allow. destruct (c !! e) as [s|] eqn:E; [|done]. destruct (Hc e s E) as [Hb Ho].
    destruct (Z.leb_spec (backoff s) (elapsed now (opened_at s))) as [|Hlt]; [done|]. unfold elapsed in Hlt.
    unfold MAX_BACKOFF, INITIAL_BACKOFF, ms in *. lia.
  - intros now Hin [Hle Hlt]. unfold report_rate_limited. rewrite (bool_decide_false (c !! e = None)) by (by destruct Hin as [s ->]).
    rewrite andb_false_r. unfold open_circuit, allow. rewrite lookup_insert_eq. cbn [backoff opened_at].
    destruct Hin as [s Es]. rewrite Es. cbn [default from_option id]. destruct (Hc e s Es) as [Hb _].
    match goal with |- context [?b <=? elapsed now t] => destruct (Z.leb_spec b (elapsed now t)) as [Hge|] end; [|done].
    exfalso. unfold elapsed in Hge. unfold MAX_BACKOFF, INITIAL_BACKOFF, ms in *. destruct (half_open s); lia.
Qed.

Lemma breaker_bounded_witness :
  fst (allow (300 * ms + MAX_BACKOFF) "cust/okx"
    (bexec [BRateLimited (100 * ms) "cust/okx"; BAllow (200 * ms) "cust/okx"; BRateLimited (300 * ms) "cust/okx"] ∅)) = true.
Proof.
  apply (breaker_bounded [BRateLimited (100 * ms) "cust/okx"; BAllow (200 * ms) "cust/okx"; BRateLimited (300 * ms) "cust/okx"]
    (300 * ms) "cust/okx"); [vm_compute; repeat split; discriminate|lia].
Defined.

(** Probe, fail, and wait out the new delay, [n] times over. *)
Fixpoint failed_probes (n : nat) (e : string) (now : Z) (c : Circuits) : Circuits :=
  match n with
  | O => c
  | S n' => failed_probes n' e (now + MAX_BACKOFF) (report_rate_limited now e (snd (allow now e c)))
  end.

Lemma failed_probe_doubles e now c s :
  c !! e = Some s -> backoff s <= elapsed now (opened_at s) ->
  report_rate_limited now e (snd (allow now e c)) !! e =
    Some {| backoff := Z.min (backoff s * 2) MAX_BACKOFF; opened_at := now; half_open := false |}.
Proof.
  intros Hs He. unfold allow. rewrite Hs. destruct (Z.leb_spec (backoff s) (elapsed now (opened_at s))); [|lia]. cbn [snd].
  unfold report_rate_limited. rewrite (bool_decide_false (_ = None)) by (by rewrite lookup_insert_eq). rewrite andb_false_r.
  unfold open_circuit. rewrite !lookup_insert_eq. done.
Qed.

(** Consecutive failed probes double the delay from 50 ms up to the
    ten-second cap: after [n] of them it is min(50 ms * 2^n, 10 s). *)
Theorem backoff_doubles n e now c s :
  c !! e = Some s -> opened_at s + MAX_BACKOFF <= now -> 0 < backoff s <= MAX_BACKOFF ->
  backoff <$> (failed_probes n e now c !! e) = Some (Z.min (backoff s * 2 ^ Z.of_nat n) MAX_BACKOFF).
Proof.
  revert now c s. induction n as [|n IH]; intros now c s Hs Hnow Hb; cbn [failed_probes].
  - rewrite Hs. cbn. f_equal. lia.
  - pose proof (failed_probe_doubles e now c s Hs) as Hd. rewrite (IH _ _ _ (Hd ltac:(unfold elapsed; lia))); cbn [backoff opened_at];
      [|lia|unfold MAX_BACKOFF, ms in *; lia].
    f_equal. rewrite Nat2Z.inj_succ, Z.pow_succ_r by lia. pose proof (Z.pow_pos_nonneg 2 (Z.of_nat n) ltac:(lia) ltac:(lia)). nia.
Qed.

Lemma backoff_doubles_witness :
  backoff <$> (failed_probes 3 "k" (20000 * ms) {["k" := {| backoff := INITIAL_BACKOFF; opened_at := 0; half_open := false |}]} !! "k") =
  Some (400 * ms).
Proof.
  rewrite (backoff_doubles 3 "k" (20000 * ms) {["k" := {| backoff := INITIAL_BACKOFF; opened_at := 0; half_open := false |}]}
    {| backoff := INITIAL_BACKOFF; opened_at := 0; half_open := false |});
    [reflexivity|reflexivity|vm_compute; discriminate|split; [reflexivity|vm_compute; discriminate]].
Defined.

(** An expired circuit is not exclusive: every request passes until one reports,
    not only a single probe. *)
Lemma half_open_admits_many now e c s :
  c !! e = Some s -> backoff s <= elapsed now (opened_at s) ->
  fst (allow now e c) = true /\ fst (allow now e (snd (allow now e c))) = true.
Proof.
  intros Hs He. unfold allow. rewrite Hs. destruct (Z.leb_spec (backoff s) (elapsed now (opened_at s))); [|lia]. cbn [fst snd].
  rewrite lookup_insert_eq. cbn [backoff opened_at]. destruct (Z.leb_spec (backoff s) (elapsed now (opened_at s))); [done|lia].
Qed.

(** ** Sign health *)

Record SignHealth := {
  sh_enabled : bool; sh_last_ok_epoch : Z; sh_last_attempt_epoch : Z; sh_last_ok : bool; sh_consecutive_failures : Z
}.
Definition sign_health_default : SignHealth :=
  {| sh_enabled := false; sh_last_ok_epoch := 0; sh_last_attempt_epoch := 0; sh_last_ok := false; sh_consecutive_failures := 0 |}.
Definition set_enabled (enabled : bool) (h : SignHealth) : SignHealth :=
  {| sh_enabled := enabled; sh_last_ok_epoch := sh_last_ok_epoch h; sh_last_attempt_epoch := sh_last_attempt_epoch h;
     sh_last_ok := sh_last_ok h; sh_consecutive_failures := sh_consecutive_failures h |}.
Definition record_success (now_epoch : Z) (h : SignHealth) : SignHealth :=
  {| sh_enabled := sh_enabled h; sh_last_ok_epoch := now_epoch; sh_last_attempt_epoch := now_epoch; sh_last_ok := true;
     sh_consecutive_failures := 0 |}.
Definition record_failure (now_epoch : Z) (h : SignHealth) : SignHealth :=
  {| sh_enabled := sh_enabled h; sh_last_ok_epoch := sh_last_ok_epoch h; sh_last_attempt_epoch := now_epoch; sh_last_ok := false;
     sh_consecutive_failures := (sh_consecutive_failures h + 1) mod 2 ^ 32 |}.
Definition age_since_ok (now_epoch : Z) (h : SignHealth) : option Z :=
  if sh_last_ok_epoch h =? 0 then None else Some (Z.max 0 (now_epoch - sh_last_ok_epoch h)).

(** Failures never refresh the age of the last good signature. *)
Lemma failures_age_on ts h now :
  age_since_ok now (foldl (fun h t => record_failure t h) h ts) = age_since_ok now h.
Proof. revert h. induction ts as [|t ts IH]; intros h; [done|]. cbn [foldl]. by rewrite IH. Qed.
