(* ===== verification/GwCalls.v ===== *)
(** * Handlers as programs (gateway)

    A request handler of the gateway is a program whose calls are the accesses
    to what it shares with other requests: the limits, the tenant store, the
    circuit breaker, the credential cache, the channel to the enclave, the
    receipt archive and, for hedges, the venues.  Each call is atomic (one lock,
    one atomic, one message); between two calls other requests may run, so the
    answers are arbitrary and [gall] speaks about all of them.  [gjoin] is
    [tokio::join!]: the scheduler picks which branch advances.  [tokio::spawn]
    is a call too: the program that is spawned runs on its own ([GwWorld]). *)

From S2P Require Import Prelude RustStr Crates Proto GwProto GwHost GwLimits GwTenant GwWire.

Open Scope string_scope.
Open Scope list_scope.
Open Scope Z_scope.

(** A venue call of a hedge leg, and how it ends. *)
Record VenueCall := { vc_venue : string; vc_url : string; vc_headers : Headers; vc_body : string }.
Inductive VenueAnswer :=
(** the status, then the body's chunks; [Err] is a read error *)
| VenueResponse (http_status : Z) (chunks : list (result string string))
| VenueTransportError (is_connect : bool) (error : string).

(** What an execution comes back with: the status and each leg's fate. *)
Abbreviation ExecutionResult := (string * HedgeLegResult * HedgeLegResult)%type.

Inductive gcall : Type -> Type :=
| NowSecs : gcall Z
| NowMs : gcall Z
| BlanketRate (token : string) (now_secs : Z) : gcall LimitDecision
| OrdersRate (token : string) (now_secs : Z) : gcall LimitDecision
| CancelsRate (token : string) (now_secs : Z) : gcall LimitDecision
(** [spawn_blocking]: [None] is a [JoinError] *)
| CountOrder (token : string) (now_secs : Z) : gcall (option LimitDecision)
| CountSpend (scope : string) (value : N) (now_secs : Z) : gcall (option LimitDecision)
| StateOf (customer : string) : gcall TenantState
| GetCreds : gcall (option AwsCredentials)
| BackoffAllow (scope : string) : gcall bool
| BackoffSuccess (scope : string) : gcall ()
| BackoffLimited (scope : string) : gcall ()
| RoundTrip (req : VsockRequest) : gcall (option VsockResponse)
| Archive (customer : string) (receipt : json) : gcall ()
| SignHealthView : gcall (bool * bool * option Z)
(** a venue request goes out; its answer comes in *)
| SendVenue (call : VenueCall) : gcall ()
| VenueReply (call : VenueCall) : gcall VenueAnswer
| Schedule : gcall bool
(** [tokio::spawn] of the execution of two signed legs: the task's handle *)
| SpawnExecution (leg_a leg_b : VenueCall) : gcall nat
(** awaiting the handle: [None] is a [JoinError] *)
| JoinExecution (handle : nat) : gcall (option ExecutionResult).

Inductive gprog (A : Type) : Type :=
| GRet (a : A)
| GDo {X : Type} (c : gcall X) (k : X -> gprog A).
Arguments GRet {A} a.
Arguments GDo {A X} c k.

Fixpoint gbind {A B} (p : gprog A) (f : A -> gprog B) : gprog B :=
  match p with GRet a => f a | GDo c k => GDo c (fun x => gbind (k x) f) end.
Notation "x <<- p ;; q" := (gbind p (fun x => q)) (at level 100, p at next level, right associativity).
Definition gask {X} (c : gcall X) : gprog X := GDo c GRet.

(** [tokio::join!(p, q)] *)
Fixpoint gjoin {A B} (p : gprog A) : gprog B -> gprog (A * B) :=
  fix go (q : gprog B) : gprog (A * B) :=
    match p, q with
    | GRet a, GRet b => GRet (a, b)
    | GRet _, GDo c k => GDo c (fun x => go (k x))
    | GDo c k, GRet _ => GDo c (fun x => gjoin (k x) q)
    | GDo c k, GDo c' k' =>
        GDo Schedule (fun left => if left : bool then GDo c (fun x => gjoin (k x) q) else GDo c' (fun x => go (k' x)))
    end.

(** ** What a program does *)

Definition gevent : Type := {X : Type & (gcall X * X)%type}.
Definition gev {X} (c : gcall X) (x : X) : gevent := existT X (c, x).

(** Starting an execution, or waiting for one. *)
Definition task_call {X} (c : gcall X) : bool := match c with SpawnExecution _ _ | JoinExecution _ => true | _ => false end.
Definition spawn_event (e : gevent) : option (VenueCall * VenueCall * nat) :=
  match e with
  | existT _ (c, x) =>
      match c in gcall X return X -> option (VenueCall * VenueCall * nat) with
      | SpawnExecution leg_a leg_b => fun handle => Some (leg_a, leg_b, handle)
      | _ => fun _ => None
      end x
  end.
(** The executions a program started, latest first. *)
Definition spawned (tr : list gevent) : list (VenueCall * VenueCall * nat) := omap spawn_event tr.

(** The venue requests that went out, latest first. *)
Definition sent (tr : list gevent) : list VenueCall :=
  omap (fun e : gevent => match e with existT _ (SendVenue call, _) => Some call | _ => None end) tr.

Lemma spawned_cons {X} (c : gcall X) x tr : task_call c = false -> spawned (gev c x :: tr) = spawned tr.
Proof. by destruct c. Qed.
Lemma spawned_seen ca cb h tr : gev (SpawnExecution ca cb) h ∈ tr <-> (ca, cb, h) ∈ spawned tr.
Proof.
  split; [intros Hin; apply list_elem_of_omap; by eexists|]. intros ([X [c x]] & Hin & He)%list_elem_of_omap.
  destruct c; try discriminate He. injection He as -> -> ->. done.
Qed.

(** However its calls are answered, [p] ends after at most [n] of them. *)
Fixpoint ends_within {A} (p : gprog A) (n : nat) : Prop :=
  match p with
  | GRet _ => True
  | GDo c k => match n with O => False | S n => forall x, ends_within (k x) n end
  end.

(** Every run of [p] after the calls [tr] (newest first) makes only calls that
    [Pre] allows at that point, and ends in [Q]. *)
Section All.
Context (Pre : list gevent -> forall X, gcall X -> Prop).

Fixpoint gall {A} (p : gprog A) (tr : list gevent) (Q : list gevent -> A -> Prop) : Prop :=
  match p with
  | GRet a => Q tr a
  | GDo c k => Pre tr _ c /\ forall x, gall (k x) (gev c x :: tr) Q
  end.

Lemma gall_mono {A} (p : gprog A) tr (Q R : list gevent -> A -> Prop) :
  gall p tr Q -> (forall tr a, Q tr a -> R tr a) -> gall p tr R.
Proof. revert tr. induction p as [a|X c k IH]; cbn; intros tr Hp HQ; [auto|]. destruct Hp as [Hc Hk]. eauto. Qed.

Lemma gall_bind {A B} (p : gprog A) (f : A -> gprog B) tr Q :
  gall p tr (fun tr' a => gall (f a) tr' Q) -> gall (gbind p f) tr Q.
Proof. revert tr. induction p as [a|X c k IH]; cbn; intros tr Hp; [done|]. destruct Hp as [Hc Hk]. eauto. Qed.

Lemma gall_ask {X} (c : gcall X) tr Q : Pre tr X c -> (forall x, Q (gev c x :: tr) x) -> gall (gask c) tr Q.
Proof. intros Hc HQ. cbn. auto. Qed.
End All.

(** [p] is what is left of [p0] after the calls [tr]. *)
Inductive gfollows {A} (p0 : gprog A) : list gevent -> gprog A -> Prop :=
| gfollows_nil : gfollows p0 [] p0
| gfollows_cons tr X (c : gcall X) k x : gfollows p0 tr (GDo c k) -> gfollows p0 (gev c x :: tr) (k x).

(** The calls already made satisfy [Pre] where they were made. *)
Fixpoint lawful (Pre : list gevent -> forall X, gcall X -> Prop) (tr : list gevent) : Prop :=
  match tr with
  | [] => True
  | existT X (c, _) :: tr' => Pre tr' X c /\ lawful Pre tr'
  end.

Lemma gall_follows Pre {A} (p0 p : gprog A) tr Q :
  gall Pre p0 [] Q -> gfollows p0 tr p -> gall Pre p tr Q /\ lawful Pre tr.
Proof.
  intros Hp Hf. induction Hf as [|tr X c k x Hf [[Hc Hk] Hl]]; [by split|]. split; [apply Hk|]. by split.
Qed.

Lemma lawful_mono (P R : list gevent -> forall X, gcall X -> Prop) tr :
  (forall tr X (c : gcall X), P tr X c -> R tr X c) -> lawful P tr -> lawful R tr.
Proof. intros HPR. induction tr as [|[X [c x]] tr IH]; cbn; [done|]. intros [Hc Hl]. auto. Qed.

Lemma gall_pre_mono (P R : list gevent -> forall X, gcall X -> Prop) {A} (p : gprog A) tr Q :
  (forall tr X (c : gcall X), P tr X c -> R tr X c) -> gall P p tr Q -> gall R p tr Q.
Proof. intros HPR. revert tr. induction p as [a|X c k IH]; cbn; intros tr Hp; [done|]. destruct Hp. eauto. Qed.

Lemma gall_lawful Pre {A} (p : gprog A) tr Q :
  gall Pre p tr Q -> lawful Pre tr -> gall Pre p tr (fun t a => Q t a /\ lawful Pre t).
Proof. revert tr. induction p as [a|X c k IH]; cbn; intros tr Hp Hl; [done|]. destruct Hp as [Hc Hk]. split; [done|]. intros x. by apply IH. Qed.

(** ** Interleaved branches *)

(** [Pre] and [Q] only get easier as more happens. *)
Definition stable {A : Type} (Q : list gevent -> A -> Prop) : Prop :=
  forall (tr tr' : list gevent) a, tr ⊆ tr' -> Q tr a -> Q tr' a.
Definition stable_pre (Pre : list gevent -> forall X, gcall X -> Prop) : Prop :=
  forall (tr tr' : list gevent) X (c : gcall X), tr ⊆ tr' -> Pre tr X c -> Pre tr' X c.

Lemma sub_cons (tr : list gevent) e : tr ⊆ e :: tr.
Proof. by apply list_subseteq_cons. Qed.

Section Join.
Context (Pre : list gevent -> forall X, gcall X -> Prop) (HPre : stable_pre Pre).

Lemma gall_weaken {A} (p : gprog A) Q : stable Q -> forall tr tr', tr ⊆ tr' -> gall Pre p tr Q -> gall Pre p tr' Q.
Proof using HPre.
  intros HQ. induction p as [a|X c k IH]; cbn; intros tr tr' Hs Hp; [by eapply HQ|].
  destruct Hp as [Hc Hk]. split; [by eapply HPre|]. intros x. eapply IH; [|apply Hk]. by apply list_subseteq_skip.
Qed.

Lemma gall_join {A B} (p : gprog A) (q : gprog B) QA QB : stable QA -> stable QB -> (forall tr, Pre tr _ Schedule) ->
  forall tr, gall Pre p tr QA -> gall Pre q tr QB -> gall Pre (gjoin p q) tr (fun tr' r => QA tr' (fst r) /\ QB tr' (snd r)).
Proof using HPre.
  intros HA HB HS. revert q. induction p as [a|X c k IH]; intros q; induction q as [b|Y d l IHq]; intros tr Hp Hq;
    cbn [gjoin gall].
  - done.
  - destruct Hq as [Hd Hl]. split; [done|]. intros y. apply IHq; [|apply Hl].
    by eapply (gall_weaken (GRet a)); [|apply sub_cons|].
  - destruct Hp as [Hc Hk]. split; [done|]. intros x. apply IH; [apply Hk|].
    by eapply (gall_weaken (GRet b)); [|apply sub_cons|].
  - split; [apply HS|]. intros left.
    apply (gall_weaken _ QA HA _ _ (sub_cons tr (gev Schedule left))) in Hp.
    apply (gall_weaken _ QB HB _ _ (sub_cons tr (gev Schedule left))) in Hq.
    destruct left; cbn [gall]; split; [apply Hp| |apply Hq|]; intros x.
    + apply IH; [apply Hp|]. by eapply gall_weaken; [|apply sub_cons|].
    + apply IHq; [|apply Hq]. by eapply gall_weaken; [|apply sub_cons|].
Qed.
End Join.
