(* ===== verification/GwHandlers.v ===== *)
(** * Request handlers of the gateway (gateway/src/handlers.rs)

    Every route handler as a program over the shared state ([GwCalls]): its
    guards and early returns in the order of the code, the message it sends to
    the enclave, and the HTTP response it makes of the answer.  [finish_log]
    returns its response unchanged and is left out, as are logging and
    zeroization. *)

From S2P Require Import Prelude RustStr Crates Proto GwProto GwHost GwLimits GwTenant GwAuth GwWire GwCalls.

Open Scope string_scope.
Open Scope list_scope.
Open Scope Z_scope.

Definition DATA_SIGNING_CUSTOMER : string := "attested-data".
Definition DATA_SIGNING_STEM : string := "data-signing".

(** The part of [AppState] fixed at boot, and the process environment. *)
Record AppConfig := {
  blobs : gmap string string;
  limits : LimitsConfig;
  data_signing_token : option string;
  app_env : Env
}.

(** ** Validators *)

Definition is_safe_query_value (v : string) : bool :=
  negb (is_empty v) && bytes_all (fun b => is_ascii_alphanumeric b || bool_decide (b = "_"%char) || bool_decide (b = "-"%char)) v.

Definition is_safe_key_id (v : string) : bool :=
  negb (is_empty v) && (Z.of_nat (String.length v) <=? 64) &&
  bytes_all (fun b => is_ascii_alphanumeric b || bool_decide (b = "_"%char) || bool_decide (b = "-"%char) || bool_decide (b = "."%char)) v.

Definition heartbeat_nonce_ok (nonce : string) : bool :=
  if is_empty nonce || (128 <? Z.of_nat (String.length nonce)) then false
  else bytes_all (fun b => is_ascii_alphanumeric b || bool_decide (b = "-"%char) || bool_decide (b = "_"%char)) nonce.

(** [Err(())] is [None] *)
Definition validated_filter (value : option string) (key : string) : option string :=
  match value with
  | Some v => if is_empty v then Some "" else if is_safe_query_value v then Some (key +:+ "=" +:+ v) else None
  | None => Some ""
  end.

Definition classify_binance_op (op : string) : RouteClass :=
  if str_in op ["order"] then ROrder
  else if str_in op ["cancel"; "allOpenOrders"] then RCancel
  else if str_in op ["account"; "positionRisk"; "openOrders"; "orderStatus"; "userTrades"; "income"] then RRead
  else RUnknown.

Definition normalize_order_case (o : OrderParams) : OrderParams :=
  {| oq_symbol := oq_symbol o; oq_side := to_ascii_lowercase (oq_side o); oq_qty := oq_qty o;
     oq_ord_type := to_ascii_lowercase (oq_ord_type o); oq_price := oq_price o; oq_reduce_only := oq_reduce_only o;
     oq_client_order_id := oq_client_order_id o |}.

(** ** Signed query strings *)

(** [headers.remove(name)] on the three fields Binance puts in the query. *)
Definition drop_signed (headers : Headers) : Headers := delete "recvWindow" (delete "timestamp" (delete "signature" headers)).
Definition recv_window (headers : Headers) : string := default "5000" (headers !! "recvWindow").

Definition signed_tail (timestamp recv_window signature : string) : string :=
  "timestamp=" +:+ timestamp +:+ "&recvWindow=" +:+ recv_window +:+ "&signature=" +:+ signature.

Definition blank_byte (b : ascii) : bool :=
  (byte_val b =? 32) || (byte_val b =? 10) || (byte_val b =? 13) || (byte_val b =? 0).

(** The string and the headers left, or why not. *)
Definition build_binance_signed_qs (canonical : string) (headers : Headers) : result string (string * Headers) :=
  match headers !! "signature", headers !! "timestamp" with
  | None, _ => Err "missing signature"
  | Some _, None => Err "missing timestamp"
  | Some signature, Some timestamp =>
      let rw := recv_window headers in
      if negb (forallb is_safe_query_value [signature; timestamp; rw])
      then Err "unsafe character in signed querystring component"
      else if is_empty canonical || bytes_any blank_byte canonical
      then Err "unsafe character in canonical querystring"
      else Ok (canonical +:+ "&" +:+ signed_tail timestamp rw signature, drop_signed headers)
  end.

Section Urls.
Context (env : Env).

Definition env_is (var : string) (names : list string) : bool :=
  match env var with Some v => str_in (to_ascii_lowercase (trim v)) names | None => false end.

Definition binance_base_url : string :=
  if env_is "SIGNER_BINANCE_ENV" ["mainnet"; "live"; "prod"] then "https://fapi.binance.com"
  else "https://testnet.binancefuture.com".
Definition binance_spot_base_url : string :=
  if env_is "SIGNER_BINANCE_ENV" ["mainnet"; "live"; "prod"] then "https://api.binance.com"
  else "https://testnet.binance.vision".
Definition okx_base_url : string := "https://www.okx.com".
Definition okx_is_demo : bool := negb (env_is "SIGNER_OKX_ENV" ["live"; "mainnet"; "prod"]).

Definition demo_header (headers : Headers) : Headers :=
  if okx_is_demo then <["x-simulated-trading" := "1"]> headers else headers.

Definition binance_signed_url (path user_query : string) (headers : Headers) : option (string * Headers) :=
  signature ← headers !! "signature";
  timestamp ← headers !! "timestamp";
  let rw := recv_window headers in
  if negb (forallb is_safe_query_value [signature; timestamp; rw]) then None
  else
    let prefix := if is_empty user_query then "" else user_query +:+ "&" in
    Some (binance_base_url +:+ path +:+ "?" +:+ prefix +:+ signed_tail timestamp rw signature, drop_signed headers).
End Urls.

Definition BINANCE_SPOT_ORDER_PATH : string := "/api/v3/order".

(** ** Attestation configuration and the document's PCR0 *)

Definition validate_pcr0 (raw : string) : result string string :=
  let s := trim raw in
  if (Z.of_nat (String.length s) =? 96) && bytes_all is_ascii_hexdigit s then Ok (to_ascii_lowercase s)
  else Err "SIGNER_PCR0 must be 96 hex chars (SHA-384)".

Definition validate_opt_hex (raw : option string) (nbytes : Z) (err : string) : result string (option string) :=
  match raw with
  | None => Ok None
  | Some s =>
      let s := trim s in
      if is_empty s then Ok None
      else
        let hex := default s (strip_prefix "0x" s) in
        if (Z.of_nat (String.length hex) =? nbytes * 2) && bytes_all is_ascii_hexdigit hex
        then Ok (Some ("0x" +:+ to_ascii_lowercase hex)) else Err err
  end.

Record AttestationConfig := { at_pcr0 : string; at_pubkey_compressed : option string; at_pubkey_address : option string }.

Definition attestation_config (env : Env) : result string AttestationConfig :=
  pcr0 ← validate_pcr0 (default "" (env "SIGNER_PCR0"));
  compressed ← validate_opt_hex (env "SIGNER_DATA_PUBKEY") 33 "SIGNER_DATA_PUBKEY must be 0x + 66 hex (compressed secp256k1)";
  address ← validate_opt_hex (env "SIGNER_DATA_ADDRESS") 20 "SIGNER_DATA_ADDRESS must be 0x + 40 hex (eth address)";
  Ok {| at_pcr0 := pcr0; at_pubkey_compressed := compressed; at_pubkey_address := address |}.

(** [ciborium]'s values, as far as the gateway looks at them. *)
Inductive cbor :=
| CBytes (b : string)
| CText (s : string)
| CInt (n : Z)
| CArr (l : list cbor)
| CMap (l : list (cbor * cbor))
| COther.
Class Cbor := cbor_of_slice : string -> option cbor.

Definition cbor_bytes (v : cbor) : option string := match v with CBytes b => Some b | _ => None end.
Fixpoint find_entry (p : cbor -> bool) (l : list (cbor * cbor)) : option cbor :=
  match l with [] => None | (k, v) :: rest => if p k then Some v else find_entry p rest end.

Definition cbor_array (v : cbor) : option (list cbor) := match v with CArr l => Some l | _ => None end.
Definition cbor_map (v : cbor) : option (list (cbor * cbor)) := match v with CMap l => Some l | _ => None end.

Definition extract_pcr0_from_cose `{Crates, Cbor} (doc : string) : result string string :=
  outer ← ok_or (cbor_of_slice doc) "cose: not CBOR";
  arr ← ok_or (cbor_array outer) "cose: not a Sign1 array";
  payload ← ok_or (arr !! 2%nat ≫= cbor_bytes) "cose: no payload";
  doc_val ← ok_or (cbor_of_slice payload) "doc: payload not CBOR";
  map ← ok_or (cbor_map doc_val) "doc: not a map";
  pcrs ← ok_or (find_entry (fun k => match k with CText s => bool_decide (s = "pcrs") | _ => false end) map) "doc: no pcrs";
  pcrs_map ← ok_or (cbor_map pcrs) "pcrs: not a map";
  pcr0 ← ok_or (find_entry (fun k => match k with CInt i => i =? 0 | _ => false end) pcrs_map) "pcrs: no index 0";
  bytes ← ok_or (cbor_bytes pcr0) "pcr0: not bytes";
  if negb (Z.of_nat (String.length bytes) =? 48) then Err "pcr0: not 48 bytes" else Ok (hex_encode bytes).

(** ** Handlers *)

Section Handlers.
Context `{Crates, Cbor} (app : AppConfig).

Definition reply (code : string) : gprog Response := GRet (error_response code).

(** [if let Some((resp, code)) = gate(..) { return finish_log(resp, ..) }] *)
Definition gated (gate : gprog (option Response)) (k : gprog Response) : gprog Response :=
  r <<- gate;; match r with Some resp => GRet resp | None => k end.

Definition limit_response (d : LimitDecision) : option Response :=
  (fun r => {| h_status := dr_status r; h_body := ErrorBody (dr_body r); h_retry_after := dr_retry_after r;
               h_no_store := false |}) <$> deny_response d.

Definition order_gate (raw_token : string) : gprog (option Response) :=
  now <<- gask NowSecs;;
  rate <<- gask (OrdersRate raw_token now);;
  match limit_response rate with
  | Some resp => GRet (Some resp)
  | None =>
      if negb (bool_decide (is_Some (daily_cap (limits app)))) then GRet None
      else
        now <<- gask NowSecs;;
        decision <<- gask (CountOrder raw_token now);;
        GRet (limit_response (default CounterUnavailable decision))
  end.

Definition cancel_gate (raw_token : string) : gprog (option Response) :=
  now <<- gask NowSecs;;
  decision <<- gask (CancelsRate raw_token now);;
  GRet (limit_response decision).

Definition x402_spend_gate (scope : string) (value : N) : gprog (option Response) :=
  if negb (bool_decide (is_Some (x402_period_cap (limits app)))) then GRet None
  else
    now <<- gask NowSecs;;
    decision <<- gask (CountSpend scope value now);;
    GRet (limit_response (default CounterUnavailable decision)).

(** [tenant_state::body_route_gate], whose refusal is [tenant_state::deny]. *)
Definition body_gate (customer : string) (class : RouteClass) : gprog (option Response) :=
  tstate <<- gask (StateOf customer);;
  GRet (match tenant_decide tstate class with Ok _ => None | Err code => Some (error_response code) end).

Definition take_receipt (resp : VsockResponse) (customer : string) : gprog (option json) :=
  match vs_receipt resp with
  | Some r => _ <<- gask (Archive customer r);; GRet (Some r)
  | None => GRet None
  end.

(** The enclave answered with an error code. *)
Definition enclave_refusal (scope code : string) (receipt : option json) : gprog Response :=
  let mapped := safe_wire_code code in
  if decide (mapped = gw_code.RATE_LIMITED)
  then _ <<- gask (BackoffLimited scope);; GRet (enclave_error_response mapped receipt)
  else GRet (enclave_error_response mapped receipt).

Definition sign_class (action : string) : RouteClass :=
  if ends_with "_order" action then ROrder else if ends_with "_cancel" action then RCancel else RUnknown.

(** The path and query forwarded for an exchange. *)
Definition route_query (exchange path : string) (query : option string) : string * option string :=
  if str_in exchange ["binance"; "binance_futures"; "bybit"; "okx"] then
    let '(path_only, q_from_path) :=
      match find "?" path with Some i => (str_take i path, str_drop (S i) path) | None => (path, "") end in
    let merged :=
      match query with
      | Some q => if is_empty q then q_from_path else if is_empty q_from_path then q else q_from_path +:+ "&" +:+ q
      | None => q_from_path
      end in
    (path_only, Some merged)
  else (path, None).

Definition secrets_key (stem : string) : string := "secrets/" +:+ stem +:+ ".enc".

Definition sign_request (req : SignHttpRequest) (action raw_token blob : string) (ts : Z) (creds : AwsCredentials) : VsockRequest :=
  let '(path, query) := route_query (sq_exchange req) (sq_path req) (sq_query req) in
  {| vq_action := action; vq_proto_version := 1; vq_opaque_token := Some raw_token; vq_method := Some (sq_method req);
     vq_path := Some path; vq_body := Some (sq_body req); vq_timestamp_ms := Some ts; vq_aws_credentials := Some creds;
     vq_ciphertext_blob_base64 := Some (b64_encode blob); vq_key_blob_s3_key := Some (secrets_key (sq_exchange req));
     vq_query := query; vq_op := None; vq_payload := None; vq_hl_action := sq_action req; vq_nonce := sq_nonce req;
     vq_vault_address := sq_vault_address req; vq_x402 := None; vq_permit2 := None; vq_order := None; vq_cancel := None;
     vq_attestation_nonce := None; vq_attestation_user_data := None; vq_data := None; vq_intent_signature := None;
     vq_intent_nonce := None; vq_client_nonce := None |}.

(** From the enclave's answer on. *)
Definition sign_answer (customer scope : string) (resp : VsockResponse) : gprog Response :=
  receipt <<- take_receipt resp customer;;
  match vs_error resp with
  | Some code => enclave_refusal scope code receipt
  | None =>
      match vs_hl_signature resp with
      | Some sig =>
          _ <<- gask (BackoffSuccess scope);;
          GRet (answer_with 200 (SignHttpResponse ∅ (Some sig) receipt))
      | None =>
          match vs_headers resp with
          | None => reply gw_code.INTERNAL_ERROR
          | Some headers =>
              _ <<- gask (BackoffSuccess scope);;
              GRet (answer_with 200 (SignHttpResponse headers None receipt))
          end
      end
  end.

(** The gates of [/sign] once the action is known, and the exchange. *)
Definition sign_gates (action customer raw_token : string) (k : gprog Response) : gprog Response :=
  gated (body_gate customer (sign_class action)) (
  let k :=
    if str_in action ["sign_hyperliquid_main_cancel"; "sign_hyperliquid_testnet_cancel"]
    then gated (cancel_gate raw_token) k else k in
  if str_in action ["sign_hyperliquid_main_order"; "sign_hyperliquid_testnet_order"]
  then gated (order_gate raw_token) k else k).

Definition resolve_timestamp (now : Z) (timestamp_ms : option Z) : option Z :=
  match timestamp_ms with
  | None => Some now
  | Some client_ts => if timestamp_in_window now client_ts then Some client_ts else None
  end.

Definition post_sign (customer raw_token : string) (req : SignHttpRequest) : gprog Response :=
  let scope := blob_key customer (sq_exchange req) in
  if negb (str_in (sq_exchange req) ALLOWED_EXCHANGES) then reply gw_code.BAD_REQUEST
  else
    now <<- gask NowMs;;
    match resolve_timestamp now (sq_timestamp_ms req) with
    | None => reply gw_code.BAD_REQUEST
    | Some ts =>
        if is_withdrawal_kind (sq_kind req) then reply gw_code.POLICY_DENIED
        else match enclave_action_for (sq_exchange req) (sq_kind req) with
        | None =>
            if str_in (sq_exchange req) ["hyperliquid_main"; "hyperliquid_testnet"]
            then reply gw_code.BAD_REQUEST else reply gw_code.INTERNAL_ERROR
        | Some action =>
            sign_gates action customer raw_token (
            creds <<- gask GetCreds;;
            match creds with
            | None => reply gw_code.INTERNAL_ERROR
            | Some creds =>
                match blobs app !! scope with
                | None => reply gw_code.BAD_REQUEST
                | Some blob =>
                    allowed <<- gask (BackoffAllow scope);;
                    if negb allowed then reply gw_code.RATE_LIMITED
                    else
                      resp <<- gask (RoundTrip (sign_request req action raw_token blob ts creds));;
                      match resp with
                      | None => reply gw_code.ENCLAVE_UNREACHABLE
                      | Some resp => sign_answer customer scope resp
                      end
                end
            end)
        end
    end.

(** *** Payments and allowances *)

(** A request that carries one tenant key, its blob and the credentials. *)
Definition key_request (action raw_token key_id blob : string) (creds : AwsCredentials) (ts : option Z)
    (x402 permit2 : option json) (op payload : option string) : VsockRequest :=
  {| vq_action := action; vq_proto_version := 1; vq_opaque_token := Some raw_token; vq_method := None;
     vq_path := None; vq_body := None; vq_timestamp_ms := ts; vq_aws_credentials := Some creds;
     vq_ciphertext_blob_base64 := Some (b64_encode blob); vq_key_blob_s3_key := Some (secrets_key key_id);
     vq_query := None; vq_op := op; vq_payload := payload; vq_hl_action := None; vq_nonce := None;
     vq_vault_address := None; vq_x402 := x402; vq_permit2 := permit2; vq_order := None; vq_cancel := None;
     vq_attestation_nonce := None; vq_attestation_user_data := None; vq_data := None; vq_intent_signature := None;
     vq_intent_nonce := None; vq_client_nonce := None |}.

(** Receipt, errors, then two named header fields become the answer. *)
Definition two_headers_answer (customer scope first second : string) (mk : string -> string -> option json -> Body)
    (resp : VsockResponse) : gprog Response :=
  receipt <<- take_receipt resp customer;;
  match vs_error resp with
  | Some code => enclave_refusal scope code receipt
  | None =>
      let headers := default ∅ (vs_headers resp) in
      match headers !! first, headers !! second with
      | Some a, Some b => _ <<- gask (BackoffSuccess scope);; GRet (answer_with 200 (mk a b receipt))
      | _, _ => reply gw_code.INTERNAL_ERROR
      end
  end.

Definition post_sign_x402 (customer raw_token : string) (req : SignX402Request) : gprog Response :=
  if negb (is_safe_key_id (x4_key_id req)) then reply gw_code.BAD_REQUEST
  else
    let scope := blob_key customer (x4_key_id req) in
    match blobs app !! scope with
    | None => reply gw_code.BAD_REQUEST
    | Some blob =>
        match parse_unsigned 128 (trim (xq_value (x4_x402 req))) with
        | None => reply gw_code.BAD_REQUEST
        | Some value =>
            gated (x402_spend_gate scope (Z.to_N value)) (
            creds <<- gask GetCreds;;
            match creds with
            | None => reply gw_code.INTERNAL_ERROR
            | Some creds =>
                now <<- gask NowMs;;
                allowed <<- gask (BackoffAllow scope);;
                if negb allowed then reply gw_code.RATE_LIMITED
                else
                  resp <<- gask (RoundTrip (key_request "sign_x402_eip3009" raw_token (x4_key_id req) blob creds
                    (Some now) (Some (x402_to_value (x4_x402 req))) None None None));;
                  match resp with
                  | None => reply gw_code.ENCLAVE_UNREACHABLE
                  | Some resp => two_headers_answer customer scope "signature" "from" SignX402Response resp
                  end
            end)
        end
    end.

Definition post_sign_permit2 (customer raw_token : string) (req : SignPermit2Request) : gprog Response :=
  if negb (is_safe_key_id (p2_key_id req)) then reply gw_code.BAD_REQUEST
  else
    let scope := blob_key customer (p2_key_id req) in
    match blobs app !! scope with
    | None => reply gw_code.BAD_REQUEST
    | Some blob =>
        allowed <<- gask (BackoffAllow scope);;
        if negb allowed then reply gw_code.RATE_LIMITED
        else
          creds <<- gask GetCreds;;
          match creds with
          | None => reply gw_code.INTERNAL_ERROR
          | Some creds =>
              now <<- gask NowMs;;
              resp <<- gask (RoundTrip (key_request "sign_permit2_permit_single" raw_token (p2_key_id req) blob creds
                (Some now) None (Some (permit2_to_value (p2_permit2 req))) None None));;
              match resp with
              | None => reply gw_code.ENCLAVE_UNREACHABLE
              | Some resp => two_headers_answer customer scope "signature" "owner" SignPermit2Response resp
              end
          end
    end.

(** *** The keyless generic primitive *)

Definition binance_request_wire_error (code : string) (receipt : option json) : Response * string :=
  let mapped := safe_wire_code code in (enclave_error_response mapped receipt, mapped).

Definition binance_request_answer (customer scope : string) (resp : VsockResponse) : gprog Response :=
  receipt <<- take_receipt resp customer;;
  match vs_error resp with
  | Some code =>
      let '(response, mapped) := binance_request_wire_error code receipt in
      if decide (mapped = gw_code.RATE_LIMITED) then _ <<- gask (BackoffLimited scope);; GRet response else GRet response
  | None =>
      match vs_headers resp with
      | None => reply gw_code.INTERNAL_ERROR
      | Some headers =>
          match headers !! "signature", headers !! "api_key" with
          | Some signature, Some api_key =>
              _ <<- gask (BackoffSuccess scope);;
              GRet (answer_with 200 (SignBinanceRequestResponse signature api_key receipt))
          | _, _ => reply gw_code.INTERNAL_ERROR
          end
      end
  end.

(** Blob, breaker, credentials, round trip. *)
Definition binance_request_exchange (customer raw_token : string) (req : SignBinanceRequestHttp) : gprog Response :=
  let scope := blob_key customer (br_key_id req) in
  match blobs app !! scope with
  | None => reply gw_code.BAD_REQUEST
  | Some blob =>
      allowed <<- gask (BackoffAllow scope);;
      if negb allowed then reply gw_code.RATE_LIMITED
      else
        creds <<- gask GetCreds;;
        match creds with
        | None => reply gw_code.INTERNAL_ERROR
        | Some creds =>
            resp <<- gask (RoundTrip (key_request "sign_binance_request" raw_token (br_key_id req) blob creds
              None None None (Some (br_op req)) (Some (br_payload req))));;
            match resp with
            | None => reply gw_code.ENCLAVE_UNREACHABLE
            | Some resp => binance_request_answer customer scope resp
            end
        end
  end.

Definition post_sign_binance_request (customer raw_token : string) (req : SignBinanceRequestHttp) : gprog Response :=
  if negb (is_safe_key_id (br_key_id req)) then reply gw_code.BAD_REQUEST
  else
    gated (body_gate customer (classify_binance_op (br_op req))) (
    let after_order :=
      if bool_decide (br_op req = "cancel") then gated (cancel_gate raw_token) (binance_request_exchange customer raw_token req)
      else binance_request_exchange customer raw_token req in
    if bool_decide (br_op req = "order") then gated (order_gate raw_token) after_order else after_order).

(** *** Structured orders and cancels *)

Record AgentIntentForward := { af_timestamp_ms : option Z; af_intent_signature : option string; af_intent_nonce : option string }.
Definition no_intent : AgentIntentForward := {| af_timestamp_ms := None; af_intent_signature := None; af_intent_nonce := None |}.

Definition not_null (v : option json) : option json := match v with Some JNull => None | _ => v end.

(** The order and cancel members of [structured], or a malformed payload. *)
Definition split_structured (structured : json) : option (option json * option json) :=
  match structured with
  | JObj m =>
      let order := assoc "order" m in
      let cancel := assoc "cancel" m in
      if forallb (fun e => str_in (fst e) ["order"; "cancel"]) m then
        match not_null order, not_null cancel with
        | None, None => None
        | o, c => Some (o, c)
        end
      else None
  | _ => None
  end.

Definition structured_request (action method path raw_token key_id blob : string) (creds : AwsCredentials) (ts : Z)
    (order cancel : option json) (intent : AgentIntentForward) : VsockRequest :=
  {| vq_action := action; vq_proto_version := 1; vq_opaque_token := Some raw_token; vq_method := Some method;
     vq_path := Some path; vq_body := None; vq_timestamp_ms := Some ts; vq_aws_credentials := Some creds;
     vq_ciphertext_blob_base64 := Some (b64_encode blob); vq_key_blob_s3_key := Some (secrets_key key_id);
     vq_query := None; vq_op := None; vq_payload := None; vq_hl_action := None; vq_nonce := None;
     vq_vault_address := None; vq_x402 := None; vq_permit2 := None; vq_order := order; vq_cancel := cancel;
     vq_attestation_nonce := None; vq_attestation_user_data := None; vq_data := None;
     vq_intent_signature := af_intent_signature intent; vq_intent_nonce := af_intent_nonce intent; vq_client_nonce := None |}.

Definition structured_answer (customer scope : string) (resp : VsockResponse)
    : gprog (result Response (string * Headers * option json)) :=
  receipt <<- take_receipt resp customer;;
  match vs_error resp with
  | Some code => r <<- enclave_refusal scope code receipt;; GRet (Err r)
  | None =>
      match vs_canonical_body resp with
      | Some canonical =>
          if is_empty canonical then GRet (Err (error_response gw_code.INTERNAL_ERROR))
          else _ <<- gask (BackoffSuccess scope);; GRet (Ok (canonical, default ∅ (vs_headers resp), receipt))
      | None => GRet (Err (error_response gw_code.INTERNAL_ERROR))
      end
  end.

Definition sign_structured_request (customer raw_token key_id action method path : string) (structured : json)
    (intent : AgentIntentForward) : gprog (result Response (string * Headers * option json)) :=
  let fail code := GRet (Err (error_response code)) in
  if negb (is_safe_key_id key_id) then fail gw_code.BAD_REQUEST
  else
    let scope := blob_key customer key_id in
    match blobs app !! scope with
    | None => fail gw_code.BAD_REQUEST
    | Some blob =>
        allowed <<- gask (BackoffAllow scope);;
        if negb allowed then fail gw_code.RATE_LIMITED
        else
          creds <<- gask GetCreds;;
          match creds with
          | None => fail gw_code.INTERNAL_ERROR
          | Some creds =>
              match split_structured structured with
              | None => fail gw_code.BAD_REQUEST
              | Some (order, cancel) =>
                  ts <<- (match af_timestamp_ms intent with Some ts => GRet ts | None => gask NowMs end);;
                  resp <<- gask (RoundTrip (structured_request action method path raw_token key_id blob creds ts order cancel intent));;
                  match resp with
                  | None => fail gw_code.ENCLAVE_UNREACHABLE
                  | Some resp => structured_answer customer scope resp
                  end
              end
          end
    end.

(** [match sign_structured_request(..).await { Ok(p) => p, Err(resp) => return .. }] *)
Definition or_return {A} (p : gprog (result Response A)) (k : A -> gprog Response) : gprog Response :=
  r <<- p;; match r with Ok a => k a | Err resp => GRet resp end.

Definition order_payload (o : OrderParams) : json := JObj [("order", order_to_value o)].
Definition cancel_payload (c : CancelParams) : json := JObj [("cancel", cancel_to_value c)].
Definition order_intent (req : SignOrderRequest) : AgentIntentForward :=
  {| af_timestamp_ms := so_timestamp_ms req; af_intent_signature := so_intent_signature req; af_intent_nonce := None |}.
Definition cancel_intent (req : SignCancelRequest) : AgentIntentForward :=
  {| af_timestamp_ms := sc_timestamp_ms req; af_intent_signature := sc_intent_signature req;
     af_intent_nonce := sc_intent_nonce req |}.

(** POST: the signed query string is the body; DELETE: it is the URL's query. *)
Definition binance_post (url : string) (signed : string * Headers * option json) : gprog Response :=
  let '(canonical, headers, receipt) := signed in
  match build_binance_signed_qs canonical headers with
  | Err _ => reply gw_code.INTERNAL_ERROR
  | Ok (body, headers) =>
      GRet (answer_with 200 (SignVenueResponse "binance" "POST" url
        (<["Content-Type" := "application/x-www-form-urlencoded"]> headers) (Some body) receipt))
  end.
Definition binance_delete (url : string) (signed : string * Headers * option json) : gprog Response :=
  let '(canonical, headers, receipt) := signed in
  match build_binance_signed_qs canonical headers with
  | Err _ => reply gw_code.INTERNAL_ERROR
  | Ok (qs, headers) =>
      GRet (answer_with 200 (SignVenueResponse "binance" "DELETE" (url +:+ "?" +:+ qs) headers None receipt))
  end.
Definition okx_post (path : string) (signed : string * Headers * option json) : gprog Response :=
  let '(canonical, headers, receipt) := signed in
  GRet (answer_with 200 (SignVenueResponse "okx" "POST" (okx_base_url +:+ path)
    (<["Content-Type" := "application/json"]> (demo_header (app_env app) headers)) (Some canonical) receipt)).

Definition post_sign_binance_order (customer raw_token : string) (req : SignOrderRequest) : gprog Response :=
  let order := normalize_order_case (so_order req) in
  gated (order_gate raw_token) (
  or_return (sign_structured_request customer raw_token (so_key_id req) "sign_binance_order" "POST" "/fapi/v1/order"
               (order_payload order) (order_intent req))
    (binance_post (binance_base_url (app_env app) +:+ "/fapi/v1/order"))).

Definition post_sign_binance_cancel (customer raw_token : string) (req : SignCancelRequest) : gprog Response :=
  gated (cancel_gate raw_token) (
  or_return (sign_structured_request customer raw_token (sc_key_id req) "sign_binance_cancel" "DELETE" "/fapi/v1/order"
               (cancel_payload (sc_cancel req)) (cancel_intent req))
    (binance_delete (binance_base_url (app_env app) +:+ "/fapi/v1/order"))).

Definition post_sign_binance_spot_order (customer raw_token : string) (req : SignOrderRequest) : gprog Response :=
  let order := normalize_order_case (so_order req) in
  if oq_reduce_only order then reply gw_code.BAD_REQUEST
  else
    gated (order_gate raw_token) (
    or_return (sign_structured_request customer raw_token (so_key_id req) "sign_binance_order" "POST"
                 BINANCE_SPOT_ORDER_PATH (order_payload order) (order_intent req))
      (binance_post (binance_spot_base_url (app_env app) +:+ BINANCE_SPOT_ORDER_PATH))).

Definition post_sign_binance_spot_cancel (customer raw_token : string) (req : SignCancelRequest) : gprog Response :=
  gated (cancel_gate raw_token) (
  or_return (sign_structured_request customer raw_token (sc_key_id req) "sign_binance_cancel" "DELETE"
               BINANCE_SPOT_ORDER_PATH (cancel_payload (sc_cancel req)) (cancel_intent req))
    (binance_delete (binance_spot_base_url (app_env app) +:+ BINANCE_SPOT_ORDER_PATH))).

Definition post_sign_okx_order (customer raw_token : string) (req : SignOrderRequest) : gprog Response :=
  let order := normalize_order_case (so_order req) in
  gated (order_gate raw_token) (
  or_return (sign_structured_request customer raw_token (so_key_id req) "sign_okx_order" "POST" "/api/v5/trade/order"
               (order_payload order) (order_intent req))
    (okx_post "/api/v5/trade/order")).

Definition post_sign_okx_cancel (customer raw_token : string) (req : SignCancelRequest) : gprog Response :=
  gated (cancel_gate raw_token) (
  or_return (sign_structured_request customer raw_token (sc_key_id req) "sign_okx_cancel" "POST" "/api/v5/trade/cancel-order"
               (cancel_payload (sc_cancel req)) (cancel_intent req))
    (okx_post "/api/v5/trade/cancel-order")).

(** *** Signed reads and mass cancel *)

Definition read_request (action method path body query raw_token venue blob : string) (creds : AwsCredentials) (ts : Z) : VsockRequest :=
  {| vq_action := action; vq_proto_version := 1; vq_opaque_token := Some raw_token; vq_method := Some method;
     vq_path := Some path; vq_body := Some body; vq_timestamp_ms := Some ts; vq_aws_credentials := Some creds;
     vq_ciphertext_blob_base64 := Some (b64_encode blob); vq_key_blob_s3_key := Some (secrets_key venue);
     vq_query := if is_empty query then None else Some query; vq_op := None; vq_payload := None; vq_hl_action := None;
     vq_nonce := None; vq_vault_address := None; vq_x402 := None; vq_permit2 := None; vq_order := None;
     vq_cancel := None; vq_attestation_nonce := None; vq_attestation_user_data := None; vq_data := None;
     vq_intent_signature := None; vq_intent_nonce := None; vq_client_nonce := None |}.

Definition sign_account_read (customer raw_token venue method path body query : string) : gprog (result Response Headers) :=
  let fail code := GRet (Err (error_response code)) in
  match enclave_action_for venue None with
  | None => fail gw_code.BAD_REQUEST
  | Some action =>
      let scope := blob_key customer venue in
      match blobs app !! scope with
      | None => fail gw_code.BAD_REQUEST
      | Some blob =>
          allowed <<- gask (BackoffAllow scope);;
          if negb allowed then fail gw_code.RATE_LIMITED
          else
            creds <<- gask GetCreds;;
            match creds with
            | None => fail gw_code.INTERNAL_ERROR
            | Some creds =>
                now <<- gask NowMs;;
                resp <<- gask (RoundTrip (read_request action method path body query raw_token venue blob creds now));;
                match resp with
                | None => fail gw_code.ENCLAVE_UNREACHABLE
                | Some resp =>
                    receipt <<- take_receipt resp customer;;
                    match vs_error resp with
                    | Some code => r <<- enclave_refusal scope code receipt;; GRet (Err r)
                    | None => _ <<- gask (BackoffSuccess scope);; GRet (Ok (default ∅ (vs_headers resp)))
                    end
                end
            end
      end
  end.

(** A signed Binance call whose query carries the signature. *)
Definition binance_read (customer raw_token method path user_query : string) : gprog Response :=
  or_return (sign_account_read customer raw_token "binance" method path "" user_query) (fun headers =>
  match binance_signed_url (app_env app) path user_query headers with
  | None => reply gw_code.INTERNAL_ERROR
  | Some (url, headers) => GRet (answer_with 200 (SignedVenueRequest "binance" method url headers))
  end).
Definition okx_read (customer raw_token path query : string) : gprog Response :=
  or_return (sign_account_read customer raw_token "okx" "GET" path "" query) (fun headers =>
  let url := if is_empty query then okx_base_url +:+ path else okx_base_url +:+ path +:+ "?" +:+ query in
  GRet (answer_with 200 (SignedVenueRequest "okx" "GET" url (demo_header (app_env app) headers)))).

(** The URL of [get_account_binance_inner] is [binance_signed_url] with no user query. *)
Definition get_account_binance_inner (customer raw_token : string) : gprog Response :=
  binance_read customer raw_token "GET" "/fapi/v2/account" "".

Definition build_okx_signed_read (customer raw_token path : string) : gprog (result Response SignedReadRequest) :=
  r <<- sign_account_read customer raw_token "okx" "GET" path "" "";;
  GRet (match r with
        | Err resp => Err resp
        | Ok headers => Ok {| rd_method := "GET"; rd_url := okx_base_url +:+ path; rd_headers := demo_header (app_env app) headers |}
        end).
Definition get_account_okx_inner (customer raw_token : string) : gprog Response :=
  or_return (build_okx_signed_read customer raw_token "/api/v5/account/balance") (fun balance =>
  or_return (build_okx_signed_read customer raw_token "/api/v5/account/positions") (fun positions =>
  GRet (answer_with 200 (AccountOkxResponse balance positions)))).
Definition get_account (customer raw_token venue : string) : gprog Response :=
  if bool_decide (venue = "binance") then get_account_binance_inner customer raw_token
  else if bool_decide (venue = "okx") then get_account_okx_inner customer raw_token
  else reply gw_code.BAD_REQUEST.

Definition open_orders_binance_inner (customer raw_token : string) (symbol : option string) : gprog Response :=
  match validated_filter symbol "symbol" with
  | None => reply gw_code.BAD_REQUEST
  | Some user_query => binance_read customer raw_token "GET" "/fapi/v1/openOrders" user_query
  end.
Definition open_orders_okx_inner (customer raw_token : string) (inst_id : option string) : gprog Response :=
  match validated_filter inst_id "instId" with
  | None => reply gw_code.BAD_REQUEST
  | Some query => okx_read customer raw_token "/api/v5/trade/orders-pending" query
  end.
Definition get_open_orders (customer raw_token venue : string) (symbol inst_id : option string) : gprog Response :=
  if bool_decide (venue = "binance") then open_orders_binance_inner customer raw_token symbol
  else if bool_decide (venue = "okx") then open_orders_okx_inner customer raw_token inst_id
  else reply gw_code.BAD_REQUEST.

(** The mandatory filter, then the optional ones; [None] is a bad request. *)
Definition required_filter (value : option string) (key : string) : option string :=
  match value with
  | Some s => if negb (is_empty s) && is_safe_query_value s then Some (key +:+ "=" +:+ s) else None
  | None => None
  end.
Fixpoint filters (l : list (option string * string)) : option (list string) :=
  match l with
  | [] => Some []
  | (val, key) :: rest =>
      match validated_filter val key with
      | None => None
      | Some f => fs ← filters rest; Some (if is_empty f then fs else f :: fs)
      end
  end.

Definition user_trades_binance_inner (customer raw_token : string) (q : UserTradesQuery) : gprog Response :=
  match required_filter (ut_symbol q) "symbol",
        filters [(ut_order_id q, "orderId"); (ut_start_time q, "startTime"); (ut_end_time q, "endTime");
                 (ut_from_id q, "fromId"); (ut_limit q, "limit")] with
  | Some first, Some fragments => binance_read customer raw_token "GET" "/fapi/v1/userTrades" (String.concat "&" (first :: fragments))
  | _, _ => reply gw_code.BAD_REQUEST
  end.
Definition user_trades_okx_inner (customer raw_token : string) (q : UserTradesQuery) : gprog Response :=
  match required_filter (ut_inst_type q) "instType",
        filters [(ut_inst_id q, "instId"); (ut_ord_id q, "ordId"); (ut_after q, "after"); (ut_before q, "before");
                 (ut_begin q, "begin"); (ut_end q, "end"); (ut_limit q, "limit")] with
  | Some first, Some fragments => okx_read customer raw_token "/api/v5/trade/fills-history" (String.concat "&" (first :: fragments))
  | _, _ => reply gw_code.BAD_REQUEST
  end.
Definition get_user_trades (customer raw_token venue : string) (q : UserTradesQuery) : gprog Response :=
  if bool_decide (venue = "binance") then user_trades_binance_inner customer raw_token q
  else if bool_decide (venue = "okx") then user_trades_okx_inner customer raw_token q
  else reply gw_code.BAD_REQUEST.

Definition cancel_all_binance_inner (customer raw_token : string) (symbol : option string) : gprog Response :=
  gated (cancel_gate raw_token) (
  match validated_filter symbol "symbol" with
  | Some user_query =>
      if is_empty user_query then reply gw_code.BAD_REQUEST
      else binance_read customer raw_token "DELETE" "/fapi/v1/allOpenOrders" user_query
  | None => reply gw_code.BAD_REQUEST
  end).
Definition post_cancel_all (customer raw_token venue : string) (symbol : option string) : gprog Response :=
  if bool_decide (venue = "binance") then cancel_all_binance_inner customer raw_token symbol else reply gw_code.BAD_REQUEST.

(** *** Operator and public routes *)

Definition verify_request (raw_token venue_id blob : string) (creds : AwsCredentials) (ts : Z) : VsockRequest :=
  {| vq_action := "verify_blob"; vq_proto_version := 1; vq_opaque_token := Some raw_token; vq_method := None;
     vq_path := Some venue_id; vq_body := None; vq_timestamp_ms := Some ts; vq_aws_credentials := Some creds;
     vq_ciphertext_blob_base64 := Some (b64_encode blob); vq_key_blob_s3_key := Some (secrets_key venue_id);
     vq_query := None; vq_op := None; vq_payload := None; vq_hl_action := None; vq_nonce := None;
     vq_vault_address := None; vq_x402 := None; vq_permit2 := None; vq_order := None; vq_cancel := None;
     vq_attestation_nonce := None; vq_attestation_user_data := None; vq_data := None; vq_intent_signature := None;
     vq_intent_nonce := None; vq_client_nonce := None |}.

Definition post_verify_blob (customer raw_token venue_id : string) : gprog Response :=
  let scope := blob_key customer venue_id in
  if negb (str_in venue_id ALLOWED_EXCHANGES) then reply gw_code.BAD_REQUEST
  else match blobs app !! scope with
  | None => reply gw_code.BAD_REQUEST
  | Some blob =>
      creds <<- gask GetCreds;;
      match creds with
      | None => reply gw_code.INTERNAL_ERROR
      | Some creds =>
          now <<- gask NowMs;;
          resp <<- gask (RoundTrip (verify_request raw_token venue_id blob creds now));;
          match resp with
          | None => reply gw_code.ENCLAVE_UNREACHABLE
          | Some resp =>
              match vs_error resp with
              | Some code => reply (safe_wire_code code)
              | None =>
                  match vs_plaintext_sha256 resp with
                  | Some h =>
                      if Z.of_nat (String.length h) =? 64 then
                        decrypted_at <<- gask NowMs;;
                        GRet (answer_with 200 (VerifyBlobResponse venue_id h (vs_plaintext_len resp) decrypted_at))
                      else reply gw_code.INTERNAL_ERROR
                  | None => reply gw_code.INTERNAL_ERROR
                  end
              end
          end
      end
  end.

Definition data_request (token data blob : string) (creds : AwsCredentials) (ts : Z) : VsockRequest :=
  {| vq_action := "sign_data"; vq_proto_version := 1; vq_opaque_token := Some token; vq_method := None;
     vq_path := None; vq_body := None; vq_timestamp_ms := Some ts; vq_aws_credentials := Some creds;
     vq_ciphertext_blob_base64 := Some (b64_encode blob);
     vq_key_blob_s3_key := Some (secrets_key (DATA_SIGNING_CUSTOMER +:+ "/" +:+ DATA_SIGNING_STEM));
     vq_query := None; vq_op := None; vq_payload := None; vq_hl_action := None; vq_nonce := None;
     vq_vault_address := None; vq_x402 := None; vq_permit2 := None; vq_order := None; vq_cancel := None;
     vq_attestation_nonce := None; vq_attestation_user_data := None; vq_data := Some data; vq_intent_signature := None;
     vq_intent_nonce := None; vq_client_nonce := None |}.

Definition post_sign_data (data : string) : gprog Response :=
  match data_signing_token app with
  | None => reply gw_code.INTERNAL_ERROR
  | Some token =>
      if is_empty (trim data) then reply gw_code.BAD_REQUEST
      else match blobs app !! blob_key DATA_SIGNING_CUSTOMER DATA_SIGNING_STEM with
      | None => reply gw_code.INTERNAL_ERROR
      | Some blob =>
          creds <<- gask GetCreds;;
          match creds with
          | None => reply gw_code.INTERNAL_ERROR
          | Some creds =>
              now <<- gask NowMs;;
              resp <<- gask (RoundTrip (data_request token data blob creds now));;
              match resp with
              | None => reply gw_code.ENCLAVE_UNREACHABLE
              | Some resp =>
                  match vs_error resp with
                  | Some code => reply (safe_wire_code code)
                  | None =>
                      match vs_attested resp with
                      | None => reply gw_code.INTERNAL_ERROR
                      | Some a => GRet (answer_with 200 (SignDataHttpResponse (av_signature a) (av_pubkey_compressed a) (av_pubkey_address a)))
                      end
                  end
              end
          end
      end
  end.

Definition heartbeat_request (raw_token client_nonce : string) : VsockRequest :=
  {| vq_action := "receipt_heartbeat"; vq_proto_version := 1; vq_opaque_token := Some raw_token; vq_method := None;
     vq_path := None; vq_body := None; vq_timestamp_ms := None; vq_aws_credentials := None;
     vq_ciphertext_blob_base64 := None; vq_key_blob_s3_key := None; vq_query := None; vq_op := None;
     vq_payload := None; vq_hl_action := None; vq_nonce := None; vq_vault_address := None; vq_x402 := None;
     vq_permit2 := None; vq_order := None; vq_cancel := None; vq_attestation_nonce := None;
     vq_attestation_user_data := None; vq_data := None; vq_intent_signature := None; vq_intent_nonce := None;
     vq_client_nonce := Some client_nonce |}.

Definition post_receipt_heartbeat (raw_token client_nonce : string) : gprog Response :=
  if negb (heartbeat_nonce_ok client_nonce) then reply gw_code.BAD_REQUEST
  else
    resp <<- gask (RoundTrip (heartbeat_request raw_token client_nonce));;
    match resp with
    | None => reply gw_code.ENCLAVE_UNREACHABLE
    | Some resp =>
        match vs_error resp with
        | Some code => GRet (enclave_error_response (safe_wire_code code) None)
        | None =>
            match vs_heartbeat resp with
            | None => reply gw_code.INTERNAL_ERROR
            | Some hb => GRet (answer_with 200 (HeartbeatResponse hb))
            end
        end
    end.

(** [Some None]: no nonce asked for; [None]: malformed. *)
Definition attestation_nonce (nonce : option string) : option (option string) :=
  match nonce with
  | None => Some None
  | Some h =>
      let n := Z.of_nat (String.length h) in
      if is_empty h || (2048 <? n) || negb (n mod 2 =? 0) || negb (bytes_all is_ascii_hexdigit h) then None
      else Some (Some (to_ascii_lowercase h))
  end.

Definition attestation_request (nonce : option string) : VsockRequest :=
  {| vq_action := "attestation"; vq_proto_version := 1; vq_opaque_token := None; vq_method := None;
     vq_path := None; vq_body := None; vq_timestamp_ms := None; vq_aws_credentials := None;
     vq_ciphertext_blob_base64 := None; vq_key_blob_s3_key := None; vq_query := None; vq_op := None;
     vq_payload := None; vq_hl_action := None; vq_nonce := None; vq_vault_address := None; vq_x402 := None;
     vq_permit2 := None; vq_order := None; vq_cancel := None; vq_attestation_nonce := nonce;
     vq_attestation_user_data := None; vq_data := None; vq_intent_signature := None; vq_intent_nonce := None;
     vq_client_nonce := None |}.

Definition get_attestation (nonce : option string) : gprog Response :=
  match attestation_config (app_env app) with
  | Err _ => reply gw_code.INTERNAL_ERROR
  | Ok cfg =>
      match attestation_nonce nonce with
      | None => reply gw_code.BAD_REQUEST
      | Some nonce_hex =>
          resp <<- gask (RoundTrip (attestation_request nonce_hex));;
          match resp with
          | None => reply gw_code.ENCLAVE_UNREACHABLE
          | Some resp =>
              match vs_error resp with
              | Some code => reply (if bool_decide (code = gw_code.BAD_REQUEST) then gw_code.BAD_REQUEST else gw_code.INTERNAL_ERROR)
              | None =>
                  match (doc_b64 ← vs_attestation_document_b64 resp; doc ← b64_decode doc_b64;
                         match extract_pcr0_from_cose doc with Ok p => Some (doc_b64, p) | Err _ => None end) with
                  | None => reply gw_code.INTERNAL_ERROR
                  | Some (doc_b64, pcr0) =>
                      if negb (eq_ignore_ascii_case pcr0 (at_pcr0 cfg)) then reply gw_code.INTERNAL_ERROR
                      else
                        now <<- gask NowMs;;
                        GRet {| h_status := 200;
                                h_body := AttestationResponse pcr0 doc_b64 nonce_hex (at_pubkey_compressed cfg) (at_pubkey_address cfg) now;
                                h_retry_after := None; h_no_store := true |}
                  end
              end
          end
      end
  end.

Definition get_healthz : gprog Response :=
  health <<- gask SignHealthView;;
  let '(sign_checked, sign_ok, sign_age_s) := health in
  resp <<- gask (RoundTrip (bare_request "ping"));;
  GRet (match resp with
        | Some r =>
            if bool_decide (vs_signature_base64 r = "pong") && bool_decide (vs_error r = None)
            then answer_with 200 (HealthResponse sign_checked sign_ok sign_age_s)
            else answer_with 503 (HealthUnavailableResponse gw_code.ENCLAVE_UNREACHABLE)
        | None => answer_with 503 (HealthUnavailableResponse gw_code.ENCLAVE_UNREACHABLE)
        end).
End Handlers.
