(* ===== verification/GwHedge.v ===== *)
(** * Two-leg hedges (gateway/src/hedge.rs)

    [POST /hedge]: both legs are signed, concurrently and all-or-nothing, then a
    task of its own, which outlives the request, makes both venue calls and each
    leg's fate is reported.  Durations are left out; serde_json's parser is a
    parameter. *)

From S2P Require Import Prelude RustStr Crates Proto GwProto GwHost GwLimits GwTenant GwAuth GwWire GwCalls GwHandlers.

Open Scope string_scope.
Open Scope list_scope.
Open Scope Z_scope.

Definition MAX_VENUE_BODY_BYTES : Z := 64 * 1024.

Class JsonText := json_of_slice : string -> option json.

Record HedgeLegSpec := { hl_key_id : string; hl_venue : option string; hl_order : OrderParams }.
Definition leg_venue (leg : HedgeLegSpec) : string := to_ascii_lowercase (trim (default (hl_key_id leg) (hl_venue leg))).

Definition sign_error_label (status : Z) : string :=
  match status with
  | 400 => "bad_request" | 401 => "unauthorized" | 403 => "policy_denied" | 429 => "rate_limited"
  | 502 => "enclave_unreachable" | _ => "sign_failed"
  end.

(** [serde_json::Value::as_i64], [get(0)] *)
Definition as_i64 (v : json) : option Z :=
  match v with JNum (PosInt n) => if n <? 2 ^ 63 then Some n else None | JNum (NegInt n) => Some n | _ => None end.
Definition jindex0 (v : json) : option json := match v with JArr (x :: _) => Some x | _ => None end.

Definition classify_receipt (venue : string) (parsed : json) : LegOutcome :=
  if bool_decide (venue = "binance") then
    if (match jget "code" parsed ≫= as_i64 with Some c => c <? 0 | None => false end) then LegRejected
    else match jget "status" parsed ≫= as_str with
         | Some s => if str_in s ["EXPIRED"; "REJECTED"; "EXPIRED_IN_MATCH"] then LegRejected else LegOk
         | None => LegOk
         end
  else if bool_decide (venue = "okx") then
    if negb (bool_decide (jget "code" parsed ≫= as_str = Some "0")) then LegRejected
    else match ((jget "data" parsed ≫= jindex0) ≫= jget "sCode") ≫= as_str with
         | None => LegOk
         | Some s => if bool_decide (s = "0") then LegOk else LegRejected
         end
  else LegRejected.

Definition em_dash : string := utf8_3 226 128 148.

(** [read_capped_body]: the chunks up to the cap, or the read error. *)
Fixpoint read_capped_body (buf : string) (chunks : list (result string string)) : result string string :=
  match chunks with
  | [] => Ok buf
  | Err e :: _ => Err ("body read failed: " +:+ e)
  | Ok chunk :: rest =>
      if MAX_VENUE_BODY_BYTES <? Z.of_nat (String.length buf) + Z.of_nat (String.length chunk)
      then Err ("venue response exceeds 65536 bytes " +:+ em_dash +:+ " not an order receipt")
      else read_capped_body (buf +:+ chunk) rest
  end.

(** ** Signing *)

Section Hedge.
Context `{Crates, Cbor, JsonText} (app : AppConfig).

Definition sign_leg (customer raw_token : string) (leg : HedgeLegSpec) : gprog (result Z VenueCall) :=
  let venue := leg_venue leg in
  let key_id := to_ascii_lowercase (trim (hl_key_id leg)) in
  let payload := order_payload (hl_order leg) in
  if bool_decide (venue = "binance") then
    r <<- sign_structured_request app customer raw_token key_id "sign_binance_order" "POST" "/fapi/v1/order" payload no_intent;;
    GRet (match r with
          | Err resp => Err (h_status resp)
          | Ok (canonical, headers, _) =>
              match build_binance_signed_qs canonical headers with
              | Err _ => Err 500
              | Ok (body, headers) =>
                  Ok {| vc_venue := "binance"; vc_url := binance_base_url (app_env app) +:+ "/fapi/v1/order";
                        vc_headers := <["Content-Type" := "application/x-www-form-urlencoded"]> headers; vc_body := body |}
              end
          end)
  else if bool_decide (venue = "okx") then
    r <<- sign_structured_request app customer raw_token key_id "sign_okx_order" "POST" "/api/v5/trade/order" payload no_intent;;
    GRet (match r with
          | Err resp => Err (h_status resp)
          | Ok (canonical, headers, _) =>
              Ok {| vc_venue := "okx"; vc_url := okx_base_url +:+ "/api/v5/trade/order";
                    vc_headers := <["Content-Type" := "application/json"]> (demo_header (app_env app) headers);
                    vc_body := canonical |}
          end)
  else GRet (Err 400).

Definition leg_env (venue : string) : option string :=
  if bool_decide (venue = "binance")
  then Some (if contains "testnet" (binance_base_url (app_env app)) then "testnet" else "live")
  else if bool_decide (venue = "okx") then Some (if okx_is_demo (app_env app) then "demo" else "live")
  else None.

(** ** Execution *)

Definition leg_result (venue : string) (outcome : LegOutcome) (http_status : option Z) (response : option json)
    (error : option string) : HedgeLegResult :=
  {| lr_venue := venue; lr_phase := "signed"; lr_outcome := outcome; lr_ok := bool_decide (outcome = LegOk);
     lr_env := leg_env venue; lr_http_status := http_status; lr_response := response; lr_error := error |}.

(** What one venue answer says about the leg. *)
Definition judge_answer (venue : string) (answer : VenueAnswer) : HedgeLegResult :=
  match answer with
  | VenueResponse status chunks =>
      match read_capped_body "" chunks with
      | Err detail => leg_result venue LegUnknown (Some status) None (Some detail)
      | Ok bytes =>
          if negb ((200 <=? status) && (status <? 300)) then
            leg_result venue (if 500 <=? status then LegUnknown else LegRejected) (Some status) (json_of_slice bytes)
              (Some ("venue returned HTTP " +:+ u64_to_string status))
          else match json_of_slice bytes with
               | Some parsed => leg_result venue (classify_receipt venue parsed) (Some status) (Some parsed) None
               | None => leg_result venue LegUnknown (Some status) (Some (JStr (from_utf8_lossy (str_take 512 bytes))))
                           (Some "non-JSON venue response (edge/WAF block?)")
               end
      end
  | VenueTransportError is_connect e =>
      leg_result venue (if is_connect then LegRejected else LegUnknown) None None (Some ("venue call failed: " +:+ e))
  end.

(** [send().await] is sending, then waiting. *)
Definition execute_leg (leg : VenueCall) : gprog HedgeLegResult :=
  _ <<- gask (SendVenue leg);;
  answer <<- gask (VenueReply leg);; GRet (judge_answer (vc_venue leg) answer).

Definition hedge_status (outcomes : list LegOutcome) : string :=
  if bool_decide (LegUnknown ∈ outcomes) then "unknown"
  else match length (filter (fun o => o = LegOk) outcomes) with
       | 2%nat => "executed" | 1%nat => "partial" | _ => "failed"
       end.

(** The future handed to [tokio::spawn]. *)
Definition hedge_execution (leg_a leg_b : VenueCall) : gprog ExecutionResult :=
  results <<- gjoin (execute_leg leg_a) (execute_leg leg_b);;
  let '(res_a, res_b) := results in
  GRet (hedge_status [lr_outcome res_a; lr_outcome res_b], res_a, res_b).

(** ** The handler *)

Definition is_market (leg : HedgeLegSpec) : bool := eq_ignore_ascii_case (trim (oq_ord_type (hl_order leg))) "market".

Definition validate_hedge_shape (legs : list HedgeLegSpec) : result HedgeShapeError (HedgeLegSpec * HedgeLegSpec) :=
  match legs with
  | [a; b] =>
      if negb (is_market a) then Err (NotMarket 1 (oq_ord_type (hl_order a)))
      else if negb (is_market b) then Err (NotMarket 2 (oq_ord_type (hl_order b)))
      else if bool_decide (leg_venue a = leg_venue b) && bool_decide (oq_symbol (hl_order a) = oq_symbol (hl_order b)) &&
              eq_ignore_ascii_case (oq_side (hl_order a)) (oq_side (hl_order b)) then Err DoubleDown
      else
        match (if bool_decide (leg_venue a = leg_venue b) then
                 match oq_client_order_id (hl_order a), oq_client_order_id (hl_order b) with
                 | Some ida, Some idb => if negb (is_empty (trim ida)) && bool_decide (ida = idb) then Some ida else None
                 | _, _ => None
                 end
               else None) with
        | Some id => Err (SameClientOrderId (leg_venue a) id)
        | None =>
            match leg_env (leg_venue a), leg_env (leg_venue b) with
            | Some ea, Some eb =>
                if Bool.eqb (bool_decide (ea = "live")) (bool_decide (eb = "live")) then Ok (a, b) else Err (StraddlesEnvironments ea eb)
            | _, _ => Ok (a, b)
            end
        end
  | _ => Err NotTwoLegs
  end.

Definition unsigned_leg (leg : HedgeLegSpec) (r : result Z VenueCall) : HedgeLegResult :=
  {| lr_venue := leg_venue leg; lr_phase := "sign_failed"; lr_outcome := LegRejected; lr_ok := false; lr_env := None;
     lr_http_status := match r with Err s => Some s | Ok _ => None end; lr_response := None;
     lr_error := Some (match r with Err s => sign_error_label s | Ok _ => "not_executed_peer_leg_failed" end) |}.

Definition DOMINANCE : list Z := [403; 401; 429; 502; 400].
Definition dominant_status (failing : list Z) : Z :=
  match list_find (fun d => d ∈ failing) DOMINANCE with
  | Some (_, d) => d
  | None => default 500 (head failing)
  end.
Definition failures (rs : list (result Z VenueCall)) : list Z :=
  omap (fun r => match r with Err s => Some s | Ok _ => None end) rs.

Definition post_hedge (customer raw_token : string) (legs : list HedgeLegSpec) : gprog Response :=
  match validate_hedge_shape legs with
  | Err hint => GRet (answer_with 400 (HedgeRefused hint))
  | Ok (a, b) =>
      gated (order_gate app raw_token) (
      sigs <<- gjoin (sign_leg customer raw_token a) (sign_leg customer raw_token b);;
      match sigs with
      | (Ok leg_a, Ok leg_b) =>
          exec_task <<- gask (SpawnExecution leg_a leg_b);;
          joined <<- gask (JoinExecution exec_task);;
          GRet (match joined with
                | Some (status, res_a, res_b) => answer_with 200 (HedgeResponse status [res_a; res_b])
                | None => answer_with 500 HedgeUnknown
                end)
      | (sig_a, sig_b) =>
          GRet (answer_with (dominant_status (failures [sig_a; sig_b]))
                  (HedgeResponse "rejected" [unsigned_leg a sig_a; unsigned_leg b sig_b]))
      end)
  end.
End Hedge.
