(* ===== verification/GwGates.v ===== *)
(** * What the handlers may send, and what they answer

    For every route, every answer of the shared state and every interleaving of
    a hedge's legs: the message to the enclave carries the caller's own token
    and blob, orders and payments are sent only after the limits granted them
    and the tenant's state was read as active, and refusals say truthfully who
    decided them. *)

From S2P Require Import Prelude RustStr Crates Proto GwProto GwHost GwLimits GwTenant GwAuth GwWire GwCalls GwHandlers GwHedge.

Open Scope string_scope.
Open Scope list_scope.
Open Scope Z_scope.

(** ** Messages *)

Definition order_actions : list string :=
  ["sign_binance_order"; "sign_okx_order"; "sign_hyperliquid_main_order"; "sign_hyperliquid_testnet_order"].
Definition is_order (req : VsockRequest) : bool :=
  str_in (vq_action req) order_actions ||
  (bool_decide (vq_action req = "sign_binance_request") && bool_decide (vq_op req = Some "order")).

(** The calls the gateway builds itself on the generic actions. *)
Definition own_calls : list (string * string) :=
  [("GET", "/fapi/v2/account"); ("GET", "/fapi/v1/openOrders"); ("GET", "/fapi/v1/userTrades");
   ("DELETE", "/fapi/v1/allOpenOrders"); ("GET", "/api/v5/account/balance"); ("GET", "/api/v5/account/positions");
   ("GET", "/api/v5/trade/orders-pending"); ("GET", "/api/v5/trade/fills-history")].
Definition own_call (method path : option string) : bool :=
  match method, path with Some m, Some p => bool_decide ((m, p) ∈ own_calls) | _, _ => false end.

(** Cancels, reads and the heartbeat: nothing here adds exposure or moves money. *)
Definition harmless (req : VsockRequest) : bool :=
  str_in (vq_action req) ["sign_binance_cancel"; "sign_okx_cancel"; "sign_hyperliquid_main_cancel";
                          "sign_hyperliquid_testnet_cancel"; "receipt_heartbeat"] ||
  (bool_decide (vq_action req = "sign_binance_request") &&
   match vq_op req with
   | Some op => str_in op ["cancel"; "allOpenOrders"; "account"; "positionRisk"; "openOrders"; "orderStatus"; "userTrades"; "income"]
   | None => false
   end) ||
  (str_in (vq_action req) ["sign_binance"; "sign_okx"] && own_call (vq_method req) (vq_path req)).

Lemma order_not_harmless req : is_order req = true -> harmless req = false.
Proof.
  unfold is_order, harmless, order_actions. intros [Ha|[Ha Ho]%andb_true_iff]%orb_true_iff.
  - apply str_in_spec in Ha. set_unfold in Ha. destruct_or! Ha; rewrite ?Ha; done.
  - apply bool_decide_eq_true in Ha, Ho. rewrite Ha, Ho. reflexivity.
Qed.

Definition seen {X} (tr : list gevent) (c : gcall X) (x : X) : Prop := gev c x ∈ tr.

Lemma seen_mono {X} tr tr' (c : gcall X) x : tr ⊆ tr' -> seen tr c x -> seen tr' c x.
Proof. unfold seen. auto. Qed.
Lemma seen_now {X} tr (c : gcall X) x : seen (gev c x :: tr) c x.
Proof. by left. Qed.

Section Gates.
Context `{Crates, Cbor, JsonText} (app : AppConfig) (customer token : string).

(** The limits granted an order to this token. *)
Definition order_granted (tr : list gevent) : Prop :=
  (exists now, seen tr (OrdersRate token now) Allow) /\
  (is_Some (daily_cap (limits app)) -> exists now, seen tr (CountOrder token now) (Some Allow)).

(** The limits granted this payment to the key it will be signed with. *)
Definition spend_granted (tr : list gevent) (req : VsockRequest) : Prop :=
  exists stem value text, vq_key_blob_s3_key req = Some (secrets_key stem) /\
    (vq_x402 req ≫= jget "value") = Some (JStr text) /\ parse_unsigned 128 (trim text) = Some value /\
    (is_Some (x402_period_cap (limits app)) -> exists now, seen tr (CountSpend (blob_key customer stem) (Z.to_N value) now) (Some Allow)).

(** The caller's own credentials. *)
Definition own_credentials (req : VsockRequest) : Prop :=
  vq_opaque_token req = Some token /\
  match vq_ciphertext_blob_base64 req with
  | None => vq_action req = "receipt_heartbeat"
  | Some b64 => exists stem blob, blobs app !! blob_key customer stem = Some blob /\ b64 = b64_encode blob /\
      vq_key_blob_s3_key req = Some (secrets_key stem)
  end.

Definition active (tr : list gevent) : Prop := seen tr (StateOf customer) Active.
Definition not_halted (tr : list gevent) : Prop := exists s, s <> Halted /\ seen tr (StateOf customer) s.

Definition message_ok (tr : list gevent) (req : VsockRequest) : Prop :=
  own_credentials req /\ (is_order req = true -> order_granted tr) /\
  (vq_action req = "sign_x402_eip3009" -> spend_granted tr req) /\
  (harmless req = false -> active tr) /\ (vq_action req <> "receipt_heartbeat" -> not_halted tr).

Definition own_scope (scope : string) : Prop := exists stem, scope = blob_key customer stem.

Definition call_ok (tr : list gevent) (X : Type) (c : gcall X) : Prop :=
  match c with
  | RoundTrip req => message_ok tr req
  | Archive c _ | StateOf c => c = customer
  | BlanketRate t _ | OrdersRate t _ | CancelsRate t _ | CountOrder t _ => t = token
  | CountSpend scope _ _ | BackoffAllow scope | BackoffSuccess scope | BackoffLimited scope => own_scope scope
  | SpawnExecution _ _ => active tr /\ order_granted tr
  | JoinExecution handle => exists leg_a leg_b, seen tr (SpawnExecution leg_a leg_b) handle
  | SendVenue _ | VenueReply _ => False
  | _ => True
  end.

(** ** Answers *)

Definition gateway_codes : list string :=
  [gw_code.TENANT_CANCEL_ONLY; gw_code.TENANT_HALTED; gw_code.UNAUTHORIZED] ++ WIRE_OK_ERROR_CODES.

(** The enclave answered without an error. *)
Definition answered (tr : list gevent) : Prop := exists req r, seen tr (RoundTrip req) (Some r) /\ vs_error r = None.

(** A refusal with its code, the code's own status, and who decided. *)
Definition honest_refusal (tr : list gevent) (status : Z) (e : ErrorResponse) : Prop :=
  status = http_status_for (er_error e) /\ er_error e ∈ gateway_codes /\
  ((er_decided_by e = "gateway" /\ er_receipt e = None) \/
   (er_decided_by e = "enclave" /\ exists req r code, seen tr (RoundTrip req) (Some r) /\ vs_error r = Some code /\
      er_error e = safe_wire_code code /\ (er_receipt e = None \/ er_receipt e = vs_receipt r))).

(** Why a leg of a hedge is not signed: a refusal such as a single order gets, no
    venue for it, or an enclave answer that makes no request. *)
Definition leg_refused (tr : list gevent) (leg : HedgeLegSpec) (status : Z) : Prop :=
  (exists e, honest_refusal tr status e) \/ (status = 400 /\ leg_venue leg ∉ ["binance"; "okx"]) \/ (status = 500 /\ answered tr).
Definition leg_signed (leg : HedgeLegSpec) (tr : list gevent) (r : result Z VenueCall) : Prop :=
  match r with Ok _ => answered tr | Err s => leg_refused tr leg s end.

(** How a leg that was not executed is reported. *)
Definition leg_reported (leg : HedgeLegSpec) (r : result Z VenueCall) (lr : HedgeLegResult) : Prop :=
  lr_venue lr = leg_venue leg /\ lr_phase lr = "sign_failed" /\ lr_ok lr = false /\ lr_outcome lr = LegRejected /\ lr_response lr = None /\
  match r with
  | Err s => lr_http_status lr = Some s /\ lr_error lr = Some (sign_error_label s)
  | Ok _ => lr_http_status lr = None /\ lr_error lr = Some "not_executed_peer_leg_failed"
  end.

(** A hedge's report: of the signing, when a leg was refused, with the status of
    the refusal that dominates, never 200; or of the execution that was awaited. *)
Definition honest_hedge (tr : list gevent) (http : Z) (status : string) (legs : list HedgeLegResult) : Prop :=
  (status = "rejected" /\ http <> 200 /\ exists a b ra rb la lb, legs = [la; lb] /\
     leg_signed a tr ra /\ leg_signed b tr rb /\ leg_reported a ra la /\ leg_reported b rb lb /\
     http ∈ failures [ra; rb] /\ http = dominant_status (failures [ra; rb])) \/
  (http = 200 /\ exists leg_a leg_b handle la lb, legs = [la; lb] /\ seen tr (SpawnExecution leg_a leg_b) handle /\
     seen tr (JoinExecution handle) (Some (status, la, lb))).

(** Every answer, by its body: a refusal names its code and who decided; a hedge
    reports its legs, or that its shape was refused, or that the outcome of its
    execution is unknown, which is when awaiting it failed; anything else is a
    success, after an enclave answer without error. *)
Definition honest (tr : list gevent) (resp : Response) : Prop :=
  match h_body resp with
  | ErrorBody e => honest_refusal tr (h_status resp) e
  | HedgeRefused _ => h_status resp = 400
  | HedgeResponse status legs => honest_hedge tr (h_status resp) status legs
  | HedgeUnknown => h_status resp = 500 /\ exists leg_a leg_b handle, seen tr (SpawnExecution leg_a leg_b) handle /\ seen tr (JoinExecution handle) None
  | _ => h_status resp = 200 /\ answered tr
  end.
(** A refusal, as the gates and the enclave's errors give it. *)
Definition refuses (tr : list gevent) (resp : Response) : Prop := exists e, h_body resp = ErrorBody e /\ honest_refusal tr (h_status resp) e.

(** ** Stability *)

Lemma order_granted_stable tr tr' : tr ⊆ tr' -> order_granted tr -> order_granted tr'.
Proof using.
  intros Hs [[n Hr] Hc]. split; [exists n; by eapply seen_mono|]. intros Hd. destruct (Hc Hd) as [m Hm]. exists m. by eapply seen_mono.
Qed.
Lemma spend_granted_stable tr tr' req : tr ⊆ tr' -> spend_granted tr req -> spend_granted tr' req.
Proof using.
  intros Hs (stem & v & text & H1' & H2' & H3 & Hc). exists stem, v, text. split_and!; [done..|]. intros Hd.
  destruct (Hc Hd) as [n Hn]. exists n. by eapply seen_mono.
Qed.
Lemma active_stable tr tr' : tr ⊆ tr' -> active tr -> active tr'.
Proof using. apply seen_mono. Qed.
Lemma not_halted_stable tr tr' : tr ⊆ tr' -> not_halted tr -> not_halted tr'.
Proof using. intros Hs (s & Hn & Hh). exists s. split; [done|by eapply seen_mono]. Qed.
Lemma active_not_halted tr : active tr -> not_halted tr.
Proof using. intros Ha. by exists Active. Qed.

Lemma call_ok_stable : stable_pre call_ok.
Proof using.
  intros tr tr' X c Hs. destruct c; cbn; try done.
  - intros (Ho & Hord & Hx & Ha & Hh). split_and!; eauto using order_granted_stable, spend_granted_stable, active_stable, not_halted_stable.
  - intros [Ha Ho]. eauto using order_granted_stable, active_stable.
  - intros (a & b & Ha). exists a, b. by eapply seen_mono.
Qed.

Lemma answered_stable tr tr' : tr ⊆ tr' -> answered tr -> answered tr'.
Proof using. intros Hs (q & r & Hr & He). exists q, r. split; [by eapply seen_mono|done]. Qed.

Lemma honest_refusal_stable tr tr' status e : tr ⊆ tr' -> honest_refusal tr status e -> honest_refusal tr' status e.
Proof using.
  intros Hs (Hst & Hc & [Hg|(Hd & q & r & code & Hr & He)]); split_and!; auto. right. split; [done|].
  exists q, r, code. split; [by eapply seen_mono|done].
Qed.
Lemma refuses_stable : stable refuses.
Proof using. intros tr tr' resp Hs (e & He & Hr). exists e. split; [done|]. by eapply honest_refusal_stable. Qed.

Lemma leg_signed_stable leg : stable (leg_signed leg).
Proof using.
  intros tr tr' [c|s] Hs; cbn; [by apply answered_stable|]. intros [[e He]|[Hn|[Hst Ha]]]; [left|right; by left|right; right].
  - exists e. by eapply honest_refusal_stable.
  - split; [done|]. by eapply answered_stable.
Qed.

Lemma honest_stable : stable honest.
Proof using.
  intros tr tr' resp Hs. unfold honest. destruct (h_body resp); try (intros [Hst Ha]; split; [done|by eapply answered_stable]).
  - by apply honest_refusal_stable.
  - done.
  - intros [(Hst & Hne & a & b & ra & rb & la & lb & Hl & Ha & Hb & Hrest)|(Hst & ca & cb & h & la & lb & Hl & Hsp & Hj)]; [left|right].
    + split_and!; [done..|]. exists a, b, ra, rb, la, lb. split_and!; [done|by eapply leg_signed_stable|by eapply leg_signed_stable|apply Hrest..].
    + split; [done|]. exists ca, cb, h, la, lb. split_and!; [done|by eapply seen_mono..].
  - intros [Hst (ca & cb & h & Hsp & Hj)]. split; [done|]. exists ca, cb, h. split; by eapply seen_mono.
Qed.

Lemma refuses_honest tr resp : refuses tr resp -> honest tr resp.
Proof using. intros (e & He & Hr). unfold honest. by rewrite He. Qed.

(** ** The gates *)

(** [tr'] continues [tr]. *)
Definition ok_prog {A} (p : gprog A) (tr : list gevent) (Q : list gevent -> A -> Prop) : Prop :=
  gall call_ok p tr (fun tr' r => tr ⊆ tr' /\ Q tr' r).

Lemma reply_refuses tr code : code ∈ gateway_codes -> refuses tr (error_response code).
Proof using.
  intros Hc. unfold refuses, honest_refusal, error_response, answer_with, ErrorResponse_new. cbn [h_body h_status].
  destruct (denial_meta code) as [[d r] cl]. cbn. eauto 10.
Qed.
Lemma reply_honest tr code : code ∈ gateway_codes -> honest tr (error_response code).
Proof using. intros Hc. by apply refuses_honest, reply_refuses. Qed.

Lemma reply_ok tr code : bool_decide (code ∈ gateway_codes) = true -> gall call_ok (reply code) tr honest.
Proof using. intros Hc%bool_decide_eq_true. cbn. by apply reply_honest. Qed.

Lemma limit_response_None d : limit_response d = None -> d = Allow.
Proof using. by destruct d. Qed.
Lemma limit_response_honest tr d resp : limit_response d = Some resp -> honest tr resp.
Proof using. destruct d; [done|intros [= <-]..]; unfold honest, honest_refusal; cbn; (split; [done|]); (split; [apply (bool_decide_unpack _); vm_compute; exact I|auto]). Qed.

Lemma order_gate_ok tr :
  ok_prog (order_gate app token) tr (fun tr' r => match r with Some resp => honest tr' resp | None => order_granted tr' end).
Proof using.
  unfold order_gate, ok_prog. do 2 (apply gall_bind, gall_ask; [done|]; intros ?).
  destruct (limit_response _) as [resp|] eqn:E; cbn [gall].
  { split; [set_solver|]. by eapply limit_response_honest. }
  apply limit_response_None in E as ->. destruct (negb _) eqn:Hd; cbn [gall].
  { apply negb_true_iff, bool_decide_eq_false in Hd. split; [set_solver|]. split; [eexists; apply seen_now|done]. }
  do 2 (split; [done|]; intros ?). split; [set_solver|].
  destruct (limit_response _) as [resp|] eqn:E; [by eapply limit_response_honest|]. apply limit_response_None in E.
  match goal with d : option LimitDecision |- _ => destruct d as [d'|]; cbn in E; [subst d'|done] end.
  split; [eexists; right; right; apply seen_now|]. intros _. eexists. apply seen_now.
Qed.

Lemma cancel_gate_ok tr :
  ok_prog (cancel_gate token) tr (fun tr' r => match r with Some resp => honest tr' resp | None => True end).
Proof using.
  cbn. split; [done|]. intros n. split; [done|]. intros d. split; [set_solver|].
  destruct (limit_response d) eqn:E; [by eapply limit_response_honest|done].
Qed.

Lemma spend_gate_ok tr stem value :
  ok_prog (x402_spend_gate app (blob_key customer stem) value) tr (fun tr' r => match r with
    | Some resp => honest tr' resp
    | None => is_Some (x402_period_cap (limits app)) -> exists now, seen tr' (CountSpend (blob_key customer stem) value now) (Some Allow)
    end).
Proof using.
  unfold x402_spend_gate, ok_prog. destruct (negb _) eqn:Hd; cbn [gall].
  { apply negb_true_iff, bool_decide_eq_false in Hd. done. }
  cbn. split; [done|]. intros n. split; [by eexists|]. intros d. split; [set_solver|].
  destruct (limit_response _) as [resp|] eqn:E; [by eapply limit_response_honest|]. apply limit_response_None in E.
  destruct d as [d|]; cbn in E; [subst d|done]. intros _. eexists. apply seen_now.
Qed.

Lemma tenant_decide_err s class code : tenant_decide s class = Err code -> code ∈ gateway_codes.
Proof using. destruct s, class; cbn; intros [= <-]; apply (bool_decide_unpack _); vm_compute; exact I. Qed.

Lemma body_gate_ok tr class : class <> Exempt ->
  ok_prog (body_gate customer class) tr (fun tr' r => match r with
    | Some resp => honest tr' resp
    | None => not_halted tr' /\ (class ∈ [ROrder; MoneyMoving; RUnknown] -> active tr')
    end).
Proof using.
  intros Hne. cbn. split; [done|]. intros s. split; [set_solver|].
  destruct (tenant_decide s class) as [[]|code] eqn:E; [|apply reply_honest; by eapply tenant_decide_err]. split.
  - exists s. split; [|apply seen_now]. by destruct s, class.
  - intros Hc. assert (s = Active) as ->; [|apply seen_now]. destruct s, class; try done; set_solver.
Qed.

Lemma gated_ok gate k tr (G : list gevent -> Prop) :
  ok_prog gate tr (fun tr' r => match r with Some resp => honest tr' resp | None => G tr' end) ->
  (forall tr', tr ⊆ tr' -> G tr' -> gall call_ok k tr' honest) -> gall call_ok (gated gate k) tr honest.
Proof using.
  intros Hg Hk. unfold gated. apply gall_bind. eapply gall_mono; [exact Hg|]. intros tr' [resp|] [Hs Hr]; [done|auto].
Qed.

(** ** After the enclave's answer *)

Lemma take_receipt_ok tr resp : ok_prog (take_receipt resp customer) tr (fun _ r => r = vs_receipt resp).
Proof using. unfold take_receipt, ok_prog. destruct (vs_receipt resp) as [r|]; cbn; [|done]. split; [done|]. intros ?. split; [set_solver|done]. Qed.

Lemma wire_in_gateway code : safe_wire_code code ∈ gateway_codes.
Proof using. unfold gateway_codes. apply elem_of_app. right. apply safe_wire_code_listed. Qed.

Lemma enclave_error_refuses tr req r code receipt :
  seen tr (RoundTrip req) (Some r) -> vs_error r = Some code -> receipt = None \/ receipt = vs_receipt r ->
  refuses tr (enclave_error_response (safe_wire_code code) receipt).
Proof using.
  intros Hs He Hr. unfold refuses, honest_refusal, enclave_error_response, answer_with, from_enclave, ErrorResponse_new. cbn [h_body h_status].
  destruct (denial_meta (safe_wire_code code)) as [[d c] cl]. cbn. eexists. split; [reflexivity|]. cbn. split; [done|]. split; [apply wire_in_gateway|].
  right. split; [done|]. by exists req, r, code.
Qed.

Lemma enclave_refusal_ok tr scope req r code receipt :
  own_scope scope -> seen tr (RoundTrip req) (Some r) -> vs_error r = Some code -> receipt = vs_receipt r ->
  ok_prog (enclave_refusal scope code receipt) tr refuses.
Proof using.
  intros Hsc Hs He ->. unfold enclave_refusal, ok_prog. cbv zeta. case_decide; cbn [gall gbind gask].
  - split; [done|]. intros x. split; [apply sub_cons|]. exact (enclave_error_refuses _ req r code _ (seen_mono _ _ _ _ (sub_cons tr _) Hs) He (or_intror eq_refl)).
  - split; [done|]. exact (enclave_error_refuses _ req r code _ Hs He (or_intror eq_refl)).
Qed.

(** The bodies of a success: neither a refusal nor a hedge's. *)
Definition success_body (body : Body) : Prop :=
  match body with ErrorBody _ | HedgeRefused _ | HedgeResponse _ _ | HedgeUnknown => False | _ => True end.
Lemma success_honest tr resp : answered tr -> h_status resp = 200 -> success_body (h_body resp) -> honest tr resp.
Proof using. intros Ha Hst Hb. unfold honest. by destruct (h_body resp). Qed.

(** A program that reads the state, sends [message], and answers by [after]. *)
Ltac ret_ok := first [apply reply_ok; vm_compute; reflexivity | cbn; apply reply_honest; apply (bool_decide_unpack _); vm_compute; exact I].

Lemma sent_answered tr req r : vs_error r = None -> answered (gev (RoundTrip req) (Some r) :: tr).
Proof using. intros He. exists req, r. split; [apply seen_now|done]. Qed.

(** A round trip whose message is in order, and what follows it. *)
Lemma round_trip_ok {A} tr req (k : option VsockResponse -> gprog A) Q :
  message_ok tr req -> gall call_ok (k None) (gev (RoundTrip req) None :: tr) Q ->
  (forall r, gall call_ok (k (Some r)) (gev (RoundTrip req) (Some r) :: tr) Q) ->
  gall call_ok (gbind (gask (RoundTrip req)) k) tr Q.
Proof using. intros Hm Hn Hs. apply gall_bind, gall_ask; [done|]. intros [r|]; [apply Hs|apply Hn]. Qed.

Lemma sign_answer_ok tr scope req r :
  own_scope scope -> seen tr (RoundTrip req) (Some r) -> gall call_ok (sign_answer customer scope r) tr honest.
Proof using.
  intros Hsc Hs. unfold sign_answer. apply gall_bind. eapply gall_mono; [apply take_receipt_ok|]. intros tr' ? [Hsub ->].
  apply (seen_mono _ _ _ _ Hsub) in Hs. destruct (vs_error r) as [code|] eqn:He.
  { eapply gall_mono; [by eapply enclave_refusal_ok|]. intros ? ? [_ ?]. by apply refuses_honest. }
  assert (answered tr') as Ha by (by exists req, r).
  destruct (vs_hl_signature r); [|destruct (vs_headers r); [|ret_ok]]; cbn [gall gbind gask]; (split; [done|]); intros ?;
    (apply success_honest; [by eapply answered_stable; [apply sub_cons|]|done..]).
Qed.

Lemma two_headers_answer_ok tr scope first second mk req r :
  own_scope scope -> seen tr (RoundTrip req) (Some r) -> (forall a b c, success_body (mk a b c)) ->
  gall call_ok (two_headers_answer customer scope first second mk r) tr honest.
Proof using.
  intros Hsc Hs Hmk. unfold two_headers_answer. apply gall_bind. eapply gall_mono; [apply take_receipt_ok|]. intros tr' ? [Hsub ->].
  apply (seen_mono _ _ _ _ Hsub) in Hs. destruct (vs_error r) as [code|] eqn:He.
  { eapply gall_mono; [by eapply enclave_refusal_ok|]. intros ? ? [_ ?]. by apply refuses_honest. }
  assert (answered tr') as Ha by (by exists req, r).
  destruct (_ !! first); [|ret_ok]. destruct (_ !! second); [|ret_ok]. cbn [gall gbind gask]. split; [done|]. intros ?.
  apply success_honest; [by eapply answered_stable; [apply sub_cons|]|done|]. apply Hmk.
Qed.

Lemma binance_request_answer_ok tr scope req r :
  own_scope scope -> seen tr (RoundTrip req) (Some r) -> gall call_ok (binance_request_answer customer scope r) tr honest.
Proof using.
  intros Hsc Hs. unfold binance_request_answer. apply gall_bind. eapply gall_mono; [apply take_receipt_ok|]. intros tr' ? [Hsub ->].
  apply (seen_mono _ _ _ _ Hsub) in Hs. destruct (vs_error r) as [code|] eqn:He.
  { cbn [binance_request_wire_error]. case_decide; cbn [gall gbind gask]; [split; [done|]; intros ?|]; (eapply refuses_honest, enclave_error_refuses; [|done|by right]); [by right|done]. }
  assert (answered tr') as Ha by (by exists req, r).
  destruct (vs_headers r); [|ret_ok]. destruct (_ !! "signature"); [|ret_ok]. destruct (_ !! "api_key"); [|ret_ok].
  cbn [gall gbind gask]. split; [done|]. intros ?. apply success_honest; [by eapply answered_stable; [apply sub_cons|]|done..].
Qed.

(** ** The handlers *)

Ltac call_step := apply gall_bind, gall_ask; [done|]; intros ?.
Ltac no_order := let Ho := fresh in intros Ho; vm_compute in Ho; discriminate Ho.

(** The credentials every keyed message carries. *)
Lemma keyed_credentials req stem blob :
  blobs app !! blob_key customer stem = Some blob -> vq_opaque_token req = Some token ->
  vq_ciphertext_blob_base64 req = Some (b64_encode blob) -> vq_key_blob_s3_key req = Some (secrets_key stem) ->
  own_credentials req.
Proof using. intros Hb Ht Hc Hk. split; [done|]. rewrite Hc. by exists stem, blob. Qed.

Definition sign_actions : list string :=
  ["sign_kucoin"; "sign_binance"; "sign_bybit"; "sign_okx"; "sign_asterdex"; "sign_hyperliquid_main_order";
   "sign_hyperliquid_main_cancel"; "sign_hyperliquid_testnet_order"; "sign_hyperliquid_testnet_cancel"].

(** What the gates of [/sign] establish for each action. *)
Definition sign_gated (action : string) (tr : list gevent) : Prop :=
  not_halted tr /\
  (str_in action ["sign_hyperliquid_main_cancel"; "sign_hyperliquid_testnet_cancel"] = false -> active tr) /\
  (str_in action ["sign_hyperliquid_main_order"; "sign_hyperliquid_testnet_order"] = true -> order_granted tr).

Lemma sign_gates_ok action k tr : action ∈ sign_actions ->
  (forall tr', sign_gated action tr' -> gall call_ok k tr' honest) -> gall call_ok (sign_gates app action customer token k) tr honest.
Proof using.
  intros Ha Hk. unfold sign_gates. eapply gated_ok; [apply body_gate_ok|].
  { unfold sign_class. by destruct (ends_with "_order" action), (ends_with "_cancel" action). }
  intros tr1 _ [Hh Hact].
  assert (str_in action ["sign_hyperliquid_main_cancel"; "sign_hyperliquid_testnet_cancel"] = false -> active tr1) as Hact'.
  { clear - Ha Hact. intros Hf. apply Hact. unfold sign_actions in Ha. set_unfold in Ha. destruct_or! Ha; subst action; try discriminate Hf; apply (bool_decide_unpack _); vm_compute; exact I. }
  clear Hact. destruct (str_in action ["sign_hyperliquid_main_order"; "sign_hyperliquid_testnet_order"]) eqn:Ho.
  - eapply gated_ok; [apply order_gate_ok|]. intros tr2 Hs2 Hg.
    destruct (str_in action ["sign_hyperliquid_main_cancel"; "sign_hyperliquid_testnet_cancel"]) eqn:Hcan.
    + eapply gated_ok; [apply cancel_gate_ok|]. intros tr3 Hs3 _. apply Hk.
      assert (tr1 ⊆ tr3) as Hs13 by (by etrans). split_and!; [exact (not_halted_stable _ _ Hs13 Hh)|congruence|].
      intros _. exact (order_granted_stable _ _ Hs3 Hg).
    + apply Hk. split_and!; [exact (not_halted_stable _ _ Hs2 Hh)|intros Hc; exact (active_stable _ _ Hs2 (Hact' eq_refl))|done].
  - destruct (str_in action ["sign_hyperliquid_main_cancel"; "sign_hyperliquid_testnet_cancel"]) eqn:Hcan.
    + eapply gated_ok; [apply cancel_gate_ok|]. intros tr3 Hs3 _. apply Hk. split_and!; [exact (not_halted_stable _ _ Hs3 Hh)|congruence..].
    + apply Hk. split_and!; [done|auto|congruence].
Qed.

Lemma sign_message_ok req action blob ts creds tr :
  action ∈ sign_actions -> sign_gated action tr -> blobs app !! blob_key customer (sq_exchange req) = Some blob ->
  message_ok tr (sign_request req action token blob ts creds).
Proof using.
  intros Ha (Hh & Hact & Hord) Hb.
  assert (vq_action (sign_request req action token blob ts creds) = action /\ own_credentials (sign_request req action token blob ts creds)) as [Hq Hown].
  { unfold sign_request. destruct (route_query _ _ _). split; [done|]. by eapply keyed_credentials. }
  set (m := sign_request req action token blob ts creds) in *. split; [done|].
  assert (str_in action ["sign_hyperliquid_main_cancel"; "sign_hyperliquid_testnet_cancel"] = true -> harmless m = true) as Hharm.
  { unfold harmless. rewrite Hq. intros Hc%str_in_spec. set_unfold in Hc. destruct_or! Hc; by rewrite Hc. }
  assert (is_order m = true -> str_in action ["sign_hyperliquid_main_order"; "sign_hyperliquid_testnet_order"] = true) as Hio.
  { unfold is_order. rewrite Hq. clear - Ha. unfold sign_actions in Ha. set_unfold in Ha.
    destruct_or! Ha; rewrite Ha; first [done | intros Ho; vm_compute in Ho; discriminate Ho]. }
  split; [auto|]. rewrite Hq. clear Hio. split_and!.
  - intros ->. exfalso. clear - Ha. unfold sign_actions in Ha. set_unfold in Ha. by destruct_or! Ha.
  - intros Hf. apply Hact. destruct (str_in action _); [|done]. by rewrite Hharm in Hf.
  - done.
Qed.

Lemma post_sign_ok req tr : gall call_ok (post_sign app customer token req) tr honest.
Proof using.
  unfold post_sign. destruct (negb _); [ret_ok|]. call_step. destruct (resolve_timestamp _ _) as [ts|]; [|ret_ok].
  destruct (is_withdrawal_kind _); [ret_ok|]. destruct (enclave_action_for _ _) as [action|] eqn:Ha; [|destruct (str_in (sq_exchange req) _); ret_ok].
  apply enclave_action_reach in Ha as (_ & Ha & _). apply sign_gates_ok; [exact Ha|]. intros tr1 Hg.
  apply gall_bind, gall_ask; [done|]. intros [creds|]; [|ret_ok]. destruct (blobs app !! _) as [blob|] eqn:Hb; [|ret_ok].
  apply gall_bind, gall_ask; [by eexists|]. intros [|]; [|ret_ok]. cbn [negb].
  apply round_trip_ok; [|ret_ok|].
  - eapply sign_message_ok; [exact Ha| |exact Hb]. destruct Hg as (Hh & Hact & Ho).
    split_and!; intros; eauto using not_halted_stable, active_stable, order_granted_stable, sub_cons.
  - intros r. eapply sign_answer_ok; [by eexists|apply seen_now].
Qed.

Lemma x402_value_field p : jget "value" (x402_to_value p) = Some (JStr (xq_value p)).
Proof using. reflexivity. Qed.

Lemma post_sign_x402_ok req tr : active tr -> gall call_ok (post_sign_x402 app customer token req) tr honest.
Proof using.
  intros Hact. unfold post_sign_x402. destruct (negb _); [ret_ok|]. destruct (blobs app !! _) as [blob|] eqn:Hb; [|ret_ok].
  destruct (parse_unsigned _ _) as [value|] eqn:Hv; [|ret_ok].
  eapply gated_ok; [apply spend_gate_ok|]. intros tr1 Hs1 Hg.
  apply gall_bind, gall_ask; [done|]. intros [creds|]; [|ret_ok]. call_step.
  apply gall_bind, gall_ask; [by eexists|]. intros [|]; [|ret_ok]. cbn [negb].
  apply round_trip_ok; [|ret_ok|intros r; eapply two_headers_answer_ok; [by eexists|apply seen_now|done]].
  match goal with |- message_ok ?t _ => assert (tr1 ⊆ t) as Hs2 by (by repeat apply list_subseteq_cons); assert (tr ⊆ t) as Hs3 by (by etrans) end.
  split; [by eapply keyed_credentials|]. split; [no_order|]. split_and!.
  - intros _. exists (x4_key_id req), value, (xq_value (x4_x402 req)). split_and!; [done..|]. intros Hc.
    destruct (Hg Hc) as [n Hn]. exists n. exact (seen_mono _ _ _ _ Hs2 Hn).
  - intros _. exact (active_stable _ _ Hs3 Hact).
  - intros _. exact (active_not_halted _ (active_stable _ _ Hs3 Hact)).
Qed.

Lemma post_sign_permit2_ok req tr : active tr -> gall call_ok (post_sign_permit2 app customer token req) tr honest.
Proof using.
  intros Hact. unfold post_sign_permit2. destruct (negb _); [ret_ok|]. destruct (blobs app !! _) as [blob|] eqn:Hb; [|ret_ok].
  apply gall_bind, gall_ask; [by eexists|]. intros [|]; [|ret_ok]. cbn [negb].
  apply gall_bind, gall_ask; [done|]. intros [creds|]; [|ret_ok]. call_step.
  apply round_trip_ok; [|ret_ok|intros r; eapply two_headers_answer_ok; [by eexists|apply seen_now|done]].
  match goal with |- message_ok ?t _ => assert (tr ⊆ t) as Hs by (by repeat apply list_subseteq_cons) end.
  split; [by eapply keyed_credentials|]. split; [no_order|]. split; [no_order|]. pose proof (active_stable _ _ Hs Hact). split; [done|].
  intros _. by apply active_not_halted.
Qed.

(** What the gates of [/sign/binance-request] establish for each op. *)
Definition op_gated (op : string) (tr : list gevent) : Prop :=
  not_halted tr /\ (classify_binance_op op ∈ [ROrder; MoneyMoving; RUnknown] -> active tr) /\ (op = "order" -> order_granted tr).

Lemma op_message_ok req blob creds tr :
  op_gated (br_op req) tr -> blobs app !! blob_key customer (br_key_id req) = Some blob ->
  message_ok tr (key_request "sign_binance_request" token (br_key_id req) blob creds None None None (Some (br_op req)) (Some (br_payload req))).
Proof using.
  intros (Hh & Hact & Hord) Hb. split; [by eapply keyed_credentials|]. unfold is_order, harmless. cbn [vq_action vq_op key_request].
  split; [|split; [done|split; [|done]]].
  - intros [Ho|[_ Ho%bool_decide_eq_true]%andb_true_iff]%orb_true_iff; [vm_compute in Ho; discriminate Ho|].
    apply Hord. congruence.
  - intros [[_ Hf]%orb_false_iff _]%orb_false_iff. rewrite bool_decide_true in Hf by done. cbn [andb] in Hf. apply Hact.
    unfold classify_binance_op. destruct (str_in (br_op req) ["order"]); [by left|].
    destruct (str_in (br_op req) ["cancel"; "allOpenOrders"]) eqn:E1.
    { exfalso. apply str_in_spec in E1. set_unfold in E1. destruct_or! E1; rewrite E1 in Hf; vm_compute in Hf; discriminate Hf. }
    destruct (str_in (br_op req) ["account"; "positionRisk"; "openOrders"; "orderStatus"; "userTrades"; "income"]) eqn:E2; [|by right; right; left].
    exfalso. apply str_in_spec in E2. set_unfold in E2. destruct_or! E2; rewrite E2 in Hf; vm_compute in Hf; discriminate Hf.
Qed.

Lemma op_gated_stable op tr tr' : tr ⊆ tr' -> op_gated op tr -> op_gated op tr'.
Proof using. intros Hs (Hh & Ha & Ho). split_and!; eauto using not_halted_stable, active_stable, order_granted_stable. Qed.

Lemma binance_request_exchange_ok req tr :
  op_gated (br_op req) tr -> gall call_ok (binance_request_exchange app customer token req) tr honest.
Proof using.
  intros Hg. unfold binance_request_exchange. destruct (blobs app !! _) as [blob|] eqn:Hb; [|ret_ok].
  apply gall_bind, gall_ask; [by eexists|]. intros [|]; [|ret_ok]. cbn [negb].
  apply gall_bind, gall_ask; [done|]. intros [creds|]; [|ret_ok].
  apply round_trip_ok; [|ret_ok|intros r; eapply binance_request_answer_ok; [by eexists|apply seen_now]].
  apply op_message_ok; [|done]. eapply op_gated_stable; [|exact Hg]. by repeat apply list_subseteq_cons.
Qed.

Lemma post_sign_binance_request_ok req tr : gall call_ok (post_sign_binance_request app customer token req) tr honest.
Proof using.
  unfold post_sign_binance_request. destruct (negb _); [ret_ok|]. eapply gated_ok; [apply body_gate_ok|].
  { unfold classify_binance_op. by repeat destruct (str_in _ _). }
  intros tr1 _ [Hh Hact]. destruct (bool_decide (br_op req = "order")) eqn:Ho.
  - apply bool_decide_eq_true in Ho. rewrite (bool_decide_false (br_op req = "cancel")) by congruence.
    eapply gated_ok; [apply order_gate_ok|]. intros tr2 Hs2 Hg. apply binance_request_exchange_ok.
    split_and!; eauto using not_halted_stable, active_stable.
  - apply bool_decide_eq_false in Ho. destruct (bool_decide (br_op req = "cancel")).
    + eapply gated_ok; [apply cancel_gate_ok|]. intros tr2 Hs2 _. apply binance_request_exchange_ok.
      split_and!; [eauto using not_halted_stable, active_stable..|done].
    + apply binance_request_exchange_ok. split_and!; auto. done.
Qed.

(** What happened stays in the history. *)
Lemma gall_keeps {A} (p : gprog A) tr Q : gall call_ok p tr Q -> gall call_ok p tr (fun t a => tr ⊆ t /\ Q t a).
Proof using.
  intros Hp. assert (forall t, tr ⊆ t -> gall call_ok p t Q -> gall call_ok p t (fun t' a => tr ⊆ t' /\ Q t' a)) as Hg; [|by apply Hg].
  clear Hp. induction p as [a|X c k IH]; cbn [gall]; [done|]. intros t Ht [Hc Hk]. split; [done|].
  intros x. apply IH; [by apply list_subseteq_cons|apply Hk].
Qed.

(** ** Structured requests *)

(** An error response, or the enclave answered. *)
Definition signed_or_refused {A} (tr : list gevent) (r : result Response A) : Prop :=
  match r with Err resp => refuses tr resp | Ok _ => answered tr end.

Lemma signed_or_refused_stable {A} : stable (signed_or_refused (A := A)).
Proof using. intros tr tr' [a|resp] Hs; [by apply answered_stable|by apply refuses_stable]. Qed.

(** [ok_prog] transports what was established before. *)
Lemma ok_prog_weaken {A} (p : gprog A) tr Q : ok_prog p tr Q -> gall call_ok p tr Q.
Proof using. intros Hp. eapply gall_mono; [exact Hp|]. by intros ? ? [_ ?]. Qed.

Lemma fail_ok {A} tr code : bool_decide (code ∈ gateway_codes) = true ->
  gall call_ok (GRet (Err (error_response code))) tr (signed_or_refused (A := A)).
Proof using. intros Hc%bool_decide_eq_true. cbn. by apply reply_refuses. Qed.
Ltac fail_ok := apply fail_ok; vm_compute; reflexivity.

(** What a structured message needs of the history, by its action. *)
Definition structured_gated (action : string) (tr : list gevent) : Prop :=
  (action ∈ ["sign_binance_order"; "sign_okx_order"] /\ active tr /\ order_granted tr) \/
  (action ∈ ["sign_binance_cancel"; "sign_okx_cancel"] /\ not_halted tr).
Lemma structured_gated_stable action tr tr' : tr ⊆ tr' -> structured_gated action tr -> structured_gated action tr'.
Proof using. intros Hs [(Ha & H1' & H2')|[Ha H1']]; [left|right]; split_and!; eauto using active_stable, order_granted_stable, not_halted_stable. Qed.

Lemma structured_message_ok action method path key_id blob creds ts order cancel intent tr :
  structured_gated action tr -> blobs app !! blob_key customer key_id = Some blob ->
  message_ok tr (structured_request action method path token key_id blob creds ts order cancel intent).
Proof using.
  intros Hg Hb. split; [by eapply keyed_credentials|]. unfold is_order, harmless. cbn [vq_action vq_op structured_request].
  destruct Hg as [(Ha & Hact & Ho)|(Ha & Hh)].
  - split; [done|]. split; [intros ->; exfalso; clear - Ha; set_unfold in Ha; by destruct_or! Ha|]. split; [done|].
    intros _. by apply active_not_halted.
  - set_unfold in Ha. destruct_or! Ha; subst action; (split; [no_order|]); (split; [done|]); (split; [no_order|done]).
Qed.

Lemma structured_answer_ok tr scope req r :
  own_scope scope -> seen tr (RoundTrip req) (Some r) -> gall call_ok (structured_answer customer scope r) tr signed_or_refused.
Proof using.
  intros Hsc Hs. unfold structured_answer. apply gall_bind. eapply gall_mono; [apply take_receipt_ok|]. intros tr' ? [Hsub ->].
  apply (seen_mono _ _ _ _ Hsub) in Hs. destruct (vs_error r) as [code|] eqn:He.
  { apply gall_bind. eapply gall_mono; [by eapply enclave_refusal_ok|]. by intros ? ? [_ ?]. }
  assert (answered tr') as Ha by (by exists req, r). destruct (vs_canonical_body r) as [c|]; [|fail_ok].
  destruct (is_empty c); [fail_ok|]. cbn [gall gbind gask]. split; [done|]. intros ?. by eapply answered_stable; [apply sub_cons|].
Qed.

Lemma sign_structured_request_ok key_id action method path structured intent tr :
  structured_gated action tr ->
  gall call_ok (sign_structured_request app customer token key_id action method path structured intent) tr signed_or_refused.
Proof using.
  intros Hg. unfold sign_structured_request. destruct (negb _); [fail_ok|].
  destruct (blobs app !! _) as [blob|] eqn:Hb; [|fail_ok].
  apply gall_bind, gall_ask; [by eexists|]. intros [|]; [|fail_ok]. cbn [negb].
  apply gall_bind, gall_ask; [done|]. intros [creds|]; [|fail_ok]. destruct (split_structured structured) as [[o c]|]; [|fail_ok].
  assert (forall ts t, tr ⊆ t -> gall call_ok (gbind (gask (RoundTrip (structured_request action method path token key_id blob creds ts o c intent)))
    (fun resp => match resp with Some resp => structured_answer customer (blob_key customer key_id) resp
                 | None => GRet (Err (error_response gw_code.ENCLAVE_UNREACHABLE)) end)) t signed_or_refused) as Hsend.
  { intros ts t Ht. apply round_trip_ok; [|fail_ok|intros r; eapply structured_answer_ok; [by eexists|apply seen_now]].
    apply structured_message_ok; [|done]. by eapply structured_gated_stable. }
  destruct (af_timestamp_ms intent); [cbn [gbind]; apply Hsend; by repeat apply list_subseteq_cons|].
  call_step. apply Hsend. by repeat apply list_subseteq_cons.
Qed.

Lemma or_return_ok {A} (p : gprog (result Response A)) k tr :
  gall call_ok p tr signed_or_refused -> (forall t a, answered t -> gall call_ok (k a) t honest) ->
  gall call_ok (or_return p k) tr honest.
Proof using. intros Hp Hk. unfold or_return. apply gall_bind. eapply gall_mono; [exact Hp|]. intros t [a|resp] Hr; [by apply Hk|by apply refuses_honest]. Qed.

Lemma binance_post_ok url signed t : answered t -> gall call_ok (binance_post url signed) t honest.
Proof using.
  intros Ha. destruct signed as [[canonical headers] receipt]. cbn [binance_post].
  destruct (build_binance_signed_qs _ _) as [[body h]|]; [|ret_ok]. by apply success_honest.
Qed.
Lemma binance_delete_ok url signed t : answered t -> gall call_ok (binance_delete url signed) t honest.
Proof using.
  intros Ha. destruct signed as [[canonical headers] receipt]. cbn [binance_delete].
  destruct (build_binance_signed_qs _ _) as [[body h]|]; [|ret_ok]. by apply success_honest.
Qed.
Lemma okx_post_ok path signed t : answered t -> gall call_ok (okx_post app path signed) t honest.
Proof using. intros Ha. destruct signed as [[canonical headers] receipt]. by apply success_honest. Qed.

Ltac order_route Hact := eapply gated_ok; [apply order_gate_ok|]; intros ? Hs ?; apply or_return_ok;
  [apply sign_structured_request_ok; left; split_and!; [set_solver|exact (active_stable _ _ Hs Hact)|done]|];
  intros ? ? ?; first [by apply binance_post_ok|by apply okx_post_ok].
Ltac cancel_route Hh := eapply gated_ok; [apply cancel_gate_ok|]; intros ? Hs _; apply or_return_ok;
  [apply sign_structured_request_ok; right; split_and!; [set_solver|exact (not_halted_stable _ _ Hs Hh)]|];
  intros ? ? ?; first [by apply binance_delete_ok|by apply okx_post_ok].

Lemma order_routes_ok req tr : active tr ->
  gall call_ok (post_sign_binance_order app customer token req) tr honest /\
  gall call_ok (post_sign_binance_spot_order app customer token req) tr honest /\
  gall call_ok (post_sign_okx_order app customer token req) tr honest.
Proof using.
  intros Hact. unfold post_sign_binance_order, post_sign_binance_spot_order, post_sign_okx_order. split_and!.
  - order_route Hact.
  - destruct (oq_reduce_only _); [ret_ok|]. order_route Hact.
  - order_route Hact.
Qed.
Lemma cancel_routes_ok req tr : not_halted tr ->
  gall call_ok (post_sign_binance_cancel app customer token req) tr honest /\
  gall call_ok (post_sign_binance_spot_cancel app customer token req) tr honest /\
  gall call_ok (post_sign_okx_cancel app customer token req) tr honest.
Proof using.
  intros Hh. unfold post_sign_binance_cancel, post_sign_binance_spot_cancel, post_sign_okx_cancel. split_and!; cancel_route Hh.
Qed.

(** ** Reads and mass cancel *)

Lemma read_message_ok venue action method path query blob creds ts tr :
  not_halted tr -> enclave_action_for venue None = Some action -> venue ∈ ["binance"; "okx"] -> (method, path) ∈ own_calls ->
  blobs app !! blob_key customer venue = Some blob ->
  message_ok tr (read_request action method path "" query token venue blob creds ts).
Proof using.
  intros Hh Ha Hv Hp Hb. split; [by eapply keyed_credentials|].
  assert (action ∈ ["sign_binance"; "sign_okx"]) as Hact by (set_unfold in Hv; destruct_or! Hv; subst venue; injection Ha as <-; set_solver).
  unfold is_order, harmless. cbn [vq_action vq_op vq_method vq_path read_request own_call].
  rewrite (bool_decide_true ((method, path) ∈ own_calls)) by done. clear - Hh Hact. set_unfold in Hact.
  destruct_or! Hact; subst action; (split; [no_order|]); (split; [done|]); (split; [no_order|done]).
Qed.

Lemma sign_account_read_ok venue method path query tr :
  not_halted tr -> venue ∈ ["binance"; "okx"] -> (method, path) ∈ own_calls ->
  gall call_ok (sign_account_read app customer token venue method path "" query) tr signed_or_refused.
Proof using.
  intros Hh Hv Hp. unfold sign_account_read. destruct (enclave_action_for _ _) as [action|] eqn:Ha; [|fail_ok].
  destruct (blobs app !! _) as [blob|] eqn:Hb; [|fail_ok].
  apply gall_bind, gall_ask; [by eexists|]. intros [|]; [|fail_ok]. cbn [negb].
  apply gall_bind, gall_ask; [done|]. intros [creds|]; [|fail_ok]. call_step.
  apply round_trip_ok; [|fail_ok|].
  - eapply read_message_ok; [|done..]. eapply not_halted_stable; [|exact Hh]. by repeat apply list_subseteq_cons.
  - intros r. apply gall_bind. eapply gall_mono; [apply take_receipt_ok|]. intros tr' ? [Hsub ->].
    match goal with Hs : ?t ⊆ tr' |- _ => pose proof (seen_mono _ _ _ _ Hs (seen_now _ _ _)) as Hseen end.
    destruct (vs_error r) as [code|] eqn:He.
    { apply gall_bind. eapply gall_mono; [eapply enclave_refusal_ok; [by eexists|exact Hseen|done|done]|]. by intros ? ? [_ ?]. }
    cbn [gall gbind gask]. split; [by eexists|]. intros ?. eapply answered_stable; [apply sub_cons|]. by eexists _, r.
Qed.

Lemma binance_read_ok method path query tr :
  not_halted tr -> (method, path) ∈ own_calls -> gall call_ok (binance_read app customer token method path query) tr honest.
Proof using.
  intros Hh Hp. apply or_return_ok; [by apply sign_account_read_ok; [|set_solver|]|]. intros t h Ha.
  destruct (binance_signed_url _ _ _ _) as [[url h']|]; [|ret_ok]. by apply success_honest.
Qed.
Lemma okx_read_ok path query tr :
  not_halted tr -> ("GET", path) ∈ own_calls -> gall call_ok (okx_read app customer token path query) tr honest.
Proof using.
  intros Hh Hp. apply or_return_ok; [by apply sign_account_read_ok; [|set_solver|]|]. intros t h Ha. by apply success_honest.
Qed.
Lemma build_okx_signed_read_ok path tr :
  not_halted tr -> ("GET", path) ∈ own_calls -> gall call_ok (build_okx_signed_read app customer token path) tr signed_or_refused.
Proof using.
  intros Hh Hp. unfold build_okx_signed_read. apply gall_bind. eapply gall_mono; [by apply sign_account_read_ok; [|set_solver|]|].
  by intros t [h|resp] Hr.
Qed.

Ltac own_call_ok := apply (bool_decide_unpack _); vm_compute; exact I.
Ltac venue_cases := repeat match goal with |- gall _ (if ?b then _ else _) _ _ => destruct b end.

Lemma reads_ok tr venue : not_halted tr ->
  gall call_ok (get_account app customer token venue) tr honest /\
  (forall symbol inst_id, gall call_ok (get_open_orders app customer token venue symbol inst_id) tr honest) /\
  (forall q, gall call_ok (get_user_trades app customer token venue q) tr honest).
Proof using.
  intros Hh. unfold get_account, get_open_orders, get_user_trades. split_and!; intros; venue_cases; try ret_ok.
  - apply binance_read_ok; [done|own_call_ok].
  - unfold get_account_okx_inner. unfold or_return at 1. apply gall_bind.
    apply (gall_mono _ _ _ (fun t r => tr ⊆ t /\ signed_or_refused t r)).
    2:{ intros t [b|resp] [Hs Hr]; [|by apply refuses_honest]. apply or_return_ok; [|intros; by apply success_honest].
        apply build_okx_signed_read_ok; [by eapply not_halted_stable|own_call_ok]. }
    apply gall_keeps, build_okx_signed_read_ok; [done|own_call_ok].
  - unfold open_orders_binance_inner. destruct (validated_filter _ _); [|ret_ok]. apply binance_read_ok; [done|own_call_ok].
  - unfold open_orders_okx_inner. destruct (validated_filter _ _); [|ret_ok]. apply okx_read_ok; [done|own_call_ok].
  - unfold user_trades_binance_inner. destruct (required_filter _ _); [destruct (filters _)|]; try ret_ok. apply binance_read_ok; [done|own_call_ok].
  - unfold user_trades_okx_inner. destruct (required_filter _ _); [destruct (filters _)|]; try ret_ok. apply okx_read_ok; [done|own_call_ok].
Qed.

Lemma post_cancel_all_ok tr venue symbol : not_halted tr -> gall call_ok (post_cancel_all app customer token venue symbol) tr honest.
Proof using.
  intros Hh. unfold post_cancel_all. destruct (bool_decide _); [|ret_ok]. eapply gated_ok; [apply cancel_gate_ok|]. intros t Hs _.
  destruct (validated_filter _ _) as [f|]; [|ret_ok]. destruct (is_empty f); [ret_ok|].
  apply binance_read_ok; [exact (not_halted_stable _ _ Hs Hh)|own_call_ok].
Qed.

Lemma post_receipt_heartbeat_ok tr nonce : gall call_ok (post_receipt_heartbeat token nonce) tr honest.
Proof using.
  unfold post_receipt_heartbeat. destruct (negb _); [ret_ok|]. apply round_trip_ok; [|ret_ok|].
  - split; [done|]. split; [no_order|]. split; [done|]. split; [no_order|done].
  - intros r. destruct (vs_error r) as [code|] eqn:He; [cbn [gall]; eapply refuses_honest, enclave_error_refuses; [apply seen_now|done|by left]|].
    destruct (vs_heartbeat r); [|ret_ok]. apply success_honest; [by apply sent_answered|done..].
Qed.

(** ** Hedges *)

Lemma refusal_not_200 tr status e : honest_refusal tr status e -> status <> 200.
Proof using.
  intros (-> & Hc & _).
  assert (Forall (fun c => http_status_for c <> 200) gateway_codes) as Hall by (apply (bool_decide_unpack _); vm_compute; exact I).
  rewrite Forall_forall in Hall. by apply Hall.
Qed.
Lemma leg_refused_not_200 tr leg s : leg_refused tr leg s -> s <> 200.
Proof using. intros [[e He]|[[-> _]|[-> _]]]; [by eapply refusal_not_200|done..]. Qed.

Lemma sign_leg_ok leg tr : active tr -> order_granted tr -> gall call_ok (sign_leg app customer token leg) tr (leg_signed leg).
Proof using.
  intros Ha Ho. unfold sign_leg. cbv zeta. case_bool_decide as Eb; [|case_bool_decide as Eo].
  3:{ right; left. split; [done|]. set_unfold. tauto. }
  all: apply gall_bind; (eapply gall_mono; [apply sign_structured_request_ok; left; split; [set_solver|done]|]); intros t [[[c h] rc]|resp] Hr; cbn;
    try done; try (destruct Hr as (e & _ & He); left; by exists e).
  destruct (build_binance_signed_qs c h) as [[]|]; [done|]. right; right. by split.
Qed.

Lemma dominant_in failing : failing <> [] -> dominant_status failing ∈ failing.
Proof using.
  intros Hne. unfold dominant_status. destruct (list_find _ DOMINANCE) as [[i d]|] eqn:E.
  - by apply list_find_Some in E as (_ & Hd & _).
  - destruct failing; [done|by left].
Qed.

Lemma unsigned_reported leg r : leg_reported leg r (unsigned_leg leg r).
Proof using. unfold leg_reported, unsigned_leg. by destruct r. Qed.

Lemma rejected_honest tr a b ra rb : leg_signed a tr ra -> leg_signed b tr rb -> failures [ra; rb] <> [] ->
  honest tr (answer_with (dominant_status (failures [ra; rb])) (HedgeResponse "rejected" [unsigned_leg a ra; unsigned_leg b rb])).
Proof using.
  intros Ha Hb Hne. pose proof (dominant_in _ Hne) as Hin. left. split; [done|]. cbn [h_status answer_with]. split.
  - pose proof Hin as (r & Hr & Hf)%list_elem_of_omap. set_unfold in Hr. destruct_or! Hr; subst r; [destruct ra|destruct rb]; simplify_eq;
      rewrite <- Hf; by eapply leg_refused_not_200.
  - exists a, b, ra, rb. do 2 eexists. split_and!; [reflexivity|done|done|apply unsigned_reported..|done|done].
Qed.

Lemma gjoin_ok {A B} (p : gprog A) (q : gprog B) QA QB tr : stable QA -> stable QB ->
  gall call_ok p tr QA -> gall call_ok q tr QB ->
  gall call_ok (gjoin p q) tr (fun t r => tr ⊆ t /\ QA t (fst r) /\ QB t (snd r)).
Proof using. intros HA HB Hp Hq. apply gall_keeps, gall_join; [apply call_ok_stable|done..]. Qed.

Lemma post_hedge_ok tr legs : active tr -> gall call_ok (post_hedge app customer token legs) tr honest.
Proof using.
  intros Hact. unfold post_hedge. destruct (validate_hedge_shape app legs) as [[a b]|hint]; [|by cbn].
  eapply gated_ok; [apply order_gate_ok|]. intros t Hs Hg. pose proof (active_stable _ _ Hs Hact) as Hact'.
  apply gall_bind. eapply gall_mono; [apply gjoin_ok; [apply leg_signed_stable..|by apply sign_leg_ok|by apply sign_leg_ok]|].
  intros t1 [[la|sa] [lb|sb]] (Hs1 & Ha & Hb); cbn [fst snd] in Ha, Hb; try by apply rejected_honest.
  pose proof (active_stable _ _ Hs1 Hact'). pose proof (order_granted_stable _ _ Hs1 Hg).
  cbn [gall gbind gask]. split; [done|]. intros handle. split; [by exists la, lb; apply seen_now|].
  intros [[[status ra] rb]|].
  - right. split; [done|]. exists la, lb, handle, ra, rb. split_and!; [done|by right; left|apply seen_now].
  - split; [done|]. exists la, lb, handle. split; [by right; left|apply seen_now].
Qed.
End Gates.
