(* ===== verification/GwServe.v ===== *)
(** * The tenant router (gateway/src/main.rs)

    [serve] is one request through the middleware stack of the tenant tier:
    bearer authentication, kill switch, blanket rate limit, handler.  [GwFront]
    is what comes before it, [GwWorld] runs any number of such requests at once. *)

From S2P Require Import Prelude RustStr Crates Proto GwProto GwHost GwLimits GwTenant GwAuth GwBackoff GwWire GwCalls GwHandlers GwHedge GwGates.

Open Scope string_scope.
Open Scope list_scope.
Open Scope Z_scope.

(** ** Routes *)

Inductive Route :=
| RSign (req : SignHttpRequest)
| RSignX402 (req : SignX402Request)
| RSignPermit2 (req : SignPermit2Request)
| RAccount (venue : string)
| ROpenOrders (venue : string) (symbol inst_id : option string)
| RUserTrades (venue : string) (q : UserTradesQuery)
| RCancelAll (venue : string) (symbol : option string)
| RBinanceOrder (req : SignOrderRequest)
| RBinanceRequest (req : SignBinanceRequestHttp)
| RBinanceCancel (req : SignCancelRequest)
| RBinanceSpotOrder (req : SignOrderRequest)
| RBinanceSpotCancel (req : SignCancelRequest)
| ROkxOrder (req : SignOrderRequest)
| ROkxCancel (req : SignCancelRequest)
| RHedge (legs : list HedgeLegSpec)
| RHeartbeat (client_nonce : string).

Definition route_line (r : Route) : Method * string :=
  match r with
  | RSign _ => (POST, "/sign")
  | RSignX402 _ => (POST, "/sign-x402")
  | RSignPermit2 _ => (POST, "/sign/permit2-permit-single")
  | RAccount venue => (GET, "/account/" +:+ venue)
  | ROpenOrders venue _ _ => (GET, "/open-orders/" +:+ venue)
  | RUserTrades venue _ => (GET, "/user-trades/" +:+ venue)
  | RCancelAll venue _ => (POST, "/cancel-all/" +:+ venue)
  | RBinanceOrder _ => (POST, "/sign/binance-order")
  | RBinanceRequest _ => (POST, "/sign/binance-request")
  | RBinanceCancel _ => (POST, "/sign/binance-cancel")
  | RBinanceSpotOrder _ => (POST, "/sign/binance-spot-order")
  | RBinanceSpotCancel _ => (POST, "/sign/binance-spot-cancel")
  | ROkxOrder _ => (POST, "/sign/okx-order")
  | ROkxCancel _ => (POST, "/sign/okx-cancel")
  | RHedge _ => (POST, "/hedge")
  | RHeartbeat _ => (POST, "/receipts/heartbeat")
  end.

Section Serve.
Context `{Crates, Cbor, JsonText} (app : AppConfig).

Definition route_handler (r : Route) (customer raw_token : string) : gprog Response :=
  match r with
  | RSign req => post_sign app customer raw_token req
  | RSignX402 req => post_sign_x402 app customer raw_token req
  | RSignPermit2 req => post_sign_permit2 app customer raw_token req
  | RAccount venue => get_account app customer raw_token venue
  | ROpenOrders venue symbol inst_id => get_open_orders app customer raw_token venue symbol inst_id
  | RUserTrades venue q => get_user_trades app customer raw_token venue q
  | RCancelAll venue symbol => post_cancel_all app customer raw_token venue symbol
  | RBinanceOrder req => post_sign_binance_order app customer raw_token req
  | RBinanceRequest req => post_sign_binance_request app customer raw_token req
  | RBinanceCancel req => post_sign_binance_cancel app customer raw_token req
  | RBinanceSpotOrder req => post_sign_binance_spot_order app customer raw_token req
  | RBinanceSpotCancel req => post_sign_binance_spot_cancel app customer raw_token req
  | ROkxOrder req => post_sign_okx_order app customer raw_token req
  | ROkxCancel req => post_sign_okx_cancel app customer raw_token req
  | RHedge legs => post_hedge app customer raw_token legs
  | RHeartbeat nonce => post_receipt_heartbeat raw_token nonce
  end.

(** [tenant_state_mw] around [next]. *)
Definition tenant_layer (customer : string) (line : Method * string) (next : gprog Response) : gprog Response :=
  tstate <<- gask (StateOf customer);;
  if bool_decide (tstate = Active) then next
  else match tenant_decide tstate (classify (fst line) (snd line)) with
       | Ok _ => next
       | Err code => GRet (error_response code)
       end.

(** [rate_limit_mw] around [next]. *)
Definition rate_layer (raw_token : string) (next : gprog Response) : gprog Response :=
  if negb (blanket_rate_active (limits_new (limits app))) then next
  else
    now <<- gask NowSecs;;
    d <<- gask (BlanketRate raw_token now);;
    match limit_response d with Some resp => GRet resp | None => next end.

Definition unauthorized : Response := answer_with 401 (ErrorBody (ErrorResponse_new gw_code.UNAUTHORIZED)).

Definition serve (vars : Vars) (auth : AuthState) (header : option string) (r : Route) : gprog Response :=
  match require_bearer vars auth header with
  | None => GRet unauthorized
  | Some (customer, raw_token) =>
      tenant_layer customer (route_line r) (rate_layer raw_token (route_handler r customer raw_token))
  end.

(** ** One request *)

Lemma trim_slashes_keeps a b s : b <> "/"%char -> exists t, trim_slashes (String a (String b s)) = String a (String b t).
Proof using.
  intros Hb. exists (trim_slashes s). cbn [trim_slashes]. rewrite (bool_decide_false (b = _)), andb_false_r by done. done.
Qed.

Lemma cancel_all_not_exempt venue : classify POST ("/cancel-all/" +:+ venue) <> Exempt.
Proof using.
  unfold classify. destruct (trim_slashes_keeps "/" "c" ("ancel-all/" +:+ venue)) as [t Ht]; [done|].
  change ("/cancel-all/" +:+ venue) with (String "/" (String "c" ("ancel-all/" +:+ venue))). rewrite Ht.
  assert (forall q, q <> String "/" (String "c" t) -> str_in (String "/" (String "c" t)) [q] = false) as Hne.
  { intros q Hq. apply not_true_iff_false. intros E%str_in_spec%list_elem_of_singleton. by apply Hq. }
  rewrite (Hne "/tenant/halt"), (Hne "/receipts/heartbeat") by discriminate. clear Hne. generalize (String "/" (String "c" t)).
  intros p. by repeat (match goal with |- (if ?b then _ else _) <> _ => destruct b end; [done|]).
Qed.

Lemma get_not_exempt path : classify GET path <> Exempt.
Proof using. unfold classify. by destruct (_ || _). Qed.

(** What the kill switch establishes before the handler runs. *)
Definition admitted (customer : string) (r : Route) (tr : list gevent) : Prop :=
  match r with
  | RSignX402 _ | RSignPermit2 _ | RBinanceOrder _ | RBinanceSpotOrder _ | ROkxOrder _ | RHedge _ => active customer tr
  | RHeartbeat _ => True
  | _ => not_halted customer tr
  end.

Lemma class_admitted customer r tstate tr :
  tstate <> Active -> tenant_decide tstate (classify (fst (route_line r)) (snd (route_line r))) = Ok () ->
  admitted customer r (gev (StateOf customer) tstate :: tr).
Proof using.
  intros Hne Hd.
  assert (classify (fst (route_line r)) (snd (route_line r)) <> Exempt -> not_halted customer (gev (StateOf customer) tstate :: tr)) as Hh.
  { intros He. exists tstate. split; [|apply seen_now]. intros ->. by destruct (classify _ _). }
  destruct r as [| | |venue|venue|venue|venue| | | | | | | | |]; cbn [route_line fst snd admitted] in *;
    [..|apply Hh, get_not_exempt|apply Hh, get_not_exempt|apply Hh, get_not_exempt|apply Hh, cancel_all_not_exempt|
     | | | | | | | |]; try done.
  all: first [apply Hh; vm_compute; discriminate | exfalso; destruct tstate; [done|vm_compute in Hd; discriminate Hd..]].
Qed.

Lemma active_admitted customer r tr : active customer tr -> admitted customer r tr.
Proof using. intros Ha. destruct r; cbn; auto using active_not_halted. Qed.

Lemma admitted_stable customer r tr tr' : tr ⊆ tr' -> admitted customer r tr -> admitted customer r tr'.
Proof using. destruct r; cbn; eauto using active_stable, not_halted_stable. Qed.

Lemma route_handler_ok r customer token tr :
  admitted customer r tr -> gall (call_ok app customer token) (route_handler r customer token) tr honest.
Proof using.
  destruct r as [req|req|req|venue|venue symbol inst|venue q|venue symbol|req|req|req|req|req|req|req|legs|nonce];
    cbn [admitted route_handler]; intros Ha.
  - apply post_sign_ok.
  - exact (post_sign_x402_ok _ _ _ req tr Ha).
  - exact (post_sign_permit2_ok _ _ _ req tr Ha).
  - exact (proj1 (reads_ok _ _ _ tr venue Ha)).
  - exact (proj1 (proj2 (reads_ok _ _ _ tr venue Ha)) symbol inst).
  - exact (proj2 (proj2 (reads_ok _ _ _ tr venue Ha)) q).
  - exact (post_cancel_all_ok _ _ _ tr venue symbol Ha).
  - exact (proj1 (order_routes_ok _ _ _ req tr Ha)).
  - apply post_sign_binance_request_ok.
  - exact (proj1 (cancel_routes_ok _ _ _ req tr Ha)).
  - exact (proj1 (proj2 (order_routes_ok _ _ _ req tr Ha))).
  - exact (proj1 (proj2 (cancel_routes_ok _ _ _ req tr Ha))).
  - exact (proj2 (proj2 (order_routes_ok _ _ _ req tr Ha))).
  - exact (proj2 (proj2 (cancel_routes_ok _ _ _ req tr Ha))).
  - exact (post_hedge_ok _ _ _ tr legs Ha).
  - apply post_receipt_heartbeat_ok.
Qed.

Lemma tenant_layer_ok r customer token next tr :
  (forall tr', admitted customer r tr' -> gall (call_ok app customer token) next tr' honest) ->
  gall (call_ok app customer token) (tenant_layer customer (route_line r) next) tr honest.
Proof using.
  intros Hn. unfold tenant_layer. apply gall_bind, gall_ask; [done|]. intros s.
  destruct (bool_decide (s = Active)) eqn:Hs.
  - apply bool_decide_eq_true in Hs as ->. apply Hn, active_admitted, seen_now.
  - apply bool_decide_eq_false in Hs. destruct (tenant_decide _ _) as [[]|code] eqn:Hd; [by apply Hn, class_admitted|].
    cbn [gall]. apply reply_honest. by eapply tenant_decide_err.
Qed.

Lemma rate_layer_ok r customer token next tr :
  admitted customer r tr -> (forall tr', admitted customer r tr' -> gall (call_ok app customer token) next tr' honest) ->
  gall (call_ok app customer token) (rate_layer token next) tr honest.
Proof using.
  intros Ha Hn. unfold rate_layer. destruct (negb _); [by apply Hn|]. do 2 (apply gall_bind, gall_ask; [done|]; intros ?).
  destruct (limit_response _) as [resp|] eqn:E; [by eapply limit_response_honest|]. apply Hn.
  eapply admitted_stable; [|exact Ha]. by repeat apply list_subseteq_cons.
Qed.

Lemma serve_spec vars auth header r :
  match require_bearer vars auth header with
  | None => serve vars auth header r = GRet unauthorized
  | Some (customer, token) => gall (call_ok app customer token) (serve vars auth header r) [] honest
  end.
Proof using.
  unfold serve. destruct (require_bearer vars auth header) as [[customer token]|]; [|done].
  apply tenant_layer_ok. intros tr Ha. apply (rate_layer_ok r); [done|]. intros. by apply route_handler_ok.
Qed.
End Serve.
