(* ===== verification/GwFront.v ===== *)
(** * The front of the gateway: connections, tiers and their pools (gateway/src/main.rs)

    [serve_with_hyper_util] accepts connections under a semaphore, reads the
    headers of one request from each within a time limit, and hands the request
    to the stack of its tier: a body limit, then a pool of request slots from
    which nobody waits, then a time limit.  The tiers differ in which of these
    they have.  tower, axum and hyper are third-party; what the code relies on is
    [Permits], [Tower] and the order in which the source lists the layers.  What
    a request does once it is through is [GwServe]. *)

From S2P Require Import Prelude RustStr Crates Permits Proto GwProto GwHost GwLimits GwTenant GwAuth GwBackoff GwWire GwCalls GwHandlers GwHedge GwGates GwServe.

Open Scope string_scope.
Open Scope list_scope.
Open Scope Z_scope.

(** Durations and instants are integers in nanoseconds. *)
Definition from_secs (n : Z) : Z := n * 1000000000.

Definition MAX_REQUEST_BYTES : Z := 32 * 1024.
Definition REQUEST_TIMEOUT_SECS : Z := 30.
Definition HEADER_READ_TIMEOUT_SECS : Z := 2.
Definition MAX_CONCURRENT_REQUESTS : nat := 256.
Definition MAX_CONCURRENT_OPERATOR_REQUESTS : nat := 32.
Definition MAX_CONCURRENT_CONNECTIONS : nat := MAX_CONCURRENT_REQUESTS * 16.

(** The assertion the build is refused without. *)
Example operator_pool_smaller : (MAX_CONCURRENT_OPERATOR_REQUESTS <? MAX_CONCURRENT_REQUESTS)%nat = true.
Proof. reflexivity. Qed.

(** ** Tiers and routes *)

Inductive Tier := Tenant | Operator | Halt | Public | Health.
#[global] Instance Tier_eq_dec : EqDecision Tier.
Proof. solve_decision. Defined.
Definition tier_code (t : Tier) : nat := match t with Tenant => 0 | Operator => 1 | Halt => 2 | Public => 3 | Health => 4 end.
Definition tier_of_code (n : nat) : Tier := match n with 0%nat => Tenant | 1%nat => Operator | 2%nat => Halt | 3%nat => Public | _ => Health end.
#[global] Instance Tier_countable : Countable Tier.
Proof. refine (inj_countable' tier_code tier_of_code _). by intros []. Defined.

(** The layers around a tier's routes, outermost first: [RequestBodyLimitLayer],
    [concurrency_limit] under [load_shed], [TimeoutLayer]. *)
Record Stack := { body_limit : option Z; concurrency_limit : option nat; timeout : option Z }.

Definition stack (t : Tier) : Stack :=
  match t with
  | Tenant =>
      {| body_limit := Some MAX_REQUEST_BYTES; concurrency_limit := Some MAX_CONCURRENT_REQUESTS;
         timeout := Some (from_secs REQUEST_TIMEOUT_SECS) |}
  | Operator =>
      {| body_limit := Some MAX_REQUEST_BYTES; concurrency_limit := Some MAX_CONCURRENT_OPERATOR_REQUESTS;
         timeout := Some (from_secs REQUEST_TIMEOUT_SECS) |}
  | Halt =>
      {| body_limit := Some MAX_REQUEST_BYTES; concurrency_limit := None; timeout := Some (from_secs REQUEST_TIMEOUT_SECS) |}
  | Public => {| body_limit := Some MAX_REQUEST_BYTES; concurrency_limit := None; timeout := None |}
  | Health => {| body_limit := None; concurrency_limit := None; timeout := None |}
  end.

Inductive Pattern := Exactly (path : string) | Segment (prefix : string).

(** ["/account/{venue}"]: the prefix and one nonempty segment. *)
Definition pattern_matches (p : Pattern) (path : string) : bool :=
  match p with
  | Exactly q => String.eqb path q
  | Segment prefix =>
      match strip_prefix prefix path with Some seg => negb (is_empty seg) && negb (contains_char "/" seg) | None => false end
  end.

Definition sign_router : list (Method * Pattern) :=
  [(POST, Exactly "/sign"); (POST, Exactly "/sign-x402"); (POST, Exactly "/sign/permit2-permit-single");
   (GET, Segment "/account/"); (GET, Segment "/open-orders/"); (GET, Segment "/user-trades/"); (POST, Segment "/cancel-all/");
   (POST, Exactly "/sign/binance-order"); (POST, Exactly "/sign/binance-request"); (POST, Exactly "/sign/binance-cancel");
   (POST, Exactly "/sign/binance-spot-order"); (POST, Exactly "/sign/binance-spot-cancel");
   (POST, Exactly "/sign/okx-order"); (POST, Exactly "/sign/okx-cancel"); (POST, Exactly "/hedge");
   (POST, Exactly "/receipts/heartbeat")].
Definition operator_router : list (Method * Pattern) := [(POST, Exactly "/verify-blob"); (POST, Exactly "/sign-data")].
Definition halt_router : list (Method * Pattern) := [(POST, Exactly "/tenant/halt")].
Definition public_router : list (Method * Pattern) := [(GET, Exactly "/attestation")].

Definition app : list (Tier * (Method * Pattern)) :=
  map (pair Tenant) sign_router ++ map (pair Operator) operator_router ++ map (pair Halt) halt_router ++
  map (pair Public) public_router ++ [(Health, (GET, Exactly "/healthz"))].

Record HttpRequest := { hq_method : Method; hq_path : string; hq_content_length : option Z }.

(** What the frameworks decide.  [pool_group]: which instance of the tier's
    concurrency layer a route of [app] got, by its index.  [unmatched]: the layers
    around their own answer to a path or method outside [app]. *)
Class Tower := {
  body_refused : Z -> HttpRequest -> bool;
  pool_group : nat -> nat;
  unmatched : HttpRequest -> Tier
}.

Fixpoint find_route (m : Method) (path : string) (i : nat) (routes : list (Tier * (Method * Pattern))) : option (Tier * nat) :=
  match routes with
  | [] => None
  | (t, (m', p)) :: rest =>
      if bool_decide (m = m') && pattern_matches p path then Some (t, i) else find_route m path (S i) rest
  end.

(** A pool: the tier and the instance of its layer. *)
Abbreviation PoolKey := (Tier * nat)%type.
Definition route_of `{Tower} (req : HttpRequest) : PoolKey :=
  let '(t, i) := default (unmatched req, length app) (find_route (hq_method req) (hq_path req) 0 app) in (t, pool_group i).

Inductive BoxError := Overloaded | OtherError.
Definition handle_middleware_error (err : BoxError) : Z * string :=
  match err with Overloaded => (503, "overloaded") | OtherError => (500, "internal_error") end.

(** ** Connections *)

(** [cn_request] is [None] while the headers are being read; [cn_since] is when
    the connection was accepted, then when its request was dispatched. *)
Record Conn := { cn_since : Z; cn_request : option PoolKey }.

Record Front `{Permits} := {
  fr_now : Z;
  fr_sem : Sem;
  fr_pools : gmap PoolKey Sem;
  fr_conns : gmap nat Conn;
  fr_next : nat;
  (** answers, latest first: connection, tier, status *)
  fr_answers : list (nat * Tier * Z);
  (** sockets dropped at capacity *)
  fr_dropped : nat
}.

Inductive fop :=
| FAccept (ok : bool)
| FHeaders (id : nat) (req : HttpRequest)
| FAnswer (id : nat) (status : Z)
| FHangUp (id : nat)
| FTime (now : Z).

Section Front.
Context `{Permits, Tower}.
Context (header_read_timeout : Z) (max_connections : nat).

Definition front_start (now : Z) : Front :=
  {| fr_now := now; fr_sem := sem_new max_connections; fr_pools := ∅; fr_conns := ∅; fr_next := 0; fr_answers := []; fr_dropped := 0 |}.

Definition pool (f : Front) (k : PoolKey) : Sem :=
  default (sem_new (default 0%nat (concurrency_limit (stack k.1)))) (fr_pools f !! k).

(** The slot a request holds: its key when its tier has a pool. *)
Definition slot_of (c : Conn) : option PoolKey :=
  k ← cn_request c; match concurrency_limit (stack k.1) with Some _ => Some k | None => None end.

Definition put_slot (k : option PoolKey) (f : Front) : gmap PoolKey Sem :=
  match k with Some k => <[k := sem_release (pool f k)]> (fr_pools f) | None => fr_pools f end.

(** The connection's task ends: its slot and its permit are dropped. *)
Definition close (id : nat) (f : Front) : Front :=
  match fr_conns f !! id with
  | None => f
  | Some c =>
      {| fr_now := fr_now f; fr_sem := sem_release (fr_sem f); fr_pools := put_slot (slot_of c) f;
         fr_conns := delete id (fr_conns f); fr_next := fr_next f; fr_answers := fr_answers f; fr_dropped := fr_dropped f |}
  end.

(** One response; keep-alive is off, so the connection ends with it. *)
Definition answer (id : nat) (t : Tier) (status : Z) (f : Front) : Front :=
  let f := close id f in
  {| fr_now := fr_now f; fr_sem := fr_sem f; fr_pools := fr_pools f; fr_conns := fr_conns f; fr_next := fr_next f;
     fr_answers := (id, t, status) :: fr_answers f; fr_dropped := fr_dropped f |}.

(** The turn of the accept loop. *)
Definition accept (ok : bool) (f : Front) : Front :=
  if negb ok then f
  else match sem_try (fr_sem f) with
       | None =>
           {| fr_now := fr_now f; fr_sem := fr_sem f; fr_pools := fr_pools f; fr_conns := fr_conns f; fr_next := fr_next f;
              fr_answers := fr_answers f; fr_dropped := S (fr_dropped f) |}
       | Some sem =>
           {| fr_now := fr_now f; fr_sem := sem; fr_pools := fr_pools f;
              fr_conns := <[fr_next f := {| cn_since := fr_now f; cn_request := None |}]> (fr_conns f);
              fr_next := S (fr_next f); fr_answers := fr_answers f; fr_dropped := fr_dropped f |}
       end.

Definition enter (id : nat) (k : PoolKey) (pools : gmap PoolKey Sem) (f : Front) : Front :=
  {| fr_now := fr_now f; fr_sem := fr_sem f; fr_pools := pools;
     fr_conns := <[id := {| cn_since := fr_now f; cn_request := Some k |}]> (fr_conns f);
     fr_next := fr_next f; fr_answers := fr_answers f; fr_dropped := fr_dropped f |}.

(** A request through the layers of its tier. *)
Definition dispatch (id : nat) (req : HttpRequest) (f : Front) : Front :=
  let k := route_of req in
  let st := stack k.1 in
  if match body_limit st with Some limit => body_refused limit req | None => false end then answer id k.1 413 f
  else match concurrency_limit st with
       | None => enter id k (fr_pools f) f
       | Some _ =>
           match sem_try (pool f k) with
           | None => answer id k.1 (fst (handle_middleware_error Overloaded)) f
           | Some sem => enter id k (<[k := sem]> (fr_pools f)) f
           end
       end.

(** What the timers do to one connection at [fr_now]. *)
Definition expire (f : Front) (id : nat) : Front :=
  match fr_conns f !! id with
  | None => f
  | Some c =>
      match cn_request c with
      | None => if cn_since c + header_read_timeout <=? fr_now f then close id f else f
      | Some k =>
          match timeout (stack k.1) with
          | Some d => if cn_since c + d <=? fr_now f then answer id k.1 408 f else f
          | None => f
          end
      end
  end.

Definition set_now (now : Z) (f : Front) : Front :=
  {| fr_now := Z.max (fr_now f) now; fr_sem := fr_sem f; fr_pools := fr_pools f; fr_conns := fr_conns f; fr_next := fr_next f;
     fr_answers := fr_answers f; fr_dropped := fr_dropped f |}.

Definition fstep (op : fop) (f : Front) : Front :=
  match op with
  | FAccept ok => accept ok f
  | FHeaders id req =>
      match fr_conns f !! id with
      | Some c => match cn_request c with None => dispatch id req f | Some _ => f end
      | None => f
      end
  | FAnswer id status =>
      match fr_conns f !! id with
      | Some c => match cn_request c with Some k => answer id k.1 status f | None => f end
      | None => f
      end
  | FHangUp id => close id f
  | FTime now => foldl expire (set_now now f) (map_to_list (fr_conns f)).*1
  end.

Definition fexec (ops : list fop) (f : Front) : Front := foldl (fun f op => fstep op f) f ops.
End Front.

(** [serve_with_hyper_util] as [main] calls it. *)
Definition gateway_front `{Permits, Tower} (ops : list fop) (now : Z) : Front :=
  fexec (from_secs HEADER_READ_TIMEOUT_SECS) ops (front_start MAX_CONCURRENT_CONNECTIONS now).

(** ** Facts *)

(** The tenant requests of [GwServe] are the routes of the tenant tier. *)
Definition plain_segment (venue : string) : bool := negb (is_empty venue) && negb (contains_char "/" venue).
Definition route_venue (r : Route) : option string :=
  match r with RAccount v | ROpenOrders v _ _ | RUserTrades v _ | RCancelAll v _ => Some v | _ => None end.

Lemma tenant_routes_found r : match route_venue r with Some v => plain_segment v = true | None => True end ->
  exists i, find_route (route_line r).1 (route_line r).2 0 app = Some (Tenant, i).
Proof.
  destruct r as [| | |v|v|v|v| | | | | | | | |]; cbn [route_venue route_line fst snd]; intros Hv;
    try (eexists; vm_compute; reflexivity).
  all: unfold plain_segment in Hv; destruct v as [|c v]; [discriminate Hv|]; cbn [is_empty negb andb] in Hv.
  all: apply negb_true_iff in Hv; eexists; lazy -[contains_char]; lazy -[contains_char] in Hv; rewrite Hv; reflexivity.
Qed.

Section Facts.
Context `{PermitLaws, Tower}.
Context (header_read_timeout : Z) (max_connections : nat).

(** How many connections hold a slot of a pool. *)
Definition users (k : PoolKey) (conns : gmap nat Conn) : nat := size (filter (fun p => slot_of p.2 = Some k) conns).
Definition uses (k : PoolKey) (c : Conn) : nat := if decide (slot_of c = Some k) then 1 else 0.

Lemma users_insert k id c conns : users k (<[id := c]> conns) = (uses k c + users k (delete id conns))%nat.
Proof using.
  unfold users, uses. rewrite map_filter_insert, map_filter_delete. cbn [snd]. case_decide; [|done].
  rewrite <- insert_delete_eq, map_size_insert_None by apply lookup_delete_eq. lia.
Qed.
Lemma users_delete k id c conns : conns !! id = Some c -> users k conns = (uses k c + users k (delete id conns))%nat.
Proof using. intros Hc. by rewrite <- users_insert, insert_id. Qed.

(** Permits and slots are exactly those of the live connections. *)
Record front_inv (f : Front) : Prop := {
  fi_permits : accounts_for max_connections (size (fr_conns f)) (fr_sem f);
  fi_pools : forall k n, concurrency_limit (stack k.1) = Some n -> accounts_for n (users k (fr_conns f)) (pool f k);
  fi_next : forall id c, fr_conns f !! id = Some c -> (id < fr_next f)%nat
}.

Lemma pool_insert k k' s f f' : fr_pools f' = <[k := s]> (fr_pools f) -> pool f' k' = if decide (k' = k) then s else pool f k'.
Proof using. intros Hp. unfold pool. rewrite Hp. case_decide as E; [subst; by rewrite lookup_insert_eq|by rewrite lookup_insert_ne]. Qed.
Lemma pool_same k f f' : fr_pools f' = fr_pools f -> pool f' k = pool f k.
Proof using. intros Hp. unfold pool. by rewrite Hp. Qed.

Lemma size_pred id (c : Conn) (conns : gmap nat Conn) : conns !! id = Some c -> size conns = S (size (delete id conns)).
Proof using.
  intros Hc. rewrite map_size_delete_Some by eauto. destruct (size conns) eqn:E; [|done].
  apply map_size_empty_inv in E. subst. done.
Qed.

Lemma slot_of_reading c : cn_request c = None -> slot_of c = None.
Proof using. unfold slot_of. by intros ->. Qed.
Lemma slot_of_limited since k n : concurrency_limit (stack k.1) = Some n -> slot_of {| cn_since := since; cn_request := Some k |} = Some k.
Proof using. unfold slot_of. cbn. by intros ->. Qed.
Lemma slot_of_unlimited since k : concurrency_limit (stack k.1) = None -> slot_of {| cn_since := since; cn_request := Some k |} = None.
Proof using. unfold slot_of. cbn. by intros ->. Qed.

Lemma close_inv id f : front_inv f -> front_inv (close id f).
Proof using All.
  intros [Hp Hs Hn]. unfold close. destruct (fr_conns f !! id) as [c|] eqn:Hc; [|done]. split; cbn [fr_sem fr_conns fr_next].
  - rewrite (size_pred _ _ _ Hc) in Hp. by apply accounts_release.
  - intros k n Hk. specialize (Hs k n Hk). rewrite (users_delete _ _ _ _ Hc) in Hs. unfold uses in Hs.
    unfold put_slot. destruct (slot_of c) as [k'|] eqn:E.
    + rewrite (pool_insert k' k (sem_release (pool f k')) f) by done. destruct (decide (k = k')) as [->|Hne].
      * rewrite decide_True in Hs by done. by apply accounts_release.
      * rewrite decide_False in Hs by congruence. done.
    + rewrite decide_False in Hs by done. rewrite (pool_same _ f) by done. done.
  - intros j c' [_ Hj]%lookup_delete_Some. by eapply Hn.
Qed.

Lemma answer_inv id t status f : front_inv f -> front_inv (answer id t status f).
Proof using All. intros Hf%(close_inv id). destruct Hf as [Hp Hs Hn]. by split. Qed.

Lemma accept_inv ok f : front_inv f -> front_inv (accept ok f).
Proof using All.
  intros [Hp Hs Hn]. unfold accept. destruct ok; cbn [negb]; [|done]. destruct (sem_try (fr_sem f)) as [sem|] eqn:Ht; [|by split].
  assert (fr_conns f !! fr_next f = None) as Hnew by (destruct (fr_conns f !! fr_next f) eqn:E; [apply Hn in E; lia|done]).
  split; cbn [fr_sem fr_conns fr_next].
  - rewrite map_size_insert_None by done. by eapply accounts_try.
  - intros k n Hk. rewrite users_insert, delete_id by done. unfold uses. cbn [slot_of cn_request]. rewrite decide_False by done.
    rewrite (pool_same _ f) by done. by apply Hs.
  - intros id c. destruct (decide (id = fr_next f)) as [->|Hne]; [lia|]. rewrite lookup_insert_ne by done. intros Hl%Hn. lia.
Qed.

Lemma enter_inv id k pools c f : fr_conns f !! id = Some c -> cn_request c = None -> front_inv f ->
  match concurrency_limit (stack k.1) with
  | None => pools = fr_pools f
  | Some _ => exists sem, sem_try (pool f k) = Some sem /\ pools = <[k := sem]> (fr_pools f)
  end -> front_inv (enter id k pools f).
Proof using All.
  intros Hc Hr [Hp Hs Hn] Hk. split; cbn [fr_sem fr_conns fr_next enter].
  - rewrite map_size_insert_Some by eauto. done.
  - intros k' n Hk'. specialize (Hs k' n Hk'). rewrite (users_delete _ _ _ _ Hc) in Hs. rewrite users_insert. unfold uses in *.
    rewrite decide_False in Hs by (rewrite (slot_of_reading c) by done; done).
    destruct (concurrency_limit (stack k.1)) as [m|] eqn:E; [rewrite (slot_of_limited _ _ _ E)|rewrite (slot_of_unlimited _ _ E)].
    + destruct Hk as (sem & Ht & ->). rewrite (pool_insert k k' sem f) by done. destruct (decide (k' = k)) as [->|Hne].
      * rewrite decide_True by done. by eapply accounts_try.
      * rewrite decide_False by congruence. done.
    + subst pools. rewrite decide_False by done. rewrite (pool_same _ f) by done. done.
  - intros j c'. destruct (decide (j = id)) as [->|Hne]; [intros _; by eapply Hn|]. rewrite lookup_insert_ne by done. apply Hn.
Qed.

Lemma dispatch_inv id req c f : fr_conns f !! id = Some c -> cn_request c = None -> front_inv f -> front_inv (dispatch id req f).
Proof using All.
  intros Hc Hr Hf. unfold dispatch. destruct (match body_limit _ with Some _ => _ | None => _ end); [by apply answer_inv|].
  destruct (concurrency_limit (stack (route_of req).1)) as [n|] eqn:E.
  - destruct (sem_try _) as [sem|] eqn:Ht; [|by apply answer_inv]. eapply enter_inv; [done..|]. rewrite E. eauto.
  - eapply enter_inv; [done..|]. by rewrite E.
Qed.

Lemma expire_inv f id : front_inv f -> front_inv (expire header_read_timeout f id).
Proof using All.
  intros Hf. unfold expire. destruct (fr_conns f !! id) as [c|]; [|done]. destruct (cn_request c) as [k|].
  - destruct (timeout _); [|done]. destruct (_ <=? _); [by apply answer_inv|done].
  - destruct (_ <=? _); [by apply close_inv|done].
Qed.
Lemma expire_all_inv ids : forall f, front_inv f -> front_inv (foldl (expire header_read_timeout) f ids).
Proof using All. induction ids as [|id ids IH]; intros f Hf; [done|]. apply IH. by apply expire_inv. Qed.

Lemma front_inv_step op f : front_inv f -> front_inv (fstep header_read_timeout op f).
Proof using All.
  intros Hf. destruct op as [ok|id req|id status|id|now]; cbn [fstep].
  - by apply accept_inv.
  - destruct (fr_conns f !! id) as [c|] eqn:Hc; [|done]. destruct (cn_request c) eqn:Hr; [done|]. by eapply dispatch_inv.
  - destruct (fr_conns f !! id) as [c|]; [|done]. destruct (cn_request c); [by apply answer_inv|done].
  - by apply close_inv.
  - apply expire_all_inv. destruct Hf as [Hp Hs Hn]. by split.
Qed.

Lemma front_inv_exec ops : forall f, front_inv f -> front_inv (fexec header_read_timeout ops f).
Proof using All. induction ops as [|op ops IH]; intros f Hf; [done|]. apply IH. by apply front_inv_step. Qed.
Lemma front_inv_start now : front_inv (front_start max_connections now).
Proof using All.
  split; cbn [front_start fr_sem fr_conns fr_next]; [rewrite map_size_empty; apply accounts_new| |done].
  intros k n Hk. unfold users, pool. cbn [front_start fr_pools]. rewrite map_filter_empty, map_size_empty, lookup_empty. cbn [default]. rewrite Hk. apply accounts_new.
Qed.

(** No connection outlives the time limit of what it is doing. *)
Definition fresh (now : Z) (c : Conn) : Prop :=
  cn_since c <= now /\
  match cn_request c with
  | None => now < cn_since c + header_read_timeout
  | Some k => forall d, timeout (stack k.1) = Some d -> now < cn_since c + d
  end.
Definition timely (f : Front) : Prop := forall id c, fr_conns f !! id = Some c -> fresh (fr_now f) c.

Lemma timely_sub f f' : fr_now f' = fr_now f -> fr_conns f' ⊆ fr_conns f -> timely f -> timely f'.
Proof using. intros Hn Hc Ht id c Hl. rewrite Hn. eapply Ht. by eapply lookup_weaken. Qed.
Lemma timely_insert f f' id c : fr_now f' = fr_now f -> fr_conns f' = <[id := c]> (fr_conns f) -> fresh (fr_now f) c -> timely f -> timely f'.
Proof using.
  intros Hn Hc Hf Ht j c'. rewrite Hn, Hc. destruct (decide (j = id)) as [->|Hj]; [rewrite lookup_insert_eq; by intros [= <-]|].
  rewrite lookup_insert_ne by done. apply Ht.
Qed.
Lemma close_conns id f : fr_conns (close id f) = delete id (fr_conns f) /\ fr_now (close id f) = fr_now f.
Proof using. unfold close. destruct (fr_conns f !! id) eqn:E; [done|]. by rewrite delete_id. Qed.

Lemma timeout_positive t d : timeout (stack t) = Some d -> 0 < d.
Proof using. destruct t; cbn; by intros [= <-]. Qed.

(** After its turn, the connection is gone or has time left. *)
Lemma expire_spec f id : let f' := expire header_read_timeout f id in
  fr_now f' = fr_now f /\ fr_conns f' ⊆ fr_conns f /\
  forall c, fr_conns f' !! id = Some c -> cn_since c <= fr_now f -> fresh (fr_now f) c.
Proof using.
  cbv zeta. unfold expire. destruct (fr_conns f !! id) as [c|] eqn:Hc; [|by rewrite Hc].
  assert (forall f', fr_conns f' = fr_conns (close id f) -> fr_now f' = fr_now (close id f) ->
    fr_now f' = fr_now f /\ fr_conns f' ⊆ fr_conns f /\ forall c, fr_conns f' !! id = Some c -> cn_since c <= fr_now f -> fresh (fr_now f) c) as Hgone.
  { intros f' -> ->. destruct (close_conns id f) as [-> ->]. split_and!; [done|apply delete_subseteq|].
    intros c'. by rewrite lookup_delete_eq. }
  destruct (cn_request c) as [k|] eqn:Hr.
  - destruct (timeout (stack k.1)) as [d|] eqn:Hd.
    + destruct (Z.leb_spec (cn_since c + d) (fr_now f)); [by apply Hgone|]. rewrite Hc. split_and!; [done..|]. intros c' [= <-] Hs.
      split; [done|]. rewrite Hr. intros d'. rewrite Hd. intros [= <-]. lia.
    + rewrite Hc. split_and!; [done..|]. intros c' [= <-] Hs. split; [done|]. rewrite Hr. by rewrite Hd.
  - destruct (Z.leb_spec (cn_since c + header_read_timeout) (fr_now f)); [by apply Hgone|]. rewrite Hc. split_and!; [done..|].
    intros c' [= <-] Hs. split; [done|]. rewrite Hr. lia.
Qed.

Lemma expire_all_spec ids : forall f, let f' := foldl (expire header_read_timeout) f ids in
  fr_now f' = fr_now f /\ fr_conns f' ⊆ fr_conns f /\
  forall id c, id ∈ ids -> fr_conns f' !! id = Some c -> cn_since c <= fr_now f -> fresh (fr_now f) c.
Proof using.
  induction ids as [|id ids IH]; intros f; cbv zeta; [split_and!; [done..|]; intros id c Hin; by apply not_elem_of_nil in Hin|].
  cbn [foldl]. destruct (expire_spec f id) as (Hn & Hc & Hf). destruct (IH (expire header_read_timeout f id)) as (Hn' & Hc' & Hf').
  rewrite Hn in *. split_and!; [done|by etrans|]. intros j c [->|Hj]%elem_of_cons Hl; [|by eapply Hf'].
  apply Hf. by eapply lookup_weaken.
Qed.

Lemma timely_step op f : 0 < header_read_timeout -> timely f -> timely (fstep header_read_timeout op f).
Proof using.
  intros Hpos Ht.
  assert (forall id t status, timely (answer id t status f)) as Hanswer.
  { intros. eapply (timely_sub (close id f)); [done..|]. destruct (close_conns id f) as [Hc Hn].
    eapply timely_sub; [exact Hn|rewrite Hc; apply delete_subseteq|done]. }
  assert (forall id k pools, timely (enter id k pools f)) as Henter.
  { intros. apply (timely_insert f _ id {| cn_since := fr_now f; cn_request := Some k |}); [done..| |done]. split; cbn; [lia|]. intros d Hd%timeout_positive. lia. }
  destruct op as [ok|id req|id status|id|now]; cbn [fstep].
  - unfold accept. destruct ok; cbn [negb]; [|done]. destruct (sem_try _); [|done].
    apply (timely_insert f _ (fr_next f) {| cn_since := fr_now f; cn_request := None |}); [done..| |done]. split; cbn; lia.
  - destruct (fr_conns f !! id) as [c|]; [|done]. destruct (cn_request c); [done|]. unfold dispatch.
    destruct (match body_limit _ with Some _ => _ | None => _ end); [by apply Hanswer|].
    destruct (concurrency_limit _); [|by apply Henter]. by destruct (sem_try _).
  - destruct (fr_conns f !! id) as [c|]; [|done]. by destruct (cn_request c).
  - destruct (close_conns id f) as [Hc Hn]. eapply timely_sub; [exact Hn|rewrite Hc; apply delete_subseteq|done].
  - set (ids := (map_to_list (fr_conns f)).*1). destruct (expire_all_spec ids (set_now now f)) as (Hn & Hc & Hf).
    intros id c Hl. rewrite Hn. cbn [fr_now set_now] in *. assert (fr_conns f !! id = Some c) as Hl' by (by eapply lookup_weaken).
    eapply Hf; [|exact Hl|].
    + subst ids. apply list_elem_of_fmap. exists (id, c). split; [done|]. by apply elem_of_map_to_list.
    + destruct (Ht id c Hl'). lia.
Qed.
Lemma timely_exec ops : 0 < header_read_timeout -> forall f, timely f -> timely (fexec header_read_timeout ops f).
Proof using. intros Hpos. induction ops as [|op ops IH]; intros f Hf; [done|]. apply IH. by apply timely_step. Qed.

Definition body_accepted (req : HttpRequest) : Prop :=
  match body_limit (stack (route_of req).1) with Some limit => body_refused limit req = false | None => True end.

(** As many live requests hold a slot of the pool as it has; a tier without a
    pool is never full. *)
Definition pool_full (k : PoolKey) (f : Front) : Prop := concurrency_limit (stack k.1) = Some (users k (fr_conns f)).

(** What becomes of a request when its headers are in: refused for its size,
    shed, or let through to its handler, and why. *)
Inductive arrival (id : nat) (req : HttpRequest) (f f' : Front) : Prop :=
| arrival_too_large : ~ body_accepted req ->
    fr_answers f' = (id, (route_of req).1, 413) :: fr_answers f -> fr_conns f' !! id = None -> arrival id req f f'
| arrival_shed : body_accepted req -> pool_full (route_of req) f ->
    fr_answers f' = (id, (route_of req).1, 503) :: fr_answers f -> fr_conns f' !! id = None -> arrival id req f f'
| arrival_through : body_accepted req -> ~ pool_full (route_of req) f ->
    fr_answers f' = fr_answers f -> fr_conns f' !! id = Some {| cn_since := fr_now f; cn_request := Some (route_of req) |} -> arrival id req f f'.

Lemma answer_spec id c t status f : fr_conns f !! id = Some c ->
  fr_answers (answer id t status f) = (id, t, status) :: fr_answers f /\ fr_conns (answer id t status f) !! id = None.
Proof using.
  intros Hc. unfold answer. cbn. destruct (close_conns id f) as [-> _]. rewrite lookup_delete_eq. split; [|done].
  f_equal. unfold close. by rewrite Hc.
Qed.

Lemma dispatch_cases id c req f : front_inv f -> fr_conns f !! id = Some c -> arrival id req f (dispatch id req f).
Proof using All.
  intros Hf Hc. unfold dispatch. set (k := route_of req).
  destruct (match body_limit (stack k.1) with Some limit => body_refused limit req | None => false end) eqn:Hb.
  { destruct (answer_spec id c k.1 413 f Hc). apply arrival_too_large; [|done..]. unfold body_accepted. fold k. intros Ha.
    destruct (body_limit (stack k.1)); [|done]. congruence. }
  assert (body_accepted req) as Hacc by (unfold body_accepted; fold k; by destruct (body_limit (stack k.1))).
  assert (forall pools, ~ pool_full k f -> arrival id req f (enter id k pools f)) as Hent.
  { intros pools Hn. apply arrival_through; [done..|]. apply lookup_insert_eq. }
  unfold pool_full in Hent. destruct (concurrency_limit (stack k.1)) as [n|] eqn:Hl; [|by apply Hent].
  pose proof (accounts_full _ _ _ (fi_pools _ Hf k n Hl)) as Hfull. destruct (sem_try (pool f k)) as [sem|].
  - apply Hent. intros [= Hn]. symmetry in Hn. by apply Hfull in Hn.
  - destruct (answer_spec id c k.1 503 f Hc). apply arrival_shed; [done| |done..]. unfold pool_full. fold k. rewrite Hl. f_equal. symmetry. by apply Hfull.
Qed.

Lemma slots_back f t k n : 0 < header_read_timeout -> timely f -> concurrency_limit (stack k.1) = Some n ->
  fr_now f + from_secs REQUEST_TIMEOUT_SECS <= t -> users k (fr_conns (fstep header_read_timeout (FTime t) f)) = 0%nat.
Proof using.
  intros Hpos Ht Hl Hlate. pose proof (timely_step (FTime t) f Hpos Ht) as Ht'. cbn [fstep] in *.
  set (ids := (map_to_list (fr_conns f)).*1) in *. destruct (expire_all_spec ids (set_now t f)) as (Hn & Hc & _).
  unfold users. apply map_size_empty_iff, map_empty. intros id. apply map_lookup_filter_None. right. intros c Hid Hs. cbn [snd] in Hs. pose proof (Ht' id c Hid) as [_ Hf].
  assert (fr_conns f !! id = Some c) as Hid' by (by eapply lookup_weaken). destruct (Ht id c Hid') as [Hsince _].
  unfold slot_of in Hs. destruct (cn_request c) as [k'|] eqn:Hr; [|done]. cbn in Hs. destruct (concurrency_limit (stack k'.1)) eqn:E; [|done].
  injection Hs as ->. rewrite Hn in Hf. cbn [fr_now set_now] in Hf.
  assert (timeout (stack k.1) = Some (from_secs REQUEST_TIMEOUT_SECS)) as Hto by (destruct k as [[] ?]; cbn in E; done).
  specialize (Hf _ Hto). lia.
Qed.
End Facts.

(** C31: In every history of arrivals, requests, answers, hang-ups and time:
    at most [max_connections] connections are open and a new one is dropped
    exactly when that many are; none outlives the limit of its phase (headers,
    then 30 seconds in the tiers that have a timeout); a request whose headers
    are in is answered 413 at once exactly when its body is refused, else is shed
    with 503 at once exactly when the pool of its own tier and route group is
    full of live requests, and else reaches its handler (whose answer, which may
    be a 503 of its own, is not the front's), so the halt, attestation and health
    routes, which have no pool, are never shed and no traffic of one tier sheds
    another; a pool is never over its limit, and 30 seconds of time alone free
    every slot. *)
Theorem front_sheds_only_at_capacity `{PermitLaws, Tower} header_read_timeout max_connections ops now :
  0 < header_read_timeout ->
  let f := fexec header_read_timeout ops (front_start max_connections now) in
  (size (fr_conns f) <= max_connections)%nat /\
  (fr_dropped (accept true f) = S (fr_dropped f) <-> size (fr_conns f) = max_connections) /\
  (forall id c, fr_conns f !! id = Some c -> fresh header_read_timeout (fr_now f) c) /\
  (forall id c req, fr_conns f !! id = Some c -> cn_request c = None ->
     arrival id req f (fstep header_read_timeout (FHeaders id req) f)) /\
  (forall k, k.1 ∈ [Halt; Public; Health] -> ~ pool_full k f) /\
  (forall k n t, concurrency_limit (stack k.1) = Some n ->
     (users k (fr_conns f) <= n)%nat /\
     (fr_now f + from_secs REQUEST_TIMEOUT_SECS <= t -> users k (fr_conns (fstep header_read_timeout (FTime t) f)) = 0%nat)).
Proof.
  intros Hpos f. pose proof (front_inv_exec header_read_timeout max_connections ops _ (front_inv_start header_read_timeout max_connections now)) as Hf.
  assert (timely header_read_timeout f) as Ht by (by apply timely_exec). fold f in Hf. clearbody f. pose proof (fi_permits _ _ Hf) as Hp.
  split_and!; [by eapply accounts_le| |done| | |].
  - unfold accept. cbn [negb]. pose proof (accounts_full _ _ _ Hp) as Hfull. destruct (sem_try (fr_sem f)); cbn [fr_dropped].
    + split; [lia|]. intros Hs%Hfull. done.
    + split; [|done]. intros _. by apply Hfull.
  - intros id c req Hc Hr. cbn [fstep]. rewrite Hc, Hr. by eapply dispatch_cases.
  - intros [t g] Ht' Hn. unfold pool_full in Hn. cbn [fst] in *. set_unfold in Ht'. by destruct_or! Ht'; subst t.
  - intros k n t Hl. split; [eapply accounts_le; by apply (fi_pools _ _ Hf)|]. by eapply slots_back.
Qed.

(** Thirty-two operator requests fill their pool: one more is shed, an order and
    a halt are not. *)
#[local] Instance demo_tower : Tower := {|
  body_refused limit req := match hq_content_length req with Some n => limit <? n | None => false end;
  pool_group _ := 0%nat; unmatched _ := Health
|}.
Definition demo_post (path : string) : HttpRequest := {| hq_method := POST; hq_path := path; hq_content_length := Some 200 |}.
Definition demo_flood (n : nat) : list fop :=
  concat (map (fun i => [FAccept true; FHeaders i (demo_post "/sign-data")]) (seq 0 n)) ++ replicate 3 (FAccept true).

Lemma demo_front_facts : let f := fexec (from_secs HEADER_READ_TIMEOUT_SECS) (demo_flood 32) (front_start MAX_CONCURRENT_CONNECTIONS 0) in
  users (Operator, 0%nat) (fr_conns f) = 32%nat /\ users (Tenant, 0%nat) (fr_conns f) = 0%nat /\ fr_now f = 0 /\
  forall i, i ∈ [32; 33; 34]%nat -> fr_conns f !! i = Some {| cn_since := 0; cn_request := None |}.
Proof.
  cbv zeta. split_and!; [vm_compute; reflexivity..|].
  apply Forall_forall. repeat (apply Forall_cons; split; [vm_compute; reflexivity|]). by apply Forall_nil.
Qed.

Lemma front_sheds_only_at_capacity_witness :
  let f := fexec (from_secs HEADER_READ_TIMEOUT_SECS) (demo_flood 32) (front_start MAX_CONCURRENT_CONNECTIONS 0) in
  users (Operator, 0%nat) (fr_conns f) = 32%nat /\
  head (fr_answers (fstep (from_secs HEADER_READ_TIMEOUT_SECS) (FHeaders 32 (demo_post "/sign-data")) f)) = Some (32%nat, Operator, 503) /\
  fr_conns (fstep (from_secs HEADER_READ_TIMEOUT_SECS) (FHeaders 33 (demo_post "/hedge")) f) !! 33%nat =
    Some {| cn_since := 0; cn_request := Some (Tenant, 0%nat) |} /\
  fr_conns (fstep (from_secs HEADER_READ_TIMEOUT_SECS) (FHeaders 34 (demo_post "/tenant/halt")) f) !! 34%nat =
    Some {| cn_since := 0; cn_request := Some (Halt, 0%nat) |}.
Proof.
  cbv zeta. generalize (front_sheds_only_at_capacity (from_secs HEADER_READ_TIMEOUT_SECS) MAX_CONCURRENT_CONNECTIONS (demo_flood 32) 0 eq_refl).
  cbv zeta. generalize demo_front_facts. generalize (fexec (from_secs HEADER_READ_TIMEOUT_SECS) (demo_flood 32) (front_start MAX_CONCURRENT_CONNECTIONS 0)).
  intros f (Ho & Ht & Hn & Hc) (_ & _ & _ & Hd & _ & _). split; [done|].
  pose proof (fun i p Hi => Hd i {| cn_since := 0; cn_request := None |} (demo_post p) (Hc i Hi) eq_refl) as Hp. clear Hd. cbv zeta in Hp.
  rewrite <- Hn. split; [|split].
  - destruct (Hp 32%nat "/sign-data") as [Hb|_ _ Ha _|_ Hs]; [set_solver|destruct Hb; reflexivity|rewrite Ha; reflexivity|destruct Hs].
    unfold pool_full. change (route_of (demo_post "/sign-data")) with (Operator, 0%nat). rewrite Ho. reflexivity.
  - destruct (Hp 33%nat "/hedge") as [Hb|_ Hs|_ _ _ Ha]; [set_solver|destruct Hb; reflexivity| |exact Ha].
    unfold pool_full in Hs. change (route_of (demo_post "/hedge")) with (Tenant, 0%nat) in Hs. rewrite Ht in Hs. discriminate Hs.
  - destruct (Hp 34%nat "/tenant/halt") as [Hb|_ Hs|_ _ _ Ha]; [set_solver|destruct Hb; reflexivity|discriminate Hs|exact Ha].
Defined.
