(* ===== verification/GwHedgeFacts.v ===== *)
(** * Both halves of a hedge (gateway/src/hedge.rs)

    The handler, for every schedule of the two signatures and every answer: it
    starts an execution at most once, and only with the two requests the enclave
    signed for its legs.  The execution, for every schedule of the two venue
    calls: what it sends, when it ends, and what its report means.  [GwExecution]
    puts the two together. *)

From S2P Require Import Prelude RustStr Crates Proto Venue GwProto GwHost GwLimits GwTenant GwAuth GwWire GwCalls GwHandlers GwHedge GwGates.

Open Scope string_scope.
Open Scope list_scope.
Open Scope Z_scope.

(** ** Programs without tasks *)

Definition off_task (tr : list gevent) (X : Type) (c : gcall X) : Prop :=
  match c with SpawnExecution _ _ | JoinExecution _ | SendVenue _ | VenueReply _ => False | _ => True end.

Lemma off_task_stable : stable_pre off_task.
Proof. by intros tr tr' X c _. Qed.
Lemma off_task_cons tr X (c : gcall X) x : off_task tr X c -> spawned (gev c x :: tr) = spawned tr.
Proof. intros Hc. apply spawned_cons. by destruct c. Qed.

(** Such a program leaves the executions as they were. *)
Lemma off_task_spawned {A} (p : gprog A) tr Q :
  gall off_task p tr Q -> gall off_task p tr (fun tr' a => Q tr' a /\ tr ⊆ tr' /\ spawned tr' = spawned tr).
Proof.
  revert tr. induction p as [a|X c k IH]; intros tr; cbn [gall]; [done|]. intros [Hc Hk]. split; [done|]. intros x.
  eapply gall_mono; [apply IH, Hk|]. intros tr' a (HQ & Hs & Hv). split; [done|]. split.
  - intros e He. apply Hs. by right.
  - rewrite Hv. by eapply off_task_cons.
Qed.

(** ** What a venue answer means *)

(** The order may or may not have been placed. *)
Definition ambiguous (answer : VenueAnswer) (parsed : option json) : bool :=
  match answer with
  | VenueTransportError is_connect _ => negb is_connect
  | VenueResponse status chunks =>
      negb (is_ok (read_capped_body "" chunks)) || (500 <=? status) || ((200 <=? status) && (status <? 300) && bool_decide (parsed = None))
  end.

Section Facts.
Context `{Crates, Cbor, JsonText} (app : AppConfig) (customer token : string).

Definition body_of (answer : VenueAnswer) : option json :=
  match answer with
  | VenueResponse _ chunks => match read_capped_body "" chunks with Ok bytes => json_of_slice bytes | Err _ => None end
  | VenueTransportError _ _ => None
  end.
(** The venue accepted the order: a 2xx whose receipt carries no error. *)
Definition accepted (venue : string) (answer : VenueAnswer) : Prop :=
  exists status chunks parsed, answer = VenueResponse status chunks /\ 200 <= status < 300 /\ body_of answer = Some parsed /\
    classify_receipt venue parsed = LegOk.

Lemma classify_definite venue parsed : classify_receipt venue parsed <> LegUnknown.
Proof using. unfold classify_receipt. repeat case_match; done. Qed.

Lemma judge_spec venue answer :
  (lr_outcome (judge_answer app venue answer) = LegUnknown <-> ambiguous answer (body_of answer) = true) /\
  (lr_outcome (judge_answer app venue answer) = LegOk <-> accepted venue answer).
Proof using.
  unfold judge_answer, ambiguous, accepted, body_of. destruct answer as [status chunks|c e]; cbn [lr_outcome leg_result].
  2:{ destruct c; cbn; (split; [done|]); split; try done; by intros (? & ? & ? & ? & _). }
  destruct (read_capped_body "" chunks) as [bytes|detail] eqn:Hb; cbn [lr_outcome leg_result is_ok negb orb].
  2:{ split; [done|]. split; [done|]. intros (? & ? & ? & [= <- <-] & _ & Hn & _). done. }
  destruct (Z.leb_spec 200 status), (Z.ltb_spec status 300), (Z.leb_spec 500 status);
    cbn [andb orb negb]; try lia; cbn [lr_outcome leg_result].
  all: try (split; [done|]; split; [done|]; intros (? & ? & ? & [= <- <-] & ? & _); lia).
  destruct (json_of_slice bytes) as [parsed|] eqn:Hj; cbn [lr_outcome leg_result].
  - rewrite bool_decide_false by done. split; [split; [|done]; intros Hc; by apply classify_definite in Hc|]. split.
    + intros Hc. exists status, chunks, parsed. by split_and!.
    + intros (? & ? & ? & [= <- <-] & _ & Hn & Hc). injection Hn as <-. done.
  - rewrite bool_decide_true by done. split; [done|]. split; [done|]. intros (? & ? & ? & [= <- <-] & _ & Hn & _). done.
Qed.

(** ** Signing *)

(** [c] is what the enclave signed for [leg]. *)
Definition signed_for (leg : HedgeLegSpec) (tr : list gevent) (c : VenueCall) : Prop :=
  vc_venue c = leg_venue leg /\ leg_venue leg ∈ ["binance"; "okx"] /\
  exists req r canonical, gev (RoundTrip req) (Some r) ∈ tr /\ vs_error r = None /\ vs_canonical_body r = Some canonical /\
    vq_order req = Some (order_to_value (hl_order leg)) /\ vq_opaque_token req = Some token /\
    (leg_venue leg = "okx" -> vq_action req = "sign_okx_order" /\ vc_body c = canonical /\
       vc_headers c = <["Content-Type" := "application/json"]> (demo_header (app_env app) (default ∅ (vs_headers r)))) /\
    (leg_venue leg = "binance" -> vq_action req = "sign_binance_order" /\
       exists hs, build_binance_signed_qs canonical (default ∅ (vs_headers r)) = Ok (vc_body c, hs) /\
         vc_headers c = <["Content-Type" := "application/x-www-form-urlencoded"]> hs).
Definition leg_signed_for (leg : HedgeLegSpec) (tr : list gevent) (r : result Z VenueCall) : Prop :=
  match r with Ok c => signed_for leg tr c | Err _ => True end.

Lemma leg_signed_for_stable leg : stable (leg_signed_for leg).
Proof using.
  intros tr tr' [c|s] Hs; cbn; [|done]. intros (Hv & Hk & req & r & canonical & Hin & Hrest). split; [done|]. split; [done|].
  exists req, r, canonical. split; [by apply Hs|done].
Qed.

(** A structured request that succeeds hands back the enclave's own answer. *)
Definition structured_ok (action : string) (order : json) (tr : list gevent) (res : result Response (string * Headers * option json)) : Prop :=
  match res with
  | Ok (canonical, headers, _) => exists req r, gev (RoundTrip req) (Some r) ∈ tr /\ vs_error r = None /\
      vs_canonical_body r = Some canonical /\ headers = default ∅ (vs_headers r) /\ vq_action req = action /\
      vq_order req = Some order /\ vq_opaque_token req = Some token
  | Err _ => True
  end.

Lemma off_ask {X A} (c : gcall X) (k : X -> gprog A) tr Q :
  off_task tr X c -> (forall x, gall off_task (k x) (gev c x :: tr) Q) -> gall off_task (gbind (gask c) k) tr Q.
Proof using. intros Hc Hk. apply gall_bind, gall_ask; [done|]. exact Hk. Qed.

Lemma structured_answer_spec scope action order req r tr :
  gev (RoundTrip req) (Some r) ∈ tr -> vq_action req = action -> vq_order req = Some order -> vq_opaque_token req = Some token ->
  gall off_task (structured_answer customer scope r) tr (structured_ok action order).
Proof using.
  intros Hin Ha Ho Ht. unfold structured_answer, take_receipt, enclave_refusal.
  assert (forall receipt tr', gev (RoundTrip req) (Some r) ∈ tr' ->
    gall off_task (match vs_error r with
      | Some code => res <<- (if decide (safe_wire_code code = gw_code.RATE_LIMITED)
          then _ <<- gask (BackoffLimited scope);; GRet (enclave_error_response (safe_wire_code code) receipt)
          else GRet (enclave_error_response (safe_wire_code code) receipt));; GRet (Err res)
      | None => match vs_canonical_body r with
        | Some canonical => if is_empty canonical then GRet (Err (error_response gw_code.INTERNAL_ERROR))
            else _ <<- gask (BackoffSuccess scope);; GRet (Ok (canonical, default ∅ (vs_headers r), receipt))
        | None => GRet (Err (error_response gw_code.INTERNAL_ERROR))
        end
      end) tr' (structured_ok action order)) as Hrest.
  { intros receipt tr' Hin'. destruct (vs_error r) eqn:He.
    - apply gall_bind. destruct (decide _); cbn; [by split|done].
    - destruct (vs_canonical_body r) as [canonical|] eqn:Hc; [|done]. destruct (is_empty canonical); [done|]. apply off_ask; [done|].
      intros []. exists req, r. split_and!; try done. by right. }
  destruct (vs_receipt r); [|by apply Hrest]. cbn [gbind gask gall]. split; [done|]. intros []. apply Hrest. by right.
Qed.

Lemma split_order_payload o : split_structured (order_payload o) = Some (Some (order_to_value o), None).
Proof using. reflexivity. Qed.

Lemma structured_spec key_id action method path o intent tr :
  gall off_task (sign_structured_request app customer token key_id action method path (order_payload o) intent) tr
    (structured_ok action (order_to_value o)).
Proof using.
  unfold sign_structured_request. cbv zeta. destruct (negb _); [done|]. destruct (blobs app !! _) as [blob|]; [|done].
  apply off_ask; [done|]. intros [|]; [|done]. apply off_ask; [done|]. intros [creds|]; [|done]. rewrite split_order_payload.
  assert (forall ts tr', gall off_task (resp <<- gask (RoundTrip (structured_request action method path token key_id blob creds ts
      (Some (order_to_value o)) None intent));; match resp with
        | None => GRet (Err (error_response gw_code.ENCLAVE_UNREACHABLE))
        | Some resp => structured_answer customer (blob_key customer key_id) resp end) tr' (structured_ok action (order_to_value o))) as Hk.
  { intros ts tr'. apply off_ask; [done|]. intros [r|]; [|done]. eapply structured_answer_spec; [by left|done..]. }
  destruct (af_timestamp_ms intent); cbn [negb gbind]; [apply Hk|]. apply off_ask; [done|]. intros ts. apply Hk.
Qed.

Lemma sign_leg_spec leg tr : gall off_task (sign_leg app customer token leg) tr (leg_signed_for leg).
Proof using.
  unfold sign_leg. cbv zeta. case_bool_decide as Hb; [|case_bool_decide as Ho; [|done]]; apply gall_bind;
    (eapply gall_mono; [apply structured_spec|]); intros tr' [[[canonical headers] receipt]|resp] Hs; cbn; try done.
  - destruct Hs as (req & r & Hin & He & Hc & -> & Ha & Hor & Ht).
    destruct (build_binance_signed_qs canonical _) as [[body hs]|] eqn:Hq; [|done].
    split; [by rewrite Hb|]. split; [rewrite Hb; by left|]. exists req, r, canonical.
    split_and!; try done; [intros Hv; by rewrite Hv in Hb|]. intros _. split; [done|]. by exists hs.
  - destruct Hs as (req & r & Hin & He & Hc & -> & Ha & Hor & Ht). split; [by rewrite Ho|]. split; [rewrite Ho; by right; left|].
    exists req, r, canonical. split_and!; try done.
Qed.

Definition plain_refusal (tr : list gevent) (r : option Response) : Prop :=
  match r with Some resp => exists e, h_body resp = ErrorBody e | None => True end.
Lemma limit_refusal tr d : plain_refusal tr (limit_response d).
Proof using. destruct d; cbn; eauto. Qed.
Lemma order_gate_off tr : gall off_task (order_gate app token) tr plain_refusal.
Proof using.
  unfold order_gate. do 2 (apply off_ask; [done|]; intros ?). destruct (limit_response _) as [resp|] eqn:E.
  { cbn [gall]. rewrite <- E. apply limit_refusal. }
  destruct (negb _); [done|]. do 2 (apply off_ask; [done|]; intros ?). apply limit_refusal.
Qed.

(** ** The handler and its execution *)

(** An execution is started once, with what the enclave signed for the two legs,
    and awaited; no venue is called by the handler itself. *)
Definition hedge_pre (legs : list HedgeLegSpec) (tr : list gevent) (X : Type) (c : gcall X) : Prop :=
  match c with
  | SpawnExecution ca cb => spawned tr = [] /\ exists a b, legs = [a; b] /\ signed_for a tr ca /\ signed_for b tr cb
  | JoinExecution handle => exists ca cb, spawned tr = [(ca, cb, handle)]
  | SendVenue _ | VenueReply _ => False
  | _ => True
  end.

(** What the answer says of the execution the request started, if any. *)
Definition hedge_answer (legs : list HedgeLegSpec) (tr : list gevent) (resp : Response) : Prop :=
  match spawned tr with
  | [] => match h_body resp with
          | HedgeResponse status _ => status = "rejected"
          | HedgeUnknown => False
          | HedgeRefused hint => validate_hedge_shape app legs = Err hint
          | _ => True
          end
  | [(ca, cb, handle)] =>
      (exists status la lb, gev (JoinExecution handle) (Some (status, la, lb)) ∈ tr /\ h_status resp = 200 /\ h_body resp = HedgeResponse status [la; lb]) \/
      (gev (JoinExecution handle) None ∈ tr /\ h_status resp = 500 /\ h_body resp = HedgeUnknown)
  | _ => False
  end.

Lemma validate_two legs a b : validate_hedge_shape app legs = Ok (a, b) -> legs = [a; b].
Proof using. unfold validate_hedge_shape. destruct legs as [|a0 [|b0 [|]]]; try done. repeat case_match; try done; by intros [= <- <-]. Qed.

Lemma off_hedge_pre legs tr X (c : gcall X) : off_task tr X c -> hedge_pre legs tr X c.
Proof using. by destruct c. Qed.

Lemma post_hedge_spec legs tr : spawned tr = [] -> gall (hedge_pre legs) (post_hedge app customer token legs) tr (hedge_answer legs).
Proof using.
  intros Htr. unfold post_hedge.
  destruct (validate_hedge_shape app legs) as [[a b]|hint] eqn:Hv; [|cbn; unfold hedge_answer; by rewrite Htr]. apply validate_two in Hv as Hlegs.
  unfold gated. apply gall_bind. eapply gall_mono.
  { eapply gall_pre_mono; [apply off_hedge_pre|]. apply off_task_spawned, order_gate_off. }
  intros t [resp|] (Hr & _ & Hc); rewrite Htr in Hc.
  { cbn [gall]. unfold hedge_answer. rewrite Hc. destruct Hr as [e ->]. done. }
  apply gall_bind. eapply gall_mono.
  { eapply gall_pre_mono; [apply off_hedge_pre|]. apply off_task_spawned.
    apply (gall_join off_task off_task_stable _ _ _ _ (leg_signed_for_stable a) (leg_signed_for_stable b)); [done|apply sign_leg_spec..]. }
  intros t1 [ra rb] ((Ha & Hb) & _ & Hc1). cbn [fst snd] in Ha, Hb. rewrite Hc in Hc1.
  destruct ra as [ca|sa], rb as [cb|sb]; cbn [gall]; try (unfold hedge_answer; by rewrite Hc1).
  cbn [gbind gask gall]. split; [split; [done|]; by exists a, b|]. intros handle.
  assert (forall x, spawned (gev (JoinExecution handle) x :: gev (SpawnExecution ca cb) handle :: t1) = [(ca, cb, handle)]) as Hsp
    by (intros x; unfold spawned in *; cbn; by rewrite Hc1).
  split; [exists ca, cb; exact (Hsp None)|]. intros joined. unfold hedge_answer. rewrite Hsp.
  destruct joined as [[[status la] lb]|]; [left; exists status, la, lb|right]; (split; [by left|done]).
Qed.

(** Each of the two requests is sent once, before its answer is awaited. *)
Definition execution_pre (ca cb : VenueCall) (tr : list gevent) (X : Type) (c : gcall X) : Prop :=
  match c with
  | SendVenue call => call :: sent tr ⊆+ [ca; cb]
  | VenueReply call => call ∈ sent tr
  | Schedule => True
  | _ => False
  end.

(** Neither accepted nor left open. *)
Definition refused (venue : string) (answer : VenueAnswer) : Prop := ~ accepted venue answer /\ ambiguous answer (body_of answer) = false.

Lemma status_truth va vb xa xb :
  let status := hedge_status [lr_outcome (judge_answer app va xa); lr_outcome (judge_answer app vb xb)] in
  status ∈ ["executed"; "partial"; "failed"; "unknown"] /\
  (status = "unknown" <-> ambiguous xa (body_of xa) = true \/ ambiguous xb (body_of xb) = true) /\
  (status = "executed" <-> accepted va xa /\ accepted vb xb) /\ (status = "failed" <-> refused va xa /\ refused vb xb).
Proof using.
  unfold refused. destruct (judge_spec va xa) as [Ua Oa], (judge_spec vb xb) as [Ub Ob]. rewrite <- Ua, <- Ub, <- Oa, <- Ob, <- !not_true_iff_false, <- Ua, <- Ub.
  destruct (lr_outcome (judge_answer app va xa)), (lr_outcome (judge_answer app vb xb)); vm_compute hedge_status;
    (split; [apply (bool_decide_unpack _); vm_compute; exact I|]); split_and!; split; try done; naive_solver.
Qed.

(** What the report of an execution means, with the answers it is a report of. *)
Definition report_truth (ca cb : VenueCall) (xa xb : VenueAnswer) (res : ExecutionResult) : Prop :=
  let '(status, la, lb) := res in
  la = judge_answer app (vc_venue ca) xa /\ lb = judge_answer app (vc_venue cb) xb /\
  status ∈ ["executed"; "partial"; "failed"; "unknown"] /\
  (status = "unknown" <-> ambiguous xa (body_of xa) = true \/ ambiguous xb (body_of xb) = true) /\
  (status = "executed" <-> accepted (vc_venue ca) xa /\ accepted (vc_venue cb) xb) /\
  (status = "failed" <-> refused (vc_venue ca) xa /\ refused (vc_venue cb) xb).

(** A finished execution sent both requests, once each, and had both answers. *)
Definition execution_truth (ca cb : VenueCall) (tr : list gevent) (res : ExecutionResult) : Prop :=
  sent tr ≡ₚ [ca; cb] /\ exists xa xb, gev (VenueReply ca) xa ∈ tr /\ gev (VenueReply cb) xb ∈ tr /\ report_truth ca cb xa xb res.

Lemma execution_spec ca cb : gall (execution_pre ca cb) (hedge_execution app ca cb) [] (execution_truth ca cb).
Proof using.
  assert (forall xa xb, report_truth ca cb xa xb (hedge_status [lr_outcome (judge_answer app (vc_venue ca) xa); lr_outcome (judge_answer app (vc_venue cb) xb)],
    judge_answer app (vc_venue ca) xa, judge_answer app (vc_venue cb) xb)) as Hrep.
  { intros xa xb. split; [done|]. split; [done|]. apply status_truth. }
  unfold hedge_execution. cbn [gjoin execute_leg gbind gask gall].
  repeat match goal with
  | |- execution_pre _ _ _ _ _ /\ _ => split; [cbn; try done; try solve_submseteq; set_solver|]
  | |- forall left : bool, _ => intros []; cbn [gall gjoin gbind]
  | |- forall _, _ => intros ?
  | |- execution_truth _ _ _ _ => split; [first [exact (Permutation_refl _)|exact (perm_swap _ _ _)]|]; do 2 eexists;
      (split; [|split; [|apply Hrep]]); repeat first [apply list_elem_of_here|apply list_elem_of_further]
  end.
Qed.

(** It takes at most seven steps: four calls and the scheduler's choices. *)
Lemma execution_ends ca cb : ends_within (hedge_execution app ca cb) 7.
Proof using.
  unfold hedge_execution. cbn [gjoin execute_leg gbind gask ends_within].
  repeat match goal with
  | |- forall left : bool, _ => intros []; cbn [ends_within gjoin gbind]
  | |- forall _, _ => intros ?
  end; done.
Qed.

(** At any point of an execution. *)
Lemma execution_sent ca cb tr : lawful (execution_pre ca cb) tr -> sent tr ⊆+ [ca; cb].
Proof using.
  induction tr as [|[X [c x]] tr IH]; cbn [lawful]; [intros _; apply submseteq_nil_l|]. intros [Hc Hl]. by destruct c; try exact (IH Hl).
Qed.
End Facts.

(** ** Corner cases *)

(** An unreachable enclave is 503, which the per-leg label does not know. *)
Lemma unreachable_leg_label :
  http_status_for gw_code.ENCLAVE_UNREACHABLE = 503 /\ sign_error_label 503 = "sign_failed" /\ 503 ∉ DOMINANCE.
Proof. split; [reflexivity|]. split; [reflexivity|]. unfold DOMINANCE. set_solver. Qed.

(** A leg in the venues' own upper case passes the shape check, and unlike the
    single-order routes the hedge hands it to the enclave as it is, whose
    builders only know lower case. *)
Lemma hedge_keeps_case leg : oq_ord_type (hl_order leg) = "MARKET" ->
  is_market leg = true /\ order_type "MARKET" "LIMIT" (oq_ord_type (hl_order leg)) = Err "unknown ord_type" /\
  order_type "MARKET" "LIMIT" (oq_ord_type (normalize_order_case (hl_order leg))) = Ok ("MARKET", false).
Proof. intros Ht. unfold is_market, normalize_order_case. cbn [oq_ord_type]. rewrite Ht. split_and!; reflexivity. Qed.

(** The enclave's own kill-switch codes reach the client as an internal error. *)
Lemma enclave_mode_codes_hidden :
  safe_wire_code err_code.MODE_HALTED = gw_code.INTERNAL_ERROR /\ safe_wire_code err_code.MODE_CANCEL_ONLY = gw_code.INTERNAL_ERROR /\
  http_status_for gw_code.INTERNAL_ERROR = 500.
Proof. split_and!; vm_compute; reflexivity. Qed.
