(* ===== verification/GwHandoff.v ===== *)
(** * From the enclave's signature to the venue's check

    The gateway rebuilds the query string around the enclave's headers.  What
    the venue authenticates is then exactly what the enclave signed. *)

From S2P Require Import Prelude RustStr Crates Proto Venue GwProto GwHost GwLimits GwTenant GwWire GwCalls GwHandlers.

Open Scope string_scope.
Open Scope list_scope.
Open Scope Z_scope.

(** What a Binance server checks of a signed query or body: the last parameter
    is the signature, made over everything before it. *)
Definition venue_authentic `{Crates} (secret signed : string) : Prop :=
  exists preimage, signed = preimage +:+ "&signature=" +:+ hex_encode (hmac_sha256 secret preimage).

Section Handoff.
Context `{Crates} {HL : HexLaws}.
(** HMAC-SHA256 has 32 bytes. *)
Context (hmac_sha256_length : forall k m, String.length (hmac_sha256 k m) = 32%nat).

Lemma safe_digits n : is_safe_query_value (u64_to_string n) = true.
Proof using.
  unfold is_safe_query_value. rewrite u64_to_string_nonempty. cbn [negb andb]. eapply bytes_all_impl; [|apply u64_to_string_digits].
  intros c Hc. unfold is_ascii_alphanumeric. by rewrite Hc, orb_true_r.
Qed.

Lemma hexdigit_alphanumeric c : is_ascii_hexdigit c = true -> is_ascii_alphanumeric c = true.
Proof using.
  unfold is_ascii_hexdigit, is_ascii_alphanumeric, is_ascii_alphabetic, is_ascii_uppercase, is_ascii_lowercase, in_range.
  destruct (is_ascii_digit c); [by rewrite orb_true_r|]. cbn [orb]. rewrite orb_false_r, !orb_true_iff, !andb_true_iff, !Z.leb_le. lia.
Qed.

Lemma safe_hmac k m : is_safe_query_value (hex_encode (hmac_sha256 k m)) = true.
Proof using hmac_sha256_length HL.
  unfold is_safe_query_value. apply andb_true_iff. split.
  - pose proof (hex_decode_length _ _ (hex_decode_encode (hmac_sha256 k m))) as Hl. rewrite hmac_sha256_length in Hl.
    by destruct (hex_encode _).
  - eapply bytes_all_impl; [|apply hex_encode_hex]. intros c Hc%hexdigit_alphanumeric. by rewrite Hc.
Qed.

Definition signature_of (secret query : string) : string := hex_encode (hmac_sha256 secret query).

Lemma headers_lookup secret key ts q : let h := compute_binance_headers secret key ts q "" in
  h !! "signature" = Some (signature_of secret (binance_full_query ts q)) /\ h !! "timestamp" = Some (u64_to_string ts) /\
  recv_window h = "5000" /\ drop_signed h = {["X-MBX-APIKEY" := key]}.
Proof using.
  cbn zeta. unfold compute_binance_headers, sign_binance, binance_canonical, recv_window, drop_signed, signature_of. rewrite append_nil_r.
  split_and!; [by simplify_map_eq..|]. apply map_eq. intros k. cbn [list_to_map foldr fst snd uncurry].
  destruct (decide (k = "X-MBX-APIKEY")) as [->|Hk]; [by simplify_map_eq|]. rewrite lookup_singleton_ne by done.
  destruct (decide (k = "signature")) as [->|]; [by simplify_map_eq|]. destruct (decide (k = "timestamp")) as [->|]; [by simplify_map_eq|].
  destruct (decide (k = "recvWindow")) as [->|]; by simplify_map_eq.
Qed.

(** The tail the gateway writes, after the enclave's query. *)
Lemma tail_text q ts sig : is_empty q = false ->
  q +:+ "&" +:+ signed_tail (u64_to_string ts) "5000" sig = binance_full_query ts q +:+ "&signature=" +:+ sig.
Proof using. intros Hq. unfold signed_tail, binance_full_query. rewrite Hq, !append_assoc. done. Qed.

Lemma safe_parts secret query ts : forallb is_safe_query_value [signature_of secret query; u64_to_string ts; "5000"] = true.
Proof using hmac_sha256_length HL. cbn [forallb]. rewrite safe_digits. unfold signature_of. by rewrite safe_hmac. Qed.

Lemma signed_qs_spec secret key ts q : is_empty q = false -> bytes_any blank_byte q = false ->
  build_binance_signed_qs q (compute_binance_headers secret key ts q "") =
    Ok (binance_full_query ts q +:+ "&signature=" +:+ signature_of secret (binance_full_query ts q), {["X-MBX-APIKEY" := key]}).
Proof using hmac_sha256_length HL.
  intros Hq Hb. destruct (headers_lookup secret key ts q) as (Hs & Ht & Hr & Hd). unfold build_binance_signed_qs.
  rewrite Hs, Ht, Hr, Hd, safe_parts. cbn [negb]. rewrite Hq, Hb. cbn [orb]. by rewrite tail_text.
Qed.

(** ** What the enclave's builders put in a query *)

Lemma no_blank l : Forall (fun kv => bytes_any blank_byte (fst kv) = false /\ bytes_any blank_byte (snd kv) = false) l ->
  bytes_any blank_byte (form_text l) = false.
Proof using.
  assert (forall s t, bytes_any blank_byte s = false -> bytes_any blank_byte t = false -> bytes_any blank_byte (s +:+ t) = false) as Happ.
  { intros s t Hs Ht. unfold bytes_any in *. rewrite bytes_all_app. by rewrite negb_andb, Hs, Ht. }
  assert (forall kv, bytes_any blank_byte (fst kv) = false /\ bytes_any blank_byte (snd kv) = false -> bytes_any blank_byte (pair_text kv) = false) as Hpair.
  { intros kv [Hk Hv]. unfold pair_text. apply Happ; [done|]. by apply Happ. }
  induction 1 as [|kv l Hkv Hl IH]; [done|]. destruct l as [|kv' l]; [by apply Hpair|].
  change (form_text (kv :: kv' :: l)) with (pair_text kv +:+ ("&" +:+ form_text (kv' :: l))). apply Happ; [by apply Hpair|]. by apply Happ.
Qed.

Lemma safe_no_blank v : is_safe_binance_param_value v = true -> bytes_any blank_byte v = false.
Proof using.
  unfold is_safe_binance_param_value. rewrite andb_true_iff. intros [_ Hv]. unfold bytes_any. apply negb_false_iff.
  eapply bytes_all_impl; [|exact Hv]. intros c Hc. unfold blank_byte. unfold safe_byte in Hc.
  destruct (Z.eqb_spec (byte_val c) 32) as [E|_], (Z.eqb_spec (byte_val c) 10) as [E'|_], (Z.eqb_spec (byte_val c) 13) as [E2|_],
    (Z.eqb_spec (byte_val c) 0) as [E3|_]; try done; exfalso; revert Hc;
    unfold is_ascii_alphanumeric, is_ascii_alphabetic, is_ascii_uppercase, is_ascii_lowercase, is_ascii_digit, in_range;
    rewrite !orb_true_iff, !andb_true_iff, !Z.leb_le, !Z.eqb_eq; lia.
Qed.

Lemma order_no_blank req : order_ok req = true -> bytes_any blank_byte (form_text (binance_order_params req)) = false.
Proof using.
  intros Hok. apply no_blank. unfold order_ok in Hok. rewrite !andb_true_iff in Hok. destruct Hok as ((((Hs & Hq) & _) & Hp) & Hc).
  unfold binance_order_params. repeat apply Forall_app_2; [repeat (apply Forall_cons; split); [..|apply Forall_nil_2]| | |].
  - split; [done|by apply safe_no_blank].
  - split; [done|]. cbn [snd]. by case_goal.
  - split; [done|]. cbn [snd]. by case_goal.
  - split; [done|by apply safe_no_blank].
  - destruct (o_price req); [|done]. apply andb_true_iff in Hp as [_ Hp]. repeat constructor; by apply safe_no_blank.
  - destruct (o_reduce_only req); by repeat constructor.
  - destruct (o_client_order_id req); [|done]. repeat constructor; by apply safe_no_blank.
Qed.

Lemma clean_signature k m : clean_pair ("signature", hex_encode (hmac_sha256 k m)).
Proof using HL.
  split_and!; [done..|]. cbn [snd]. apply (contains_char_all _ is_ascii_hexdigit); [done|apply hex_encode_hex].
Qed.

(** C23: What Binance checks is what the enclave signed.  For every order the
    enclave's builder accepts and every key, the body the gateway assembles from
    the enclave's answer carries the enclave's signature over exactly the bytes
    in front of it, and a server that reads it back sees the order's fields,
    the timestamp, the window and the signature, in that order and nothing
    else; the API key goes in the header.  For signed reads and mass cancels
    the same holds of the URL's query, for every filter. *)
Theorem binance_handoff secret key ts req q user_query env path :
  build_binance_order_query req = Ok q ->
  (exists body, build_binance_signed_qs q (compute_binance_headers secret key ts q "") = Ok (body, {["X-MBX-APIKEY" := key]}) /\
     venue_authentic secret body /\
     form_params body = binance_order_params req ++ trailer ts ++ [("signature", signature_of secret (binance_full_query ts q))]) /\
  (exists query, binance_signed_url env path user_query (compute_binance_headers secret key ts user_query "") =
       Some (binance_base_url env +:+ path +:+ "?" +:+ query, {["X-MBX-APIKEY" := key]}) /\ venue_authentic secret query).
Proof using hmac_sha256_length HL.
  intros Hq. pose proof (build_binance_order_query_spec req) as Hspec. rewrite Hq in Hspec. destruct Hspec as [Hok ->]. split.
  - exists (binance_full_query ts (form_text (binance_order_params req)) +:+ "&signature=" +:+
      signature_of secret (binance_full_query ts (form_text (binance_order_params req)))).
    split; [by apply signed_qs_spec; [|apply order_no_blank]|]. split; [by eexists|].
    set (l := binance_order_params req). set (sig := signature_of _ _).
    assert (l ++ trailer ts <> []) as Hne by (by destruct l). rewrite full_query_text by done.
    change ("&signature=" +:+ sig) with ("&" +:+ form_text [("signature", sig)]). rewrite <- form_text_app, <- app_assoc by done.
    apply form_params_text; [by destruct l|]. apply Forall_app_2; [by apply binance_order_params_clean|].
    apply Forall_app_2; [apply trailer_clean|]. apply Forall_singleton, clean_signature.
  - destruct (headers_lookup secret key ts user_query) as (Hs & Ht & Hr & Hd).
    exists (binance_full_query ts user_query +:+ "&signature=" +:+ signature_of secret (binance_full_query ts user_query)).
    split; [|by eexists]. unfold binance_signed_url. rewrite Hs, Ht, Hr, Hd. cbn [mbind option_bind]. rewrite safe_parts. cbn [negb].
    do 5 f_equal. unfold signed_tail, binance_full_query. destruct (is_empty user_query); cbn -[String.append]; by rewrite !append_assoc.
Qed.
End Handoff.

#[local] Existing Instance demo_crates.

Definition demo_limit_order : OrderRequest :=
  {| o_symbol := "BTCUSDT"; o_side := "buy"; o_qty := "0.5"; o_ord_type := "limit"; o_price := Some "64000.1"; o_reduce_only := true;
     o_client_order_id := None |}.

Lemma binance_handoff_witness :
  exists q, build_binance_order_query demo_limit_order = Ok q /\
  exists body, build_binance_signed_qs q (compute_binance_headers "secret" "key" 1700000000000 q "") = Ok (body, {["X-MBX-APIKEY" := "key"]}) /\
    venue_authentic "secret" body.
Proof.
  eexists. split; [vm_compute; reflexivity|].
  destruct (binance_handoff (HL := demo_hex_laws) ltac:(intros; apply length_demo_digest) "secret" "key" 1700000000000 demo_limit_order
    "symbol=BTCUSDT&side=BUY&type=LIMIT&quantity=0.5&price=64000.1&timeInForce=GTC&reduceOnly=true" "" (fun _ => None) "/fapi/v2/account")
    as [(body & Hb & Ha & _) _]; [vm_compute; reflexivity|].
  exists body. split; [exact Hb|exact Ha].
Defined.
