(* ===== verification/GwPayments.v ===== *)
(** * A request pays at most once (gateway)

    No route but [/sign-x402] charges the x402 cap or asks the enclave for a
    payment, and that route does each at most once per request; no route but
    [/hedge] starts an execution. *)

From S2P Require Import Prelude RustStr Crates Proto GwProto GwHost GwLimits GwTenant GwAuth GwWire GwCalls GwHandlers GwHedge GwGates GwServe.

Open Scope string_scope.
Open Scope list_scope.
Open Scope Z_scope.

Definition is_payment (req : VsockRequest) : bool := bool_decide (vq_action req = "sign_x402_eip3009").

Definition spend_call {X} (c : gcall X) : bool := match c with CountSpend _ _ _ => true | _ => false end.
Definition payment_call {X} (c : gcall X) : bool := match c with RoundTrip req => is_payment req | _ => false end.
Definition spend_event (e : gevent) : bool := match e with existT _ (c, _) => spend_call c end.
Definition payment_event (e : gevent) : bool := match e with existT _ (c, _) => payment_call c end.
Definition events_of (f : gevent -> bool) (tr : list gevent) : list gevent := filter (fun e => f e = true) tr.

(** What a program has leave to do: to charge and pay, to start executions. *)
Record Leave := { may_pay : bool; may_spawn : bool }.
Definition quiet (leave : Leave) (tr : list gevent) (X : Type) (c : gcall X) : Prop :=
  implb (spend_call c || payment_call c) (may_pay leave) && implb (task_call c) (may_spawn leave) = true.
Definition no_payment : Leave := {| may_pay := false; may_spawn := true |}.
Definition no_execution : Leave := {| may_pay := true; may_spawn := false |}.

(** Charges, and pays, for the first time. *)
Definition once (tr : list gevent) (X : Type) (c : gcall X) : Prop :=
  (spend_call c = true -> events_of spend_event tr = []) /\ (payment_call c = true -> events_of payment_event tr = []).

Lemma quiet_off tr X (c : gcall X) : quiet no_payment tr X c -> spend_call c = false /\ payment_call c = false.
Proof. unfold quiet. cbn. by destruct (spend_call c), (payment_call c). Qed.
Lemma quiet_once tr X (c : gcall X) : quiet no_payment tr X c -> once tr X c.
Proof. intros [Hs Hp]%quiet_off. split; congruence. Qed.
Lemma quiet_stable leave : stable_pre (quiet leave).
Proof. by intros tr tr' X c _. Qed.

Lemma once_lawful tr : lawful once tr ->
  (length (events_of spend_event tr) <= 1)%nat /\ (length (events_of payment_event tr) <= 1)%nat.
Proof.
  unfold events_of. induction tr as [|[X [c x]] tr IH]; cbn [lawful]; [cbn; lia|]. intros [[Hs Hp] Hl]. destruct (IH Hl) as [IHs IHp].
  unfold events_of in Hs, Hp. rewrite !filter_cons. cbn [spend_event payment_event].
  split; case_decide as E; try done; cbn [length]; [rewrite (Hs E)|rewrite (Hp E)]; cbn; lia.
Qed.

Create HintDb quiet.

Section Quiet.
Context `{Crates, Cbor, JsonText} (app : AppConfig) (customer token : string) (leave : Leave).

Abbreviation quietly p tr := (gall (quiet leave) p tr (fun _ _ => True)).

Lemma quiet_bind {A B} (p : gprog A) (f : A -> gprog B) tr :
  quietly p tr -> (forall a tr', quietly (f a) tr') -> quietly (gbind p f) tr.
Proof using. intros Hp Hf. apply gall_bind. eapply gall_mono; [exact Hp|]. intros tr' a _. apply Hf. Qed.
Lemma quiet_join {A B} (p : gprog A) (q : gprog B) tr : quietly p tr -> quietly q tr -> quietly (gjoin p q) tr.
Proof using.
  intros Hp Hq. eapply gall_mono; [apply (gall_join (quiet leave) (quiet_stable leave) p q (fun _ _ => True) (fun _ _ => True)); done|done].
Qed.
Lemma gated_quiet g k tr : quietly g tr -> (forall tr', quietly k tr') -> quietly (gated g k) tr.
Proof using. intros Hg Hk. apply quiet_bind; [done|]. intros [resp|] tr'; [exact I|apply Hk]. Qed.
Lemma or_return_quiet {A} (p : gprog (result Response A)) k tr :
  quietly p tr -> (forall a tr', quietly (k a) tr') -> quietly (or_return p k) tr.
Proof using. intros Hp Hk. apply quiet_bind; [done|]. intros [a|resp] tr'; [apply Hk|exact I]. Qed.

(** Walks through a program, one bind, call or branch at a time; messages to
    the enclave remain to be shown quiet. *)
Ltac walk :=
  repeat (cbv zeta; lazymatch goal with
  | |- gall _ (GRet _) _ _ => exact I
  | |- gall _ (reply _) _ _ => exact I
  | |- gall _ (gbind _ _) _ _ => apply quiet_bind; [|intros ? ?]
  | |- gall _ (gated _ _) _ _ => apply gated_quiet; [|intros ?]
  | |- gall _ (or_return _ _) _ _ => apply or_return_quiet; [|intros ? ?]
  | |- gall _ (gjoin _ _) _ _ => apply quiet_join
  | |- gall _ (gask _) _ _ => apply gall_ask; [try reflexivity|intros ?; exact I]
  | |- gall _ (if ?b then _ else _) _ _ => destruct b
  | |- gall _ (match ?x with _ => _ end) _ _ => destruct x eqn:?
  | |- gall _ _ _ _ => solve [eauto with quiet]
  end).

Lemma order_gate_quiet tr : quietly (order_gate app token) tr.
Proof using. unfold order_gate. walk. Qed.
Lemma cancel_gate_quiet tr : quietly (cancel_gate token) tr.
Proof using. unfold cancel_gate. walk. Qed.
Lemma body_gate_quiet class tr : quietly (body_gate customer class) tr.
Proof using. unfold body_gate. walk. Qed.
Lemma take_receipt_quiet resp tr : quietly (take_receipt resp customer) tr.
Proof using. unfold take_receipt. walk. Qed.
Lemma refusal_quiet scope code receipt tr : quietly (enclave_refusal scope code receipt) tr.
Proof using. unfold enclave_refusal. walk. Qed.
#[local] Hint Resolve order_gate_quiet cancel_gate_quiet body_gate_quiet take_receipt_quiet refusal_quiet : quiet.

Lemma sign_answer_quiet scope resp tr : quietly (sign_answer customer scope resp) tr.
Proof using. unfold sign_answer. walk. Qed.
Lemma two_headers_quiet scope a b mk resp tr : quietly (two_headers_answer customer scope a b mk resp) tr.
Proof using. unfold two_headers_answer. walk. Qed.
Lemma structured_answer_quiet scope resp tr : quietly (structured_answer customer scope resp) tr.
Proof using. unfold structured_answer. walk. Qed.
Lemma binance_answer_quiet scope resp tr : quietly (binance_request_answer customer scope resp) tr.
Proof using. unfold binance_request_answer. walk. Qed.
#[local] Hint Resolve sign_answer_quiet two_headers_quiet structured_answer_quiet binance_answer_quiet : quiet.

Lemma generic_action_quiet exchange kind action : enclave_action_for exchange kind = Some action -> action <> "sign_x402_eip3009".
Proof using. intros Ha ->. destruct (enclave_action_reach _ _ _ Ha) as (_ & Hin & _). set_solver. Qed.

Lemma action_quiet (req : VsockRequest) tr : vq_action req <> "sign_x402_eip3009" -> quiet leave tr _ (RoundTrip req).
Proof using. intros Ha. unfold quiet. cbn. unfold is_payment. by rewrite bool_decide_false. Qed.

Lemma sign_request_action req action blob ts creds : vq_action (sign_request req action token blob ts creds) = action.
Proof using. unfold sign_request. by destruct (route_query _ _ _). Qed.

Lemma post_sign_quiet req tr : quietly (post_sign app customer token req) tr.
Proof using.
  unfold post_sign, sign_gates. walk; apply action_quiet; rewrite sign_request_action; by eapply generic_action_quiet.
Qed.

Lemma structured_quiet key_id action method path structured intent tr : action <> "sign_x402_eip3009" ->
  quietly (sign_structured_request app customer token key_id action method path structured intent) tr.
Proof using. intros Ha. unfold sign_structured_request. walk; by apply action_quiet. Qed.

Lemma read_quiet venue method path body query tr :
  quietly (sign_account_read app customer token venue method path body query) tr.
Proof using. unfold sign_account_read. walk; apply action_quiet; by eapply generic_action_quiet. Qed.
#[local] Hint Resolve post_sign_quiet read_quiet : quiet.
#[local] Hint Extern 1 (gall (quiet _) (sign_structured_request _ _ _ _ _ _ _ _ _) _ _) =>
  apply structured_quiet; discriminate : quiet.

Lemma binance_read_quiet method path query tr : quietly (binance_read app customer token method path query) tr.
Proof using. unfold binance_read. walk. Qed.
Lemma okx_read_quiet path query tr : quietly (okx_read app customer token path query) tr.
Proof using. unfold okx_read. walk. Qed.
Lemma okx_signed_quiet path tr : quietly (build_okx_signed_read app customer token path) tr.
Proof using. unfold build_okx_signed_read. walk. Qed.
Lemma sign_leg_quiet leg tr : quietly (sign_leg app customer token leg) tr.
Proof using. unfold sign_leg. walk. Qed.
#[local] Hint Resolve binance_read_quiet okx_read_quiet okx_signed_quiet sign_leg_quiet : quiet.

Lemma binance_exchange_quiet req tr : quietly (binance_request_exchange app customer token req) tr.
Proof using. unfold binance_request_exchange. walk. Qed.
Lemma heartbeat_quiet nonce tr : quietly (post_receipt_heartbeat token nonce) tr.
Proof using. unfold post_receipt_heartbeat. walk. Qed.
Lemma permit2_quiet req tr : quietly (post_sign_permit2 app customer token req) tr.
Proof using. unfold post_sign_permit2. walk. Qed.
#[local] Hint Resolve binance_exchange_quiet heartbeat_quiet permit2_quiet : quiet.

(** The two routes that need leave, given it. *)
Lemma spend_gate_quiet scope value tr : may_pay leave = true -> quietly (x402_spend_gate app scope value) tr.
Proof using. intros Hl. unfold x402_spend_gate. walk. unfold quiet. cbn. by rewrite Hl. Qed.
Lemma x402_quiet req tr : may_pay leave = true -> quietly (post_sign_x402 app customer token req) tr.
Proof using.
  intros Hl. pose proof (fun s v t => spend_gate_quiet s v t Hl). unfold post_sign_x402. walk. unfold quiet. cbn [spend_call payment_call task_call].
  rewrite Hl. by destruct (_ || _).
Qed.
Lemma hedge_quiet legs tr : may_spawn leave = true -> quietly (post_hedge app customer token legs) tr.
Proof using. intros Hl. unfold post_hedge. walk; unfold quiet; cbn; by rewrite Hl. Qed.

Definition pays (r : Route) : bool := match r with RSignX402 _ => true | _ => false end.
Definition hedges (r : Route) : bool := match r with RHedge _ => true | _ => false end.

Lemma route_quiet r tr : (pays r = true -> may_pay leave = true) -> (hedges r = true -> may_spawn leave = true) ->
  quietly (route_handler app r customer token) tr.
Proof using.
  destruct r; intros Hp Hh; cbn [route_handler];
    try (first [by apply x402_quiet, Hp|by apply hedge_quiet, Hh]);
    unfold get_account, get_account_binance_inner, get_account_okx_inner, get_open_orders, open_orders_binance_inner,
      open_orders_okx_inner, get_user_trades, user_trades_binance_inner, user_trades_okx_inner, post_cancel_all,
      cancel_all_binance_inner, post_sign_binance_request, post_sign_binance_order, post_sign_binance_cancel,
      post_sign_binance_spot_order, post_sign_binance_spot_cancel, post_sign_okx_order, post_sign_okx_cancel,
      binance_post, binance_delete, okx_post; walk.
Qed.

Lemma layers_quiet line next tr : (forall tr', quietly next tr') -> quietly (tenant_layer customer line (rate_layer app token next)) tr.
Proof using. intros Hn. unfold tenant_layer, rate_layer. walk; apply Hn. Qed.
End Quiet.

(** Only a hedge starts executions. *)
Lemma serve_spawnless `{Crates} app vars auth header r : hedges r = false ->
  gall (quiet no_execution) (serve app vars auth header r) [] (fun _ _ => True).
Proof.
  intros Hr. unfold serve. destruct (require_bearer _ _ _) as [[customer token]|]; [|exact I].
  apply layers_quiet. intros tr. apply route_quiet; [done|by rewrite Hr].
Qed.

Section Payments.
Context `{Crates, Cbor, JsonText} (app : AppConfig) (customer token : string).

(** Nothing charged or paid so far. *)
Definition silent (tr : list gevent) : Prop := events_of spend_event tr = [] /\ events_of payment_event tr = [].

Lemma silent_cons tr X (c : gcall X) x : quiet no_payment tr X c -> silent tr -> silent (gev c x :: tr).
Proof using.
  intros [Hs Hp]%quiet_off [H1' H2']. unfold silent, events_of in *. rewrite !filter_cons. cbn [spend_event payment_event gev].
  rewrite Hs, Hp. by rewrite !decide_False.
Qed.
(** A call that neither charges nor pays, then the rest. *)
Lemma ask_quiet {X A} (c : gcall X) (k : X -> gprog A) tr Q :
  quiet no_payment tr X c -> silent tr -> (forall x tr', silent tr' -> gall once (k x) tr' Q) -> gall once (gbind (gask c) k) tr Q.
Proof using.
  intros Hc Ht Hk. apply gall_bind, gall_ask; [by apply quiet_once|]. intros x. apply Hk. by apply silent_cons.
Qed.
Lemma quiet_rest {A} (p : gprog A) tr : gall (quiet no_payment) p tr (fun _ _ => True) -> gall once p tr (fun _ _ => True).
Proof using. apply gall_pre_mono. exact quiet_once. Qed.

Lemma x402_once req tr : silent tr -> gall once (post_sign_x402 app customer token req) tr (fun _ _ => True).
Proof using.
  intros Ht. unfold post_sign_x402. destruct (negb _); [exact I|]. cbv zeta. destruct (blobs app !! _) as [blob|]; [|exact I].
  destruct (parse_unsigned _ _) as [v|]; [|exact I]. unfold gated, x402_spend_gate.
  match goal with |- gall _ (gbind _ ?k) _ _ => assert (forall t, events_of payment_event t = [] -> gall once (k None) t (fun _ _ => True)) as Hk end.
  { intros t Ht2. cbn [gall gbind gask]. split; [by split|]. intros [creds|]; [|exact I]. cbn [gall gbind]. split; [by split|]. intros now.
    split; [by split|]. intros [|]; [|exact I]. cbn [negb gall gbind]. split; [split; [done|intros _; exact Ht2]|].
    intros [resp|]; [|exact I]. apply quiet_rest, two_headers_quiet. }
  destruct (negb _); [apply Hk, Ht|]. cbn [gbind gask gall]. split; [by split|]. intros now. split.
  { split; [intros _; apply Ht|done]. }
  intros d. destruct (limit_response _); [exact I|]. apply Hk. apply Ht.
Qed.
End Payments.

Lemma serve_once `{Crates} app vars auth header r :
  gall once (serve app vars auth header r) [] (fun _ _ => True).
Proof.
  unfold serve. destruct (require_bearer _ _ _) as [[customer token]|]; [|exact I].
  assert (forall tr, silent tr -> gall once (route_handler app r customer token) tr (fun _ _ => True)) as Hr.
  { intros tr Ht. destruct (pays r) eqn:Hp; [|by apply quiet_rest, route_quiet; [rewrite Hp|]]. destruct r; try discriminate Hp. by apply x402_once. }
  unfold tenant_layer, rate_layer. apply ask_quiet; [done..|]. intros s tr Ht.
  assert (gall once (rate_layer app token (route_handler app r customer token)) tr (fun _ _ => True)) as Hl.
  { unfold rate_layer. destruct (negb _); [by apply Hr|]. apply ask_quiet; [done..|]. intros now tr1 Ht1. apply ask_quiet; [done..|].
    intros d tr2 Ht2. destruct (limit_response d); [exact I|by apply Hr]. }
  destruct (bool_decide _); [exact Hl|]. destruct (tenant_decide _ _); [exact Hl|exact I].
Qed.
