(* ===== verification/GwAws.v ===== *)
(** * AWS credentials (gateway/src/aws.rs)

    The role credentials every request forwards, cached until five minutes
    before they expire.  The metadata service is a parameter; its expiry text
    is parsed here, and compared with the calendar of [DateTime]. *)

From S2P Require Import Prelude RustStr Decimal DateTime Crates Proto GwHost GwProto GwLimits GwTenant GwReconcile GwWire.

Open Scope string_scope.
Open Scope list_scope.
Open Scope Z_scope.

Definition CREDS_REFRESH_BEFORE_SECONDS : Z := 300.

(** ** The expiry text *)

Inductive ExpiryError := BadShape | BadSeparators | BadField | NotAtBoundary.

(** [i64::from_str], on slices too short to overflow. *)
Definition parse_i64 (s : string) : option Z :=
  match strip_prefix "-" s with
  | Some ds => if is_empty ds || negb (bytes_all is_ascii_digit ds) then None else Some (- msf_val (str_digits ds))
  | None =>
      let ds := default s (strip_prefix "+" s) in
      if is_empty ds || negb (bytes_all is_ascii_digit ds) then None else Some (msf_val (str_digits ds))
  end.

(** [&s[a..b]], which panics inside a character. *)
Definition slice (s : string) (a b : nat) : result ExpiryError string :=
  if at_boundary s a && at_boundary s b then Ok (str_take (b - a) (str_drop a s)) else Err NotAtBoundary.
Definition field (s : string) (a b : nat) : result ExpiryError Z := t ← slice s a b; ok_or (parse_i64 t) BadField.

(** [days_from_civil] *)
Definition days_from_civil (year month day : Z) : Z :=
  let y := year - if month <=? 2 then 1 else 0 in
  let era := Z.quot (if 0 <=? y then y else y - 399) 400 in
  let yoe := (y - era * 400) mod 400 in
  let doy := Z.quot (153 * (if 2 <? month then month - 3 else month + 9) + 2) 5 + day - 1 in
  let doe := yoe * 365 + Z.quot yoe 4 - Z.quot yoe 100 + doy in
  era * 146097 + doe - 719468.

Definition is_sep (s : string) (n : nat) (c : ascii) : bool := bool_decide (byte_at n s = Some c).
Definition parse_rfc3339_to_unix (s : string) : result ExpiryError Z :=
  if (String.length s <? 20)%nat || negb (ends_with "Z" s) then Err BadShape
  else if negb (is_sep s 4 "-" && is_sep s 7 "-" && is_sep s 10 "T" && is_sep s 13 ":" && is_sep s 16 ":") then Err BadSeparators
  else
    year ← field s 0 4; month ← field s 5 7; day ← field s 8 10;
    hour ← field s 11 13; minute ← field s 14 16; second ← field s 17 19;
    Ok (days_from_civil year month day * 86400 + hour * 3600 + minute * 60 + second).

(** ** The metadata service *)

Record HttpAnswer := { ha_status : Z; ha_text : option string }.
Record ImdsCredsJson := { AccessKeyId : string; SecretAccessKey : string; Token : string; Expiration : string }.

(** The service's answers to the three requests, the session token and the role
    name being part of the request; [None] when nothing came back.  The derived
    parser of the last body. *)
Class Imds := {
  imds_token : option HttpAnswer;
  imds_role : string -> option HttpAnswer;
  imds_creds : string -> string -> option HttpAnswer;
  imds_creds_of_slice : string -> option ImdsCredsJson
}.

Inductive FetchError := Unreachable | TokenRefused (status : Z) | RefusedStatus (status : Z) | NoBody | NoRole | BadCreds | BadExpiry (e : ExpiryError).

(** [status().is_success()] and [error_for_status()], which lets a redirect pass. *)
Definition is_success (status : Z) : bool := (200 <=? status) && (status <? 300).
Definition error_for_status (a : HttpAnswer) : result FetchError HttpAnswer :=
  if (400 <=? ha_status a) && (ha_status a <? 600) then Err (RefusedStatus (ha_status a)) else Ok a.

(** What the service hands out, and what the cache keeps. *)
Record CachedCreds := { cc_creds : AwsCredentials; cc_expires_at_unix : Z }.
Definition CredsCache := option CachedCreds.

Definition fetch_imds_credentials `{Imds} : result FetchError CachedCreds :=
  token_resp ← ok_or imds_token Unreachable;
  if negb (is_success (ha_status token_resp)) then Err (TokenRefused (ha_status token_resp))
  else
    token ← ok_or (ha_text token_resp) NoBody;
    role_resp ← ok_or (imds_role token) Unreachable;
    role_resp ← error_for_status role_resp;
    role ← ok_or (ha_text role_resp) NoBody;
    let role := trim role in
    if is_empty role then Err NoRole
    else
      creds_resp ← ok_or (imds_creds token role) Unreachable;
      creds_resp ← error_for_status creds_resp;
      creds_json ← ok_or (ha_text creds_resp ≫= imds_creds_of_slice) BadCreds;
      expires_at_unix ← map_err BadExpiry (parse_rfc3339_to_unix (Expiration creds_json));
      Ok {| cc_creds := {| access_key_id := AccessKeyId creds_json; secret_access_key := SecretAccessKey creds_json;
                           session_token := Token creds_json |};
            cc_expires_at_unix := expires_at_unix |}.

(** ** The cache *)

Definition read_if_fresh (cache : CredsCache) (now : Z) : option AwsCredentials :=
  cached ← cache;
  if CREDS_REFRESH_BEFORE_SECONDS <? cc_expires_at_unix cached - now then Some (cc_creds cached) else None.

(** [get] with nothing in between. *)
Definition creds_get `{Imds} (now : Z) (cache : CredsCache) : result FetchError AwsCredentials * CredsCache :=
  match read_if_fresh cache now with
  | Some c => (Ok c, cache)
  | None => match fetch_imds_credentials with
            | Ok fresh => (Ok (cc_creds fresh), Some fresh)
            | Err e => (Err e, cache)
            end
  end.

(** The lock is not held while the service is asked: a request reads, and if it
    finds nothing fresh, stores what it fetched, whatever happened in between. *)
Inductive cache_op := ReadAt (now : Z) | StoreFetched (fresh : CachedCreds).
Definition cache_step (cache : CredsCache) (op : cache_op) : CredsCache :=
  match op with ReadAt _ => cache | StoreFetched fresh => Some fresh end.

(** Credentials served from the cache were fetched before and are good for more
    than five minutes, however the requests interleave; none is ever invented. *)
Theorem cached_creds_fresh ops now c :
  read_if_fresh (foldl cache_step None ops) now = Some c ->
  exists fresh, StoreFetched fresh ∈ ops /\ cc_creds fresh = c /\ 300 < cc_expires_at_unix fresh - now.
Proof.
  assert (forall cache, match foldl cache_step cache ops with
    | Some fresh => cache = Some fresh \/ StoreFetched fresh ∈ ops | None => True end) as Hinv.
  { induction ops as [|op ops IH]; intros cache; cbn [foldl]; [destruct cache; auto|]. specialize (IH (cache_step cache op)).
    destruct (foldl _ _ _) as [fresh|]; [|done]. destruct IH as [IH|IH]; [|right; by right].
    destruct op; cbn in IH; [by left|]. injection IH as ->. right. by left. }
  specialize (Hinv None). unfold read_if_fresh. destruct (foldl _ _ _) as [fresh|]; [|done]. cbn [mbind option_bind].
  destruct (Z.ltb_spec CREDS_REFRESH_BEFORE_SECONDS (cc_expires_at_unix fresh - now)); [|done]. intros [= <-].
  destruct Hinv as [|Hin]; [done|]. by exists fresh.
Qed.

(** ** The parser inverts the calendar *)

Lemma days_from_civil_of era yoe doy : 0 <= era -> 0 <= yoe <= 399 -> 0 <= doy <= 365 ->
  let '(y, m, d) := civil_of era yoe doy in days_from_civil y m d = era * 146097 + (year_start yoe + doy) - 719468.
Proof.
  intros He Hy Hd. unfold civil_of, month_of. set (mp := (5 * doy + 2) / 153).
  assert (0 <= mp <= 11) by (subst mp; zdiv). clearbody mp. unfold days_from_civil, year_start.
  destruct (Z.ltb_spec mp 10).
  - destruct (Z.leb_spec (mp + 3) 2); [lia|]. destruct (Z.ltb_spec 2 (mp + 3)); [|lia].
    destruct (Z.leb_spec 0 (yoe + era * 400 - 0)); [|lia].
    assert (Z.quot (yoe + era * 400 - 0) 400 = era) as -> by (rewrite Z.quot_div_nonneg by lia; zdiv).
    replace ((yoe + era * 400 - 0 - era * 400) mod 400) with yoe by zdiv. rewrite !Z.quot_div_nonneg by zdiv. zdiv.
  - destruct (Z.leb_spec (mp - 9) 2); [|lia]. destruct (Z.ltb_spec 2 (mp - 9)); [lia|].
    destruct (Z.leb_spec 0 (yoe + era * 400 + 1 - 1)); [|lia].
    assert (Z.quot (yoe + era * 400 + 1 - 1) 400 = era) as -> by (rewrite Z.quot_div_nonneg by lia; zdiv).
    replace ((yoe + era * 400 + 1 - 1 - era * 400) mod 400) with yoe by zdiv. rewrite !Z.quot_div_nonneg by zdiv. zdiv.
Qed.

Lemma days_from_civil_inverse days : 0 <= days < 2 ^ 50 ->
  let '(y, m, d) := civil_from_days days in days_from_civil y m d = days.
Proof.
  intros Hd. rewrite civil_from_days_closed by done. cbv zeta. set (z := days + 719468).
  pose proof (Z.mod_pos_bound z 146097 ltac:(lia)) as Hm. destruct (yoe_of_spec (z mod 146097) ltac:(lia)) as [Hy Hdoy].
  set (doe := z mod 146097) in *. set (yoe := yoe_of doe) in *.
  assert (0 <= doe - year_start yoe <= 365) as Hdy by (unfold year_len in Hdoy; destruct (is_leap _) in Hdoy; lia).
  pose proof (days_from_civil_of (z / 146097) yoe (doe - year_start yoe) ltac:(zdiv) Hy Hdy) as Hinv.
  destruct (civil_of _ _ _) as [[y m] d]. rewrite Hinv. subst doe z. zdiv.
Qed.

(** *** The text *)

Definition plain_digit (c : ascii) : bool := is_ascii_digit c && negb (is_continuation c).

(** The shape of a zero-padded number, checked for every value that fits. *)
Definition padded (w : nat) (n : Z) : bool :=
  (String.length (pad_u64 w n) =? w)%nat && bytes_all plain_digit (pad_u64 w n) && bool_decide (parse_i64 (pad_u64 w n) = Some n).
Lemma padded_range w (k : Z) : forallb (fun i => padded w (Z.of_nat i)) (seq 0 (Z.to_nat k)) = true ->
  forall n, 0 <= n < k ->
    String.length (pad_u64 w n) = w /\ bytes_all plain_digit (pad_u64 w n) = true /\ parse_i64 (pad_u64 w n) = Some n.
Proof.
  intros Hall n Hn. rewrite forallb_forall in Hall. specialize (Hall (Z.to_nat n)). rewrite Z2Nat.id in Hall by lia.
  assert (padded w n = true) as Hp by (apply Hall, in_seq; lia). unfold padded in Hp. rewrite !andb_true_iff in Hp.
  destruct Hp as [[Hl Hb] Hv]. apply Nat.eqb_eq in Hl. by apply bool_decide_eq_true in Hv.
Qed.
Lemma year_text n : 0 <= n < 10000 -> exists a b c d, pad_u64 4 n = String a (String b (String c (String d ""))) /\
  plain_digit a = true /\ plain_digit b = true /\ plain_digit c = true /\ plain_digit d = true /\ parse_i64 (pad_u64 4 n) = Some n.
Proof.
  intros Hn. destruct (padded_range 4 10000 ltac:(vm_compute; reflexivity) n Hn) as (Hl & Hb & Hp).
  destruct (pad_u64 4 n) as [|a [|b [|c [|d [|e t]]]]]; try discriminate Hl. cbn in Hb. rewrite !andb_true_iff in Hb.
  exists a, b, c, d. naive_solver.
Qed.
Lemma two_text n : 0 <= n < 100 -> exists a b, pad_u64 2 n = String a (String b "") /\
  plain_digit a = true /\ plain_digit b = true /\ parse_i64 (pad_u64 2 n) = Some n.
Proof.
  intros Hn. destruct (padded_range 2 100 ltac:(vm_compute; reflexivity) n Hn) as (Hl & Hb & Hp).
  destruct (pad_u64 2 n) as [|a [|b [|c t]]]; try discriminate Hl. cbn in Hb. rewrite !andb_true_iff in Hb. exists a, b. naive_solver.
Qed.
Lemma plain_start c s : plain_digit c = true -> at_boundary (String c s) 0 = true.
Proof. unfold plain_digit. by intros [_ ?]%andb_true_iff. Qed.

Lemma ends_with_cons p c s : ends_with p s = true -> ends_with p (String c s) = true.
Proof. intros H. cbn [ends_with]. by case_decide. Qed.

Lemma ends_with_app p t s : ends_with p s = true -> ends_with p (t +:+ s) = true.
Proof. intros H. induction t as [|c t IH]; [done|]. cbn [String.append]. by apply ends_with_cons. Qed.

(** The tail after the seconds does not matter, as long as it ends with [Z]. *)
Lemma parse_fields y m d h mi s tail :
  0 <= y < 10000 -> 0 <= m < 100 -> 0 <= d < 100 -> 0 <= h < 100 -> 0 <= mi < 100 -> 0 <= s < 100 ->
  at_boundary tail 0 = true -> ends_with "Z" tail = true ->
  parse_rfc3339_to_unix (pad_u64 4 y +:+ "-" +:+ pad_u64 2 m +:+ "-" +:+ pad_u64 2 d +:+ "T" +:+ pad_u64 2 h +:+ ":" +:+
    pad_u64 2 mi +:+ ":" +:+ pad_u64 2 s +:+ tail) = Ok (days_from_civil y m d * 86400 + h * 3600 + mi * 60 + s).
Proof.
  intros Hy Hm Hd Hh Hmi Hs Htail Hz.
  destruct (year_text y Hy) as (y1 & y2 & y3 & y4 & Ey & Y1 & Y2 & Y3 & Y4 & Py).
  destruct (two_text m Hm) as (m1 & m2 & Em & M1 & M2 & Pm). destruct (two_text d Hd) as (d1 & d2 & Ed & D1 & D2 & Pd).
  destruct (two_text h Hh) as (h1 & h2 & Eh & H1 & H2 & Ph). destruct (two_text mi Hmi) as (i1 & i2 & Ei & I1 & I2 & Pi).
  destruct (two_text s Hs) as (s1 & s2 & Es & S1 & S2 & Ps). rewrite Ey, Em, Ed, Eh, Ei, Es in *.
  destruct tail as [|t0 tail]; [done|]. cbn [String.append].
  set (text := String y1 _). assert ((String.length text <? 20)%nat = false) as Hlen by reflexivity.
  assert (ends_with "Z" text = true) as Hends.
  { subst text. by do 19 apply ends_with_cons. }
  unfold parse_rfc3339_to_unix. rewrite Hlen, Hends. cbn [negb orb].
  change (is_sep text 4 "-") with true. change (is_sep text 7 "-") with true. change (is_sep text 10 "T") with true.
  change (is_sep text 13 ":") with true. change (is_sep text 16 ":") with true. cbn [andb negb].
  unfold field, slice.
  change (at_boundary text 4) with true. change (at_boundary text 7) with true. change (at_boundary text 10) with true.
  change (at_boundary text 13) with true. change (at_boundary text 16) with true.
  change (at_boundary text 0) with (at_boundary (String y1 "") 0). change (at_boundary text 5) with (at_boundary (String m1 "") 0).
  change (at_boundary text 8) with (at_boundary (String d1 "") 0). change (at_boundary text 11) with (at_boundary (String h1 "") 0).
  change (at_boundary text 14) with (at_boundary (String i1 "") 0). change (at_boundary text 17) with (at_boundary (String s1 "") 0).
  change (at_boundary text 19) with (at_boundary (String t0 tail) 0). rewrite Htail, (plain_start y1), (plain_start m1), (plain_start d1), (plain_start h1), (plain_start i1), (plain_start s1) by done.
  cbn [andb mbind result_bind].
  change (str_take (4 - 0) (str_drop 0 text)) with (String y1 (String y2 (String y3 (String y4 "")))).
  change (str_take (7 - 5) (str_drop 5 text)) with (String m1 (String m2 "")).
  change (str_take (10 - 8) (str_drop 8 text)) with (String d1 (String d2 "")).
  change (str_take (13 - 11) (str_drop 11 text)) with (String h1 (String h2 "")).
  change (str_take (16 - 14) (str_drop 14 text)) with (String i1 (String i2 "")).
  change (str_take (19 - 17) (str_drop 17 text)) with (String s1 (String s2 "")).
  cbn [mbind result_bind ok_or]. rewrite Py, Pm, Pd, Ph, Pi, Ps. done.
Qed.

Lemma civil_ranges days : 0 <= days < 2932897 ->
  let '(y, m, d) := civil_from_days days in 0 <= y < 10000 /\ 0 <= m < 100 /\ 0 <= d < 100.
Proof.
  intros Hd. rewrite civil_from_days_closed by lia. cbv zeta. remember (days + 719468) as z eqn:Ez.
  pose proof (Z.mod_pos_bound z 146097 ltac:(lia)) as Hm. destruct (yoe_of_spec (z mod 146097) ltac:(lia)) as [Hy Hdoy].
  assert (0 <= z mod 146097 - year_start (yoe_of (z mod 146097)) <= 365) as Hdy
    by (unfold year_len in Hdoy; destruct (is_leap _) in Hdoy; lia).
  assert (0 <= z / 146097 <= 24) as He by (clear - Ez Hd; zdiv).
  assert (z = 146097 * (z / 146097) + z mod 146097) as Hz by (apply Z_div_mod_eq_full).
  unfold civil_of, month_of. set (doy := z mod 146097 - _) in *.
  assert (0 <= (5 * doy + 2) / 153 <= 11) as Hmp by (clear - Hdy; zdiv).
  assert (0 <= doy - (153 * ((5 * doy + 2) / 153) + 2) / 5 + 1 <= 40) as Hday by (clear - Hdy; zdiv).
  split; [|split; [destruct (Z.ltb_spec ((5 * doy + 2) / 153) 10); lia|lia]].
  destruct (Z.ltb_spec ((5 * doy + 2) / 153) 10); [destruct (Z.leb_spec ((5 * doy + 2) / 153 + 3) 2); lia|].
  destruct (Z.leb_spec ((5 * doy + 2) / 153 - 9) 2); [|lia]. split; [lia|].
  assert (306 <= doy) by (clear - Hdy H; zdiv). destruct (decide (yoe_of (z mod 146097) = 399)) as [H399|]; [|lia].
  assert (z mod 146097 = 145731 + doy) by (subst doy; rewrite H399; unfold year_start; change (399 / 4) with 99; change (399 / 100) with 3; lia).
  lia.
Qed.

(** The gateway's parser of expiry times and the enclave's formatter are
    inverse: for every instant of the years 1970 to 9999 the text the enclave
    signs for OKX parses to exactly its second. *)
Theorem rfc3339_roundtrip ts : 0 <= ts < 253402300800000 -> parse_rfc3339_to_unix (okx_iso8601_from_ms ts) = Ok (ts / 1000).
Proof.
  intros Hts. unfold okx_iso8601_from_ms. set (days := ts / 1000 / 86400). assert (0 <= days < 2932897) as Hdays by (subst days; zdiv).
  pose proof (days_from_civil_inverse days ltac:(lia)) as Hinv. pose proof (civil_ranges days Hdays) as Hr.
  destruct (civil_from_days days) as [[y m] d]. destruct Hr as (Hy & Hm & Hd).
  set (sod := (ts / 1000) mod 86400). assert (0 <= sod < 86400) by (apply Z.mod_pos_bound; lia).
  rewrite parse_fields; try lia; try done.
  all: try zdiv.
  - rewrite Hinv. f_equal. subst days sod. clear. zdiv.
  - by do 2 apply ends_with_app.
Qed.

Lemma rfc3339_roundtrip_witness : parse_rfc3339_to_unix (okx_iso8601_from_ms 1719835200123) = Ok (1719835200123 / 1000).
Proof. apply (rfc3339_roundtrip 1719835200123). lia. Defined.
