(* ===== verification/GwBlobs.v ===== *)
(** * Sealed keys on disk (gateway/src/main.rs, [load_all_blobs])

    At boot the gateway reads every sealed key it may forward: flat files for the
    default tenant, a subdirectory per other tenant, and one legacy path.  The
    map built here is the [blobs] of [GwHandlers]; its keys decide whose key a
    request can reach.  A directory is the list of its entries, a name that is
    not UTF-8 is [None], and so is what cannot be read. *)

From S2P Require Import Prelude RustStr Crates Proto GwProto GwHost GwLimits GwTenant GwAuth GwWire GwCalls GwHandlers.

Open Scope string_scope.
Open Scope list_scope.
Open Scope Z_scope.

Abbreviation Files := (list (option string * option string)).
Inductive node := NFile (bytes : option string) | NDir (files : option Files).
Abbreviation Listing := (list (option string * node)).

Definition as_file (n : node) : option string := match n with NFile bytes => bytes | NDir _ => None end.
Definition as_files (top : Listing) : Files := map (fun e => (e.1, as_file e.2)) top.

(** The derived parser of a context file. *)
Class CtxSerde := ctx_of_slice : string -> option (gmap string string).

Record BlobBundle := { bb_ciphertext : string; bb_encryption_context : option (gmap string string) }.

Inductive BlobError := BlobRead | BlobEmpty | BlobTooLarge (n : nat) | CtxRead | CtxParse | CtxEmpty.

(** [Path::join(name)], [exists] and [read] on one directory. *)
Fixpoint entry (name : string) (files : Files) : option (option string) :=
  match files with
  | [] => None
  | (n, bytes) :: rest => if decide (n = Some name) then Some bytes else entry name rest
  end.

Definition load_blob_from_path (content : option string) : result BlobError string :=
  bytes ← ok_or content BlobRead;
  if is_empty bytes then Err BlobEmpty
  else if (8 * 1024 <? String.length bytes)%nat then Err (BlobTooLarge (String.length bytes))
  else Ok bytes.

(** [Path::extension] and [Path::file_stem] of a name. *)
Fixpoint rsplit_dot (s : string) : option (string * string) :=
  match s with
  | EmptyString => None
  | String c s' =>
      match rsplit_dot s' with
      | Some (l, r) => Some (String c l, r)
      | None => if decide (c = "."%char) then Some ("", s') else None
      end
  end.
Definition stem_and_extension (name : string) : string * option string :=
  if decide (name = "..") then (name, None)
  else match rsplit_dot name with
       | None => (name, None)
       | Some (l, r) => if is_empty l then (name, None) else (l, Some r)
       end.
Definition enc_stem (name : option string) : option string :=
  name ← name;
  let '(stem, ext) := stem_and_extension name in
  if decide (ext = Some "enc") then Some stem else None.

Definition SUPPORTED_EXCHANGES : list string :=
  ["asterdex"; "kucoin"; "binance"; "binance_futures"; "bybit"; "okx"; "hyperliquid_main"; "hyperliquid_testnet"].

Abbreviation BlobMap := (gmap string BlobBundle).

Section Load.
Context `{CtxSerde}.

Definition load_blob_with_ctx (files : Files) (stem : string) : result BlobError BlobBundle :=
  bytes ← load_blob_from_path (entry (stem +:+ ".enc") files ≫= id);
  ctx ← match entry (stem +:+ ".ctx.json") files with
        | None => Ok None
        | Some content =>
            text ← ok_or content CtxRead;
            ctx ← ok_or (ctx_of_slice text) CtxParse;
            if decide (ctx = ∅) then Err CtxEmpty else Ok (Some ctx)
        end;
  Ok {| bb_ciphertext := bytes; bb_encryption_context := ctx |}.

(** Pass 1: the venues by name; a file that is there must load. *)
Fixpoint load_venues (files : Files) (venues : list string) (blobs : BlobMap) : result BlobError BlobMap :=
  match venues with
  | [] => Ok blobs
  | v :: rest =>
      match entry (v +:+ ".enc") files with
      | None => load_venues files rest blobs
      | Some _ => b ← load_blob_with_ctx files v; load_venues files rest (<[blob_key DEFAULT_CUSTOMER_ID v := b]> blobs)
      end
  end.

(** One file of pass 2 or 3: kept unless its key is taken or it does not load. *)
Definition load_extra (customer : string) (files : Files) (blobs : BlobMap) (name : option string) : BlobMap :=
  match enc_stem name with
  | None => blobs
  | Some stem =>
      let key := blob_key customer stem in
      match blobs !! key with
      | Some _ => blobs
      | None => match load_blob_with_ctx files stem with Ok b => <[key := b]> blobs | Err _ => blobs end
      end
  end.
Definition load_files (customer : string) (files : Files) (blobs : BlobMap) : BlobMap :=
  foldl (load_extra customer files) blobs files.*1.

(** One entry of pass 3. *)
Definition load_customer (blobs : BlobMap) (e : option string * node) : BlobMap :=
  match e with
  | (Some customer, NDir files) =>
      if decide (customer = DEFAULT_CUSTOMER_ID) then blobs
      else if negb (is_safe_key_id customer) then blobs
      else match files with Some files => load_files customer files blobs | None => blobs end
  | _ => blobs
  end.

(** [dir]: [--blobs-dir], whose listing may fail; [legacy]: the content behind [--blob-path]. *)
Definition load_all_blobs (dir : option (Files * option Listing)) (legacy : option (option string)) : result BlobError BlobMap :=
  blobs ← match dir with
          | None => Ok ∅
          | Some (flat, listing) =>
              blobs ← load_venues flat SUPPORTED_EXCHANGES ∅;
              match listing with
              | None => Ok blobs
              | Some top => Ok (foldl load_customer (foldl (load_extra DEFAULT_CUSTOMER_ID flat) blobs top.*1) top)
              end
          end;
  match legacy with
  | None => Ok blobs
  | Some content =>
      let key := blob_key DEFAULT_CUSTOMER_ID "kucoin" in
      match blobs !! key with
      | Some _ => Ok blobs
      | None => bytes ← load_blob_from_path content;
                Ok (<[key := {| bb_ciphertext := bytes; bb_encryption_context := None |}]> blobs)
      end
  end.

(** ** Whose keys are loaded *)

Lemma blob_key_inj c s c' s' : contains_char "/" c = false -> contains_char "/" c' = false ->
  blob_key c s = blob_key c' s' -> c = c' /\ s = s'.
Proof using.
  intros Hc Hc' He. unfold blob_key in He. apply (f_equal (split_once "/")) in He.
  rewrite !split_once_app in He by done. by injection He.
Qed.
Lemma safe_key_no_slash c : is_safe_key_id c = true -> contains_char "/" c = false.
Proof using.
  unfold is_safe_key_id. rewrite !andb_true_iff. intros [_ Hb]. eapply contains_char_all; [|exact Hb]. reflexivity.
Qed.

(** The key holds what the tenant's own directory holds under that stem. *)
Definition customer_file (top : Listing) (customer stem : string) (b : BlobBundle) : Prop :=
  exists files, (Some customer, NDir (Some files)) ∈ top /\ load_blob_with_ctx files stem = Ok b.
Definition loadable (customer : string) : Prop := customer <> DEFAULT_CUSTOMER_ID /\ is_safe_key_id customer = true.

Definition origin (flat : Files) (top : Listing) (key : string) (b : BlobBundle) : Prop :=
  (exists stem, key = blob_key DEFAULT_CUSTOMER_ID stem) \/
  (exists customer stem, key = blob_key customer stem /\ loadable customer /\ customer_file top customer stem b).
Definition owned (flat : Files) (top : Listing) (blobs : BlobMap) : Prop := forall key b, blobs !! key = Some b -> origin flat top key b.

Lemma owned_insert flat top key b blobs : origin flat top key b -> owned flat top blobs -> owned flat top (<[key := b]> blobs).
Proof using. intros Ho Hb k x. destruct (decide (k = key)) as [->|Hk]; [rewrite lookup_insert_eq; by intros [= <-]|rewrite lookup_insert_ne by done; apply Hb]. Qed.

Lemma load_venues_owned flat top files venues : forall blobs blobs',
  owned flat top blobs -> load_venues files venues blobs = Ok blobs' -> owned flat top blobs'.
Proof using.
  induction venues as [|v venues IH]; intros blobs blobs' Hb; cbn [load_venues]; [by intros [= <-]|].
  destruct (entry _ _); [|by apply IH]. intros (b & _ & Hr)%bind_ok_inv. eapply IH; [|exact Hr]. apply owned_insert; [|done].
  left. by eexists.
Qed.

Lemma load_extra_owned flat top customer files : 
  (forall stem b, load_blob_with_ctx files stem = Ok b -> origin flat top (blob_key customer stem) b) ->
  forall names blobs, owned flat top blobs -> owned flat top (foldl (load_extra customer files) blobs names).
Proof using.
  intros Ho names. induction names as [|name names IH]; intros blobs Hb; [done|]. cbn [foldl]. apply IH. unfold load_extra.
  destruct (enc_stem name) as [stem|]; [|done]. destruct (blobs !! _); [done|]. destruct (load_blob_with_ctx files stem) eqn:E; [|done].
  apply owned_insert; [by apply Ho|done].
Qed.

Lemma load_customers_owned flat top : forall es blobs, es ⊆ top ->
  owned flat top blobs -> owned flat top (foldl load_customer blobs es).
Proof using.
  induction es as [|[name n] es IH]; intros blobs Hsub Hb; [done|]. cbn [foldl]. apply IH; [set_solver|]. unfold load_customer.
  destruct name as [customer|]; [|done]. destruct n as [|files]; [done|]. case_decide as Hd; [done|].
  destruct (is_safe_key_id customer) eqn:Es; cbn [negb]; [|done]. destruct files as [files|]; [|done].
  apply load_extra_owned; [|done]. intros stem b Hl. right. exists customer, stem. split; [done|]. split; [done|].
  exists files. split; [|done]. apply Hsub. by left.
Qed.

(** ** Every good file of a tenant is loaded *)

Lemma load_extra_mono customer files names : forall blobs, blobs ⊆ foldl (load_extra customer files) blobs names.
Proof using.
  induction names as [|name names IH]; intros blobs; [done|]. cbn [foldl]. etrans; [|apply IH]. unfold load_extra.
  destruct (enc_stem name) as [stem|]; [|done]. destruct (blobs !! _) eqn:E; [done|].
  destruct (load_blob_with_ctx files stem); [by apply insert_subseteq|done].
Qed.
Lemma load_customer_mono e blobs : blobs ⊆ load_customer blobs e.
Proof using.
  unfold load_customer. destruct e as [[customer|] [|files]]; try done. case_decide; [done|]. destruct (negb _); [done|].
  destruct files; [apply load_extra_mono|done].
Qed.
Lemma load_customers_mono es : forall blobs, blobs ⊆ foldl load_customer blobs es.
Proof using. induction es as [|e es IH]; intros blobs; [done|]. cbn [foldl]. etrans; [apply load_customer_mono|apply IH]. Qed.

Lemma load_extra_present customer files stem b name names :
  enc_stem name = Some stem -> load_blob_with_ctx files stem = Ok b -> name ∈ names ->
  forall blobs, is_Some (foldl (load_extra customer files) blobs names !! blob_key customer stem).
Proof using.
  intros Hn Hl. induction names as [|n names IH]; intros Hin blobs; [by apply elem_of_nil in Hin|]. cbn [foldl].
  apply elem_of_cons in Hin as [<-|Hin]; [|by apply IH].
  assert (is_Some (load_extra customer files blobs name !! blob_key customer stem)) as [x Hx].
  { unfold load_extra. rewrite Hn. destruct (blobs !! _) as [x|] eqn:E; [by exists x|]. rewrite Hl. exists b. by rewrite lookup_insert_eq. }
  exists x. eapply lookup_weaken; [exact Hx|apply load_extra_mono].
Qed.

Lemma rsplit_dot_no s : contains_char "." s = false -> rsplit_dot s = None.
Proof using.
  induction s as [|c s IH]; [done|]. cbn [rsplit_dot contains_char]. intros [Hc Hs]%orb_false_iff. rewrite IH by done.
  apply bool_decide_eq_false in Hc. by rewrite decide_False by congruence.
Qed.
Lemma rsplit_dot_app l r : contains_char "." r = false -> rsplit_dot (l +:+ String "." r) = Some (l, r).
Proof using.
  intros Hr. induction l as [|c l IH]; cbn [String.append rsplit_dot]; [by rewrite rsplit_dot_no|]. by rewrite IH.
Qed.
Lemma enc_stem_name stem : stem <> "" -> enc_stem (Some (stem +:+ ".enc")) = Some stem.
Proof using.
  intros Hs. unfold enc_stem. cbn [mbind option_bind]. unfold stem_and_extension. rewrite decide_False.
  - change ".enc" with (String "." "enc"). rewrite rsplit_dot_app by done. destruct stem; [done|]. cbn [is_empty]. by rewrite decide_True.
  - intros He. apply (f_equal String.length) in He. rewrite length_append in He. cbn in He. lia.
Qed.

Lemma load_blob_named files stem b : load_blob_with_ctx files stem = Ok b -> Some (stem +:+ ".enc") ∈ files.*1.
Proof using.
  unfold load_blob_with_ctx. intros (bytes & Hb & _)%bind_ok_inv. unfold load_blob_from_path in Hb.
  apply bind_ok_inv in Hb as (x & Hx%ok_or_inv & _). clear -Hx.
  induction files as [|[n c] files IH]; [done|]. cbn [entry fmap list_fmap] in *. case_decide as Hn; [subst n; by left|right; by apply IH].
Qed.

(** C33: Whose keys a request can reach: in the map built at boot, the key
    [customer/stem] of a tenant other than the default one holds a sealed blob
    exactly when the subdirectory of that tenant's own name, a safe id, holds a
    file [stem.enc] that loads (readable, not empty, at most 8 KiB, with a
    well-formed context beside it), and then it is that file's content: no flat
    file, no other tenant's directory and not the legacy path can put a blob
    under it, and no bad file elsewhere can keep it out. *)
Theorem blobs_isolated flat top legacy blobs customer stem b :
  load_all_blobs (Some (flat, Some top)) legacy = Ok blobs -> NoDup top.*1 ->
  loadable customer -> stem <> "" ->
  (blobs !! blob_key customer stem = Some b <-> customer_file top customer stem b).
Proof using.
  intros Hload Hnd [Hne Hsafe] Hstem. pose proof (safe_key_no_slash _ Hsafe) as Hsl. unfold load_all_blobs in Hload.
  apply bind_ok_inv in Hload as (loaded & Hl & Hleg). apply bind_ok_inv in Hl as (venues & Hv & Hl). injection Hl as <-.
  set (extra := foldl (load_extra DEFAULT_CUSTOMER_ID flat) venues top.*1) in *.
  assert (owned flat top (foldl load_customer extra top)) as Hown.
  { apply load_customers_owned; [done|]. apply load_extra_owned; [left; by eexists|]. eapply load_venues_owned; [|exact Hv]. done. }
  assert (blobs !! blob_key customer stem = foldl load_customer extra top !! blob_key customer stem) as ->.
  { destruct legacy as [content|]; [|by injection Hleg as <-]. cbv zeta in Hleg. destruct (_ !! blob_key DEFAULT_CUSTOMER_ID "kucoin"); [by injection Hleg as <-|].
    apply bind_ok_inv in Hleg as (bytes & _ & Hleg). injection Hleg as <-. apply lookup_insert_ne.
    intros He. by apply blob_key_inj in He as [<- _]. }
  assert (forall x, foldl load_customer extra top !! blob_key customer stem = Some x -> customer_file top customer stem x) as Hsound.
  { intros x Hx. destruct (Hown _ _ Hx) as [(s & He)|(c & s & He & [Hc Hs] & Hf)].
    - by apply blob_key_inj in He as [-> _].
    - apply blob_key_inj in He as [<- <-]; [done|done|by apply safe_key_no_slash]. }
  split; [apply Hsound|]. intros (files & Hin & Hf).
  assert (is_Some (foldl load_customer extra top !! blob_key customer stem)) as [x Hx].
  { apply list_elem_of_split in Hin as (l1 & l2 & ->). rewrite foldl_app. cbn [foldl].
    destruct (load_extra_present customer files stem b _ files.*1 (enc_stem_name stem Hstem) Hf (load_blob_named _ _ _ Hf)
      (foldl load_customer extra l1)) as [x Hx]. exists x. eapply lookup_weaken; [|apply load_customers_mono].
    unfold load_customer at 1. rewrite decide_False, Hsafe by done. exact Hx. }
  rewrite Hx. destruct (Hsound x Hx) as (files' & Hin' & Hf').
  assert (files' = files) as ->; [|congruence].
  clear - Hnd Hin Hin'. assert (NDir (Some files') = NDir (Some files)) as [=]; [|done].
  induction top as [|[n d] top IH]; [by apply elem_of_nil in Hin|]. cbn in Hnd. apply NoDup_cons in Hnd as [Hn Hnd].
  assert (forall d', (Some customer, d') ∈ top -> n = Some customer -> False) as Hno.
  { intros d' Hd ->. apply Hn. apply list_elem_of_fmap. by exists (Some customer, d'). }
  apply elem_of_cons in Hin as [Hin|Hin], Hin' as [Hin'|Hin'].
  - congruence.
  - injection Hin as Hn' _. by destruct (Hno _ Hin').
  - injection Hin' as Hn' _. by destruct (Hno _ Hin).
  - by apply IH.
Qed.
End Load.

(** ** Instances *)

#[local] Instance demo_ctx : CtxSerde := fun s => if bool_decide (s = "{}") then Some ∅ else Some {["venue_id" := s]}.

Definition demo_listing : Listing :=
  [(Some "kucoin.enc", NFile (Some "flat")); (Some "fund-a", NDir (Some [(Some "okx.enc", Some "sealed-a"); (Some "okx.ctx.json", Some "okx")]));
   (Some "fund-b", NDir (Some [(Some "okx.enc", Some ""); (Some "payer.enc.bak", Some "old")])); (None, NFile None)].

Lemma blobs_isolated_witness :
  exists blobs, load_all_blobs (Some (as_files demo_listing, Some demo_listing)) None = Ok blobs /\
    (bb_ciphertext <$> (blobs !! blob_key "fund-a" "okx")) = Some "sealed-a" /\
    blobs !! blob_key "fund-b" "okx" = None.
Proof.
  destruct (load_all_blobs (Some (as_files demo_listing, Some demo_listing)) None) as [blobs|] eqn:E; [|vm_compute in E; discriminate E].
  exists blobs. split; [reflexivity|]. split.
  - assert (blobs !! blob_key "fund-a" "okx" = Some {| bb_ciphertext := "sealed-a"; bb_encryption_context := Some {["venue_id" := "okx"]} |}) as ->;
      [|reflexivity].
    apply (blobs_isolated (as_files demo_listing) demo_listing None blobs "fund-a" "okx" _ E).
    + apply (bool_decide_unpack _). vm_compute. exact I.
    + split; [done|reflexivity].
    + done.
    + eexists. split; [right; left|reflexivity].
  - vm_compute in E. injection E as <-. vm_compute. reflexivity.
Defined.

(** A default-named subdirectory cannot shadow the flat files. *)
Lemma default_directory_ignored `{CtxSerde} blobs files : load_customer blobs (Some DEFAULT_CUSTOMER_ID, NDir files) = blobs.
Proof. unfold load_customer. by rewrite decide_True. Qed.
