(* ===== verification/GwArchive.v ===== *)
(** * Files for auditors (gateway/src/receipts.rs, the bundles of reconcile.rs)

    Every receipt the gateway sees is appended to a file per tenant label and
    UTC day; an unwind job leaves one incident bundle.  Both are best effort:
    the calls of the host may fail, a write may stop half way, and nothing of it
    reaches the answer to the client. *)

From S2P Require Import Prelude RustStr Crates Proto DateTime GwProto GwHost GwTenant GwHedge GwReconcile.

Open Scope string_scope.
Open Scope list_scope.
Open Scope Z_scope.

Definition DEFAULT_RECEIPTS_DIR : string := "/var/lib/signer/receipts".
Definition DEFAULT_INCIDENTS_DIR : string := "/var/lib/signer/incidents".

(** A directory named by a variable, or the default. *)
Definition dir_from_env (env : Env) (var fallback : string) : string :=
  match env var with
  | Some p => let p := trim p in if is_empty p then fallback else p
  | None => fallback
  end.
Definition receipts_dir (env : Env) : string := dir_from_env env "SIGNER_RECEIPTS_DIR" DEFAULT_RECEIPTS_DIR.
Definition incidents_dir (env : Env) : string := dir_from_env env "SIGNER_INCIDENTS_DIR" DEFAULT_INCIDENTS_DIR.

(** [i64] arithmetic: no intermediate leaves the type for a [u64] instant. *)
Definition utc_civil (now_unix : Z) : Z * Z * Z :=
  let days := now_unix / 86400 in
  let z := days + 719468 in
  let era := z / 146097 in
  let doe := z - era * 146097 in
  let yoe := (doe - doe / 1460 + doe / 36524 - doe / 146096) / 365 in
  let y := yoe + era * 400 in
  let doy := doe - (365 * yoe + yoe / 4 - yoe / 100) in
  let mp := (5 * doy + 2) / 153 in
  let d := doy - (153 * mp + 2) / 5 + 1 in
  let m := if mp <? 10 then mp + 3 else mp - 9 in
  let y := if m <=? 2 then y + 1 else y in
  (y, m, d).
Definition utc_date (now_unix : Z) : string :=
  let '(y, m, d) := utc_civil now_unix in pad_u64 4 y +:+ "-" +:+ pad_u64 2 m +:+ "-" +:+ pad_u64 2 d.

(** One [char] of a label: ASCII letters, digits, [-] and [_] stay; any other
    character, of one to four bytes, becomes one [_]. *)
Definition label_byte (c : ascii) : bool :=
  is_ascii_alphanumeric c || bool_decide (c = "-"%char) || bool_decide (c = "_"%char).
Fixpoint safe_label (customer : string) : string :=
  match customer with
  | EmptyString => ""
  | String c rest =>
      if label_byte c then String c (safe_label rest)
      else if is_continuation c then safe_label rest
      else String "_" (safe_label rest)
  end.

(** [Path::join] for a relative right-hand side. *)
Definition path_join (dir name : string) : string := dir +:+ "/" +:+ name.

(** ** The receipt archive *)

(** [serde_json::to_vec] *)
Class JsonVec := json_to_vec : json -> string.

(** Which calls of one append succeed, and how much of a failing write landed. *)
Record AppendIo := { ai_mkdir : bool; ai_open : bool; ai_write : bool; ai_written : nat }.
Definition append_fine : AppendIo := {| ai_mkdir := true; ai_open := true; ai_write := true; ai_written := 0 |}.

Definition newline : ascii := "010"%char.
Definition contents (path : string) (fs : Fs) : string := match fs !! path with Some f => f_data f | None => "" end.

Definition receipt_path (dir customer : string) (now_unix : Z) : string :=
  path_join (path_join dir (safe_label customer)) (utc_date now_unix +:+ ".jsonl").

Section Archive.
Context `{JsonVec}.

Definition record_in (io : AppendIo) (dir customer : string) (receipt : json) (now_unix : Z) (fs : Fs) : Fs :=
  let path := receipt_path dir customer now_unix in
  if negb (ai_mkdir io) then fs
  else if negb (ai_open io) then fs
  else
    let line := json_to_vec receipt +:+ String newline "" in
    let landed := if ai_write io then line else str_take (ai_written io) line in
    <[path := {| f_data := contents path fs +:+ landed; f_synced := false |}]> fs.

(** What the gateway was given to archive, in the order the appends ran. *)
Record Archival := { ar_io : AppendIo; ar_customer : string; ar_receipt : json; ar_now : Z }.
Definition archive (dir : string) (items : list Archival) (fs : Fs) : Fs :=
  foldl (fun fs a => record_in (ar_io a) dir (ar_customer a) (ar_receipt a) (ar_now a) fs) fs items.
End Archive.

(** ** Incident bundles *)

(** Directories and their permission bits; [None]: the path is not a directory. *)
Abbreviation Modes := (gmap string Z).
Record DirIo := { di_create : bool; di_stat : bool; di_chmod : bool; di_umask : Z }.

(** Creation applies the mode less the umask; an existing directory is then
    tightened. *)
Definition create_private_dir (io : DirIo) (d : string) (dirs : Modes) : result io_error () * Modes :=
  if negb (di_create io) then (Err IoFailure, dirs)
  else
    let dirs := match dirs !! d with
                | Some _ => dirs
                | None => <[d := Z.land 488 (Z.lnot (di_umask io))]> dirs
                end in
    if negb (di_stat io) then (Err IoFailure, dirs)
    else if Z.land (default 0 (dirs !! d)) 511 =? 488 then (Ok (), dirs)
    else if di_chmod io then (Ok (), <[d := 488]> dirs)
    else (Err IoFailure, dirs).

(** [to_vec_pretty] of the derived serialiser. *)
Class BundleSerde := bundle_to_vec : IncidentBundle -> option string.

Definition write_bundle `{BundleSerde} (dio : DirIo) (io : Io) (dir : string) (bundle : IncidentBundle) (dirs : Modes) (fs : Fs)
    : result io_error string * Modes * Fs :=
  let d := path_join dir (safe_label (ib_customer bundle)) in
  match create_private_dir dio d dirs with
  | (Err e, dirs) => (Err e, dirs, fs)
  | (Ok _, dirs) =>
      let path := path_join d (u64_to_string (ib_started bundle) +:+ "-reconcile.json") in
      match bundle_to_vec bundle with
      | None => (Err InvalidData, dirs, fs)
      | Some bytes =>
          match atomic_write_bytes io path bytes fs with
          | (Ok _, fs, _) => (Ok path, dirs, fs)
          | (Err e, fs, _) => (Err e, dirs, fs)
          end
      end
  end.

(** ** Names *)

(** The archive's day is the Gregorian day of the instant. *)
Lemma utc_civil_gregorian now : 0 <= now < 2 ^ 64 -> utc_civil now = gregorian (Z.to_nat (now / 86400)).
Proof.
  intros Hn. assert (0 <= now / 86400 < 2 ^ 50) as Hd by zdiv.
  rewrite <- civil_from_days_gregorian, Z2Nat.id by lia. rewrite civil_from_days_closed by done. cbv zeta.
  unfold utc_civil, civil_of, month_of, year_start, yoe_of.
  set (z := now / 86400 + 719468). replace (z - z / 146097 * 146097) with (z mod 146097) by (rewrite Z.mod_eq; lia).
  reflexivity.
Qed.

Lemma safe_label_bytes customer : bytes_all label_byte (safe_label customer) = true.
Proof.
  induction customer as [|c s IH]; [done|]. cbn [safe_label]. destruct (label_byte c) eqn:E; [|destruct (is_continuation c); [done|]].
  - unfold bytes_all in *. cbn. by rewrite E.
  - unfold bytes_all in *. cbn. by rewrite IH.
Qed.
Lemma safe_label_one_level customer : contains_char "/" (safe_label customer) = false /\ contains_char "." (safe_label customer) = false.
Proof. split; (eapply contains_char_all; [|apply safe_label_bytes]); reflexivity. Qed.

(** One file per label and day. *)
Lemma receipt_path_inj dir c1 n1 c2 n2 :
  receipt_path dir c1 n1 = receipt_path dir c2 n2 -> safe_label c1 = safe_label c2 /\ utc_date n1 = utc_date n2.
Proof.
  unfold receipt_path, path_join. rewrite !append_assoc. intros He%append_inj_prefix%append_inj_prefix.
  destruct (safe_label_one_level c1) as [H1 _]. destruct (safe_label_one_level c2) as [H2 _].
  apply (f_equal (split_once "/")) in He. change ("/" +:+ ?x) with (String "/" x) in He.
  rewrite !split_once_app in He by done. injection He as Hl Hd. split; [done|].
  apply append_inj_length in Hd as [? _]; [done|]. apply (f_equal String.length) in Hd. rewrite !length_append in Hd. lia.
Qed.

(** ** The archive keeps what it was given *)

Section Faithful.
Context `{JsonVec, JsonText}.

(** What serde_json does with a receipt: compact text is one line and parses back. *)
Definition prints (v : json) : Prop := contains_char newline (json_to_vec v) = false /\ json_of_slice (json_to_vec v) = Some v.

(** The receipts an auditor reads: one per line; what follows the last line
    break is no line. *)
Fixpoint whole_lines (segs : list string) : list string :=
  match segs with [] | [_] => [] | seg :: rest => seg :: whole_lines rest end.
Definition read_archive (text : string) : list (option json) := map json_of_slice (whole_lines (split newline text)).

Lemma record_frame io dir customer receipt now fs path :
  path <> receipt_path dir customer now -> contents path (record_in io dir customer receipt now fs) = contents path fs.
Proof using.
  intros Hp. unfold record_in. destruct (negb _); [done|]. destruct (negb _); [done|]. unfold contents.
  by rewrite lookup_insert_ne by congruence.
Qed.

(** What an append leaves in its file. *)
Definition landed (a : Archival) : string :=
  if negb (ai_mkdir (ar_io a)) || negb (ai_open (ar_io a)) then ""
  else let line := json_to_vec (ar_receipt a) +:+ String newline "" in
       if ai_write (ar_io a) then line else str_take (ai_written (ar_io a)) line.
Definition item_path (dir : string) (a : Archival) : string := receipt_path dir (ar_customer a) (ar_now a).

Lemma record_contents dir a fs :
  contents (item_path dir a) (record_in (ar_io a) dir (ar_customer a) (ar_receipt a) (ar_now a) fs) =
  contents (item_path dir a) fs +:+ landed a.
Proof using.
  unfold record_in, landed, item_path. destruct (ai_mkdir (ar_io a)); cbn [negb orb]; [|by rewrite append_nil_r].
  destruct (ai_open (ar_io a)); cbn [negb orb]; [|by rewrite append_nil_r]. unfold contents at 1. by rewrite lookup_insert_eq.
Qed.

(** Append-only: a file is its old text followed by what its own appends landed. *)
Lemma archive_contents dir items path : forall fs,
  contents path (archive dir items fs) =
  contents path fs +:+ foldr (fun a t => landed a +:+ t) "" (filter (fun a => item_path dir a = path) items).
Proof using.
  induction items as [|a items IH]; intros fs; [by rewrite append_nil_r|]. unfold archive in *. cbn [foldl]. rewrite IH, filter_cons.
  case_decide as Hp; cbn [foldr].
  - subst path. by rewrite record_contents, append_assoc.
  - f_equal. apply record_frame. intros ->. by apply Hp.
Qed.

(** The append reached its file, or left nothing in it. *)
Definition reached (a : Archival) : bool := ai_mkdir (ar_io a) && ai_open (ar_io a) && ai_write (ar_io a).
Definition not_torn (a : Archival) : Prop := reached a = true \/ landed a = "".

Lemma landed_reached a : reached a = true -> landed a = json_to_vec (ar_receipt a) +:+ String newline "".
Proof using. unfold reached, landed. rewrite !andb_true_iff. by intros [[-> ->] ->]. Qed.

Lemma whole_lines_cons seg segs : segs <> [] -> whole_lines (seg :: segs) = seg :: whole_lines segs.
Proof using. by destruct segs. Qed.

Lemma read_landed items : Forall not_torn items -> Forall (fun a => prints (ar_receipt a)) items ->
  read_archive (foldr (fun a t => landed a +:+ t) "" items) =
  map (fun a => Some (ar_receipt a)) (filter (fun a => reached a = true) items).
Proof using.
  unfold read_archive. induction 1 as [|a items Ha _ IH]; [done|]. intros [[Hl Hp] Hs]%Forall_cons. specialize (IH Hs).
  cbn [foldr]. rewrite filter_cons. case_decide as Hr.
  - rewrite landed_reached, append_assoc by done. cbn [String.append]. rewrite split_app by exact Hl.
    rewrite whole_lines_cons by apply split_not_nil. cbn [map]. by rewrite Hp, IH.
  - destruct Ha as [|Ha]; [done|]. by rewrite Ha.
Qed.

(** The receipt archive is faithful: whatever was appended, for whichever
    tenants, days and in whichever order, and whichever appends failed before
    writing, the file of a tenant label and day that started empty reads back,
    line by line, exactly the receipts whose appends succeeded for that label
    and day, in order; a receipt of another label or day is never in it. *)
Theorem receipt_archive_faithful dir items fs customer now :
  contents (receipt_path dir customer now) fs = "" -> Forall not_torn items -> Forall (fun a => prints (ar_receipt a)) items ->
  read_archive (contents (receipt_path dir customer now) (archive dir items fs)) =
  map (fun a => Some (ar_receipt a))
    (filter (fun a => reached a = true /\ safe_label (ar_customer a) = safe_label customer /\ utc_date (ar_now a) = utc_date now) items).
Proof using.
  intros He Ht Hprint. rewrite archive_contents, He. cbn [String.append]. rewrite read_landed.
  - rewrite list_filter_filter. f_equal. apply list_filter_iff. intros a. unfold item_path. split; [|intros (Hr & Hl & Hd)].
    + intros [Hr Hq]. destruct (receipt_path_inj _ _ _ _ _ Hq). done.
    + split; [done|]. unfold receipt_path. by rewrite Hl, Hd.
  - apply Forall_forall. intros a [_ Ha]%list_elem_of_filter. by eapply Forall_forall.
  - apply Forall_forall. intros a [_ Ha]%list_elem_of_filter. by eapply (Forall_forall (fun a => prints (ar_receipt a))).
Qed.
End Faithful.

(** ** Bundles *)

(** Tenant order data is never left readable by others: when the directory call
    succeeds the directory has mode 0750, whatever it had before; and the
    bundle is written whole or the path keeps what it held. *)
Lemma private_dir_mode io d dirs dirs' :
  create_private_dir io d dirs = (Ok (), dirs') -> Z.land (default 0 (dirs' !! d)) 511 = 488.
Proof.
  unfold create_private_dir. destruct (negb (di_create io)); [done|]. destruct (negb (di_stat io)); [done|].
  destruct (_ =? _) eqn:E; [intros [= <-]; by apply Z.eqb_eq|]. destruct (di_chmod io); [|done]. intros Hd. apply (f_equal snd) in Hd. cbn [snd] in Hd. rewrite <- Hd.
  by rewrite lookup_insert_eq.
Qed.
Lemma write_bundle_private `{BundleSerde} dio io dir bundle dirs fs path dirs' fs' :
  write_bundle dio io dir bundle dirs fs = (Ok path, dirs', fs') ->
  (exists name, path = path_join (path_join dir (safe_label (ib_customer bundle))) name) /\
  Z.land (default 0 (dirs' !! path_join dir (safe_label (ib_customer bundle)))) 511 = 488 /\
  exists bytes, bundle_to_vec bundle = Some bytes /\ fs' !! path = Some {| f_data := bytes; f_synced := true |}.
Proof.
  unfold write_bundle. destruct (create_private_dir _ _ _) as [[[]|] dirs1] eqn:Ed; [|done].
  destruct (bundle_to_vec bundle) as [bytes|] eqn:Eb; [|done].
  destruct (atomic_write_bytes _ _ _ _) as [[[[]|] fs1] trail] eqn:Ew; [|done]. intros [= <- <- <-].
  split; [by eexists|]. split; [by eapply private_dir_mode|]. exists bytes. split; [done|].
  exact (atomic_write_result _ _ _ _ _ _ _ Ew).
Qed.

(** ** Instances *)

Definition demo_vec : JsonVec := fun v => match v with JStr t => t | _ => "null" end.
Definition demo_slice : JsonText := fun t => Some (JStr t).
#[local] Existing Instance demo_vec.
#[local] Existing Instance demo_slice.

Definition demo_item (io : AppendIo) (customer text : string) (now : Z) : Archival :=
  {| ar_io := io; ar_customer := customer; ar_receipt := JStr text; ar_now := now |}.
Definition disk_full : AppendIo := {| ai_mkdir := true; ai_open := false; ai_write := true; ai_written := 0 |}.
Definition demo_items : list Archival :=
  [demo_item append_fine "cust" "r0" 1700000000; demo_item append_fine "other" "r1" 1700000000;
   demo_item disk_full "cust" "r2" 1700000000; demo_item append_fine "cust" "r3" 1700000001;
   demo_item append_fine "cust" "r4" 1700086400].

Lemma receipt_archive_faithful_witness :
  map ar_receipt (filter (fun a => reached a = true /\ safe_label (ar_customer a) = safe_label "cust" /\
    utc_date (ar_now a) = utc_date 1700000000) demo_items) = [JStr "r0"; JStr "r3"] /\
  read_archive (contents (receipt_path "/receipts" "cust" 1700000000) (archive "/receipts" demo_items ∅)) =
  map (fun a => Some (ar_receipt a)) (filter (fun a => reached a = true /\ safe_label (ar_customer a) = safe_label "cust" /\
    utc_date (ar_now a) = utc_date 1700000000) demo_items).
Proof.
  split; [vm_compute; reflexivity|]. apply (receipt_archive_faithful "/receipts" demo_items ∅ "cust" 1700000000).
  - vm_compute. reflexivity.
  - unfold demo_items. repeat constructor; first [left; vm_compute; reflexivity|right; vm_compute; reflexivity].
  - unfold demo_items. repeat (constructor; [split; vm_compute; reflexivity|]). constructor.
Defined.

(** A write that stops half way takes the next receipt with it: the line break
    it did not write joins the two, so a receipt whose append succeeded is not
    on a line of its own. *)
Lemma torn_line_swallows_next :
  let half := {| ai_mkdir := true; ai_open := true; ai_write := false; ai_written := 1 |} in
  let items := [demo_item half "cust" "r0" 1700000000; demo_item append_fine "cust" "r1" 1700000000] in
  read_archive (contents (receipt_path "/receipts" "cust" 1700000000) (archive "/receipts" items ∅)) = [Some (JStr "rr1")].
Proof. vm_compute. reflexivity. Qed.

(** Labels that differ only in replaced characters share their files. *)
Lemma labels_collide : safe_label "a.b" = safe_label "a_b" /\ receipt_path "/r" "a.b" 0 = receipt_path "/r" "a_b" 0.
Proof. by vm_compute. Qed.
