(* ===== verification/GwUnwind.v ===== *)
(** * Unwinding against the venues (gateway/src/reconcile.rs, [GatewayOps])

    The production [VenueOps]: books are listed and orders cancelled by signing
    through the enclave as the tenant and calling the venue.  [unwind] plugs
    these operations into the job of [GwReconcile], so that its calls are the
    tenant store, the signing path, the venues and the pauses.  serde_json's
    parser and printers are parameters. *)

From S2P Require Import Prelude RustStr Crates Proto Generic GwProto GwHost GwLimits GwTenant GwAuth GwWire GwCalls GwHandlers GwHedge GwGates GwReconcile.

Open Scope string_scope.
Open Scope list_scope.
Open Scope Z_scope.

Definition RAW_CAP : nat := 4096.

(** [Display] of a value, [Debug] of an optional one, and the parser's message. *)
Class JsonShow := {
  json_to_string : json -> string;
  json_debug : option json -> string;
  json_error : string -> string
}.

(** What leaves the gateway for a venue. *)
Record SentRequest := { se_method : string; se_url : string; se_headers : Headers; se_body : option string }.

Inductive ucall : Type -> Type :=
| UJob {X} (c : jcall X) : ucall X
| UGate {X} (c : gcall X) : ucall X
| USend (req : SentRequest) : ucall VenueAnswer
| UPause (secs : Z) : ucall ().

Inductive uprog (A : Type) : Type :=
| URet (a : A)
| UDo {X : Type} (c : ucall X) (k : X -> uprog A).
Arguments URet {A} a.
Arguments UDo {A X} c k.

Fixpoint ubind {A B} (p : uprog A) (f : A -> uprog B) : uprog B :=
  match p with URet a => f a | UDo c k => UDo c (fun x => ubind (k x) f) end.
Notation "x <~ p ;; q" := (ubind p (fun x => q)) (at level 100, p at next level, right associativity).
Definition uask {X} (c : ucall X) : uprog X := UDo c URet.

(** The signing helpers of [GwHandlers] as part of a job. *)
Fixpoint glift {A} (p : gprog A) : uprog A :=
  match p with GRet a => URet a | GDo c k => UDo (UGate c) (fun x => glift (k x)) end.

(** ** Venue answers *)

Inductive SignKind := SignRead | SignCancel.

Definition refusal_hint (status : Z) (kind : SignKind) : string :=
  match status, kind with
  | 400, SignCancel =>
      " [af2-intent-gate] — most likely this tenant's policy requires a signed cancel intent (AF-2) and the unwind job holds no agent key, so it cannot cancel here at all: cancel by hand via the venue UI. Other 400 causes: the venue blob is missing for this customer, or the token no longer resolves"
  | 400, SignRead =>
      " — a read is never refused by the cancel-intent gate; look instead for a missing venue blob for this customer, a token that no longer resolves, or a venue this key's policy does not allow"
  | 401, _ | 403, _ =>
      " — the token was refused or the action is not in this key's policy; the unwind cannot proceed until an operator fixes the grant"
  | _, _ => ""
  end.

Section Parse.
Context `{JsonShow}.

(** The [for row in data] loops: every row yields an order, or the book was not read. *)
Fixpoint read_rows (row : json -> option OpenOrder) (unread : string) (rows : list json) : result string (list OpenOrder) :=
  match rows with
  | [] => Ok []
  | v :: rest =>
      match row v with
      | Some o => os ← read_rows row unread rest; Ok (o :: os)
      | None => Err unread
      end
  end.

Definition named_order (venue symbol order_id : string) : option OpenOrder :=
  if negb (is_empty symbol) && negb (is_empty order_id)
  then Some {| oo_venue := venue; oo_symbol := symbol; oo_order_id := order_id |} else None.

Definition okx_row (v : json) : option OpenOrder :=
  i ← jget "instId" v ≫= as_str; o ← jget "ordId" v ≫= as_str; named_order "okx" i o.

Definition parse_okx_open_orders (status : Z) (v : json) : result string (list OpenOrder) :=
  if negb (status =? 200) then Err ("okx HTTP " +:+ u64_to_string status +:+ ": " +:+ truncate (json_to_string v) 200)
  else if negb (bool_decide (jget "code" v ≫= as_str = Some "0"))
  then Err ("okx code " +:+ json_debug (jget "code" v) +:+ " msg " +:+ json_debug (jget "msg" v))
  else match jget "data" v ≫= as_array with
       | None => Err "okx response without a data list — book NOT read"
       | Some data => read_rows okx_row "okx order row without instId/ordId — book NOT read" data
       end.

Definition OKX_GONE : list string := ["51400"; "51401"; "51402"; "51410"].

Definition parse_okx_cancel (status : Z) (v : json) : CancelOutcome :=
  let row := (jget "data" v ≫= as_array) ≫= head in
  let scode := default "" ((row ≫= jget "sCode") ≫= as_str) in
  let top_msg := default "" (jget "msg" v ≫= as_str) in
  let smsg := match (row ≫= jget "sMsg") ≫= as_str with
              | Some m => if is_empty m then top_msg else m
              | None => top_msg
              end in
  let code := default "" (jget "code" v ≫= as_str) in
  if (status =? 200) && bool_decide (code = "0") && bool_decide (scode = "0") then Cancelled
  else if str_in scode OKX_GONE then Gone
  else CancelFailed ("okx HTTP " +:+ u64_to_string status +:+ " code " +:+ code +:+ " sCode " +:+ scode +:+ " " +:+ smsg).

Definition i64_to_string (n : Z) : string := if n <? 0 then "-" +:+ u64_to_string (- n) else u64_to_string n.

(** [serde_json::Number]'s [Display] *)
Definition number_to_string (n : json_number) : string :=
  match n with PosInt n => u64_to_string n | NegInt n => i64_to_string n | Float repr => repr end.

Definition binance_row (v : json) : option OpenOrder :=
  s ← jget "symbol" v ≫= as_str;
  oid ← jget "orderId" v;
  named_order "binance" s (match oid with JNum n => number_to_string n | JStr s => s | _ => "" end).

Definition parse_binance_open_orders (status : Z) (v : json) : result string (list OpenOrder) :=
  if negb (status =? 200) then Err ("binance HTTP " +:+ u64_to_string status +:+ ": " +:+ truncate (json_to_string v) 200)
  else match as_array v with
       | None => Err ("binance openOrders is not a list — book NOT read: " +:+ truncate (json_to_string v) 200)
       | Some rows => read_rows binance_row "binance order row without symbol/orderId — book NOT read" rows
       end.

Definition parse_binance_cancel_all (status : Z) (v : json) : CancelOutcome :=
  match status =? 200, jget "code" v ≫= as_i64 with
  | true, Some 200 | true, None => Cancelled
  | _, Some (-2011) => Gone
  | _, _ => CancelFailed ("binance HTTP " +:+ u64_to_string status +:+ " " +:+ truncate (json_to_string v) 200)
  end.
End Parse.

(** ** Venue operations *)

Definition VENUE_STEMS : list string :=
  ["okx"; "binance"; "binance_spot"; "binance_futures"; "bybit"; "kucoin"; "asterdex"; "hyperliquid_main"; "hyperliquid_testnet"].

Definition gateway_supported (venue : string) : bool := str_in venue ["okx"; "binance"].

Definition OKX_PENDING : string := "/api/v5/trade/orders-pending".
Definition OKX_CANCEL : string := "/api/v5/trade/cancel-order".
Definition BINANCE_OPEN : string := "/fapi/v1/openOrders".
Definition BINANCE_CANCEL_ALL : string := "/fapi/v1/allOpenOrders".

Section Ops.
Context `{Crates, Cbor, JsonText, JsonShow} (app : AppConfig) (customer token : string).

Definition gateway_venues : list string :=
  let stems := omap (strip_prefix (customer +:+ "/")) (map_to_list (blobs app)).*1 in
  merge_sort str_le (filter (fun stem => str_in stem VENUE_STEMS = true) stems).

(** What one answer of a venue is read as, and what the bundle keeps of it. *)
Definition read_answer (venue op : string) (answer : VenueAnswer) : result string (Z * json) * list RawExchange :=
  match answer with
  | VenueTransportError _ e => (Err ("venue call failed: " +:+ e), [])
  | VenueResponse status chunks =>
      match read_capped_body "" chunks with
      | Err e => (Err e, [])
      | Ok bytes =>
          let raw := [{| rx_venue := venue; rx_op := op; rx_http_status := Some status;
                         rx_body := truncate (from_utf8_lossy bytes) RAW_CAP |}] in
          match json_of_slice bytes with
          | Some v => (Ok (status, v), raw)
          | None => (Err ("venue returned non-JSON (HTTP " +:+ u64_to_string status +:+ "): " +:+ json_error bytes), raw)
          end
      end
  end.
Definition send (venue op : string) (req : SentRequest) : uprog (result string (Z * json) * list RawExchange) :=
  answer <~ uask (USend req);; URet (read_answer venue op answer).

(** [for attempt in 1..=CANCEL_ATTEMPTS]; [left] is what remains of it. *)
Definition attempts : Z := Z.of_nat CANCEL_ATTEMPTS.

Fixpoint signed_read_from (left : nat) (attempt : Z) (last venue method path query : string) : uprog (result string Headers) :=
  match left with
  | O => URet (Err last)
  | S left' =>
      r <~ glift (sign_account_read app customer token venue method path "" query);;
      match r with
      | Ok headers => URet (Ok headers)
      | Err resp =>
          let status := h_status resp in
          let last := "sign " +:+ method +:+ " " +:+ path +:+ " refused: HTTP " +:+ u64_to_string status +:+
                      refusal_hint status SignRead in
          if (status =? 429) && (attempt <? attempts) then
            _ <~ uask (UPause (CANCEL_BACKOFF_BASE * attempt));;
            signed_read_from left' (attempt + 1) last venue method path query
          else URet (Err last)
      end
  end.
Definition signed_read : string -> string -> string -> string -> uprog (result string Headers) :=
  signed_read_from CANCEL_ATTEMPTS 1 "".

Definition fail_with {A} (e : string) : uprog (result string A * list RawExchange) := URet (Err e, []).

Definition list_open (venue : string) : uprog (result string (list OpenOrder) * list RawExchange) :=
  if bool_decide (venue = "okx") then
    signed <~ signed_read "okx" "GET" OKX_PENDING "";;
    match signed with
    | Err e => fail_with e
    | Ok headers =>
        answer <~ send venue "list" {| se_method := "GET"; se_url := okx_base_url +:+ OKX_PENDING;
                                       se_headers := demo_header (app_env app) headers; se_body := None |};;
        let '(r, raw) := answer in
        URet ('(status, v) ← r; parse_okx_open_orders status v, raw)
    end
  else if bool_decide (venue = "binance") then
    signed <~ signed_read "binance" "GET" BINANCE_OPEN "";;
    match signed with
    | Err e => fail_with e
    | Ok headers =>
        match binance_signed_url (app_env app) BINANCE_OPEN "" headers with
        | None => fail_with ("binance url assembly: " +:+ gw_code.INTERNAL_ERROR)
        | Some (url, headers) =>
            answer <~ send venue "list" {| se_method := "GET"; se_url := url; se_headers := headers; se_body := None |};;
            let '(r, raw) := answer in
            URet ('(status, v) ← r; parse_binance_open_orders status v, raw)
        end
    end
  else fail_with ("venue " +:+ venue +:+ " not supported").

(** [raw] is threaded: each attempt that got an answer adds its record. *)
Fixpoint cancel_okx_from (left : nat) (attempt : Z) (last : string) (raw : list RawExchange) (o : OpenOrder)
    : uprog (CancelOutcome * list RawExchange) :=
  match left with
  | O => URet (CancelFailed last, raw)
  | S left' =>
      signed <~ glift (sign_structured_request app customer token "okx" "sign_okx_cancel" "POST" OKX_CANCEL
        (cancel_payload {| cq_symbol := oo_symbol o; cq_order_id := oo_order_id o |}) no_intent);;
      match signed with
      | Err resp =>
          let status := h_status resp in
          let last := "sign okx cancel refused: HTTP " +:+ u64_to_string status +:+ refusal_hint status SignCancel in
          if (status =? 429) && (attempt <? attempts) then
            _ <~ uask (UPause (CANCEL_BACKOFF_BASE * attempt));;
            cancel_okx_from left' (attempt + 1) last raw o
          else URet (CancelFailed last, raw)
      | Ok (canonical, headers, _) =>
          answer <~ send "okx" "cancel" {| se_method := "POST"; se_url := okx_base_url +:+ OKX_CANCEL;
            se_headers := <["Content-Type" := "application/json"]> (demo_header (app_env app) headers);
            se_body := Some canonical |};;
          let '(r, new) := answer in
          match r with
          | Ok (status, v) => URet (parse_okx_cancel status v, raw ++ new)
          | Err e =>
              if attempt <? attempts then
                _ <~ uask (UPause (CANCEL_BACKOFF_BASE * attempt));;
                cancel_okx_from left' (attempt + 1) e (raw ++ new) o
              else cancel_okx_from left' (attempt + 1) e (raw ++ new) o
          end
      end
  end.
Definition cancel_okx_one (o : OpenOrder) : uprog (CancelOutcome * list RawExchange) :=
  cancel_okx_from CANCEL_ATTEMPTS 1 "" [] o.

Fixpoint cancel_binance_from (left : nat) (attempt : Z) (last : string) (raw : list RawExchange) (symbol : string)
    : uprog (CancelOutcome * list RawExchange) :=
  match left with
  | O => URet (CancelFailed last, raw)
  | S left' =>
      let query := "symbol=" +:+ symbol in
      signed <~ signed_read "binance" "DELETE" BINANCE_CANCEL_ALL query;;
      match signed with
      | Err e => URet (CancelFailed e, raw)
      | Ok headers =>
          match binance_signed_url (app_env app) BINANCE_CANCEL_ALL query headers with
          | None => URet (CancelFailed ("binance url assembly: " +:+ gw_code.INTERNAL_ERROR), raw)
          | Some (url, headers) =>
              answer <~ send "binance" "cancel_all"
                {| se_method := "DELETE"; se_url := url; se_headers := headers; se_body := None |};;
              let '(r, new) := answer in
              let again last :=
                if attempt <? attempts then
                  _ <~ uask (UPause (CANCEL_BACKOFF_BASE * attempt));;
                  cancel_binance_from left' (attempt + 1) last (raw ++ new) symbol
                else cancel_binance_from left' (attempt + 1) last (raw ++ new) symbol in
              match r with
              | Ok (status, v) =>
                  if status =? 429 then again ("binance HTTP 429 " +:+ truncate (json_to_string v) 120)
                  else URet (parse_binance_cancel_all status v, raw ++ new)
              | Err e => again e
              end
          end
      end
  end.
Definition cancel_binance_symbol (symbol : string) : uprog (CancelOutcome * list RawExchange) :=
  cancel_binance_from CANCEL_ATTEMPTS 1 "" [] symbol.

Fixpoint cancel_okx_all (orders : list OpenOrder) : uprog (list CancelOutcome * list RawExchange) :=
  match orders with
  | [] => URet ([], [])
  | o :: rest =>
      one <~ cancel_okx_one o;;
      more <~ cancel_okx_all rest;;
      URet (one.1 :: more.1, one.2 ++ more.2)
  end.

(** One mass cancel per symbol, in the order the symbols first appear. *)
Fixpoint cancel_symbols (orders : list OpenOrder) (by_symbol : gmap string CancelOutcome)
    : uprog (gmap string CancelOutcome * list RawExchange) :=
  match orders with
  | [] => URet (by_symbol, [])
  | o :: rest =>
      match by_symbol !! oo_symbol o with
      | Some _ => cancel_symbols rest by_symbol
      | None =>
          one <~ cancel_binance_symbol (oo_symbol o);;
          more <~ cancel_symbols rest (<[oo_symbol o := one.1]> by_symbol);;
          URet (more.1, one.2 ++ more.2)
      end
  end.

Definition unsupported_outcome (venue : string) : CancelOutcome := CancelFailed ("venue " +:+ venue +:+ " not supported").

(** [by_symbol[..]] panics on a missing key; [cancel_symbols_total] shows none is. *)
Definition cancel (venue : string) (orders : list OpenOrder) : uprog (list CancelOutcome * list RawExchange) :=
  if bool_decide (venue = "okx") then cancel_okx_all orders
  else if bool_decide (venue = "binance") then
    done <~ cancel_symbols orders ∅;;
    URet (omap (fun o => done.1 !! oo_symbol o) orders, done.2)
  else URet (map (fun _ => unsupported_outcome venue) orders, []).

(** ** The job *)

Fixpoint with_ops {A} (p : job A) : uprog A :=
  match p with
  | JRet a => URet a
  | JDo c k =>
      (match c in jcall X return (X -> uprog A) -> uprog A with
       | JList v => fun k => ubind (list_open v) k
       | JCancel v orders => fun k => ubind (cancel v orders) k
       | c => fun k => UDo (UJob c) k
       end) (fun x => with_ops (k x))
  end.
End Ops.

(** The task [kick] spawns. *)
Definition unwind `{Crates, Cbor, JsonText, JsonShow} (app : AppConfig) (vars : Vars) (customer : string) : uprog ReconcilePhase :=
  match raw_token_for_customer vars customer with
  | Some token => with_ops app customer token (run customer (gateway_venues app customer) gateway_supported)
  | None => with_ops app customer "" no_token_job
  end.
