(* ===== verification/GwUnwindFacts.v ===== *)
(** * What an unwind does (gateway)

    [uall] speaks about every run of a job over [GwUnwind]'s calls, finished or
    not.  The facts: which messages and venue requests a job makes, what a
    listing or a cancel that succeeded rests on, what each costs, and, through
    [explains], what the whole job costs and what its outcome says about the
    venues. *)

From S2P Require Import Prelude RustStr Crates Proto Generic GwProto GwHost GwLimits GwTenant GwAuth GwWire GwCalls GwHandlers GwHedge GwGates GwReconcile GwUnwind.

Open Scope string_scope.
Open Scope list_scope.
Open Scope Z_scope.

Definition uevent : Type := {X : Type & (ucall X * X)%type}.
Definition uev {X} (c : ucall X) (x : X) : uevent := existT X (c, x).
Definition lift_event (e : gevent) : uevent := match e with existT X (c, x) => existT X (UGate c, x) end.

Section All.
Context (Pre : list uevent -> forall X, ucall X -> Prop).

Fixpoint uall {A} (p : uprog A) (tr : list uevent) (Q : list uevent -> A -> Prop) : Prop :=
  match p with
  | URet a => Q tr a
  | UDo c k => Pre tr _ c /\ forall x, uall (k x) (uev c x :: tr) Q
  end.

Lemma uall_mono {A} (p : uprog A) tr (Q R : list uevent -> A -> Prop) :
  uall p tr Q -> (forall tr a, Q tr a -> R tr a) -> uall p tr R.
Proof. revert tr. induction p as [a|X c k IH]; cbn; intros tr Hp HQ; [auto|]. destruct Hp as [Hc Hk]. eauto. Qed.

Lemma uall_bind {A B} (p : uprog A) (f : A -> uprog B) tr Q :
  uall p tr (fun tr' a => uall (f a) tr' Q) -> uall (ubind p f) tr Q.
Proof. revert tr. induction p as [a|X c k IH]; cbn; intros tr Hp; [done|]. destruct Hp as [Hc Hk]. eauto. Qed.

(** [P] holds of the result and of the events the program adds (latest first). *)
Definition adds {A} (p : uprog A) (tr : list uevent) (P : list uevent -> A -> Prop) : Prop :=
  uall p tr (fun tr' a => exists new, tr' = new ++ tr /\ P new a).

Lemma adds_mono {A} (p : uprog A) tr (P R : list uevent -> A -> Prop) :
  adds p tr P -> (forall new a, P new a -> R new a) -> adds p tr R.
Proof. intros Hp HPR. eapply uall_mono; [exact Hp|]. intros tr' a (new & -> & HP). eauto. Qed.

Lemma adds_ret {A} (a : A) tr (P : list uevent -> A -> Prop) : P [] a -> adds (URet a) tr P.
Proof. intros HP. by exists []. Qed.

Lemma adds_bind {A B} (p : uprog A) (f : A -> uprog B) tr P R :
  adds p tr P ->
  (forall new a, P new a -> adds (f a) (new ++ tr) (fun new' b => R (new' ++ new) b)) ->
  adds (ubind p f) tr R.
Proof.
  intros Hp Hf. apply uall_bind. eapply uall_mono; [exact Hp|]. intros tr' a (new & -> & HP).
  eapply uall_mono; [by apply Hf|]. intros tr'' b (new' & -> & HR). exists (new' ++ new). by rewrite (assoc_L app).
Qed.

Lemma adds_ask {X B} (c : ucall X) (f : X -> uprog B) tr R :
  Pre tr X c -> (forall x, adds (f x) (uev c x :: tr) (fun new b => R (new ++ [uev c x]) b)) ->
  adds (ubind (uask c) f) tr R.
Proof.
  intros Hc Hf. split; [done|]. intros x. eapply uall_mono; [apply Hf|]. intros tr' b (new & -> & HR).
  exists (new ++ [uev c x]). by rewrite <- (assoc_L app).
Qed.

(** A signing helper inside a job. *)
Lemma adds_glift {A} (PreG : list gevent -> forall X, gcall X -> Prop) (p : gprog A) Q tr :
  (forall g tr X (c : gcall X), PreG g X c -> Pre tr X (UGate c)) ->
  gall PreG p [] Q -> adds (glift p) tr (fun new a => exists g, new = map lift_event g /\ Q g a).
Proof.
  intros HP Hp. assert (forall g, gall PreG p g Q -> uall (glift p) (map lift_event g ++ tr)
    (fun tr' a => exists g', tr' = map lift_event g' ++ tr /\ Q g' a)) as Hgen.
  { clear Hp. induction p as [a|X c k IH]; cbn; intros g Hg; [eauto|]. destruct Hg as [Hc Hk].
    split; [by eapply HP|]. intros x. apply (IH x (gev c x :: g)). apply Hk. }
  eapply uall_mono; [apply (Hgen [] Hp)|]. intros tr' a (g & -> & HQ). exists (map lift_event g). split; [done|]. by exists g.
Qed.
End All.

Lemma uall_pre_mono (P R : list uevent -> forall X, ucall X -> Prop) {A} (p : uprog A) tr Q :
  (forall tr X (c : ucall X), P tr X c -> R tr X c) -> uall P p tr Q -> uall R p tr Q.
Proof. intros HPR. revert tr. induction p as [a|X c k IH]; cbn; intros tr Hp; [done|]. destruct Hp. eauto. Qed.

(** ** Cost *)

Definition is_message {X} (c : gcall X) : bool := match c with RoundTrip _ => true | _ => false end.
Definition gmessage (e : gevent) : bool := match e with existT _ (c, _) => is_message c end.
Definition umessage (e : uevent) : bool :=
  match e with existT _ (c, _) => match c with UGate c => is_message c | _ => false end end.
Definition sent (e : uevent) : option SentRequest :=
  match e with existT _ (c, _) => match c with USend req => Some req | _ => None end end.
(** Every pause of the job: before another attempt, and between rounds. *)
Definition pause (e : uevent) : Z :=
  match e with existT _ (c, _) => match c with UPause s => s | UJob (JSleep s) => s | _ => 0 end end.

(** At most [m] messages to the enclave, [n] venue requests and [s] seconds. *)
Record cost (m n : nat) (s : Z) (tr : list uevent) : Prop := {
  co_messages : (length (filter (fun e => umessage e = true) tr) <= m)%nat;
  co_sends : (length (filter (fun e => is_Some (sent e)) tr) <= n)%nat;
  co_pauses : foldr (fun e t => pause e + t) 0 tr <= s
}.

Lemma pauses_app l1 l2 :
  foldr (fun e t => pause e + t) 0 (l1 ++ l2) = foldr (fun e t => pause e + t) 0 l1 + foldr (fun e t => pause e + t) 0 l2.
Proof. induction l1 as [|e l1 IH]; cbn; [lia|]. rewrite IH. lia. Qed.

Lemma cost_app m1 n1 s1 m2 n2 s2 l1 l2 : cost m1 n1 s1 l1 -> cost m2 n2 s2 l2 -> cost (m1 + m2) (n1 + n2) (s1 + s2) (l1 ++ l2).
Proof.
  intros [H1 H2 H3] [K1 K2 K3]. constructor; rewrite ?filter_app, ?length_app, ?pauses_app; lia.
Qed.
Lemma cost_le m n s m' n' s' l : cost m n s l -> (m <= m')%nat -> (n <= n')%nat -> s <= s' -> cost m' n' s' l.
Proof. intros [] Hm Hn Hs. constructor; lia. Qed.
Lemma cost_nil : cost 0 0 0 [].
Proof. constructor; cbn; lia. Qed.
Lemma cost_send req x : cost 0 1 0 [uev (USend req) x].
Proof. constructor; vm_compute; first [lia|discriminate]. Qed.
Lemma cost_pause s x : cost 0 0 s [uev (UPause s) x].
Proof. constructor; [vm_compute; lia..|]. cbn [foldr uev pause]. lia. Qed.

(** Every venue request among the events satisfies [P]. *)
Definition sends_in (P : SentRequest -> Prop) (tr : list uevent) : Prop :=
  Forall (fun e => match sent e with Some req => P req | None => True end) tr.
Lemma sends_plain P tr : Forall (fun e => sent e = None) tr -> sends_in P tr.
Proof. intros Hp. eapply Forall_impl; [exact Hp|]. by intros e ->. Qed.
Lemma sends_app P l1 l2 : sends_in P l1 -> sends_in P l2 -> sends_in P (l1 ++ l2).
Proof. apply Forall_app_2. Qed.
Lemma sends_send (P : SentRequest -> Prop) req x : P req -> sends_in P [uev (USend req) x].
Proof. intros HP. by constructor. Qed.
Lemma sends_mono (P R : SentRequest -> Prop) tr : (forall req, P req -> R req) -> sends_in P tr -> sends_in R tr.
Proof. intros HPR Hs. eapply Forall_impl; [exact Hs|]. intros e. cbn. destruct (sent e); auto. Qed.

(** A signing helper sends one message and nothing else. *)
Lemma lift_plain g : Forall (fun e => sent e = None) (map lift_event g).
Proof. apply Forall_forall. intros e (x & -> & _)%list_elem_of_fmap. by destruct x as [X [c y]]. Qed.
Lemma lift_cost g : (length (filter (fun e => gmessage e = true) g) <= 1)%nat -> cost 1 0 0 (map lift_event g).
Proof.
  intros Hg. constructor.
  - assert (forall g, length (filter (fun e => umessage e = true) (map lift_event g)) = length (filter (fun e => gmessage e = true) g)) as ->; [|done].
    clear g Hg. induction g as [|[X [c x]] g IH]; [done|]. cbn [map lift_event]. rewrite !filter_cons. cbn [umessage gmessage].
    case_decide; cbn [length]; by rewrite IH.
  - clear. induction g as [|[X [c x]] g IH]; [done|]. cbn [map lift_event]. rewrite filter_cons. cbn [sent].
    rewrite decide_False by (by intros [? ?]). done.
  - clear. induction g as [|[X [c x]] g IH]; cbn; [lia|]. done.
Qed.

(** ** Reading a book *)

(** [v] is a venue's answer that lists exactly [orders]. *)
Definition holds_book (venue : string) (v : json) (orders : list OpenOrder) : Prop :=
  (venue = "okx" /\ (jget "code" v ≫= as_str) = Some "0" /\
   exists rows, (jget "data" v ≫= as_array) = Some rows /\ map okx_row rows = map Some orders) \/
  (venue = "binance" /\ exists rows, v = JArr rows /\ map binance_row rows = map Some orders).

Lemma read_rows_ok row unread rows orders : read_rows row unread rows = Ok orders <-> map row rows = map Some orders.
Proof.
  revert orders. induction rows as [|v rows IH]; intros orders; cbn [read_rows map].
  - split; [by intros [= <-]|]. by destruct orders.
  - destruct (row v) as [o|]; [|split; [done|by destruct orders]]. split.
    + intros (os & Hr & [= <-])%bind_ok_inv. cbn [map]. f_equal. by apply IH.
    + destruct orders as [|o' os]; [done|]. cbn [map]. intros [= <- Hm]. apply IH in Hm. by rewrite Hm.
Qed.

Section Books.
Context `{JsonShow}.

Lemma okx_book_ok status v orders :
  parse_okx_open_orders status v = Ok orders <-> status = 200 /\ holds_book "okx" v orders.
Proof using.
  unfold parse_okx_open_orders, holds_book. destruct (Z.eqb_spec status 200) as [->|Hs]; cbn [negb]; [|naive_solver].
  case_bool_decide as Hc; cbn [negb]; [|naive_solver].
  destruct (jget "data" v ≫= as_array) as [rows|]; [|naive_solver].
  rewrite read_rows_ok. naive_solver.
Qed.
Lemma binance_book_ok status v orders :
  parse_binance_open_orders status v = Ok orders <-> status = 200 /\ holds_book "binance" v orders.
Proof using.
  unfold parse_binance_open_orders, holds_book. destruct (Z.eqb_spec status 200) as [->|Hs]; cbn [negb]; [|naive_solver].
  destruct v; cbn [as_array]; [naive_solver..| |naive_solver]. rewrite read_rows_ok. naive_solver.
Qed.
End Books.

(** ** The calls of a job *)

Section Calls.
Context `{Crates, Cbor, JsonText, JsonShow} (app : AppConfig) (customer token : string).

(** Within what the enclave lets a capped key do; a symbol that is not a plain
    token is the only way out. *)
Definition capped_ok (m : VsockRequest) : Prop :=
  vq_action m = "sign_okx_cancel" \/
  exists venue method path, vq_action m = "sign_" +:+ venue /\ vq_method m = Some method /\ vq_path m = Some path /\ vq_body m = Some "" /\
    (generic_capped_op_allowed venue method path (default "" (vq_query m)) "" = true \/
     exists s, vq_query m = Some ("symbol=" +:+ s) /\ token_value s = false).

(** The tenant's own, adding no exposure, and without an agent's intent. *)
Definition own_message (m : VsockRequest) : Prop :=
  own_credentials app customer token m /\ harmless m = true /\ vq_intent_signature m = None /\ vq_order m = None /\ capped_ok m.

Definition gate_call_ok {X} (c : gcall X) : Prop :=
  match c with
  | RoundTrip m => own_message m
  | Archive c _ => c = customer
  | BackoffAllow scope | BackoffSuccess scope | BackoffLimited scope => own_scope customer scope
  | NowMs | GetCreds => True
  | _ => False
  end.

(** What goes to the venue is what the enclave signed in answer to [m]. *)
Definition carries (m : VsockRequest) (r : VsockResponse) (req : SentRequest) : Prop :=
  vs_error r = None /\
  ((vq_action m = "sign_okx_cancel" /\ se_method req = "POST" /\ se_url req = okx_base_url +:+ OKX_CANCEL /\
    se_body req = vs_canonical_body r /\
    se_headers req = <["Content-Type" := "application/json"]> (demo_header (app_env app) (default ∅ (vs_headers r)))) \/
   (vq_action m = "sign_okx" /\ vq_method m = Some (se_method req) /\ se_body req = None /\ vq_query m = None /\
    (exists path, vq_path m = Some path /\ se_url req = okx_base_url +:+ path) /\
    se_headers req = demo_header (app_env app) (default ∅ (vs_headers r))) \/
   (vq_action m = "sign_binance" /\ vq_method m = Some (se_method req) /\ se_body req = None /\
    exists path, vq_path m = Some path /\
      binance_signed_url (app_env app) path (default "" (vq_query m)) (default ∅ (vs_headers r)) = Some (se_url req, se_headers req))).

Definition unwind_pre (tr : list uevent) (X : Type) (c : ucall X) : Prop :=
  match c with
  | UGate c => gate_call_ok c
  | USend req => exists m r, uev (UGate (RoundTrip m)) (Some r) ∈ tr /\ carries m r req
  | UPause s => 0 <= s <= 60
  | UJob c => match c with JList _ | JCancel _ _ => False | _ => True end
  end.

(** The calls of one signing helper: one message at most. *)
Definition signing_pre (tr : list gevent) (X : Type) (c : gcall X) : Prop :=
  gate_call_ok c /\ (is_message c = true -> filter (fun e => gmessage e = true) tr = []).

Lemma signing_lawful g : lawful signing_pre g -> (length (filter (fun e => gmessage e = true) g) <= 1)%nat.
Proof using.
  induction g as [|[X [c x]] g IH]; cbn [lawful]; [cbn; lia|]. intros [[_ Hm] Hl]. specialize (IH Hl).
  rewrite filter_cons. cbn [gmessage]. case_decide as E; [|done]. rewrite (Hm E). cbn. lia.
Qed.
Lemma signing_unwind g tr X (c : gcall X) : signing_pre g X c -> unwind_pre tr X (UGate c).
Proof using. by intros [? _]. Qed.

(** A helper that signs within [signing_pre] costs a job one message. *)
Lemma signing_adds {A} (p : gprog A) Q tr :
  gall signing_pre p [] Q ->
  adds unwind_pre (glift p) tr (fun new a => cost 1 0 0 new /\ Forall (fun e => sent e = None) new /\
    exists g, new = map lift_event g /\ Q g a).
Proof using.
  intros Hp. eapply adds_mono; [eapply (adds_glift unwind_pre signing_pre); [exact signing_unwind|by apply gall_lawful; [exact Hp|]]|].
  intros new a (g & -> & HQ & Hl). split; [by apply lift_cost, signing_lawful|]. split; [apply lift_plain|]. by exists g.
Qed.
Lemma lift_elem {X} (c : gcall X) x g : gev c x ∈ g -> uev (UGate c) x ∈ map lift_event g.
Proof using. intros Hg. apply (list_elem_of_fmap_2 lift_event) in Hg. done. Qed.

(** *** Signed reads and mass cancels *)

Definition read_reply (venue method path query : string) (m : VsockRequest) (r : VsockResponse) : Prop :=
  vs_error r = None /\ vq_action m = "sign_" +:+ venue /\ vq_method m = Some method /\ vq_path m = Some path /\
  vq_query m = if is_empty query then None else Some query.

(** The three requests an unwind makes on the generic actions. *)
Inductive unwind_read : string -> string -> string -> string -> Prop :=
| read_okx : unwind_read "okx" "GET" OKX_PENDING ""
| read_binance : unwind_read "binance" "GET" BINANCE_OPEN ""
| delete_binance s : unwind_read "binance" "DELETE" BINANCE_CANCEL_ALL ("symbol=" +:+ s).

Lemma unwind_read_own venue method path query blob creds ts : unwind_read venue method path query ->
  blobs app !! blob_key customer venue = Some blob ->
  own_message (read_request ("sign_" +:+ venue) method path "" query token venue blob creds ts).
Proof using.
  intros Hr Hb. split; [by eapply keyed_credentials|]. unfold capped_ok. destruct Hr as [| |s].
  - split_and!; [reflexivity..|]. right. exists "okx", "GET", OKX_PENDING. split_and!; try reflexivity. by left.
  - split_and!; [reflexivity..|]. right. exists "binance", "GET", BINANCE_OPEN. split_and!; try reflexivity. by left.
  - split_and!; [reflexivity..|]. right. exists "binance", "DELETE", BINANCE_CANCEL_ALL. split_and!; try reflexivity.
    destruct (token_value s) eqn:Es; [left|right; by exists s].
    transitivity (token_value s); [|done]. reflexivity.
Qed.

Lemma account_read_spec venue method path query : unwind_read venue method path query ->
  gall signing_pre (sign_account_read app customer token venue method path "" query) [] (fun g r =>
    forall h, r = Ok h -> exists m resp, gev (RoundTrip m) (Some resp) ∈ g /\ read_reply venue method path query m resp /\
      h = default ∅ (vs_headers resp)).
Proof using.
  intros Hr. unfold sign_account_read.
  assert (enclave_action_for venue None = Some ("sign_" +:+ venue)) as -> by (by destruct Hr).
  destruct (blobs app !! _) as [blob|] eqn:Hb; [|by intros ?].
  cbn [gbind gask gall]. split; [by split; [eexists|]|]. intros [|]; cbn [negb]; [|by intros ?].
  cbn [gbind gask gall]. split; [done|]. intros [creds|]; [|by intros ?].
  cbn [gbind gask gall]. split; [done|]. intros now. split; [split; [by apply unwind_read_own|done]|].
  intros [resp|]; [|by intros ?]. unfold take_receipt.
  assert (forall t receipt, gev (RoundTrip (read_request ("sign_" +:+ venue) method path "" query token venue blob creds now)) (Some resp) ∈ t ->
    gall signing_pre (match vs_error resp with
      | Some code => gbind (enclave_refusal (blob_key customer venue) code receipt) (fun r => GRet (Err r))
      | None => gbind (gask (BackoffSuccess (blob_key customer venue))) (fun _ => GRet (Ok (default ∅ (vs_headers resp)))) end) t
    (fun g r => forall h, r = Ok h -> exists m resp, gev (RoundTrip m) (Some resp) ∈ g /\ read_reply venue method path query m resp /\
      h = default ∅ (vs_headers resp))) as Hend.
  { intros t receipt Hin. destruct (vs_error resp) as [code|] eqn:He.
    - unfold enclave_refusal. destruct (decide _); cbn [gbind gask gall]; [|by intros ?]. split; [by split; [eexists|]|]. by intros ? ?.
    - cbn [gbind gask gall]. split; [by split; [eexists|]|]. intros ? h [= <-]. eexists _, resp. split; [right; exact Hin|]. done. }
  destruct (vs_receipt resp) as [receipt|]; cbn [gbind gask gall]; [split; [done|]; intros ?|]; apply Hend; set_solver.
Qed.

(** The seconds left to wait before the attempts that remain. *)
Fixpoint pause_budget (left : nat) : Z :=
  match left with S (S _ as left') => CANCEL_BACKOFF_BASE * (5 - Z.of_nat left) + pause_budget left' | _ => 0 end.

Lemma pause_budget_pos left : (left <= 4)%nat -> 0 <= pause_budget left.
Proof using. intros Hl. do 5 (destruct left as [|left]; [by vm_compute|]). lia. Qed.

(** The wait before the next attempt. *)
Lemma pause_step left attempt : (S left <= 4)%nat -> attempt = 5 - Z.of_nat (S left) ->
  (attempt <? attempts) = negb (left =? 0)%nat /\ 0 <= CANCEL_BACKOFF_BASE * attempt /\
  (left <> O -> CANCEL_BACKOFF_BASE * attempt <= 60 /\ pause_budget (S left) = CANCEL_BACKOFF_BASE * attempt + pause_budget left).
Proof using.
  intros Hl ->. do 4 (destruct left as [|left]; [vm_compute; split_and!; try done; discriminate|]). lia.
Qed.

Lemma read_attempts left : forall attempt last venue method path query tr,
  unwind_read venue method path query -> (left <= 4)%nat -> attempt = 5 - Z.of_nat left ->
  adds unwind_pre (signed_read_from app customer token left attempt last venue method path query) tr (fun new r =>
    cost left 0 (pause_budget left) new /\ Forall (fun e => sent e = None) new /\
    forall h, r = Ok h -> exists m resp, uev (UGate (RoundTrip m)) (Some resp) ∈ new /\
      read_reply venue method path query m resp /\ h = default ∅ (vs_headers resp)).
Proof using.
  induction left as [|left IH]; intros attempt last venue method path query tr Hr Hl Ha; cbn [signed_read_from].
  { apply adds_ret. split; [apply cost_nil|]. done. }
  destruct (pause_step left attempt Hl Ha) as (Hlt & Hpos & Hnext).
  eapply adds_bind; [by apply signing_adds, account_read_spec|]. intros new r (Hc & Hp & g & -> & Hh).
  assert (0 <= pause_budget left) by (apply pause_budget_pos; lia).
  assert (0 <= pause_budget (S left)) by (by apply pause_budget_pos).
  destruct r as [h|resp].
  { apply adds_ret. rewrite ?app_nil_l. split; [eapply cost_le; [exact Hc|lia..]|]. split; [done|]. intros h' [= <-].
    destruct (Hh h eq_refl) as (m & resp & Hin & Hrep & ->). exists m, resp. split; [by apply lift_elem|done]. }
  destruct (h_status resp =? 429); cbn [andb].
  2: { apply adds_ret. split; [eapply cost_le; [exact Hc|lia..]|]. done. }
  rewrite Hlt. destruct left as [|left]; cbn [Nat.eqb negb].
  { apply adds_ret. split; [eapply cost_le; [exact Hc|lia..]|]. done. }
  destruct (Hnext ltac:(done)) as [H60 Hb]. apply adds_ask; [done|]. intros u. eapply adds_mono.
  { apply IH; [done|lia|lia]. }
  intros new r (Hc' & Hp' & Hh'). split_and!.
  - pose proof (cost_app _ _ _ _ _ _ _ _ Hc' (cost_app _ _ _ _ _ _ _ _ (cost_pause (CANCEL_BACKOFF_BASE * attempt) u) Hc)) as Hsum.
    rewrite <- (assoc_L (++)). eapply cost_le; [exact Hsum|lia..].
  - rewrite <- (assoc_L (++)). apply Forall_app. split; [done|]. by constructor.
  - intros h Hok. destruct (Hh' h Hok) as (m & resp' & Hin & Hrest). exists m, resp'. split; [|done].
    rewrite <- (assoc_L (++)). apply elem_of_app. by left.
Qed.

Lemma signed_read_spec venue method path query tr : unwind_read venue method path query ->
  adds unwind_pre (signed_read app customer token venue method path query) tr (fun new r =>
    cost 4 0 120 new /\ Forall (fun e => sent e = None) new /\
    forall h, r = Ok h -> exists m resp, uev (UGate (RoundTrip m)) (Some resp) ∈ new /\
      read_reply venue method path query m resp /\ h = default ∅ (vs_headers resp)).
Proof using. intros Hr. by apply (read_attempts 4). Qed.

(** *** Listing *)

(** A request for a venue's book. *)
Definition asks_book (venue : string) (req : SentRequest) : Prop :=
  se_method req = "GET" /\
  ((venue = "okx" /\ se_url req = okx_base_url +:+ OKX_PENDING) \/
   (venue = "binance" /\ exists query, se_url req = (binance_base_url (app_env app) +:+ BINANCE_OPEN) +:+ "?" +:+ query)).

Lemma asks_one_book v w req : asks_book v req -> asks_book w req -> v = w.
Proof using.
  intros [_ [[-> Hv]|[-> [q Hv]]]] [_ [[-> Hw]|[-> [q' Hw]]]]; try done; rewrite Hv in Hw; revert Hw;
    unfold binance_base_url; destruct (env_is _ _ _); cbn; discriminate.
Qed.

(** The venue itself answered a listing with exactly these orders. *)
Definition book_answer (venue : string) (orders : list OpenOrder) (e : uevent) : Prop :=
  exists req chunks bytes v, e = uev (USend req) (VenueResponse 200 chunks) /\ asks_book venue req /\
    read_capped_body "" chunks = Ok bytes /\ json_of_slice bytes = Some v /\ holds_book venue v orders.

Lemma read_answer_ok venue op answer status v raw :
  read_answer venue op answer = (Ok (status, v), raw) ->
  exists chunks bytes, answer = VenueResponse status chunks /\ read_capped_body "" chunks = Ok bytes /\ json_of_slice bytes = Some v.
Proof using.
  unfold read_answer. destruct answer as [st chunks|]; [|done]. destruct (read_capped_body "" chunks) as [bytes|] eqn:Eb; [|done].
  destruct (json_of_slice bytes) as [w|] eqn:Ej; [|done]. intros [= <- <- _]. by exists chunks, bytes.
Qed.

Lemma binance_url_shape path query headers url h :
  binance_signed_url (app_env app) path query headers = Some (url, h) ->
  exists rest, url = (binance_base_url (app_env app) +:+ path) +:+ "?" +:+ rest.
Proof using.
  unfold binance_signed_url. destruct (headers !! "signature") as [sig|]; [|done]. destruct (headers !! "timestamp") as [t|]; [|done]. cbn [mbind option_bind].
  destruct (negb _); [done|]. intros [= <- _]. eexists. by rewrite append_assoc.
Qed.

Lemma send_spec venue op req tr : unwind_pre tr _ (USend req) ->
  adds unwind_pre (send venue op req) tr (fun new x => exists a, new = [uev (USend req) a] /\ x = read_answer venue op a).
Proof using. intros Hp. apply adds_ask; [done|]. intros a. apply adds_ret. by exists a. Qed.

(** What the last two requests of a listing have in common: one signed read, one call. *)
Definition listed (venue : string) (new : list uevent) (x : result string (list OpenOrder) * list RawExchange) : Prop :=
  cost 4 1 120 new /\ sends_in (asks_book venue) new /\
  forall orders, x.1 = Ok orders -> exists e rest, new = e :: rest /\ book_answer venue orders e.

Lemma listed_refused venue new e raw : cost 4 0 120 new -> Forall (fun e => sent e = None) new -> listed venue new (Err e, raw).
Proof using. intros Hc Hp. split; [eapply cost_le; [exact Hc|lia..]|]. split; [by apply sends_plain|]. done. Qed.

Lemma listed_answer venue op req a new parse r raw :
  cost 4 0 120 new -> Forall (fun e => sent e = None) new -> asks_book venue req ->
  (forall status v orders, parse status v = Ok orders -> status = 200 /\ holds_book venue v orders) ->
  read_answer venue op a = (r, raw) ->
  listed venue ([uev (USend req) a] ++ new) ('(status, v) ← r; parse status v, raw).
Proof using.
  intros Hc Hp Hq Hparse Ha. split; [exact (cost_app _ _ _ _ _ _ _ _ (cost_send req a) Hc)|].
  split; [apply sends_app; [by apply sends_send|by apply sends_plain]|]. cbn [fst]. intros orders Hok.
  destruct r as [[status v]|]; [|done]. cbn in Hok. apply Hparse in Hok as [-> Hb].
  destruct (read_answer_ok _ _ _ _ _ _ Ha) as (chunks & bytes & -> & Hr & Hj). eexists _, new. split; [done|].
  by exists req, chunks, bytes, v.
Qed.

Lemma list_open_spec venue tr : adds unwind_pre (list_open app customer token venue) tr (listed venue).
Proof using.
  unfold list_open. case_bool_decide as Ho; [subst venue|].
  { eapply adds_bind; [apply signed_read_spec, read_okx|]. intros new [h|e] (Hc & Hp & Hh).
    2: { apply adds_ret. by apply listed_refused. }
    destruct (Hh h eq_refl) as (m & resp & Hin & (He & Hact & Hm & Hpath & Hq) & ->). eapply adds_bind.
    { apply send_spec. exists m, resp. split; [apply elem_of_app; by left|]. split; [done|]. right. left. split_and!; try done. by eexists. }
    intros ? ? (a & -> & ->). destruct (read_answer _ _ a) as [r raw] eqn:Ea. apply adds_ret.
    eapply listed_answer; try done. { split; [done|]. by left. }
    intros status v orders. apply okx_book_ok. }
  case_bool_decide as Hb; [subst venue|].
  { eapply adds_bind; [apply signed_read_spec, read_binance|]. intros new [h|e] (Hc & Hp & Hh).
    2: { apply adds_ret. by apply listed_refused. }
    destruct (Hh h eq_refl) as (m & resp & Hin & (He & Hact & Hm & Hpath & Hq) & ->).
    destruct (binance_signed_url _ _ _ _) as [[url h']|] eqn:Eu.
    2: { apply adds_ret. by apply listed_refused. }
    destruct (binance_url_shape _ _ _ _ _ Eu) as [rest Hurl]. eapply adds_bind.
    { apply send_spec. exists m, resp. split; [apply elem_of_app; by left|]. split; [done|]. right. right. split_and!; try done.
      exists BINANCE_OPEN. split; [done|]. by rewrite Hq. }
    intros ? ? (a & -> & ->). destruct (read_answer _ _ a) as [r raw] eqn:Ea. apply adds_ret.
    eapply listed_answer; try done. { split; [done|]. right. split; [done|]. by exists rest. }
    intros status v orders. apply binance_book_ok. }
  apply adds_ret. apply listed_refused; [eapply cost_le; [apply cost_nil|lia..]|done].
Qed.

(** *** Cancelling *)

Definition cancel_of (o : OpenOrder) : json := cancel_to_value {| cq_symbol := oo_symbol o; cq_order_id := oo_order_id o |}.

(** An outcome that is not a failure is the venue's verdict on a request the
    enclave signed for this order (OKX) or its symbol (Binance). *)
Definition settled (o : OpenOrder) (out : CancelOutcome) (new : list uevent) : Prop :=
  (forall e, out <> CancelFailed e) ->
  exists m r req status chunks bytes v,
    uev (UGate (RoundTrip m)) (Some r) ∈ new /\ uev (USend req) (VenueResponse status chunks) ∈ new /\ carries m r req /\
    read_capped_body "" chunks = Ok bytes /\ json_of_slice bytes = Some v /\
    ((vq_action m = "sign_okx_cancel" /\ vq_cancel m = Some (cancel_of o) /\ out = parse_okx_cancel status v) \/
     (vq_action m = "sign_binance" /\ vq_method m = Some "DELETE" /\ vq_query m = Some ("symbol=" +:+ oo_symbol o) /\
      out = parse_binance_cancel_all status v)).

Lemma settled_mono o out l1 l2 : l1 ⊆ l2 -> settled o out l1 -> settled o out l2.
Proof using.
  intros Hs Ho Hne. destruct (Ho Hne) as (m & r & req & status & chunks & bytes & v & H1' & H2' & Hrest).
  exists m, r, req, status, chunks, bytes, v. split; [by apply Hs|]. split; [by apply Hs|]. done.
Qed.
Lemma settled_failed o e new : settled o (CancelFailed e) new.
Proof using. intros Hne. by destruct (Hne e). Qed.

Abbreviation cancels := (sends_in (fun req => se_method req <> "GET")).

Lemma okx_cancel_sign o :
  gall signing_pre (sign_structured_request app customer token "okx" "sign_okx_cancel" "POST" OKX_CANCEL
    (cancel_payload {| cq_symbol := oo_symbol o; cq_order_id := oo_order_id o |}) no_intent) [] (fun g r =>
    forall canonical h rec, r = Ok (canonical, h, rec) -> exists m resp, gev (RoundTrip m) (Some resp) ∈ g /\
      vs_error resp = None /\ vq_action m = "sign_okx_cancel" /\ vq_cancel m = Some (cancel_of o) /\
      vs_canonical_body resp = Some canonical /\ h = default ∅ (vs_headers resp)).
Proof using.
  unfold sign_structured_request. change (is_safe_key_id "okx") with true. cbn [negb].
  destruct (blobs app !! _) as [blob|] eqn:Hb; [|by intros ? ? ?].
  cbn [gbind gask gall]. split; [by split; [eexists|]|]. intros [|]; cbn [negb]; [|by intros ? ? ?].
  cbn [gbind gask gall]. split; [done|]. intros [creds|]; [|by intros ? ? ?].
  change (split_structured _) with (Some (@None json, Some (cancel_of o))). cbn [af_timestamp_ms no_intent gbind gask gall].
  split; [done|]. intros ts. set (m := structured_request _ _ _ _ _ _ _ _ _ _ _).
  split. { split; [|done]. split; [by eapply keyed_credentials|]. split_and!; try done. by left. }
  intros [resp|]; [|by intros ? ? ?]. unfold structured_answer, take_receipt. pose proof (eq_refl : vq_action m = "sign_okx_cancel") as Ha.
  pose proof (eq_refl : vq_cancel m = Some (cancel_of o)) as Hcan. clearbody m. set (tail := fun receipt : option json => _).
  assert (forall t receipt, gev (RoundTrip m) (Some resp) ∈ t -> gall signing_pre (tail receipt) t (fun g r =>
    forall canonical h rec, r = Ok (canonical, h, rec) -> exists m resp, gev (RoundTrip m) (Some resp) ∈ g /\
      vs_error resp = None /\ vq_action m = "sign_okx_cancel" /\ vq_cancel m = Some (cancel_of o) /\
      vs_canonical_body resp = Some canonical /\ h = default ∅ (vs_headers resp))) as Hend.
  { intros t receipt Hin. subst tail. cbv beta. destruct (vs_error resp) as [code|] eqn:He.
    - unfold enclave_refusal. destruct (decide _); cbn [gbind gask gall]; [|by intros ? ? ?]. split; [by split; [eexists|]|]. by intros ? ? ?.
    - destruct (vs_canonical_body resp) as [c|] eqn:Hcb; [|by intros ? ? ?]. destruct (is_empty c); [by intros ? ? ?|].
      cbn [gbind gask gall]. split; [by split; [eexists|]|]. intros ? ? ? ? [= <- <- <-]. exists m, resp. split; [right; exact Hin|]. done. }
  destruct (vs_receipt resp) as [receipt|]; cbn [gbind gask gall]; [split; [done|]; intros ?|]; apply Hend; set_solver.
Qed.

(** What the attempts at the orders in [P] add. *)
Definition cancelled_one (m n : nat) (s : Z) (P : OpenOrder -> Prop) (new : list uevent) (x : CancelOutcome * list RawExchange) : Prop :=
  cost m n s new /\ cancels new /\ forall o, P o -> settled o x.1 new.

Lemma cancelled_failed m n s P new e raw : cost m n s new -> cancels new -> cancelled_one m n s P new (CancelFailed e, raw).
Proof using. intros Hc Hp. split; [done|]. split; [done|]. intros o _. apply settled_failed. Qed.

(** The attempts after a pause, or without one. *)
Lemma cancelled_later m n s m' n' s' M N T P new new' x :
  cancelled_one m n s P new' x -> cost m' n' s' new -> cancels new -> (m + m' <= M)%nat -> (n + n' <= N)%nat -> s + s' <= T ->
  cancelled_one M N T P (new' ++ new) x.
Proof using.
  intros (Hc & Hp & Hs) Hc' Hp' HM HN HT. split; [eapply cost_le; [by apply cost_app|done..]|].
  split; [by apply sends_app|]. intros o Ho. eapply settled_mono; [|by apply Hs]. by apply list_subseteq_app_l.
Qed.

Lemma retry_adds left attempt p m n s P tr : (S left <= 4)%nat -> attempt = 5 - Z.of_nat (S left) ->
  (forall tr, adds unwind_pre p tr (cancelled_one m n s P)) ->
  adds unwind_pre (if attempt <? attempts then _ <~ uask (UPause (CANCEL_BACKOFF_BASE * attempt));; p else p) tr
    (cancelled_one m n (s + (pause_budget (S left) - pause_budget left)) P).
Proof using.
  intros Hl Ha Hp. destruct (pause_step left attempt Hl Ha) as (-> & Hpos & Hnext). destruct left as [|left]; cbn [Nat.eqb negb].
  - eapply adds_mono; [apply Hp|]. intros new x (Hc & ?). split; [|done]. eapply cost_le; [exact Hc|done|done|]. cbn. lia.
  - destruct (Hnext ltac:(done)) as [H60 Hb]. apply adds_ask; [done|]. intros u. eapply adds_mono; [apply Hp|]. intros new x Hx.
    eapply cancelled_later; [exact Hx|apply cost_pause|by constructor|lia..].
Qed.

Lemma okx_attempts left : forall attempt last raw o tr, (left <= 4)%nat -> attempt = 5 - Z.of_nat left ->
  adds unwind_pre (cancel_okx_from app customer token left attempt last raw o) tr (cancelled_one left left (pause_budget left) (eq o)).
Proof using.
  induction left as [|left IH]; intros attempt last raw o tr Hl Ha; cbn [cancel_okx_from].
  { apply adds_ret. apply cancelled_failed; [apply cost_nil|constructor]. }
  assert (0 <= pause_budget left) by (apply pause_budget_pos; lia).
  assert (0 <= pause_budget (S left)) by (by apply pause_budget_pos).
  assert (forall last raw tr, adds unwind_pre (if attempt <? attempts then
      _ <~ uask (UPause (CANCEL_BACKOFF_BASE * attempt));; cancel_okx_from app customer token left (attempt + 1) last raw o
      else cancel_okx_from app customer token left (attempt + 1) last raw o) tr (cancelled_one left left (pause_budget (S left)) (eq o))) as Hagain.
  { intros last' raw' tr'. replace (pause_budget (S left)) with (pause_budget left + (pause_budget (S left) - pause_budget left)) by lia.
    apply retry_adds; [done|done|]. intros tr''. apply IH; lia. }
  eapply adds_bind; [apply signing_adds, okx_cancel_sign|]. intros new r (Hc & Hp & g & -> & Hh).
  destruct r as [[[canonical h] rec]|resp].
  - destruct (Hh _ _ _ eq_refl) as (m & resp & Hin & He & Hact & Hcan & Hcb & ->). apply lift_elem in Hin.
    assert (carries m resp {| se_method := "POST"; se_url := okx_base_url +:+ OKX_CANCEL;
      se_headers := <["Content-Type" := "application/json"]> (demo_header (app_env app) (default ∅ (vs_headers resp)));
      se_body := Some canonical |}) as Hcar by (split; [done|]; left; by split_and!).
    eapply adds_bind.
    { apply send_spec. exists m, resp. split; [apply elem_of_app; by left|]. exact Hcar. }
    intros ? ? (a & -> & ->). destruct (read_answer _ _ a) as [[[status v]|e] rw] eqn:Ea.
    + apply adds_ret. split_and!.
      * eapply cost_le; [apply cost_app; [apply cost_send|exact Hc]|lia..].
      * apply sends_app; [by apply sends_send|by apply sends_plain].
      * intros ? <- _. destruct (read_answer_ok _ _ _ _ _ _ Ea) as (chunks & bytes & -> & Hr & Hj).
        eexists m, resp, _, status, chunks, bytes, v. split; [right; exact Hin|]. split; [by left|].
        split; [exact Hcar|]. split; [done|]. split; [done|]. by left.
    + eapply adds_mono; [apply Hagain|]. intros new x Hx. rewrite <- (assoc_L (++)).
      eapply cancelled_later; [exact Hx|apply cost_app; [apply cost_send|exact Hc]
        |apply sends_app; [by apply sends_send|by apply sends_plain]|lia..].
  - destruct (h_status resp =? 429); cbn [andb].
    2: { apply adds_ret. apply cancelled_failed; [eapply cost_le; [exact Hc|lia..]|by apply sends_plain]. }
    match goal with |- adds _ (if _ then ubind _ (fun _ => cancel_okx_from _ _ _ _ _ ?l ?r _) else _) ?t _ => pose proof (Hagain l r t) as Hag end.
    destruct (attempt <? attempts).
    + eapply adds_mono; [exact Hag|]. intros new x Hx. eapply cancelled_later; [exact Hx|exact Hc|by apply sends_plain|lia..].
    + apply adds_ret. apply cancelled_failed; [eapply cost_le; [exact Hc|lia..]|by apply sends_plain].
Qed.

Lemma binance_attempts left : forall attempt last raw symbol tr, (left <= 4)%nat -> attempt = 5 - Z.of_nat left ->
  adds unwind_pre (cancel_binance_from app customer token left attempt last raw symbol) tr
    (cancelled_one (4 * left) left (120 * Z.of_nat left + pause_budget left) (fun o => oo_symbol o = symbol)).
Proof using.
  induction left as [|left IH]; intros attempt last raw symbol tr Hl Ha; cbn [cancel_binance_from].
  { apply adds_ret. apply cancelled_failed; [apply cost_nil|constructor]. }
  assert (0 <= pause_budget left) by (apply pause_budget_pos; lia).
  assert (0 <= pause_budget (S left)) by (by apply pause_budget_pos).
  eapply adds_bind; [apply signed_read_spec, delete_binance|]. intros new r (Hc & Hp & Hh).
  destruct r as [h|e].
  2: { apply adds_ret. apply cancelled_failed; [eapply cost_le; [exact Hc|lia..]|by apply sends_plain]. }
  destruct (Hh h eq_refl) as (m & resp & Hin & (He & Hact & Hm & Hpath & Hq) & ->).
  destruct (binance_signed_url _ _ _ _) as [[url h']|] eqn:Eu.
  2: { apply adds_ret. apply cancelled_failed; [eapply cost_le; [exact Hc|lia..]|by apply sends_plain]. }
  assert (carries m resp {| se_method := "DELETE"; se_url := url; se_headers := h'; se_body := None |}) as Hcar.
  { split; [done|]. right. right. split_and!; try done. exists BINANCE_CANCEL_ALL. split; [done|]. by rewrite Hq. }
  eapply adds_bind.
  { apply send_spec. exists m, resp. split; [apply elem_of_app; by left|]. exact Hcar. }
  intros ? ? (a & -> & ->). destruct (read_answer _ _ a) as [r rw] eqn:Ea. cbv zeta.
  assert (forall last tr, adds unwind_pre (if attempt <? attempts then
      _ <~ uask (UPause (CANCEL_BACKOFF_BASE * attempt));; cancel_binance_from app customer token left (attempt + 1) last (raw ++ rw) symbol
      else cancel_binance_from app customer token left (attempt + 1) last (raw ++ rw) symbol) tr
    (fun new' x => cancelled_one (4 * S left) (S left) (120 * Z.of_nat (S left) + pause_budget (S left)) (fun o => oo_symbol o = symbol) ((new' ++ [uev (USend
       {| se_method := "DELETE"; se_url := url; se_headers := h'; se_body := None |}) a]) ++ new) x)) as Hagain.
  { intros last' tr'. eapply adds_mono; [apply (retry_adds left attempt _ (4 * left) left); [done|done|]; intros tr''; apply IH; lia|].
    intros new' x Hx. rewrite <- (assoc_L (++)).
    eapply cancelled_later; [exact Hx|apply cost_app; [apply cost_send|exact Hc]
      |apply sends_app; [by apply sends_send|by apply sends_plain]|lia..]. }
  destruct r as [[status v]|e]; [|apply Hagain]. destruct (status =? 429); [apply Hagain|]. apply adds_ret. split_and!.
  - eapply cost_le; [apply cost_app; [apply cost_send|exact Hc]|lia..].
  - apply sends_app; [by apply sends_send|by apply sends_plain].
  - intros o <- _. destruct (read_answer_ok _ _ _ _ _ _ Ea) as (chunks & bytes & -> & Hr & Hj).
    eexists m, resp, _, status, chunks, bytes, v. split; [right; exact Hin|]. split; [by left|].
    split; [exact Hcar|]. split; [done|]. split; [done|]. right. by rewrite Hq.
Qed.

(** What a cancel call adds: one outcome per order, in order. *)
Record cancelled_all (orders : list OpenOrder) (new : list uevent) (outs : list CancelOutcome) : Prop := {
  ca_outcomes : Forall2 (fun o out => settled o out new) orders outs;
  ca_cost : cost (16 * length orders) (4 * length orders) (600 * Z.of_nat (length orders)) new;
  ca_cancels : cancels new
}.

Lemma settled_all orders outs l1 l2 : l1 ⊆ l2 ->
  Forall2 (fun o out => settled o out l1) orders outs -> Forall2 (fun o out => settled o out l2) orders outs.
Proof using. intros Hs Hf. eapply Forall2_impl; [exact Hf|]. intros o out. by apply settled_mono. Qed.

Lemma okx_all_spec orders : forall tr,
  adds unwind_pre (cancel_okx_all app customer token orders) tr (fun new x => cancelled_all orders new x.1).
Proof using.
  induction orders as [|o orders IH]; intros tr; cbn [cancel_okx_all].
  { apply adds_ret. constructor; [constructor|apply cost_nil|constructor]. }
  eapply adds_bind; [by apply (okx_attempts 4)|]. intros new x (Hc & Hp & Hs).
  eapply adds_bind; [apply IH|]. intros new' y [Ho Hc' Hp']. apply adds_ret. rewrite app_nil_l. cbn [fst]. constructor.
  - constructor; [by eapply settled_mono; [apply list_subseteq_app_r|apply Hs]|]. eapply settled_all; [apply list_subseteq_app_l|]; done.
  - eapply cost_le; [by apply cost_app|cbn [length]; lia..|]. cbn [length]. change (pause_budget 4) with 120. lia.
  - by apply sends_app.
Qed.

Lemma cancel_symbols_total orders : forall by_symbol tr,
  adds unwind_pre (cancel_symbols app customer token orders by_symbol) tr (fun new x =>
    cost (16 * length orders) (4 * length orders) (600 * Z.of_nat (length orders)) new /\ cancels new /\ by_symbol ⊆ x.1 /\
    forall o, o ∈ orders -> exists out, x.1 !! oo_symbol o = Some out /\ (by_symbol !! oo_symbol o = None -> settled o out new)).
Proof using.
  induction orders as [|o orders IH]; intros by_symbol tr; cbn [cancel_symbols].
  { apply adds_ret. split_and!; [apply cost_nil|constructor|done|]. intros o Ho. by apply elem_of_nil in Ho. }
  destruct (by_symbol !! oo_symbol o) as [out|] eqn:Eb.
  - eapply adds_mono; [apply IH|]. intros new x (Hc & Hp & Hsub & Ho). split_and!; [eapply cost_le; [exact Hc|cbn [length]; lia..]|done|done|].
    intros o' [->|Hin]%elem_of_cons; [|by apply Ho]. exists out. split; [by eapply lookup_weaken|]. by rewrite Eb.
  - eapply adds_bind; [by apply (binance_attempts 4)|]. intros new x (Hc & Hp & Hs).
    eapply adds_bind; [apply IH|]. intros new' y (Hc' & Hp' & Hsub & Ho). apply adds_ret. rewrite app_nil_l. cbn [fst].
    assert (y.1 !! oo_symbol o = Some x.1) as Hy by (eapply lookup_weaken; [apply lookup_insert_eq|exact Hsub]).
    split_and!.
    + eapply cost_le; [by apply cost_app|cbn [length]; lia..|]. cbn [length]. change (pause_budget 4) with 120. lia.
    + by apply sends_app.
    + etrans; [|exact Hsub]. by apply insert_subseteq.
    + assert (forall o', oo_symbol o' = oo_symbol o -> exists out, y.1 !! oo_symbol o' = Some out /\
        (by_symbol !! oo_symbol o' = None -> settled o' out (new' ++ new))) as Hsame.
      { intros o' Hsym. exists x.1. rewrite Hsym. split; [done|]. intros _.
        eapply settled_mono; [|by apply Hs]. by apply list_subseteq_app_r. }
      intros o' [->|Hin]%elem_of_cons; [by apply Hsame|]. destruct (decide (oo_symbol o' = oo_symbol o)) as [Hsym|Hsym]; [by apply Hsame|].
      destruct (Ho o' Hin) as (out & Hout & Hset). exists out. split; [done|]. intros Hn.
      eapply settled_mono; [|apply Hset; by rewrite lookup_insert_ne by congruence]. by apply list_subseteq_app_l.
Qed.

Lemma cancel_spec venue orders tr :
  adds unwind_pre (cancel app customer token venue orders) tr (fun new x => cancelled_all orders new x.1).
Proof using.
  unfold cancel. case_bool_decide; [apply okx_all_spec|]. case_bool_decide.
  - eapply adds_bind; [apply cancel_symbols_total|]. intros new x (Hc & Hp & _ & Ho). apply adds_ret. rewrite app_nil_l. cbn [fst].
    constructor; [|done|done]. clear - Ho. induction orders as [|o orders IH]; [constructor|].
    destruct (Ho o ltac:(by left)) as (out & Hout & Hset). cbn [omap list_omap]. rewrite Hout. constructor; [by apply Hset, lookup_empty|].
    apply IH. intros o' Hin. apply Ho. by right.
  - apply adds_ret. cbn [fst]. constructor; [|eapply cost_le; [apply cost_nil|lia..]|constructor].
    induction orders as [|o orders IH]; cbn [map]; constructor; [apply settled_failed|done].
Qed.

(** ** The whole job *)

Definition own_job {X} (c : jcall X) : bool := match c with JList _ | JCancel _ _ => false | _ => true end.

(** The venue traffic behind a history of the job. *)
Inductive explains : list uevent -> list jevent -> Prop :=
| explains_nil : explains [] []
| explains_job uh jh X (c : jcall X) x : own_job c = true -> explains uh jh -> explains (uev (UJob c) x :: uh) (jev c x :: jh)
| explains_list uh jh v new x : listed v new x -> explains uh jh -> explains (new ++ uh) (jev (JList v) x :: jh)
| explains_cancel uh jh v orders new x :
    cancelled_all orders new x.1 -> explains uh jh -> explains (new ++ uh) (jev (JCancel v orders) x :: jh).

(** [GatewayOps] implements the calls the job was verified against. *)
Lemma with_ops_refines {A} (p : job A) Q : forall jh uh, jall p jh Q -> explains uh jh ->
  uall unwind_pre (with_ops app customer token p) uh (fun uh' a => exists jh', explains uh' jh' /\ Q a jh').
Proof using.
  induction p as [a|X c k IH]; intros jh uh Hp He; [by exists jh|]. cbn [jall with_ops] in *.
  destruct c; try (split; [done|]; intros x; eapply IH; [apply Hp|by constructor]).
  - apply uall_bind. eapply uall_mono; [apply list_open_spec|]. intros tr' x (new & -> & Hl).
    eapply IH; [apply Hp|by constructor].
  - apply uall_bind. eapply uall_mono; [apply cancel_spec|]. intros tr' x (new & -> & Hl).
    eapply IH; [apply Hp|by constructor].
Qed.

(** The effort behind a history of the job. *)
Lemma explains_cost uh jh : explains uh jh ->
  cost (4 * count_lists jh + 16 * orders_named jh) (count_lists jh + 4 * orders_named jh)
    (backed_off jh + 120 * Z.of_nat (count_lists jh) + 600 * Z.of_nat (orders_named jh)) uh.
Proof using.
  induction 1 as [|uh jh X c x Hown He IH|uh jh v new x (Hc & _) He IH|uh jh v orders new x [_ Hc _] He IH].
  - apply cost_nil.
  - assert (cost 0 0 (sleeping (jev c x)) [uev (UJob c) x]) as Hc.
    { constructor; [vm_compute; lia..|]. cbn [foldr uev pause jev sleeping]. destruct c; lia. }
    eapply cost_le; [apply (cost_app _ _ _ _ _ _ _ _ Hc IH)|..]; destruct c; try done; unfold count, backed_off, orders_named; cbn; lia.
  - eapply cost_le; [apply (cost_app _ _ _ _ _ _ _ _ Hc IH)|..]; unfold count, backed_off, orders_named; cbn; lia.
  - eapply cost_le; [apply (cost_app _ _ _ _ _ _ _ _ Hc IH)|..]; unfold count, backed_off, orders_named; cbn; lia.
Qed.

(** The venue's latest answer to a request for its book was an empty book. *)
Definition confirmed_empty (venue : string) (uh : list uevent) : Prop :=
  exists after e before, uh = after ++ e :: before /\ book_answer venue [] e /\
    sends_in (fun req => ~ asks_book venue req) after.

Lemma confirmed_later venue new uh :
  sends_in (fun req => ~ asks_book venue req) new -> confirmed_empty venue uh -> confirmed_empty venue (new ++ uh).
Proof using.
  intros Hn (after & e & before & -> & Hb & Ha). exists (new ++ after), e, before. rewrite (assoc_L (++)).
  split; [done|]. split; [done|by apply sends_app].
Qed.

Lemma explains_confirmed venue uh jh :
  explains uh jh -> last_listing venue jh = Some (Ok []) -> confirmed_empty venue uh.
Proof using.
  induction 1 as [|uh jh X c x Hown He IH|uh jh v new x (_ & Hs & Hok) He IH|uh jh v orders new x Hc He IH].
  - done.
  - intros Hl. apply (confirmed_later venue [_]); [by constructor|]. apply IH. destruct c; by try done.
  - cbn [last_listing listing jev]. case_decide as Hv; [subst v; intros [= Hx]|intros Hl].
    + destruct (Hok [] Hx) as (e & rest & -> & Hb). exists [], e, (rest ++ uh). split; [done|]. split; [done|constructor].
    + apply confirmed_later; [|by apply IH]. eapply sends_mono; [|exact Hs]. intros req Hreq Hq. by destruct Hv; eapply asks_one_book.
  - intros Hl. apply confirmed_later; [|by apply IH]. eapply sends_mono; [|exact (ca_cancels _ _ _ Hc)]. by intros req Hne [Hg _].
Qed.
End Calls.

Section Unwind.
Context `{Crates, Cbor, JsonText, JsonShow} (app : AppConfig) (vars : Vars) (customer : string).

Lemma elem_gateway_venues stem :
  stem ∈ gateway_venues app customer <-> stem ∈ VENUE_STEMS /\ is_Some (blobs app !! blob_key customer stem).
Proof using.
  unfold gateway_venues. rewrite merge_sort_Permutation, list_elem_of_filter, str_in_spec, list_elem_of_omap.
  unfold blob_key. change (String "/" stem) with ("/" +:+ stem). rewrite <- append_assoc. split.
  - intros (Hin & k & Hk & Hs). split; [done|]. apply strip_prefix_Some in Hs as ->.
    apply list_elem_of_fmap in Hk as ([k' b] & -> & Hb). exists b. by apply elem_of_map_to_list.
  - intros (Hin & b & Hb). split; [done|]. eexists. split; [|apply strip_prefix_app].
    apply list_elem_of_fmap. eexists (_, b). split; [done|]. by apply elem_of_map_to_list.
Qed.

(** The tenant's own token, when the environment has one. *)
Definition own_token : string := default "" (raw_token_for_customer vars customer).

Lemma unwind_refines :
  uall (unwind_pre app customer own_token) (unwind app vars customer) [] (fun uh phase =>
    exists jh, explains app uh jh /\
      (phase = Done -> Forall (fun v => gateway_supported v = true /\ last_listing v jh = Some (Ok [])) (gateway_venues app customer))).
Proof using.
  unfold unwind, own_token. destruct (raw_token_for_customer vars customer) as [token|]; cbn [default].
  - eapply with_ops_refines; [|constructor]. apply done_means_empty.
  - eapply with_ops_refines; [|constructor]. cbn [jbind no_token_job ask jall]. by intros.
Qed.

(** C28: Whatever the enclave and the venues answer, an unwind job speaks for its
    tenant only, adds no exposure and forges nothing: every message it sends to
    the enclave carries the tenant's own token and sealed blob, is a read or a
    cancel that the enclave's rules for capped keys admit (unless a venue listed
    a symbol that is not a plain token), and carries no order and no agent
    intent; no trading limit is spent; every request to a venue has exactly the
    method, address, headers and body the enclave signed in this job; and no
    single pause exceeds a minute. *)
Theorem unwind_stays_in_bounds :
  uall (unwind_pre app customer own_token) (unwind app vars customer) [] (fun _ _ => True).
Proof using. eapply uall_mono; [apply unwind_refines|]. done. Qed.

(** C27: An unwind ends as [Done] only if, for every trading venue the tenant has
    a key for, the venue itself answered the job's latest request for the book
    with status 200 and a well-formed, empty list: a transport error, an
    oversized or malformed body, an error code, a row that cannot be read, or
    a venue this version cannot unwind never counts as clean. *)
Theorem unwind_done_confirmed :
  uall (fun _ _ _ => True) (unwind app vars customer) [] (fun uh phase => phase = Done ->
    forall stem, stem ∈ VENUE_STEMS -> is_Some (blobs app !! blob_key customer stem) ->
      gateway_supported stem = true /\ confirmed_empty app stem uh).
Proof using.
  eapply uall_pre_mono, uall_mono; [done|apply unwind_refines|]. intros uh phase (jh & He & Hd) Hph stem Hin Hb.
  pose proof (proj1 (Forall_forall _ _) (Hd Hph) stem (proj2 (elem_gateway_venues stem) (conj Hin Hb))) as [Hs Hl].
  split; [done|by eapply explains_confirmed].
Qed.

Lemma gateway_venues_nodup : NoDup (gateway_venues app customer).
Proof using.
  unfold gateway_venues. rewrite merge_sort_Permutation. apply NoDup_filter.
  assert (forall keys, NoDup keys -> NoDup (omap (strip_prefix (customer +:+ "/")) keys)) as Hn.
  { induction 1 as [|k keys Hk _ IH]; [constructor|]. cbn [omap list_omap]. destruct (strip_prefix _ k) as [stem|] eqn:E; [|done].
    constructor; [|done]. intros (k' & Hk' & E')%list_elem_of_omap. apply strip_prefix_Some in E as ->, E' as ->. done. }
  apply Hn, NoDup_fst_map_to_list.
Qed.

(** A job works on two venues at most. *)
Lemma supported_at_most_two : (length (supported_venues (gateway_venues app customer) gateway_supported) <= 2)%nat.
Proof using.
  change 2%nat with (length ["okx"; "binance"]). apply submseteq_length, NoDup_submseteq.
  - apply NoDup_filter, gateway_venues_nodup.
  - intros v [Hv _]%list_elem_of_filter. by apply str_in_spec in Hv.
Qed.

(** C29: Whatever the enclave, the venues and the store answer, an unwind job
    ends, in a final phase, after a bounded effort.  It lists books at most ten
    times and makes at most ten batches of cancels (five rounds over the at most
    two venues it can unwind); a batch names exactly the orders
    the venue's book held in the listing just before it, and follows a fresh
    look at the state that found the tenant stopped.  In all it sends at most
    four messages per listing and sixteen per order of a batch to the enclave
    and makes at most one venue request per listing and four per order; and all
    its pauses together, the ones between rounds and the ones before another
    attempt at a listing or a cancel, stay within 75 seconds plus two minutes
    per listing plus ten minutes per order of a batch. *)
Theorem unwind_bounded :
  uall (fun _ _ _ => True) (unwind app vars customer) [] (fun uh phase =>
    phase ∈ [Done; Failed; Terminated] /\
    exists jh, explains app uh jh /\ cancels_justified jh /\ (count_lists jh <= 10)%nat /\ (count_cancels jh <= 10)%nat /\
      cost (4 * count_lists jh + 16 * orders_named jh) (count_lists jh + 4 * orders_named jh)
        (75 + 120 * Z.of_nat (count_lists jh) + 600 * Z.of_nat (orders_named jh)) uh).
Proof using.
  pose proof supported_at_most_two as Htwo.
  unfold unwind. destruct (raw_token_for_customer vars customer) as [token|].
  - eapply uall_pre_mono, uall_mono; [done|eapply (with_ops_refines app customer token); [apply run_bounded|constructor]|].
    intros uh phase (jh & He & Hp & Hl & Hc & Hb & Hj). split; [done|]. exists jh. split_and!; [done|done|lia|lia|].
    eapply cost_le; [by eapply explains_cost|lia..].
  - eapply uall_pre_mono, uall_mono; [done|eapply (with_ops_refines app customer "" _ (fun phase jh => phase = Failed /\
      cancels_justified jh /\ count_lists jh = 0%nat /\ count_cancels jh = 0%nat /\ backed_off jh = 0)); [|constructor]|].
    + cbn [jbind no_token_job ask jall]. intros now b. by vm_compute.
    + intros uh phase (jh & He & -> & Hj & Hl & Hc & Hb). split; [set_solver|]. exists jh. split_and!; [done|done|lia|lia|].
      eapply cost_le; [by eapply explains_cost|lia..].
Qed.

(** A cancel call reports one outcome per order, in order, and reports an
    order as cancelled or gone only on the venue's own verdict about a request
    the enclave signed for that order (on Binance: for its symbol); it gives up
    after a bounded effort, at most sixteen messages to the enclave, four venue
    requests and ten minutes of pauses per order. *)
Theorem cancel_outcomes_backed token venue orders tr :
  uall (fun _ _ _ => True) (cancel app customer token venue orders) tr (fun tr' x =>
    exists new, tr' = new ++ tr /\ Forall2 (fun o out => settled app o out new) orders x.1 /\
      cost (16 * length orders) (4 * length orders) (600 * Z.of_nat (length orders)) new).
Proof using.
  eapply uall_pre_mono, uall_mono; [done|apply cancel_spec|]. intros tr' x (new & -> & [Ho Hc _]). by exists new.
Qed.

(** What the verdicts are. *)
Lemma okx_cancelled_iff status v :
  parse_okx_cancel status v = Cancelled <->
  status = 200 /\ (jget "code" v ≫= as_str) = Some "0" /\
  ((((jget "data" v ≫= as_array) ≫= head) ≫= jget "sCode") ≫= as_str) = Some "0".
Proof using.
  unfold parse_okx_cancel. set (row := (jget "data" v ≫= as_array) ≫= head).
  destruct (Z.eqb_spec status 200) as [->|Hs]; cbn [andb]; [|destruct (str_in _ _); naive_solver].
  destruct (jget "code" v ≫= as_str) as [code|]; cbn [default]; [|rewrite bool_decide_false by done; cbn [andb]; destruct (str_in _ _); naive_solver].
  destruct ((row ≫= jget "sCode") ≫= as_str) as [scode|]; cbn [default].
  - repeat case_bool_decide; cbn [andb]; subst; try destruct (str_in _ _); naive_solver.
  - rewrite (bool_decide_false (("" : string) = "0")) by done. rewrite andb_false_r. cbn [str_in]. naive_solver.
Qed.
End Unwind.

(** The mass cancel on Binance is not behind the intent gate: with a plain
    symbol it is one of the operations the enclave lets a capped key sign, so a
    tenant whose OKX cancels need the agent's intent still has this book
    unwound. *)
Lemma binance_unwind_not_gated s :
  generic_capped_op_allowed "binance" "DELETE" BINANCE_CANCEL_ALL ("symbol=" +:+ s) "" = token_value s.
Proof. reflexivity. Qed.
(** A refused mass cancel carries the hint for reads, without the marker. *)
Lemma binance_cancel_read_hint :
  contains INTENT_GATE_MARK (refusal_hint 400 SignRead) = false /\ contains INTENT_GATE_MARK (refusal_hint 400 SignCancel) = true.
Proof. by vm_compute. Qed.

(** ** A run *)

Fixpoint urun {A} (answer : forall X, ucall X -> X) (p : uprog A) : A :=
  match p with URet a => a | UDo c k => urun answer (k (answer _ c)) end.

#[local] Existing Instance demo_crates.
#[local] Instance demo_unwind_cbor : Cbor := fun _ => None.
#[local] Instance demo_unwind_text : JsonText := fun s =>
  if bool_decide (s = "book") then Some (JObj [("code", JStr "0"); ("data", JArr [])]) else None.
#[local] Instance demo_unwind_show : JsonShow :=
  {| json_to_string := fun _ => ""; json_debug := fun _ => ""; json_error := fun _ => "" |}.

Definition demo_unwind_app : AppConfig :=
  {| blobs := {[blob_key "fund-a" "okx" := "sealed"; blob_key "fund-a" "payer" := "sealed"]}; limits := demo_config;
     data_signing_token := None; app_env := fun _ => None |}.
Definition demo_unwind_reply : VsockResponse :=
  {| vs_signature_base64 := ""; vs_headers := Some ∅; vs_hl_signature := None; vs_error := None; vs_plaintext_sha256 := None;
     vs_plaintext_len := None; vs_canonical_body := None; vs_attested := None; vs_attestation_document_b64 := None;
     vs_receipt := None; vs_heartbeat := None |}.
(** An enclave that signs, and a venue that answers [text]. *)
Definition demo_unwind_answer (text : string) (X : Type) (c : ucall X) : X :=
  match c in ucall X return X with
  | UJob c => match c in jcall X return X with
              | JNow => 0 | JStateOf => Halted | JUpdate _ => true | JList _ => (Err "", []) | JCancel _ _ => ([], [])
              | JSleep _ => () | JBundle _ => None
              end
  | UGate c => match c in gcall X return X with
               | NowSecs | NowMs => 0 | BlanketRate _ _ | OrdersRate _ _ | CancelsRate _ _ => Allow
               | CountOrder _ _ | CountSpend _ _ _ => None | StateOf _ => Halted
               | GetCreds => Some {| access_key_id := "id"; secret_access_key := "secret"; session_token := "session" |}
               | BackoffAllow _ => true | BackoffSuccess _ | BackoffLimited _ => () | RoundTrip _ => Some demo_unwind_reply
               | Archive _ _ => () | SignHealthView => (true, true, None) | SendVenue _ => () | VenueReply _ => VenueTransportError true "down"
               | Schedule => true | SpawnExecution _ _ => 0%nat | JoinExecution _ => None
               end
  | USend _ => VenueResponse 200 [Ok text]
  | UPause _ => ()
  end.

(** A job can end as [Done], and does not when the body cannot be read. *)
Example unwind_done_run :
  urun (demo_unwind_answer "book") (unwind demo_unwind_app demo_vars "fund-a") = Done /\
  urun (demo_unwind_answer "<html>") (unwind demo_unwind_app demo_vars "fund-a") = Failed.
Proof. by vm_compute. Qed.
