(* ===== verification/GwUnwindLive.v ===== *)
(** * When an unwind succeeds (gateway/src/reconcile.rs)

    The job against venues that do what the enclave signed: a venue shows its
    book (OKX one page of it), executes the cancels it is sent, and nothing new
    arrives; the enclave signs, except that it refuses OKX cancels where the
    tenant's policy asks for the agent's intent (AF-2).  [helps] and [answers]
    describe those answers at the level of the job and of the gateway's calls. *)

From S2P Require Import Prelude RustStr Crates Proto Generic GwProto GwHost GwLimits GwTenant GwAuth GwWire GwCalls GwHandlers GwHedge GwGates GwReconcile GwUnwind GwUnwindFacts.

Open Scope string_scope.
Open Scope list_scope.
Open Scope Z_scope.

(** ** Books *)

Record Books := { okx_book : list OpenOrder; binance_book : list OpenOrder }.

Definition book_of (venue : string) (b : Books) : list OpenOrder :=
  if bool_decide (venue = "okx") then okx_book b else if bool_decide (venue = "binance") then binance_book b else [].

Definition same_order (o o' : OpenOrder) : Prop := oo_symbol o = oo_symbol o' /\ oo_order_id o = oo_order_id o'.
#[global] Instance same_order_dec o o' : Decision (same_order o o').
Proof. unfold same_order. apply _. Defined.

(** OKX cancels one order, Binance every order of a symbol. *)
Definition cancel_on_okx (o : OpenOrder) (b : Books) : Books :=
  {| okx_book := filter (fun o' => ~ same_order o o') (okx_book b); binance_book := binance_book b |}.
Definition cancel_on_binance (symbol : string) (b : Books) : Books :=
  {| okx_book := okx_book b; binance_book := filter (fun o' => oo_symbol o' <> symbol) (binance_book b) |}.

(** The books after a batch. *)
Definition cancel_batch (venue : string) (orders : list OpenOrder) (b : Books) : Books :=
  if bool_decide (venue = "okx") then foldl (fun b o => cancel_on_okx o b) b orders
  else if bool_decide (venue = "binance") then foldl (fun b o => cancel_on_binance (oo_symbol o) b) b orders
  else b.


Lemma filter_keeps {A} (P : A -> Prop) `{!forall x, Decision (P x)} l : Forall P l -> filter P l = l.
Proof. induction 1; [done|]. rewrite filter_cons_True by done. by f_equal. Qed.


Lemma okx_batch orders : forall b, foldl (fun b o => cancel_on_okx o b) b orders =
  {| okx_book := filter (fun o' => Forall (fun o => ~ same_order o o') orders) (okx_book b); binance_book := binance_book b |}.
Proof.
  induction orders as [|o orders IH]; intros [ok bn]; cbn [foldl].
  { f_equal. symmetry. apply filter_keeps, Forall_forall. by constructor. }
  rewrite IH. cbn. f_equal. rewrite list_filter_filter. apply list_filter_iff. intros o'. rewrite Forall_cons. tauto.
Qed.
Lemma binance_batch orders : forall b, foldl (fun b o => cancel_on_binance (oo_symbol o) b) b orders =
  {| okx_book := okx_book b; binance_book := filter (fun o' => Forall (fun o => oo_symbol o' <> oo_symbol o) orders) (binance_book b) |}.
Proof.
  induction orders as [|o orders IH]; intros [ok bn]; cbn [foldl].
  { f_equal. symmetry. apply filter_keeps, Forall_forall. by constructor. }
  rewrite IH. cbn. f_equal. rewrite list_filter_filter. apply list_filter_iff. intros o'. rewrite Forall_cons. tauto.
Qed.

Lemma cancel_batch_other v w orders b : v <> w -> book_of w (cancel_batch v orders b) = book_of w b.
Proof.
  intros Hne. unfold cancel_batch, book_of. rewrite okx_batch, binance_batch. repeat case_bool_decide; subst; done.
Qed.

Section Page.
(** How many orders OKX lists at once, and whether the policy is behind AF-2. *)
Context (page : nat) (af2 : bool).

Definition shown (venue : string) (b : Books) : list OpenOrder :=
  if bool_decide (venue = "okx") then take page (okx_book b) else book_of venue b.
Definition gated (venue : string) : bool := af2 && bool_decide (venue = "okx").

(** What one visit leaves of the books. *)
Definition visited (venue : string) (b : Books) : Books :=
  if gated venue then b else cancel_batch venue (shown venue b) b.

Lemma visited_other v w b : v <> w -> book_of w (visited v b) = book_of w b.
Proof using. intros Hne. unfold visited. destruct (gated v); [done|by apply cancel_batch_other]. Qed.

(** Rounds the book of a venue needs. *)
Definition within (n : nat) (venue : string) (b : Books) : Prop :=
  if bool_decide (venue = "okx") then (length (okx_book b) <= n * page)%nat else n = O -> book_of venue b = [].


Lemma within_ne n v w b : v <> w -> within n w b -> within n w (visited v b).
Proof using.
  intros Hne Hw. pose proof (visited_other v w b Hne) as Hv. unfold within, book_of in *. repeat case_bool_decide; try done; try congruence.
  all: intros Hn; rewrite ?Hv; auto.
Qed.
Lemma within_le n m v b : (n <= m)%nat -> within n v b -> within m v b.
Proof using. unfold within. case_bool_decide; [intros Hl Hw; nia|]. intros Hl Hw ->. apply Hw. lia. Qed.

(** ** The job's calls *)

Section Job.
Context (venues : list string) (supported : string -> bool).
Abbreviation sv := (supported_venues venues supported).













(** ** Rounds *)

Context (Hpage : (0 < page)%nat) (Hnodup : NoDup sv).
Abbreviation sweep_all := (foldl (fun b v => visited v b)).










End Job.
End Page.

(** ** The gateway's calls *)


Section Ops.
Context `{Crates, Cbor, JsonText, JsonShow} (app : AppConfig) (customer token : string) (page : nat) (af2 : bool).



















End Ops.

Section Outcome.
Context `{Crates, Cbor, JsonText, JsonShow} (app : AppConfig) (vars : Vars) (customer : string) (page : nat) (af2 : bool).
Abbreviation venues := (gateway_venues app customer).
Abbreviation sv := (supported_venues venues gateway_supported).




End Outcome.

(** ** A run *)



#[local] Existing Instance demo_crates.
#[local] Existing Instance demo_unwind_cbor.
#[local] Existing Instance demo_unwind_show.

#[local] Instance demo_live_text : JsonText := fun s =>
  if bool_decide (s = "okx: none") then Some (JObj [("code", JStr "0"); ("data", JArr [])])
  else if bool_decide (s = "okx: one") then
    Some (JObj [("code", JStr "0"); ("data", JArr [JObj [("instId", JStr "BTC-USDT-SWAP"); ("ordId", JStr "7")]])])
  else if bool_decide (s = "binance: none") then Some (JArr [])
  else if bool_decide (s = "binance: one") then Some (JArr [JObj [("symbol", JStr "BTCUSDT"); ("orderId", JStr "9")]])
  else if bool_decide (s = "done") then Some (JObj [("code", JStr "0"); ("data", JArr [JObj [("sCode", JStr "0")]])])
  else None.

Section Demo.
Context (af2 : bool).






End Demo.

