(* ===== verification/GwProbe.v ===== *)
(** * The signing probe (gateway/src/main.rs)

    At boot and every few minutes the gateway has the enclave sign a constant
    under the data-signing key and compares the address that signed with the
    published one.  Boot fails when they differ; afterwards the result feeds the
    health cell of [GwBackoff] that [/healthz] publishes.  A probe is a program
    over its calls; the health cell is written by this task only. *)

From S2P Require Import Prelude RustStr Crates Decimal Proto GwProto GwHost GwLimits GwTenant GwAuth GwBackoff GwWire GwCalls GwHandlers.

Open Scope string_scope.
Open Scope list_scope.
Open Scope Z_scope.

Inductive ProbeOutcome := Passed | Skipped (reason : string) | Failed (detail : string).

Definition SIGN_PROBE_PAYLOAD : string := "{" +:+ String "034" ("usenami_self_test" +:+ String "034" (":" +:+ String "034" ("boot" +:+ String "034" "}"))).
Definition BOOT_PROBE_ATTEMPTS : nat := 20.
Definition PERIODIC_PROBE_ATTEMPTS : nat := 3.
Definition DEFAULT_SIGN_PROBE_INTERVAL_SEC : Z := 300.

(** ** Calls *)

Inductive pcall : Type -> Type :=
(** the credential cache and the vsock round trip *)
| PCreds : pcall (option AwsCredentials)
| PMessage (req : VsockRequest) : pcall (option VsockResponse)
(** the clock's nanoseconds; [None] before 1970 *)
| PNanos : pcall (option Z)
| PSleepMs (ms : Z) : pcall ()
(** [now_epoch_s] *)
| PNow : pcall Z
| PTick : pcall ()
(** the health cell *)
| PHealth (f : SignHealth -> SignHealth) : pcall ()
| PEnabled : pcall bool.

Inductive pprog (A : Type) : Type :=
| PRet (a : A)
| PDo {X : Type} (c : pcall X) (k : X -> pprog A).
Arguments PRet {A} a.
Arguments PDo {A X} c k.
Fixpoint pbind {A B} (p : pprog A) (f : A -> pprog B) : pprog B :=
  match p with PRet a => f a | PDo c k => PDo c (fun x => pbind (k x) f) end.
Notation "x <-- p ;; q" := (pbind p (fun x => q)) (at level 100, p at next level, right associativity).
Definition pask {X} (c : pcall X) : pprog X := PDo c PRet.

(** ** The probe *)

Section Probe.
Context `{Crates} (app : AppConfig).

Definition published_address : option string :=
  a ← to_ascii_lowercase ∘ trim <$> app_env app "SIGNER_DATA_ADDRESS"; if is_empty a then None else Some a.

Definition probe_request (token blob : string) (creds : AwsCredentials) : VsockRequest :=
  {| vq_action := "sign_data"; vq_proto_version := 1; vq_opaque_token := Some token; vq_method := None;
     vq_path := None; vq_body := None; vq_timestamp_ms := None; vq_aws_credentials := Some creds;
     vq_ciphertext_blob_base64 := Some (b64_encode blob);
     vq_key_blob_s3_key := Some ("secrets/" +:+ DATA_SIGNING_CUSTOMER +:+ "/" +:+ DATA_SIGNING_STEM +:+ ".enc");
     vq_query := None; vq_op := None; vq_payload := None; vq_hl_action := None; vq_nonce := None;
     vq_vault_address := None; vq_x402 := None; vq_permit2 := None; vq_order := None; vq_cancel := None;
     vq_attestation_nonce := None; vq_attestation_user_data := None; vq_data := Some SIGN_PROBE_PAYLOAD; vq_intent_signature := None;
     vq_intent_nonce := None; vq_client_nonce := None |}.

Definition backoff_ms (attempt : Z) (nanos : option Z) : Z :=
  Z.min (500 * attempt) 5000 + default 0 ((fun n => n mod 250) <$> nanos).

Definition judge_probe (expected_addr : string) (resp : VsockResponse) : ProbeOutcome :=
  match vs_error resp with
  | Some code => Failed ("enclave returned '" +:+ code +:+ "' — the data key is not decryptable / misconfigured")
  | None =>
      match vs_attested resp with
      | None => Failed "enclave ok but no attested payload"
      | Some attested =>
          let got := to_ascii_lowercase (trim (av_pubkey_address attested)) in
          if decide (got = expected_addr) then Passed
          else Failed ("enclave key address " +:+ got +:+ " != published SIGNER_DATA_ADDRESS " +:+ expected_addr +:+ " (config drift)")
      end
  end.

(** Attempts [attempt], [attempt + 1], ...; the texts of the errors are left out. *)
Fixpoint attempts (token blob expected_addr : string) (remaining : nat) (attempt : Z) (last_err : string) : pprog ProbeOutcome :=
  match remaining with
  | O => PRet (Failed ("enclave unreachable after " +:+ u64_to_string (attempt - 1) +:+ " attempts (" +:+ last_err +:+ ")"))
  | S remaining =>
      nanos <-- pask PNanos;;
      let backoff := backoff_ms attempt nanos in
      creds <-- pask PCreds;;
      match creds with
      | None => _ <-- pask (PSleepMs backoff);; attempts token blob expected_addr remaining (attempt + 1) "creds"
      | Some creds =>
          resp <-- pask (PMessage (probe_request token blob creds));;
          match resp with
          | Some resp => PRet (judge_probe expected_addr resp)
          | None => _ <-- pask (PSleepMs backoff);; attempts token blob expected_addr remaining (attempt + 1) "vsock"
          end
      end
  end.

Definition run_data_signing_probe (max_attempts : nat) : pprog ProbeOutcome :=
  match data_signing_token app with
  | None => PRet (Skipped "SIGNER_DATA_SIGNING_TOKEN unset")
  | Some token =>
      match published_address with
      | None => PRet (Failed "SIGNER_DATA_SIGNING_TOKEN is set but SIGNER_DATA_ADDRESS is not — cannot self-test the data key")
      | Some expected_addr =>
          match blobs app !! blob_key DATA_SIGNING_CUSTOMER DATA_SIGNING_STEM with
          | None => PRet (Failed ("data-signing provisioned but blob '" +:+ blob_key DATA_SIGNING_CUSTOMER DATA_SIGNING_STEM +:+ "' not loaded"))
          | Some blob => attempts token blob expected_addr max_attempts 1 ""
          end
      end
  end.

Definition data_signing_self_test : pprog (result string ()) :=
  outcome <-- run_data_signing_probe BOOT_PROBE_ATTEMPTS;;
  match outcome with
  | Passed =>
      _ <-- pask (PHealth (set_enabled true));;
      now <-- pask PNow;;
      _ <-- pask (PHealth (record_success now));;
      PRet (Ok tt)
  | Skipped _ => _ <-- pask (PHealth (set_enabled false));; PRet (Ok tt)
  | Failed detail => PRet (Err ("data-signing boot self-test failed (" +:+ detail +:+ "); refusing to start"))
  end.

Definition sign_probe_interval : Z :=
  default DEFAULT_SIGN_PROBE_INTERVAL_SEC (raw ← app_env app "SIGNER_HEALTH_SIGN_INTERVAL_SEC"; parse_unsigned 64 (trim raw)).

(** The task's loop, [n] turns of it. *)
Fixpoint probe_loop (n : nat) : pprog () :=
  match n with
  | O => PRet tt
  | S n =>
      _ <-- pask PTick;;
      outcome <-- run_data_signing_probe PERIODIC_PROBE_ATTEMPTS;;
      _ <-- match outcome with
            | Passed => now <-- pask PNow;; pask (PHealth (record_success now))
            | Skipped _ => PRet tt
            | Failed _ => now <-- pask PNow;; pask (PHealth (record_failure now))
            end;;
      probe_loop n
  end.

(** The task that is spawned, over its first [n] turns. *)
Definition spawn_sign_health_probe (n : nat) : pprog () :=
  if sign_probe_interval =? 0 then pask (PHealth (set_enabled false))
  else
    enabled <-- pask PEnabled;;
    if negb enabled then PRet tt
    else _ <-- pask PTick;; probe_loop n.

(** Boot, then the task. *)
Definition boot_and_watch (n : nat) : pprog (result string ()) :=
  r <-- data_signing_self_test;;
  match r with
  | Ok _ => _ <-- spawn_sign_health_probe n;; PRet (Ok tt)
  | Err e => PRet (Err e)
  end.
End Probe.

(** ** Every run of a probe *)

Definition pevent : Type := {X : Type & (pcall X * X)%type}.
Definition pev {X} (c : pcall X) (x : X) : pevent := existT X (c, x).

(** The health cell is this task's own; everything else may answer anything. *)
Definition answered {X} (c : pcall X) (h : SignHealth) : X -> SignHealth -> Prop :=
  match c with
  | PHealth f => fun _ h' => h' = f h
  | PEnabled => fun x h' => x = sh_enabled h /\ h' = h
  | _ => fun _ h' => h' = h
  end.

Section Runs.
Context (Pre : VsockRequest -> Prop) (Inv : SignHealth -> list pevent -> Prop).

Definition allowed {X} (c : pcall X) : Prop := match c with PMessage req => Pre req | _ => True end.

(** At every moment of every run [Inv] holds and only [Pre] is sent; [Q] at its end. *)
Fixpoint pall {A} (p : pprog A) (h : SignHealth) (tr : list pevent) (Q : SignHealth -> list pevent -> A -> Prop) : Prop :=
  Inv h tr /\
  match p with
  | PRet a => Q h tr a
  | PDo c k => allowed c /\ forall x h', answered c h x h' -> pall (k x) h' (pev c x :: tr) Q
  end.

Lemma pall_bind {A B} (p : pprog A) (f : A -> pprog B) h tr Q :
  pall p h tr (fun h' tr' a => pall (f a) h' tr' Q) -> pall (pbind p f) h tr Q.
Proof.
  revert h tr. induction p as [a|X c k IH]; cbn [pall pbind]; intros h tr [Hi Hp]; [done|]. destruct Hp as [Hc Hk].
  split; [done|]. split; [done|]. intros x h' Hx. by apply IH, Hk.
Qed.
Lemma pall_mono {A} (p : pprog A) h tr (Q R : SignHealth -> list pevent -> A -> Prop) :
  pall p h tr Q -> (forall h tr a, Inv h tr -> Q h tr a -> R h tr a) -> pall p h tr R.
Proof.
  revert h tr. induction p as [a|X c k IH]; cbn [pall]; intros h tr [Hi Hp] HQ; [by split; [|apply HQ]|]. destruct Hp as [Hc Hk].
  split; [done|]. split; [done|]. intros x h' Hx. by eapply IH; [apply Hk|].
Qed.
Lemma pall_ret {A} (a : A) h tr (Q : SignHealth -> list pevent -> A -> Prop) : Inv h tr -> Q h tr a -> pall (PRet a) h tr Q.
Proof. by split. Qed.
Lemma pall_ask {X B} (c : pcall X) (f : X -> pprog B) h tr Q : Inv h tr -> allowed c ->
  (forall x h', answered c h x h' -> pall (f x) h' (pev c x :: tr) Q) -> pall (pbind (pask c) f) h tr Q.
Proof. intros Hi Hc Hf. by split. Qed.
(** Events are only ever added. *)
Lemma pall_grows {A} (p : pprog A) h tr Q : pall p h tr Q -> pall p h tr (fun h' tr' a => Q h' tr' a /\ exists new, tr' = new ++ tr).
Proof.
  assert (forall tr0 new, tr = new ++ tr0 -> pall p h tr Q -> pall p h tr (fun h' tr' a => Q h' tr' a /\ exists new, tr' = new ++ tr0)) as Hgen;
    [|by apply (Hgen tr [])].
  intros tr0. revert h tr. induction p as [a|X c k IH]; cbn [pall]; intros h tr new -> [Hi Hp]; [eauto|]. destruct Hp as [Hc Hk].
  split; [done|]. split; [done|]. intros x h' Hx. eapply (IH x h' _ (pev c x :: new)); [done|]. by apply Hk.
Qed.
End Runs.

Section Facts.
Context `{Crates} (app : AppConfig).

Definition is_message (e : pevent) : bool := match e with existT _ (c, _) => match c with PMessage _ => true | _ => false end end.

(** An answer of the enclave that names the published address, without an error. *)
Definition good_answer (resp : VsockResponse) : Prop :=
  vs_error resp = None /\ exists attested, vs_attested resp = Some attested /\
    published_address app = Some (to_ascii_lowercase (trim (av_pubkey_address attested))).
(** The clock showed [t] right after such an answer, before any further message. *)
Definition backed (tr : list pevent) (t : Z) : Prop :=
  exists post mid pre req resp, tr = post ++ pev PNow t :: mid ++ pev (PMessage req) (Some resp) :: pre /\
    good_answer resp /\ Forall (fun e => is_message e = false) mid.
(** What the probe may send: the constant, under the data-signing identity. *)
Definition probe_message (req : VsockRequest) : Prop :=
  exists token blob creds, data_signing_token app = Some token /\
    blobs app !! blob_key DATA_SIGNING_CUSTOMER DATA_SIGNING_STEM = Some blob /\ req = probe_request token blob creds.
Definition health_backed (h : SignHealth) (tr : list pevent) : Prop := sh_last_ok_epoch h <> 0 -> backed tr (sh_last_ok_epoch h).

Lemma backed_cons e tr t : backed tr t -> backed (e :: tr) t.
Proof. intros (post & mid & pre & req & resp & -> & Hr). by exists (e :: post), mid, pre, req, resp. Qed.
Lemma health_cons h e tr : health_backed h tr -> health_backed h (e :: tr).
Proof. intros Hh Hne. by apply backed_cons, Hh. Qed.
Lemma health_silent h f e tr : sh_last_ok_epoch (f h) = sh_last_ok_epoch h -> health_backed h tr -> health_backed (f h) (e :: tr).
Proof. unfold health_backed. intros -> Hh Hne. by apply backed_cons, Hh. Qed.

Lemma judge_passed expected resp : judge_probe expected resp = Passed -> published_address app = Some expected -> good_answer resp.
Proof.
  unfold judge_probe, good_answer. destruct (vs_error resp); [done|]. destruct (vs_attested resp) as [a|]; [|done].
  case_decide as E; [|done]. intros _ ->. split; [done|]. exists a. by rewrite E.
Qed.

(** The outcome of a probe: passed exactly on a good answer, the last event. *)
Definition probed (h : SignHealth) (o : ProbeOutcome) (h' : SignHealth) (tr' : list pevent) : Prop :=
  h' = h /\ match o with
            | Passed => exists pre req resp, tr' = pev (PMessage req) (Some resp) :: pre /\ good_answer resp
            | Skipped _ => data_signing_token app = None
            | Failed _ => True
            end.

Abbreviation P := (pall probe_message health_backed).

Lemma attempts_probed token blob expected n : forall i err h tr, data_signing_token app = Some token ->
  published_address app = Some expected -> blobs app !! blob_key DATA_SIGNING_CUSTOMER DATA_SIGNING_STEM = Some blob ->
  health_backed h tr -> P (attempts token blob expected n i err) h tr (fun h' tr' o => probed h o h' tr').
Proof.
  intros i err h tr Ht Hp Hb. revert i err tr. induction n as [|n IH]; intros i err tr Hh; cbn [attempts]; [by apply pall_ret|].
  apply pall_ask; [done..|]. intros nanos h1 [= ->]. apply pall_ask; [by apply health_cons|done|]. intros creds h1 [= ->].
  assert (health_backed h (pev PCreds creds :: pev PNanos nanos :: tr)) as H1 by (by do 2 apply health_cons).
  assert (forall e tr', health_backed h tr' -> P (_ <-- pask (PSleepMs (backoff_ms i nanos));; attempts token blob expected n (i + 1) e) h tr'
    (fun h' tr' o => probed h o h' tr')) as Hnext.
  { intros e tr' H'. apply pall_ask; [done..|]. intros [] h1 [= ->]. apply (IH (i + 1) e). by apply health_cons. }
  destruct creds as [creds|]; [|by apply Hnext].
  apply pall_ask; [done|by exists token, blob, creds|]. intros resp h1 [= ->].
  destruct resp as [resp|]; [|by apply Hnext, health_cons].
  apply pall_ret; [by apply health_cons|]. split; [done|]. destruct (judge_probe expected resp) eqn:E; [|  |done].
  - do 3 eexists. split; [done|]. by eapply judge_passed.
  - unfold judge_probe in E. destruct (vs_error resp); [done|]. destruct (vs_attested resp); [|done]. by case_decide.
Qed.

Lemma run_probed n h tr : health_backed h tr -> P (run_data_signing_probe app n) h tr (fun h' tr' o => probed h o h' tr').
Proof.
  intros Hh. unfold run_data_signing_probe. destruct (data_signing_token app) as [token|] eqn:Et; [|by apply pall_ret].
  destruct (published_address app) as [expected|] eqn:Ep; [|by apply pall_ret].
  destruct (blobs app !! _) as [blob|] eqn:Eb; [|by apply pall_ret]. by apply attempts_probed.
Qed.

Lemma recorded h f mid pre req resp t (tr : list pevent) : good_answer resp -> Forall (fun e => is_message e = false) mid ->
  sh_last_ok_epoch (f h) = t -> tr = mid ++ pev (PMessage req) (Some resp) :: pre ->
  health_backed (f h) (pev (PHealth f) tt :: pev PNow t :: tr).
Proof. intros Hr Hm Ht -> _. rewrite Ht. by exists [pev (PHealth f) tt], mid, pre, req, resp. Qed.

Lemma self_test_probed h : health_backed h [] ->
  P (data_signing_self_test app) h [] (fun h tr r => health_backed h tr /\ (r = Ok tt ->
    (data_signing_token app = None /\ sh_enabled h = false) \/ exists t, backed tr t)).
Proof.
  intros Hh. unfold data_signing_self_test. apply pall_bind. eapply pall_mono; [by apply run_probed|].
  intros h' tr [| |] Hi [-> Ho].
  - destruct Ho as (pre & req & resp & -> & Hr). apply pall_ask; [done..|]. intros [] h1 ->.
    apply pall_ask; [by apply (health_silent h (set_enabled true))|done|]. intros now h1 ->.
    apply pall_ask; [apply health_cons; by apply (health_silent h (set_enabled true))|done|]. intros [] h1 ->.
    assert (health_backed (record_success now (set_enabled true h)) (pev (PHealth (record_success now)) tt :: pev PNow now ::
      [pev (PHealth (set_enabled true)) tt] ++ pev (PMessage req) (Some resp) :: pre)) as Hb.
    { eapply (recorded _ _ [pev (PHealth (set_enabled true)) tt]); [exact Hr| |done|done]. by repeat constructor. }
    apply pall_ret; [exact Hb|]. split; [exact Hb|]. intros _. right. exists now.
    exists [pev (PHealth (record_success now)) tt], [pev (PHealth (set_enabled true)) tt], pre, req, resp. split; [done|]. split; [done|]. apply Forall_singleton. done.
  - apply pall_ask; [done..|]. intros [] h1 ->.
    apply pall_ret; [|split; [|by left]]; by apply (health_silent h (set_enabled false)).
  - by apply pall_ret.
Qed.

Lemma probe_loop_backed n h tr : health_backed h tr -> P (probe_loop app n) h tr (fun _ _ _ => True).
Proof.
  revert h tr. induction n as [|n IH]; intros h tr Hh; cbn [probe_loop]; [by apply pall_ret|].
  apply pall_ask; [done..|]. intros [] h1 [= ->]. apply pall_bind. eapply pall_mono; [by apply run_probed, health_cons|].
  intros h' tr' o Hi [-> Ho]. apply pall_bind. apply pall_mono with (Q := fun _ _ _ => True); [|intros; by apply IH].
  destruct o as [| |].
  - destruct Ho as (pre & req & resp & -> & Hr). apply pall_ask; [done..|]. intros now h1 ->.
    split; [by apply health_cons|]. split; [done|]. intros [] h1 ->. apply pall_ret; [|done].
    by eapply (recorded h (record_success now) []).
  - by apply pall_ret.
  - apply pall_ask; [done..|]. intros now h1 ->. split; [by apply health_cons|]. split; [done|]. intros [] h1 ->.
    apply pall_ret; [|done]. apply (health_silent h (record_failure now)); [done|]. by apply health_cons.
Qed.

(** At every moment of every run, however the enclave, the clock and the
    credentials behave: the probe sends the enclave nothing but its constant
    under the data-signing identity, and the time of the last good signature
    that [/healthz] shows is one the clock showed right after the enclave
    answered such a message, without an error, with the published address.  The
    gateway starts only after such an answer, unless no data key is configured;
    then the check is reported as off. *)
Theorem sign_health_backed n : pall probe_message health_backed (boot_and_watch app n) sign_health_default []
  (fun h tr r => r = Ok tt -> (data_signing_token app = None /\ sh_enabled h = false) \/ exists t, backed tr t).
Proof.
  unfold boot_and_watch. apply pall_bind. eapply pall_mono; [apply self_test_probed; by intros []|].
  intros h tr [[]|e] Hi [Hh Hq]; [|by apply pall_ret]. apply pall_bind.
  apply pall_mono with (Q := fun h' tr' _ => (data_signing_token app = None /\ sh_enabled h' = false) \/ exists t, backed tr' t);
    [|by intros; apply pall_ret].
  unfold spawn_sign_health_probe. destruct (_ =? 0).
  { split; [done|]. split; [done|]. intros [] h1 ->. apply pall_ret; [by apply (health_silent h (set_enabled false))|].
    destruct (Hq eq_refl) as [[Ht _]|[t Hb]]; [by left|]. right. exists t. by apply backed_cons. }
  apply pall_ask; [done..|]. intros x h1 [-> ->]. destruct (sh_enabled h) eqn:He; cbn [negb].
  - destruct (Hq eq_refl) as [[_ Hn]|[t Hb]]; [congruence|]. apply pall_ask; [by apply health_cons|done|]. intros [] h1 ->.
    eapply pall_mono; [apply pall_grows, probe_loop_backed; by do 2 apply health_cons|].
    intros h' tr' _ _ [_ [new ->]]. right. exists t. induction new as [|e new IH]; [by do 2 apply backed_cons|]. by apply backed_cons.
  - apply pall_ret; [by apply health_cons|]. destruct (Hq eq_refl) as [[Ht _]|[t Hb]]; [by left|]. right. exists t. by apply backed_cons.
Qed.
End Facts.

(** ** A cold start *)

(** The outside world by the clock, in milliseconds. *)
Record ProbeWorld := {
  pw_creds : Z -> option AwsCredentials;
  pw_enclave : Z -> VsockRequest -> option VsockResponse;
  pw_nanos : Z -> option Z;
  pw_next_tick : Z -> Z
}.

Definition respond (w : ProbeWorld) {X} (c : pcall X) (clock : Z) (h : SignHealth) : X * Z * SignHealth :=
  match c in pcall X return X * Z * SignHealth with
  | PCreds => (pw_creds w clock, clock, h)
  | PMessage req => (pw_enclave w clock req, clock, h)
  | PNanos => (pw_nanos w clock, clock, h)
  | PSleepMs ms => (tt, clock + ms, h)
  | PNow => (clock / 1000, clock, h)
  | PTick => (tt, pw_next_tick w clock, h)
  | PHealth f => (tt, clock, f h)
  | PEnabled => (sh_enabled h, clock, h)
  end.
Fixpoint pexec (w : ProbeWorld) {A} (p : pprog A) (clock : Z) (h : SignHealth) : A * Z * SignHealth :=
  match p with
  | PRet a => (a, clock, h)
  | PDo c k => let '(x, clock', h') := respond w c clock h in pexec w (k x) clock' h'
  end.

Lemma pexec_bind w {A B} (p : pprog A) (f : A -> pprog B) clock h :
  pexec w (pbind p f) clock h = let '(a, clock', h') := pexec w p clock h in pexec w (f a) clock' h'.
Proof.
  revert clock h. induction p as [a|X c k IH]; intros clock h; [done|]. cbn [pbind pexec].
  destruct (respond w c clock h) as [[x clock'] h']. apply IH.
Qed.

(** The least the attempts [i], ..., [i + n - 1] wait. *)
Fixpoint waits (i : Z) (n : nat) : Z := match n with O => 0 | S n => Z.min (500 * i) 5000 + waits (i + 1) n end.
Lemma backoff_ms_bounds i nanos : Z.min (500 * i) 5000 <= backoff_ms i nanos <= Z.min (500 * i) 5000 + 249.
Proof. unfold backoff_ms. destruct nanos as [n|]; cbn; [pose proof (Z.mod_pos_bound n 250)|]; lia. Qed.
Lemma waits_nonneg i n : 0 <= i -> 0 <= waits i n.
Proof. revert i. induction n as [|n IH]; intros i Hi; cbn [waits]; [lia|]. specialize (IH (i + 1)). lia. Qed.

Section Boot.
Context `{Crates} (app : AppConfig) (w : ProbeWorld).

Definition took (n : nat) (i clock clock' : Z) : Prop := clock <= clock' <= clock + waits i n + 249 * Z.of_nat n.

(** Any world: a probe takes its attempts at most. *)
Lemma attempts_time token blob expected n : forall i err clock h, 0 <= i ->
  let '(_, clock', h') := pexec w (attempts token blob expected n i err) clock h in took n i clock clock' /\ h' = h.
Proof.
  unfold took. induction n as [|n IH]; intros i err clock h Hi; [cbn; split; [lia|done]|]. cbn [attempts].
  rewrite !pexec_bind. cbn [pask pexec respond]. rewrite pexec_bind. cbn [pask pexec respond].
  pose proof (backoff_ms_bounds i (pw_nanos w clock)) as Hb. pose proof (waits_nonneg (i + 1) n ltac:(lia)) as Hw.
  assert (forall e, let '(_, clock', h') := pexec w (_ <-- pask (PSleepMs (backoff_ms i (pw_nanos w clock)));;
    attempts token blob expected n (i + 1) e) clock h in (clock <= clock' <= clock + waits i (S n) + 249 * Z.of_nat (S n)) /\ h' = h) as Hnext.
  { intros e. rewrite pexec_bind. cbn [pask pexec respond]. specialize (IH (i + 1) e (clock + backoff_ms i (pw_nanos w clock)) h ltac:(lia)).
    destruct (pexec _ _ _ _) as [[o clock'] h']. cbn [waits]. split; [lia|]. by destruct IH. }
  destruct (pw_creds w clock) as [creds|]; [|exact (Hnext "creds")]. rewrite pexec_bind. cbn [pask pexec respond].
  destruct (pw_enclave _ _ _) as [resp|]; [|exact (Hnext "vsock")]. cbn [pexec waits]. split; [lia|done].
Qed.

(** What answers answers well, and from [ready] on everything answers. *)
Context (ready : Z).
Record warm : Prop := {
  wm_good t req resp : pw_enclave w t req = Some resp -> good_answer app resp;
  wm_creds t : ready <= t -> is_Some (pw_creds w t);
  wm_answers t req : ready <= t -> is_Some (pw_enclave w t req)
}.

Lemma good_judged expected resp : published_address app = Some expected -> good_answer app resp -> judge_probe expected resp = Passed.
Proof.
  intros Hp (He & a & Ha & Hx). unfold judge_probe. rewrite He, Ha. rewrite decide_True; [done|]. congruence.
Qed.

Lemma attempts_pass token blob expected n : forall i err clock h, warm -> published_address app = Some expected -> 0 <= i ->
  ready <= clock + waits i n -> (pexec w (attempts token blob expected (S n) i err) clock h).1.1 = Passed.
Proof.
  induction n as [|n IH]; intros i err clock h Hwarm Hp Hi Hr; cbn [attempts].
  all: rewrite !pexec_bind; cbn [pask pexec respond]; rewrite pexec_bind; cbn [pask pexec respond].
  all: pose proof (backoff_ms_bounds i (pw_nanos w clock)) as Hb.
  - cbn [waits] in Hr. destruct (wm_creds Hwarm clock ltac:(lia)) as [creds ->]. rewrite pexec_bind. cbn [pask pexec respond].
    destruct (wm_answers Hwarm clock (probe_request token blob creds) ltac:(lia)) as [resp Hresp]. rewrite Hresp. cbn [pexec fst].
    by eapply good_judged, wm_good.
  - assert (forall e, (pexec w (_ <-- pask (PSleepMs (backoff_ms i (pw_nanos w clock)));;
      attempts token blob expected (S n) (i + 1) e) clock h).1.1 = Passed) as Hnext.
    { intros e. rewrite pexec_bind. cbn [pask pexec respond]. apply IH; [done|done|lia|]. cbn [waits] in Hr. lia. }
    destruct (pw_creds w clock) as [creds|]; [|exact (Hnext "creds")]. rewrite pexec_bind. cbn [pask pexec respond].
    destruct (pw_enclave _ _ _) as [resp|] eqn:Hresp; [|exact (Hnext "vsock")]. cbn [pexec fst]. by eapply good_judged, wm_good.
Qed.

(** An enclave that is up within seventy-two seconds and holds the published key
    does not keep the gateway from starting, however long the credentials and
    the channel fail before; and the self-test pauses for at most eighty-three
    seconds in every world. *)
Theorem boot_outlasts_cold_start clock h :
  (pexec w (data_signing_self_test app) clock h).1.2 <= clock + 82480 /\
  (warm -> is_Some (data_signing_token app) -> is_Some (published_address app) ->
   is_Some (blobs app !! blob_key DATA_SIGNING_CUSTOMER DATA_SIGNING_STEM) -> ready <= clock + 72500 ->
   (pexec w (data_signing_self_test app) clock h).1.1 = Ok tt /\ sh_enabled (pexec w (data_signing_self_test app) clock h).2 = true).
Proof.
  unfold data_signing_self_test. rewrite pexec_bind. unfold run_data_signing_probe.
  destruct (data_signing_token app) as [token|]; [|split; [cbn; lia|by intros ? []]].
  destruct (published_address app) as [expected|] eqn:Hp; [|split; [cbn; lia|by intros ? ? []]].
  destruct (blobs app !! _) as [blob|]; [|split; [cbn; lia|by intros ? ? ? []]].
  pose proof (attempts_time token blob expected BOOT_PROBE_ATTEMPTS 1 "" clock h ltac:(lia)) as Ht.
  pose proof (attempts_pass token blob expected 19 1 "" clock h) as Hpass. change (S 19) with BOOT_PROBE_ATTEMPTS in Hpass.
  destruct (pexec w (attempts token blob expected BOOT_PROBE_ATTEMPTS 1 "") clock h) as [[o clock'] h']. cbn [fst] in Hpass.
  destruct Ht as [Ht ->]. unfold took in Ht. change (waits 1 BOOT_PROBE_ATTEMPTS + 249 * Z.of_nat BOOT_PROBE_ATTEMPTS) with 82480 in Ht.
  change (waits 1 BOOT_PROBE_ATTEMPTS) with 77500 in Ht. change (Z.of_nat BOOT_PROBE_ATTEMPTS) with 20 in Ht. split.
  - destruct o; cbn; lia.
  - intros Hwarm _ _ _ Hr. rewrite Hpass; [done|done|done|lia|]. change (waits 1 19) with 72500. done.
Qed.
End Boot.

Section Demo.
#[local] Existing Instance demo_crates.

Definition probe_app : AppConfig :=
  {| blobs := {[ blob_key DATA_SIGNING_CUSTOMER DATA_SIGNING_STEM := "sealed data key" ]}; limits := demo_config;
     data_signing_token := Some "data-token";
     app_env := fun var => if decide (var = "SIGNER_DATA_ADDRESS") then Some " 0xABCD " else None |}.
Definition probe_answer : VsockResponse :=
  {| vs_signature_base64 := ""; vs_headers := None; vs_hl_signature := None; vs_error := None; vs_plaintext_sha256 := None;
     vs_plaintext_len := None; vs_canonical_body := None;
     vs_attested := Some {| av_signature := {| hv_r := ""; hv_s := ""; hv_v := 27 |}; av_pubkey_compressed := "02"; av_pubkey_address := "0xabcd" |};
     vs_attestation_document_b64 := None; vs_receipt := None; vs_heartbeat := None |}.
(** Credentials after ten seconds, the enclave after a minute. *)
Definition cold_world : ProbeWorld :=
  {| pw_creds t := if t <? 10000 then None else Some {| access_key_id := "a"; secret_access_key := "b"; session_token := "c" |};
     pw_enclave t _ := if t <? 60000 then None else Some probe_answer;
     pw_nanos t := Some (t * 7919); pw_next_tick t := t |}.

Lemma boot_outlasts_cold_start_witness :
  (pexec cold_world (data_signing_self_test probe_app) 0 sign_health_default).1.1 = Ok tt.
Proof.
  apply (boot_outlasts_cold_start probe_app cold_world 60000 0 sign_health_default); [|by eexists..|lia].
  constructor.
  - intros t req resp. cbn [pw_enclave cold_world]. destruct (t <? 60000); [done|]. intros [= <-]. split; [done|]. by eexists.
  - intros t Ht. cbn [pw_creds cold_world]. destruct (Z.ltb_spec t 10000); [lia|by eexists].
  - intros t req Ht. cbn [pw_enclave cold_world]. destruct (Z.ltb_spec t 60000); [lia|by eexists].
Defined.
End Demo.
