(* ===== verification/GwBoot.v ===== *)
(** * Boot of the gateway (gateway/src/main.rs, [main]; tenant_state.rs, [bind_admin_socket])

    [main] checks one thing after another and serves only when all of them
    passed.  The pure checks take what the host answers from [BootInputs]; the
    data-signing self-test is the program of [GwProbe].  The operator's socket is
    bound under a temporary name, given its mode and renamed; its directory is a
    map from paths to nodes, and every state it goes through is recorded. *)

From S2P Require Import Prelude RustStr Crates Proto GwProto GwHost GwLimits GwTenant GwReconcile GwAuth GwBackoff GwWire GwCalls GwHandlers GwBlobs GwUnwind GwProbe.

Open Scope string_scope.
Open Scope list_scope.
Open Scope Z_scope.

Definition STATE_PATH_ENV : string := "SIGNER_TENANT_STATE_PATH".
Definition DEFAULT_STATE_PATH : string := "/var/lib/signer/tenant-state.json".
Definition ADMIN_SOCKET_ENV : string := "SIGNER_ADMIN_SOCKET".
Definition DEFAULT_ADMIN_SOCKET : string := "/run/signer/admin.sock".

(** A path from the environment, trimmed, or the default. *)
Definition path_or_default (env : Env) (var default_path : string) : string :=
  default default_path (p ← trim <$> env var; if is_empty p then None else Some p).

(** ** The operator's socket *)

(** [Path::components]: ["/"] for the root, then the segments; empty segments and
    inner ["."] disappear.  Files are keyed by it. *)
Abbreviation Path := (list string).
Definition components (s : string) : Path :=
  (if starts_with "/" s then ["/"] else []) ++
  match filter (fun c => c <> "") (split "/" s) with
  | [] => []
  | c :: rest => (if bool_decide (c = ".") && starts_with "/" s then [] else [c]) ++ filter (fun c => c <> ".") rest
  end.

(** [Path::file_name] *)
Definition file_name (p : Path) : option string :=
  c ← last p; if str_in c ["/"; "."; ".."] then None else Some c.
(** [path.parent()], or [.] when that is empty. *)
Definition parent_dir (p : Path) : Path := match removelast p with [] => if bool_decide (p = ["/"]) then ["/"] else ["."] | d => d end.

Record Node := { n_is_socket : bool; n_mode : Z }.
Abbreviation Nodes := (gmap Path Node).

(** Which system calls succeed, and the mode a new socket gets from the umask. *)
Record SockIo := {
  si_stat : bool; si_remove : bool; si_mkdir : bool; si_bind : bool; si_chmod : bool; si_rename : bool;
  si_listen : bool; si_mode : Z
}.
Definition sock_fine : SockIo :=
  {| si_stat := true; si_remove := true; si_mkdir := true; si_bind := true; si_chmod := true; si_rename := true;
     si_listen := true; si_mode := 493 |}.

Inductive SocketError := NotASocket | SocketIo | NoFileName.

(** The result and the states of the directory, latest first. *)
Definition bind_steps (io : SockIo) (pid : string) (path : Path) (fs : Nodes) : result SocketError () * list Nodes :=
  if negb (si_mkdir io) then (Err SocketIo, [fs])
  else match file_name path with
       | None => (Err NoFileName, [fs])
       | Some name =>
           let tmp := parent_dir path ++ ["." +:+ name +:+ "." +:+ pid +:+ ".tmp"] in
           let fs1 := if si_remove io then delete tmp fs else fs in
           if negb (si_bind io) then (Err SocketIo, [fs1; fs])
           else
             let fs2 := <[tmp := {| n_is_socket := true; n_mode := si_mode io |}]> fs1 in
             if negb (si_chmod io) then (Err SocketIo, [fs2; fs1; fs])
             else
               let bound := {| n_is_socket := true; n_mode := 432 (* 0o660 *) |} in
               let fs3 := <[tmp := bound]> fs2 in
               if negb (si_rename io) then (Err SocketIo, [fs3; fs2; fs1; fs])
               else
                 let fs4 := <[path := bound]> (delete tmp fs3) in
                 (if si_listen io then Ok () else Err SocketIo, [fs4; fs3; fs2; fs1; fs])
       end.

Definition bind_admin_socket (io : SockIo) (pid : string) (path : Path) (fs : Nodes) : result SocketError () * list Nodes :=
  match (if si_stat io then fs !! path else None) with
  | Some meta =>
      if n_is_socket meta then
        if negb (si_remove io) then (Err SocketIo, [fs])
        else
          let '(r, trail) := bind_steps io pid path (delete path fs) in (r, trail ++ [fs])
      else (Err NotASocket, [fs])
  | None => bind_steps io pid path fs
  end.

(** ** [main] *)

Inductive BootError :=
| BlobLoad (e : BlobError)
| NoBlobs
| LimitsLoad (e : LimitsConfigError)
| LimitsProbe (e : io_error)
| TenantLoad (e : io_error)
| TenantProbe (e : io_error)
| AuthLoad (e : AuthConfigError)
| OperatorLoad (e : AuthConfigError)
| TokenInBothTiers
| SelfTest (detail : string)
| AdminSocket (e : SocketError)
| ListenerBind.

(** What the host answers while the gateway boots. *)
Record BootInputs := {
  bi_vars : Vars;
  bi_dir : option (Files * option Listing);
  bi_legacy : option (option string);
  bi_now : Z;
  bi_daily_io : Io; bi_x402_io : Io; bi_limits_fs : Fs;
  bi_tenants_io : Io; bi_resume_io : Io; bi_tenants_fs : Fs;
  bi_pid : string; bi_sock_io : SockIo; bi_nodes : Nodes;
  bi_listener : bool
}.

Record Serving := {
  sv_app : AppConfig;
  sv_limits : Limits;
  sv_auth : AuthState;
  sv_operator : AuthState;
  sv_sys : Sys;
  sv_nodes : Nodes
}.

Definition or_else {A B} (r : result A B) {C E} (e : A -> E) (k : B -> pprog (result E C)) : pprog (result E C) :=
  match r with Ok b => k b | Err a => PRet (Err (e a)) end.
Notation "x <?- r 'else' e ;; q" := (or_else r e (fun x => q)) (at level 100, r at next level, e at next level, right associativity).

Section Boot.
Context `{Crates, TenantSerde, LimitsSerde, CtxSerde}.

Definition socket_stage (i : BootInputs) : result SocketError Nodes :=
  let sock := path_or_default (vars_env (bi_vars i)) ADMIN_SOCKET_ENV DEFAULT_ADMIN_SOCKET in
  if bool_decide (sock = "off") then Ok (bi_nodes i)
  else match bind_admin_socket (bi_sock_io i) (bi_pid i) (components sock) (bi_nodes i) with
       | (Err e, _) => Err e
       | (Ok _, trail) => Ok (default (bi_nodes i) (head trail))
       end.

(** [AppState::new], [with_data_signing_token] and [with_limits] *)
Definition with_data_signing_token (token : option string) : option string :=
  t ← trim <$> token; if is_empty t then None else Some t.
Definition boot_app (i : BootInputs) (loaded : BlobMap) (c : LimitsConfig) : AppConfig :=
  {| blobs := bb_ciphertext <$> loaded; limits := c;
     data_signing_token := with_data_signing_token (vars_env (bi_vars i) "SIGNER_DATA_SIGNING_TOKEN"); app_env := vars_env (bi_vars i) |}.

Definition main (i : BootInputs) : pprog (result BootError Serving) :=
  let env := vars_env (bi_vars i) in
  blobs <?- load_all_blobs (bi_dir i) (bi_legacy i) else BlobLoad;;
  if decide (blobs = ∅) then PRet (Err NoBlobs) else
  c <?- from_env env else LimitsLoad;;
  match boot_probe (limits_new c) (bi_daily_io i) (bi_x402_io i) (bi_now i) (bi_limits_fs i) with
  | (Err e, _, _) => PRet (Err (LimitsProbe e))
  | (Ok _, limits, _) =>
      let app := boot_app i blobs c in
      let path := path_or_default env STATE_PATH_ENV DEFAULT_STATE_PATH in
      store <?- tenants_load (bi_tenants_io i) path (bi_tenants_fs i) else TenantLoad;;
      match tenants_probe (bi_tenants_io i) store (bi_tenants_fs i) with
      | (Err e, _) => PRet (Err (TenantProbe e))
      | (Ok store, tenants_fs) =>
          auth <?- auth_from_env (bi_vars i) else AuthLoad;;
          operator <?- operator_from_env (bi_vars i) else OperatorLoad;;
          if shares_token_with operator auth then PRet (Err TokenInBothTiers) else
          tested <-- data_signing_self_test app;;
          _ <?- tested else SelfTest;;
          let token_known c := bool_decide (is_Some (raw_token_for_customer (bi_vars i) c)) in
          let sys := resume_all token_known (gateway_venues app) gateway_supported (bi_resume_io i) (bi_now i) store tenants_fs in
          nodes <?- socket_stage i else AdminSocket;;
          if negb (bi_listener i) then PRet (Err ListenerBind) else
          PRet (Ok {| sv_app := app; sv_limits := limits; sv_auth := auth; sv_operator := operator; sv_sys := sys; sv_nodes := nodes |})
      end
  end.
End Boot.

(** ** The operator's socket *)

Definition bound_socket : Node := {| n_is_socket := true; n_mode := 432 |}.

Lemma tmp_path_ne path name pid : file_name path = Some name -> parent_dir path ++ ["." +:+ name +:+ "." +:+ pid +:+ ".tmp"] <> path.
Proof.
  unfold file_name. intros Hf He. destruct (last path) as [c|] eqn:Hl; [|done]. cbn [mbind option_bind] in Hf.
  destruct (str_in c _); [done|]. injection Hf as ->.
  rewrite <- He, last_snoc in Hl. injection Hl as Hl. apply (f_equal String.length) in Hl. cbn in Hl. rewrite !length_append in Hl. cbn in Hl. lia.
Qed.

Lemma bind_steps_spec io pid path fs r trail : bind_steps io pid path fs = (r, trail) ->
  Forall (fun mid => mid !! path = fs !! path \/ mid !! path = Some bound_socket) trail /\
  (r = Ok () -> (default fs (head trail)) !! path = Some bound_socket).
Proof.
  unfold bind_steps. destruct (negb (si_mkdir io)); [intros [= <- <-]; split; [by apply Forall_singleton; left|done]|].
  destruct (file_name path) as [name|] eqn:Hf; [|intros [= <- <-]; split; [by apply Forall_singleton; left|done]].
  pose proof (tmp_path_ne path name pid Hf) as Hne. set (tmp := parent_dir path ++ _) in *. clearbody tmp.
  set (fs1 := if si_remove io then delete tmp fs else fs).
  assert (fs1 !! path = fs !! path) as H1 by (subst fs1; destruct (si_remove io); [by rewrite lookup_delete_ne|done]).
  destruct (negb (si_bind io)), (negb (si_chmod io)), (negb (si_rename io)); intros [= <- <-]; (split; [|first [done|intros _; apply lookup_insert_eq]]).
  all: rewrite ?Forall_cons, ?Forall_nil, ?lookup_insert_eq, ?lookup_insert_ne, ?lookup_delete_ne, ?lookup_insert_ne by done;
    rewrite ?H1; split_and?; auto.
Qed.

(** The operator's path never shows a socket with another mode than 0660, a file
    that is not a socket is never replaced, and success means the socket is there. *)
Lemma bind_admin_socket_spec io pid path fs r trail : bind_admin_socket io pid path fs = (r, trail) ->
  Forall (fun mid => mid !! path = fs !! path \/ mid !! path = None \/ mid !! path = Some bound_socket) trail /\
  (r = Ok () -> (default fs (head trail)) !! path = Some bound_socket) /\
  (forall node, si_stat io = true -> fs !! path = Some node -> n_is_socket node = false -> r = Err NotASocket /\ trail = [fs]).
Proof.
  intros Hb. split; [|split].
  - unfold bind_admin_socket in Hb. destruct (if si_stat io then _ else _) as [node|].
    + destruct (n_is_socket node); [|injection Hb as <- <-; apply Forall_singleton; auto].
      destruct (negb (si_remove io)); [injection Hb as <- <-; apply Forall_singleton; auto|].
      destruct (bind_steps _ _ _ _) as [r' trail'] eqn:Es. injection Hb as <- <-. apply bind_steps_spec in Es as [Hf _].
      apply Forall_app. split; [|apply Forall_singleton; auto]. eapply Forall_impl; [exact Hf|]. cbn. intros mid. rewrite lookup_delete_eq. tauto.
    + apply bind_steps_spec in Hb as [Hf _]. eapply Forall_impl; [exact Hf|]. cbn. tauto.
  - intros ->. unfold bind_admin_socket in Hb. destruct (if si_stat io then _ else _) as [node|]; [|by apply bind_steps_spec in Hb as [_ Hr]; apply Hr].
    destruct (n_is_socket node); [|done]. destruct (negb (si_remove io)); [done|].
    destruct (bind_steps _ _ _ _) as [r' trail'] eqn:Es. injection Hb as -> <-. apply bind_steps_spec in Es as [_ Hr]. specialize (Hr eq_refl).
    destruct trail' as [|m trail']; [|done]. cbn in Hr. by rewrite lookup_delete_eq in Hr.
  - intros node Hs Hn Hk. unfold bind_admin_socket in Hb. rewrite Hs, Hn, Hk in Hb. by injection Hb as <- <-.
Qed.

(** ** What serving means *)

Section Serves.
Context `{Crates, TenantSerde, !TenantSerdeLaws, LimitsSerde, CtxSerde}.

Definition tenants_file (i : BootInputs) : string := path_or_default (vars_env (bi_vars i)) STATE_PATH_ENV DEFAULT_STATE_PATH.
Definition socket_path (i : BootInputs) : string := path_or_default (vars_env (bi_vars i)) ADMIN_SOCKET_ENV DEFAULT_ADMIN_SOCKET.

(** The application is the one the loaded blobs and limits make. *)
Definition booted (i : BootInputs) (app : AppConfig) : Prop := forall loaded c,
  load_all_blobs (bi_dir i) (bi_legacy i) = Ok loaded -> from_env (vars_env (bi_vars i)) = Ok c -> app = boot_app i loaded c.

Record serving_ready (i : BootInputs) (app : AppConfig) (s : Serving) (h : SignHealth) (tr : list pevent) : Prop := {
  sr_app : sv_app s = app /\ blobs app <> ∅ /\ cfg (sv_limits s) = limits app;
  (** the counters of every configured cap were read and written back *)
  sr_counters : (is_Some (daily_cap (limits app)) -> is_Some (daily_state (sv_limits s))) /\
    (is_Some (x402_period_cap (limits app)) -> is_Some (x402_spend_state (sv_limits s)));
  sr_profile : env_flag_enabled (vars_env (bi_vars i)) REQUIRE_AUTH_ENV = true ->
    enforcing (sv_auth s) = true /\ enforcing (sv_operator s) = true /\ is_Some (daily_cap (limits app)) /\ dry_run (limits app) = false;
  sr_tiers : forall token, Z.of_nat (length (sv_auth s)) < usize_max -> Z.of_nat (length (sv_operator s)) < usize_max ->
    lookup_token (sv_auth s) token = None \/ lookup_token (sv_operator s) token = None;
  sr_store : honest (tenants_file i) (y_store (sv_sys s)) (y_fs (sv_sys s));
  sr_jobs : forall c, c ∈ reconcile_candidates (y_store (sv_sys s)) <-> c ∈ (y_jobs (sv_sys s)).*1;
  sr_data_key : (data_signing_token app = None /\ sh_enabled h = false) \/ exists t, backed app tr t;
  sr_socket : socket_path i = "off" \/ sv_nodes s !! components (socket_path i) = Some bound_socket
}.

Lemma enforcing_required vars var auth : from_env_var vars var = Ok auth ->
  env_flag_enabled (vars_env vars) "SIGNER_REQUIRE_AUTH" = true -> enforcing auth = true.
Proof using.
  intros Ha Hr. apply from_env_var_entries in Ha as [[_ Hno]|(raw & _ & _ & Hne)]; [congruence|].
  unfold enforcing. by rewrite bool_decide_false.
Qed.

Lemma probe_daily_ready l io now fs r l' fs' : probe_daily l io now fs = (r, l', fs') -> r = Ok () ->
  (is_Some (daily_cap (cfg l)) -> is_Some (counter_path (cfg l)) -> is_Some (daily_state l')) /\ cfg l' = cfg l.
Proof using.
  unfold probe_daily. destruct (daily_cap (cfg l)) as [cap|], (counter_path (cfg l)) as [path|];
    try (intros [= <- <- <-] _; split; [by intros [? ?] [? ?]|done]).
  destruct (load_daily_state _ _ _ _) as [state|]; [|by intros [= <- _ _]].
  destruct (store_daily_state _ _ _ _) as [[[]|] fs0]; intros [= <- <- <-]; [|done]. intros _. split; [by eexists|done].
Qed.
Lemma probe_x402_ready l io now fs r l' fs' : probe_x402 l io now fs = (r, l', fs') -> r = Ok () ->
  (is_Some (x402_period_cap (cfg l)) -> is_Some (x402_spend_path (cfg l)) -> is_Some (x402_spend_state l')) /\
  cfg l' = cfg l /\ daily_state l' = daily_state l.
Proof using.
  unfold probe_x402. destruct (x402_period_cap (cfg l)) as [cap|], (x402_spend_path (cfg l)) as [path|];
    try (intros [= <- <- <-] _; split; [by intros [? ?] [? ?]|done]).
  destruct (load_x402_spend_state _ _ _ _) as [state|]; [|by intros [= <- _ _]].
  destruct (store_x402_spend_state _ _ _ _) as [[[]|] fs0]; intros [= <- <- <-]; [|done]. intros _. split; [by eexists|done].
Qed.

Lemma boot_probe_ready env c io io2 now fs l fs' : from_env env = Ok c -> boot_probe (limits_new c) io io2 now fs = (Ok (), l, fs') ->
  cfg l = c /\ (is_Some (daily_cap c) -> is_Some (daily_state l)) /\ (is_Some (x402_period_cap c) -> is_Some (x402_spend_state l)).
Proof using.
  intros [Hd Hx _ _ _]%from_env_ok Hb. unfold boot_probe in Hb.
  destruct (probe_daily (limits_new c) io now fs) as [[[[]|e] l1] fs1] eqn:E1; [|done].
  apply probe_daily_ready in E1 as [Hdaily Hc1]; [|done]. apply probe_x402_ready in Hb as (Hspend & Hc2 & Hd2); [|done].
  cbn [limits_new cfg] in *. rewrite Hc1 in *. split; [done|]. rewrite Hd2. split.
  - intros [cap Hcap]. destruct (Hd cap Hcap) as [_ Hp]. apply Hdaily; [by eexists|exact Hp].
  - intros [cap Hcap]. destruct (Hx cap Hcap) as [_ Hp]. apply Hspend; [by eexists|exact Hp].
Qed.

Lemma close_orphan_honest path io now s fs cr : honest path s fs ->
  let p := close_orphan io now (s, fs) cr in honest path p.1 p.2.
Proof using All.
  intros Hh. destruct cr as [customer rec]. unfold close_orphan. destruct (_ && _); [|done].
  match goal with |- context [update_reconcile io s customer now ?f fs] => pose proof (tstep_honest path (TUpdate customer now f io) (Some s, fs) Hh) as Ht;
    cbn [tstep] in Ht; destruct (update_reconcile io s customer now f fs) as [[r s'] fs'] end. exact Ht.
Qed.

Lemma resume_all_honest token_known venues_of supported path io now s fs : honest path s fs ->
  let y := resume_all token_known venues_of supported io now s fs in honest path (y_store y) (y_fs y).
Proof using All.
  intros Hh. cbv zeta. unfold resume_all.
  assert (forall es p, honest path p.1 p.2 -> let q := foldl (close_orphan io now) p es in honest path q.1 q.2) as Hfold.
  { induction es as [|e es IH]; intros [s0 fs0] Hp; [done|]. cbn [foldl]. apply IH. by apply close_orphan_honest. }
  specialize (Hfold (map_to_list (ts_inner s)) (s, fs) Hh). destruct (foldl (close_orphan io now) _ _) as [s' fs']. cbn [fst snd] in Hfold.
  assert (forall cs y, honest path (y_store y) (y_fs y) ->
    let z := foldl (fun y c => kick token_known venues_of supported c y) y cs in honest path (y_store z) (y_fs z)) as Hkicks.
  { induction cs as [|c cs IH]; intros y Hy; [done|]. cbn [foldl]. apply IH. unfold kick. by repeat case_match. }
  by apply Hkicks.
Qed.

Lemma tenants_boot_honest path io fs store store' fs' : tenants_load io path fs = Ok store -> tenants_probe io store fs = (Ok store', fs') ->
  honest path store' fs'.
Proof using All.
  intros Hl Hp. pose proof (tboot_honest path io fs) as Hb. unfold tboot in Hb. rewrite Hl, Hp in Hb. exact Hb.
Qed.

Lemma socket_stage_ready i nodes : socket_stage i = Ok nodes -> socket_path i = "off" \/ nodes !! components (socket_path i) = Some bound_socket.
Proof using.
  unfold socket_stage. fold (socket_path i). case_bool_decide; [by left|].
  destruct (bind_admin_socket _ _ _ _) as [[[]|e] trail] eqn:Eb; [|done]. intros [= <-]. right.
  by apply bind_admin_socket_spec in Eb as (_ & Hr & _); apply Hr.
Qed.

(** C32: When the gateway gets as far as serving, whatever its files, its
    environment, the clock and the enclave did: it holds keys; every configured
    cap has its counter, read and written back; under the mainnet profile both
    tiers demand tokens and the daily cap is enforced; no token opens both tiers;
    the kill-switch store says truthfully whether its file holds it, and exactly
    the stopped tenants whose unwind was not over have a job; the enclave proved
    it signs with the published data key, or none is configured and the check is
    reported off; and the operator's socket is in place with mode 0660 unless it
    was turned off.  Until then nothing but the probe's constant was sent. *)
Theorem serving_means_ready i app : booted i app ->
  pall (probe_message app) (health_backed app) (main i) sign_health_default []
    (fun h tr r => forall s, r = Ok s -> serving_ready i app s h tr).
Proof using All.
  intros Happ. assert (forall e : BootError, pall (probe_message app) (health_backed app) (PRet (Err e)) sign_health_default []
    (fun h tr r => forall s, r = Ok s -> serving_ready i app s h tr)) as Herr by (intros e; apply pall_ret; [by intros []|done]).
  unfold main, or_else. destruct (load_all_blobs _ _) as [loaded|] eqn:El; [|apply Herr]. destruct (decide (loaded = ∅)) as [|Hne]; [apply Herr|].
  destruct (from_env _) as [c|] eqn:Ec; [|apply Herr]. destruct (boot_probe _ _ _ _ _) as [[[[]|e] l] lfs] eqn:Ep; [|apply Herr].
  cbv zeta. rewrite <- (Happ loaded c El Ec). destruct (tenants_load _ _ _) as [store|] eqn:Et; [|apply Herr].
  destruct (tenants_probe _ _ _) as [[store'|e] tfs] eqn:Etp; [|apply Herr].
  destruct (auth_from_env _) as [auth|] eqn:Ea; [|apply Herr]. destruct (operator_from_env _) as [operator|] eqn:Eo; [|apply Herr].
  destruct (shares_token_with _ _) eqn:Es; [apply Herr|].
  apply pall_bind. eapply pall_mono; [by apply self_test_probed; intros []|]. intros h tr r Hi [_ Hr].
  assert (forall e : BootError, pall (probe_message app) (health_backed app) (PRet (Err e)) h tr
    (fun h tr r => forall s, r = Ok s -> serving_ready i app s h tr)) as Herr' by (intros e; by apply pall_ret).
  destruct r as [[]|detail]; [|apply Herr']. destruct (socket_stage i) as [nodes|] eqn:En; [|apply Herr'].
  destruct (negb (bi_listener i)); [apply Herr'|]. apply pall_ret; [done|]. intros s [= <-].
  pose proof (boot_probe_ready _ _ _ _ _ _ _ _ Ec Ep) as (Hc & Hd & Hx). pose proof (Happ loaded c El Ec) as ->.
  split; cbn [sv_app sv_limits sv_auth sv_operator sv_sys sv_nodes boot_app blobs limits].
  - split; [done|]. split; [|done]. by intros Hb%fmap_empty_inv.
  - done.
  - intros Hstrict. pose proof (from_env_ok _ _ Ec) as [_ _ _ _ Hok]. destruct (Hok Hstrict) as (? & ? & _).
    split_and!; [by eapply enforcing_required|by eapply enforcing_required|done|done].
  - intros token Hl1 Hl2. by destruct (tiers_disjoint operator auth token Es Hl2 Hl1); [right|left].
  - apply resume_all_honest. by eapply tenants_boot_honest.
  - apply restart_resumes.
  - by apply Hr.
  - by apply socket_stage_ready.
Qed.
End Serves.

(** ** A boot that serves *)

Section Demo.
#[local] Existing Instances demo_crates demo_tenant_serde demo_tenant_laws demo_limits_serde demo_ctx.

Definition demo_boot_vars : Vars := fun var =>
  arm var [("SIGNER_REQUIRE_AUTH", VarOk "1"); ("SIGNER_API_TOKENS", VarOk "tok-a:fund-a"); ("SIGNER_OPERATOR_TOKENS", VarOk "ops:root");
           (DAILY_CAP_ENV, VarOk "2"); (COUNTER_PATH_ENV, VarOk "/state/daily.json"); (RATE_LIMIT_ENV, VarOk "60");
           ("SIGNER_DATA_SIGNING_TOKEN", VarOk " data-token "); ("SIGNER_DATA_ADDRESS", VarOk "0xABCD");
           (ADMIN_SOCKET_ENV, VarOk " /run/./s//a.sock ")] VarNotPresent.
Definition demo_keys : Listing := [(Some "attested-data", NDir (Some [(Some "data-signing.enc", Some "sealed data key")]))].

(** A first start beside a stale socket. *)
Definition demo_inputs : BootInputs := {|
  bi_vars := demo_boot_vars; bi_dir := Some (as_files demo_keys, Some demo_keys); bi_legacy := None; bi_now := 864000;
  bi_daily_io := io_fine; bi_x402_io := io_fine; bi_limits_fs := ∅;
  bi_tenants_io := io_fine; bi_resume_io := io_fine; bi_tenants_fs := ∅;
  bi_pid := "7"; bi_sock_io := sock_fine; bi_nodes := {[ ["/"; "run"; "s"; "a.sock"] := {| n_is_socket := true; n_mode := 511 |} ]};
  bi_listener := true
|}.
Definition demo_loaded : BlobMap :=
  {[ blob_key "attested-data" "data-signing" := {| bb_ciphertext := "sealed data key"; bb_encryption_context := None |} ]}.
Definition demo_limits_config : LimitsConfig :=
  {| daily_cap := Some 2; counter_path := Some "/state/daily.json"; rate_per_min := Some 60; orders_per_min := None;
     cancels_per_min := None; dry_run := false; x402_period_cap := None; x402_spend_path := None |}.

Lemma demo_booted : booted demo_inputs (boot_app demo_inputs demo_loaded demo_limits_config).
Proof.
  intros loaded c Hl Hc. assert (load_all_blobs (bi_dir demo_inputs) (bi_legacy demo_inputs) = Ok demo_loaded) as El by (vm_compute; reflexivity).
  assert (from_env (vars_env (bi_vars demo_inputs)) = Ok demo_limits_config) as Ec by (vm_compute; reflexivity).
  congruence.
Qed.

Lemma serving_means_ready_witness :
  let r := pexec cold_world (main demo_inputs) 0 sign_health_default in
  is_ok r.1.1 = true /\
  (match r.1.1 with Ok s => sv_nodes s !! ["/"; "run"; "s"; "a.sock"] | Err _ => None end) = Some bound_socket /\
  let app := boot_app demo_inputs demo_loaded demo_limits_config in
  pall (probe_message app) (health_backed app) (main demo_inputs) sign_health_default []
    (fun h tr r => forall s, r = Ok s -> serving_ready demo_inputs app s h tr).
Proof.
  cbv zeta. split; [vm_compute; reflexivity|]. split; [vm_compute; reflexivity|]. apply (serving_means_ready demo_inputs). apply demo_booted.
Defined.
End Demo.
