(* ===== verification/GwWorld.v ===== *)
(** * The running gateway (gateway/src/main.rs)

    Any number of requests run at once over the shared limits, tenant store and
    circuit breaker, and beside them the executions that hedges have spawned,
    which outlive their requests.  A history is a list of steps: a request
    arrives, a request or an execution makes its next call, a request is dropped
    (timeout or disconnect), an execution panics, somebody presses a switch, the
    process restarts.  What the gateway does not decide (clocks, the disk, the
    enclave, the venues, the scheduler) is an argument of the step. *)

From S2P Require Import Prelude RustStr Crates Proto GwProto GwHost GwLimits GwTenant GwAuth GwBackoff GwWire GwCalls GwHandlers GwHedge GwGates GwServe GwHedgeFacts GwPayments.

Open Scope string_scope.
Open Scope list_scope.
Open Scope Z_scope.

(** How a [spawn_blocking] task ends: with its answer, or with a [JoinError]
    before or after its work was done. *)
Inductive TaskEnd := TaskReturns | TaskLostBefore | TaskLostAfter.

(** One call's surroundings: the disk, the instant, the task's end, and the
    answers of everything outside the modelled state. *)
Record Oracle := { o_io : Io; o_instant : Z; o_task : TaskEnd; o_answer : forall X, gcall X -> X }.

(** A request with the calls it has made, latest first; [None] once dropped. *)
Record Request := { rq_header : option string; rq_route : Route; rq_calls : list gevent; rq_prog : option (gprog Response) }.

(** A spawned execution: its two requests, the calls it has made, latest first,
    and what is left of it; [None] once it is lost. *)
Record Task := { tk_legs : VenueCall * VenueCall; tk_calls : list gevent; tk_prog : option (gprog ExecutionResult) }.

Record World := {
  w_limits : Gateway;
  (** every operation on the limits with its answer, latest first *)
  w_events : Events;
  w_tenants : Switchboard;
  w_circuits : Circuits;
  w_requests : list Request;
  (** by their handles *)
  w_tasks : list Task
}.

Inductive wop :=
| WAccept (header : option string) (r : Route)
| WCall (i : nat) (o : Oracle)
| WDrop (i : nat)
| WTask (t : nat) (o : Oracle)
| WPanic (t : nat)
| WSwitch (op : top)
| WRestart (now_secs : Z) (io io2 tenants_io : Io).

Section World.
Context `{Crates, Cbor, JsonText, LimitsSerde, TenantSerde} (app : AppConfig) (vars : Vars) (auth : AuthState) (tenants_path : string).

Definition up (w : World) : bool :=
  bool_decide (is_Some (g_limits (w_limits w))) && bool_decide (is_Some (fst (w_tenants w))).

Definition set_limits (w : World) (op : gop) : option LimitDecision * World :=
  let '(d, g) := gstep (limits app) op (w_limits w) in
  (d, {| w_limits := g; w_events := (op, d) :: w_events w; w_tenants := w_tenants w; w_circuits := w_circuits w;
         w_requests := w_requests w; w_tasks := w_tasks w |}).
Definition set_circuits (w : World) (c : Circuits) : World :=
  {| w_limits := w_limits w; w_events := w_events w; w_tenants := w_tenants w; w_circuits := c; w_requests := w_requests w;
     w_tasks := w_tasks w |}.
Definition set_requests (w : World) (rs : list Request) : World :=
  {| w_limits := w_limits w; w_events := w_events w; w_tenants := w_tenants w; w_circuits := w_circuits w; w_requests := rs;
     w_tasks := w_tasks w |}.
Definition set_tasks (w : World) (ts : list Task) : World :=
  {| w_limits := w_limits w; w_events := w_events w; w_tenants := w_tenants w; w_circuits := w_circuits w; w_requests := w_requests w;
     w_tasks := ts |}.

(** ** Executions *)

Definition new_task (leg_a leg_b : VenueCall) : Task :=
  {| tk_legs := (leg_a, leg_b); tk_calls := []; tk_prog := Some (hedge_execution app leg_a leg_b) |}.
Definition ended (tk : Task) : bool := match tk_prog tk with Some (GDo _ _) => false | _ => true end.
(** What awaiting its handle gives once it has ended. *)
Definition task_result (tk : Task) : option ExecutionResult := match tk_prog tk with Some (GRet res) => Some res | _ => None end.
(** A panic, or the end of the process, before it has ended. *)
Definition lose (tk : Task) : Task :=
  if ended tk then tk else {| tk_legs := tk_legs tk; tk_calls := tk_calls tk; tk_prog := None |}.

(** One call of an execution; the venues and the scheduler answer it. *)
Definition run_task (o : Oracle) (tk : Task) : Task :=
  match tk_prog tk with
  | Some (GDo c k) =>
      let x := o_answer o _ c in {| tk_legs := tk_legs tk; tk_calls := gev c x :: tk_calls tk; tk_prog := Some (k x) |}
  | _ => tk
  end.

(** ** Requests *)

(** A counting task. *)
Definition count_task (w : World) (o : Oracle) (op : gop) : option LimitDecision * World :=
  match o_task o with
  | TaskReturns => set_limits w op
  | TaskLostBefore => (None, w)
  | TaskLostAfter => (None, snd (set_limits w op))
  end.
Definition rate_check (w : World) (op : gop) : LimitDecision * World :=
  let '(d, w') := set_limits w op in (default CounterUnavailable d, w').

(** The answer to a call, and the world after it. *)
Definition wanswer (o : Oracle) (w : World) {X} (c : gcall X) : X * World :=
  match c in gcall X return X * World with
  | BlanketRate token now => rate_check w (GRate token now)
  | OrdersRate token now => rate_check w (GOrdersRate token now)
  | CancelsRate token now => rate_check w (GCancelsRate token now)
  | CountOrder token now => count_task w o (GOrder token now (o_io o))
  | CountSpend scope value now => count_task w o (GSpend scope value now (o_io o))
  | StateOf customer => (match fst (w_tenants w) with Some s => state_of s customer | None => Halted end, w)
  | BackoffAllow scope => let '(b, c) := allow (o_instant o) scope (w_circuits w) in (b, set_circuits w c)
  | BackoffSuccess scope => ((), set_circuits w (report_success scope (w_circuits w)))
  | BackoffLimited scope => ((), set_circuits w (report_rate_limited (o_instant o) scope (w_circuits w)))
  | SpawnExecution leg_a leg_b => (length (w_tasks w), set_tasks w (w_tasks w ++ [new_task leg_a leg_b]))
  | JoinExecution t => (w_tasks w !! t ≫= task_result, w)
  | c => (o_answer o _ c, w)
  end.

(** Awaiting a handle blocks until the execution has ended. *)
Definition ready (w : World) {X} (c : gcall X) : bool :=
  match c with JoinExecution t => match w_tasks w !! t with Some tk => ended tk | None => true end | _ => true end.

Definition drop_request (r : Request) : Request :=
  {| rq_header := rq_header r; rq_route := rq_route r; rq_calls := rq_calls r; rq_prog := None |}.
Definition new_request (header : option string) (r : Route) : Request :=
  {| rq_header := header; rq_route := r; rq_calls := []; rq_prog := Some (serve app vars auth header r) |}.

Definition advance (o : Oracle) (w : World) (i : nat) (r : Request) : World :=
  match rq_prog r with
  | Some (GDo c k) =>
      if negb (ready w c) then w
      else
      let '(x, w') := wanswer o w c in
      set_requests w' (<[i := {| rq_header := rq_header r; rq_route := rq_route r; rq_calls := gev c x :: rq_calls r;
                                rq_prog := Some (k x) |}]> (w_requests w'))
  | _ => w
  end.

(** [main] from the limits' probe to the tenant store: the first failure ends it. *)
Definition boot (w : World) (now_secs : Z) (io io2 tenants_io : Io) : World :=
  let '(_, w') := set_limits w (GRestart now_secs io io2) in
  {| w_limits := w_limits w'; w_events := w_events w';
     w_tenants := if decide (is_Some (g_limits (w_limits w'))) then tboot tenants_path tenants_io (snd (w_tenants w))
                  else (None, snd (w_tenants w));
     w_circuits := ∅;
     w_requests := drop_request <$> w_requests w;
     w_tasks := lose <$> w_tasks w |}.

Definition wstep (op : wop) (w : World) : World :=
  match op with
  | WRestart now io io2 tio => boot w now io io2 tio
  | WDrop i => set_requests w (alter drop_request i (w_requests w))
  | WTask t o => set_tasks w (alter (run_task o) t (w_tasks w))
  | WPanic t => set_tasks w (alter lose t (w_tasks w))
  | _ =>
      if negb (up w) then w
      else match op with
           | WAccept header r => set_requests w (w_requests w ++ [new_request header r])
           | WCall i o => match w_requests w !! i with Some r => advance o w i r | None => w end
           | WSwitch (TRestart _) => w
           | WSwitch op =>
               {| w_limits := w_limits w; w_events := w_events w; w_tenants := tstep tenants_path op (w_tenants w);
                  w_circuits := w_circuits w; w_requests := w_requests w; w_tasks := w_tasks w |}
           | _ => w
           end
  end.
Definition wexec (ops : list wop) (w : World) : World := foldl (fun w op => wstep op w) w ops.

(** Before the first boot. *)
Definition wstart (fs tenants_fs : Fs) : World :=
  {| w_limits := boot_state fs; w_events := []; w_tenants := (None, tenants_fs); w_circuits := ∅; w_requests := []; w_tasks := [] |}.

(** ** Accounting *)

(** What a request's call was granted, if it was a charge. *)
Definition order_charge (e : gevent) : option (string * Z * Z) :=
  match e with
  | existT _ (c, x) =>
      match c in gcall X return X -> option (string * Z * Z) with
      | CountOrder token now => fun d =>
          match d with Some Allow => Some (hex_encode (token_key token), today now, 1) | _ => None end
      | _ => fun _ => None
      end x
  end.
Definition spend_charge (e : gevent) : option (string * Z * Z) :=
  match e with
  | existT _ (c, x) =>
      match c in gcall X return X -> option (string * Z * Z) with
      | CountSpend scope value now => fun d =>
          match d with Some Allow => Some (hex_encode (token_key scope), today now, Z.of_N value) | _ => None end
      | _ => fun _ => None
      end x
  end.

(** What all requests together were granted. *)
Definition charged (charge : gevent -> option (string * Z * Z)) (k : string) (d : Z) (rs : list Request) : Z :=
  granted k d (rs ≫= fun r => omap charge (rq_calls r)).

Lemma granted_app k d l1 l2 : granted k d (l1 ++ l2) = granted k d l1 + granted k d l2.
Proof using. induction l1 as [|[[k' d'] v] l1 IH]; cbn [granted Datatypes.app]; [done|]. rewrite IH. lia. Qed.

Lemma gexec_snoc c ops op : forall ev g,
  gexec c (ops ++ [op]) ev g =
  (let '(ev1, g1) := gexec c ops ev g in let '(d, g2) := gstep c op g1 in ((op, d) :: ev1, g2)).
Proof using.
  induction ops as [|op0 ops IH]; intros ev g; cbn [gexec Datatypes.app]; [by destruct (gstep c op g)|]. destruct (gstep c op0 g). apply IH.
Qed.

Lemma charged_insert charge k d rs i r r' e :
  rs !! i = Some r -> rq_calls r' = e :: rq_calls r ->
  charged charge k d (<[i := r']> rs) = granted k d (omap charge [e]) + charged charge k d rs.
Proof using.
  intros Hi Hr. unfold charged. rewrite <- (take_drop_middle rs i r Hi) at 2. rewrite insert_take_drop by (by eapply lookup_lt_Some).
  rewrite !bind_app, !bind_cons, Hr, !granted_app. change (e :: rq_calls r) with ([e] ++ rq_calls r).
  rewrite omap_app, granted_app. lia.
Qed.
Lemma charged_same charge k d rs rs' : rq_calls <$> rs = rq_calls <$> rs' -> charged charge k d rs = charged charge k d rs'.
Proof using.
  intros He. unfold charged. change (fun r => omap charge (rq_calls r)) with (omap charge ∘ rq_calls).
  rewrite <- !(list_fmap_bind rq_calls). by rewrite He.
Qed.

(** A call's charge is among the grants of the limits. *)
Definition accounts (charge : gevent -> option (string * Z * Z)) (grant : gop * option LimitDecision -> option (string * Z * Z)) : Prop :=
  (forall e k d v, grant e = Some (k, d, v) -> 0 <= v) /\
  forall o w X (c : gcall X) k d,
    granted k d (omap charge [gev c (fst (wanswer o w c))]) + granted k d (grants grant (w_events w)) <=
    granted k d (grants grant (w_events (snd (wanswer o w c)))).

Lemma granted_push_nil k d x log : granted k d (push x log) = granted k d (push x []) + granted k d log.
Proof using. destruct x as [[[k' d'] v]|]; cbn [push granted]; lia. Qed.
Lemma granted_push k d x log : (forall v, x = Some v -> 0 <= snd v) -> granted k d log <= granted k d (push x log).
Proof using. intros Hx. destruct x as [[[k' d'] v]|]; cbn [push granted]; [|done]. specialize (Hx _ eq_refl). cbn in Hx. case_decide; lia. Qed.

Lemma set_limits_events w op : w_events (snd (set_limits w op)) = (op, fst (set_limits w op)) :: w_events w.
Proof using. unfold set_limits. by destruct (gstep _ _ _). Qed.

(** Enough: the two counting calls are charged as their operations are granted,
    and nothing else is charged. *)
Lemma accounts_intro charge grant :
  (forall e k d v, grant e = Some (k, d, v) -> 0 <= v) ->
  (forall token now io d, charge (gev (CountOrder token now) d) = grant (GOrder token now io, d)) ->
  (forall scope v now io d, charge (gev (CountSpend scope v now) d) = grant (GSpend scope v now io, d)) ->
  (forall token now, charge (gev (CountOrder token now) None) = None) ->
  (forall scope v now, charge (gev (CountSpend scope v now) None) = None) ->
  (forall X (c : gcall X) x, charge (gev c x) <> None ->
     match c with CountOrder _ _ | CountSpend _ _ _ => True | _ => False end) ->
  accounts charge grant.
Proof using.
  intros Hpos Ho Hs Ho0 Hs0 Hrest. split; [done|]. intros o w X c k d.
  assert (forall op, granted k d (grants grant (w_events w)) <= granted k d (grants grant (w_events (snd (set_limits w op))))) as Hmono.
  { intros op. rewrite set_limits_events. cbn [grants foldr]. apply granted_push. intros [[k' d'] v] Hv. by eapply Hpos. }
  assert (forall op e, charge e = grant (op, fst (set_limits w op)) -> granted k d (omap charge [e]) +
      granted k d (grants grant (w_events w)) <= granted k d (grants grant (w_events (snd (set_limits w op))))) as Htask.
  { intros op e He. rewrite set_limits_events. cbn [grants foldr]. rewrite granted_push_nil. cbn [omap list_omap]. rewrite He.
    destruct (grant _); cbn [push]; done. }
  assert (forall e, charge e = None -> granted k d (omap charge [e]) = 0) as Hfree.
  { intros e He. cbn [omap list_omap]. by rewrite He. }
  assert (charge (gev c (fst (wanswer o w c))) = None \/ match c with CountOrder _ _ | CountSpend _ _ _ => True | _ => False end) as Hc.
  { destruct (charge (gev c _)) eqn:E; [right|by left]. eapply Hrest. by rewrite E. }
  destruct c; try (destruct Hc as [Hc|[]]; rewrite (Hfree _ Hc)); cbn [wanswer snd] in *; try lia.
  1-3: unfold rate_check; match goal with |- context [set_limits ?v ?op] => specialize (Hmono op); destruct (set_limits v op) end; exact Hmono.
  - unfold count_task. destruct (o_task o); cbn [fst snd]; [by apply Htask|by rewrite Hfree|rewrite Hfree; [apply Hmono|done]].
  - unfold count_task. destruct (o_task o); cbn [fst snd]; [by apply Htask|by rewrite Hfree|rewrite Hfree; [apply Hmono|done]].
  - by destruct (allow _ _ _).
  - done.
  - done.
  - done.
Qed.

Lemma accounts_orders : accounts order_charge order_grant.
Proof using.
  apply accounts_intro; try done.
  - intros [[| | | | |] [[| | | |]|]] k d v; cbn; intros [=]; lia.
  - by intros X [] x.
Qed.
Lemma accounts_spends : accounts spend_charge spend_grant.
Proof using.
  apply accounts_intro; try done.
  - intros [[| | | | |] [[| | | |]|]] k d v; cbn; intros [=]; lia.
  - by intros X [] x.
Qed.

(** ** The invariant *)

Definition request_ok (r : Request) : Prop :=
  exists p, gfollows (serve app vars auth (rq_header r) (rq_route r)) (rq_calls r) p /\ (forall q, rq_prog r = Some q -> q = p).

(** The limits are where a sequence of their operations leaves them. *)
Definition limits_from (fs : Fs) (w : World) : Prop :=
  exists ops, gexec (limits app) ops [] (boot_state fs) = (w_events w, w_limits w).

Record winv (fs : Fs) (w : World) : Prop := {
  inv_limits : limits_from fs w;
  inv_requests : Forall request_ok (w_requests w);
  inv_charges charge grant k d : accounts charge grant ->
    charged charge k d (w_requests w) <= granted k d (grants grant (w_events w))
}.

Lemma set_limits_from fs w op : limits_from fs w -> limits_from fs (snd (set_limits w op)).
Proof using.
  intros [ops Ho]. exists (ops ++ [op]). rewrite gexec_snoc, Ho. unfold set_limits. by destruct (gstep _ _ _).
Qed.
Lemma set_limits_frame w op :
  w_requests (snd (set_limits w op)) = w_requests w /\ w_tenants (snd (set_limits w op)) = w_tenants w.
Proof using. unfold set_limits. by destruct (gstep _ _ _). Qed.

Lemma wanswer_frame fs o w {X} (c : gcall X) : let w' := snd (wanswer o w c) in
  w_requests w' = w_requests w /\ w_tenants w' = w_tenants w /\ (limits_from fs w -> limits_from fs w').
Proof using.
  assert (forall op, let w' := snd (set_limits w op) in
    w_requests w' = w_requests w /\ w_tenants w' = w_tenants w /\ (limits_from fs w -> limits_from fs w')) as Hset.
  { intros op w'. destruct (set_limits_frame w op). split_and!; [done..|apply set_limits_from]. }
  destruct c; cbn [wanswer snd]; try done.
  1-3: unfold rate_check; match goal with |- context [set_limits ?v ?op] => specialize (Hset op); destruct (set_limits v op) end; exact Hset.
  1-2: unfold count_task; destruct (o_task o); [apply Hset|done|apply Hset].
  by destruct (allow _ _ _).
Qed.

Lemma request_ok_drop r : request_ok r -> request_ok (drop_request r).
Proof using. intros (p & Hf & _). by exists p. Qed.
Lemma request_ok_call r X (c : gcall X) k x r' : request_ok r -> rq_prog r = Some (GDo c k) ->
  r' = {| rq_header := rq_header r; rq_route := rq_route r; rq_calls := gev c x :: rq_calls r; rq_prog := Some (k x) |} ->
  request_ok r'.
Proof using.
  intros (p & Hf & Hp) Hr ->. specialize (Hp _ Hr) as <-. exists (k x). cbn. split; [by constructor|]. by intros q [= <-].
Qed.

Lemma winv_start fs tfs : winv fs (wstart fs tfs).
Proof using. split; [by exists []|done|]. intros. cbn. lia. Qed.

Lemma winv_requests fs w rs : winv fs w -> Forall request_ok rs -> rq_calls <$> rs = rq_calls <$> w_requests w -> winv fs (set_requests w rs).
Proof using.
  intros [Hl Hr Hc] Hrs He. split; [done..|]. intros charge grant k d Ha. cbn [set_requests w_requests w_events].
  rewrite (charged_same _ _ _ _ _ He). by apply Hc.
Qed.

Lemma winv_tasks fs w ts : winv fs w -> winv fs (set_tasks w ts).
Proof using. intros [Hl Hr Hc]. by split. Qed.

Lemma winv_advance fs o w i r : winv fs w -> w_requests w !! i = Some r -> winv fs (advance o w i r).
Proof using.
  intros Hw Hi. unfold advance. destruct (rq_prog r) as [[|X c k]|] eqn:Hp; [done| |done].
  destruct (negb (ready w c)); [done|]. destruct (wanswer_frame fs o w c) as (Hr & _ & Hl). pose proof (inv_charges fs w Hw) as Hch.
  assert (request_ok r) as Hok by (eapply Forall_lookup_1; [apply Hw|done]).
  destruct (wanswer o w c) as [x w'] eqn:E; cbn [snd] in *. split; cbn [set_requests w_requests w_events].
  - apply Hl, Hw.
  - rewrite Hr. apply Forall_insert; [apply Hw|]. by eapply request_ok_call.
  - intros charge grant k' d' Ha. rewrite Hr, (charged_insert _ _ _ _ _ r _ (gev c x)) by done.
    pose proof (proj2 Ha o w X c k' d') as Hpay. rewrite E in Hpay. cbn [fst snd] in Hpay. specialize (Hch _ _ k' d' Ha). lia.
Qed.

Lemma winv_boot fs w now io io2 tio : winv fs w -> winv fs (boot w now io io2 tio).
Proof using.
  intros Hw. unfold boot. pose proof (set_limits_from fs w (GRestart now io io2) (inv_limits _ _ Hw)) as Hl.
  pose proof (set_limits_events w (GRestart now io io2)) as He.
  destruct (set_limits w (GRestart now io io2)) as [d w']; cbn [fst snd] in *. split; cbn [w_requests w_events].
  - exact Hl.
  - apply Forall_fmap. eapply Forall_impl; [apply Hw|]. exact request_ok_drop.
  - intros charge grant k' d' Ha. rewrite (charged_same _ _ _ _ (w_requests w)) by (by rewrite <- list_fmap_compose).
    rewrite He. cbn [grants foldr]. etrans; [by apply Hw|]. apply granted_push. intros [[k0 d0] v] Hv. by eapply Ha.
Qed.

Lemma winv_step fs op w : winv fs w -> winv fs (wstep op w).
Proof using.
  intros Hw. assert (forall i, winv fs (set_requests w (alter drop_request i (w_requests w)))) as Hdrop.
  { intros i. apply winv_requests; [done| |].
    - apply Forall_alter; [apply Hw|]. intros r _. apply request_ok_drop.
    - apply list_eq. intros j. rewrite !list_lookup_fmap. destruct (decide (i = j)) as [->|Hne];
        [rewrite list_lookup_alter_eq|by rewrite list_lookup_alter_ne]. by destruct (w_requests w !! j). }
  destruct op as [header r|i o|i|t o|t|op|now io io2 tio]; cbn [wstep]; [| |apply Hdrop|by apply winv_tasks..| |by apply winv_boot]; destruct (negb (up w)); try done.
  - destruct Hw as [Hl Hr Hc]. split; [done| |].
    + cbn. apply Forall_app. split; [done|]. apply Forall_singleton. eexists. split; [constructor|]. by intros q [= <-].
    + intros charge grant k' d' Ha. cbn [set_requests w_requests w_events]. unfold charged. rewrite bind_app, granted_app.
      specialize (Hc _ _ k' d' Ha). unfold charged in Hc. cbn. lia.
  - destruct (w_requests w !! i) as [r|] eqn:Hi; [|done]. by apply winv_advance.
  - destruct op; try done; destruct Hw as [Hl Hr Hc]; by split.
Qed.

Lemma winv_exec fs ops : forall w, winv fs w -> winv fs (wexec ops w).
Proof using. induction ops as [|op ops IH]; intros w Hw; [done|]. apply IH. by apply winv_step. Qed.

(** How one step changes the list of requests: some arrive, and one may have
    made its next call. *)
Lemma wstep_calls op w :
  (length (w_requests w) <= length (w_requests (wstep op w)))%nat /\
  forall i r', w_requests (wstep op w) !! i = Some r' ->
    rq_calls r' = [] \/
    exists r, w_requests w !! i = Some r /\
      (rq_calls r' = rq_calls r \/
       exists o X (c : gcall X) k, op = WCall i o /\ rq_prog r = Some (GDo c k) /\
         rq_calls r' = gev c (fst (wanswer o w c)) :: rq_calls r).
Proof using.
  assert (forall rs' : list Request, (forall i r', rs' !! i = Some r' -> exists r, w_requests w !! i = Some r /\ rq_calls r' = rq_calls r) ->
    forall i r', rs' !! i = Some r' -> rq_calls r' = [] \/ exists r, w_requests w !! i = Some r /\
      (rq_calls r' = rq_calls r \/ exists o X (c : gcall X) k, op = WCall i o /\ rq_prog r = Some (GDo c k) /\
         rq_calls r' = gev c (fst (wanswer o w c)) :: rq_calls r)) as Hsame.
  { intros rs' Hrs i r' Hi. right. destruct (Hrs i r' Hi) as (r & Hr & Hc). exists r. auto. }
  destruct op as [header r|i o|i|t o|t|op|now io io2 tio]; cbn [wstep]; try (destruct (negb (up w)); [split; [done|apply Hsame; eauto]|]).
  - cbn [set_requests w_requests]. rewrite length_app. split; [cbn; lia|]. intros i r' [Hi|[_ Hi]]%lookup_app_Some.
    + right. exists r'. auto.
    + left. apply list_lookup_singleton_Some in Hi as [_ <-]. done.
  - destruct (w_requests w !! i) as [r|] eqn:Hi; [|split; [done|apply Hsame; eauto]]. unfold advance.
    destruct (rq_prog r) as [[|X c k]|] eqn:Hp; [split; [done|apply Hsame; eauto]| |split; [done|apply Hsame; eauto]].
    destruct (negb (ready w c)); [split; [done|apply Hsame; eauto]|]. destruct (wanswer_frame ∅ o w c) as (Hr & _). destruct (wanswer o w c) as [x w'] eqn:Ha.
    cbn [snd fst set_requests w_requests] in *. rewrite Hr, length_insert. split; [done|].
    intros j r' Hj. destruct (decide (i = j)) as [<-|Hne].
    + rewrite list_lookup_insert_eq in Hj by (by eapply lookup_lt_Some). injection Hj as <-. right. exists r. split; [done|].
      right. exists o, X, c, k. by rewrite Ha.
    + rewrite list_lookup_insert_ne in Hj by done. right. exists r'. auto.
  - cbn [set_requests w_requests]. rewrite length_alter. split; [done|]. apply Hsame. intros j r' Hj.
    destruct (decide (i = j)) as [<-|Hne]; [|rewrite list_lookup_alter_ne in Hj by done; eauto].
    rewrite list_lookup_alter_eq in Hj. apply fmap_Some in Hj as (r & Hr & ->). by exists r.
  - split; [done|apply Hsame; eauto].
  - split; [done|apply Hsame; eauto].
  - destruct op; (split; [done|apply Hsame; eauto]).
  - unfold boot. destruct (set_limits _ _) as [d w']. cbn [w_requests]. rewrite length_fmap. split; [done|]. apply Hsame.
    intros j r' Hj. apply list_lookup_fmap_Some in Hj as (r & -> & Hr). by exists r.
Qed.

(** ** What each request did *)

Lemma lawful_in Pre tr X (c : gcall X) x : stable_pre Pre -> lawful Pre tr -> gev c x ∈ tr -> Pre tr X c.
Proof using.
  intros HP. induction tr as [|e tr IH]; intros Hl Hin; [by apply not_elem_of_nil in Hin|].
  apply elem_of_cons in Hin as [He|Hin].
  - subst e. destruct Hl as [Hc _]. eapply HP; [apply sub_cons|exact Hc].
  - eapply HP; [apply sub_cons|]. apply IH; [|done]. destruct e as [Y [d y]]. apply Hl.
Qed.

Lemma gfollows_ret {A} (a : A) tr p : gfollows (GRet a) tr p -> tr = [] /\ p = GRet a.
Proof using. induction 1 as [|tr X c k x Hf [_ IH]]; [done|discriminate IH]. Qed.

(** The tenant and token a request is served for. *)
Definition caller (r : Request) : option (string * string) := require_bearer vars auth (rq_header r).

Lemma request_calls r X (c : gcall X) x : request_ok r -> gev c x ∈ rq_calls r ->
  exists customer token, caller r = Some (customer, token) /\ call_ok app customer token (rq_calls r) X c.
Proof using.
  intros (p & Hf & _) Hin. pose proof (serve_spec app vars auth (rq_header r) (rq_route r)) as Hs. unfold caller.
  destruct (require_bearer _ _ _) as [[customer token]|].
  - exists customer, token. split; [done|]. destruct (gall_follows _ _ _ _ _ Hs Hf) as [_ Hl].
    exact (lawful_in _ _ _ _ _ (call_ok_stable app customer token) Hl Hin).
  - rewrite Hs in Hf. destruct (gfollows_ret _ _ _ Hf) as [Hnil _]. rewrite Hnil in Hin. by apply not_elem_of_nil in Hin.
Qed.

Lemma request_answer r resp : request_ok r -> rq_prog r = Some (GRet resp) -> honest (rq_calls r) resp.
Proof using.
  intros (p & Hf & Hp) Hr. specialize (Hp _ Hr) as <-. pose proof (serve_spec app vars auth (rq_header r) (rq_route r)) as Hs.
  destruct (require_bearer _ _ _) as [[customer token]|].
  - by destruct (gall_follows _ _ _ _ _ Hs Hf) as [Hq _].
  - rewrite Hs in Hf. destruct (gfollows_ret _ _ _ Hf) as [-> [= ->]]. apply (reply_honest [] gw_code.UNAUTHORIZED).
    apply (bool_decide_unpack _). vm_compute. exact I.
Qed.

(** A venue request of the request: its own, or of the execution it started. *)
Definition calls_venue (w : World) (r : Request) (call : VenueCall) : Prop :=
  (exists x, gev (SendVenue call) x ∈ rq_calls r) \/
  exists leg_a leg_b t tk x, gev (SpawnExecution leg_a leg_b) t ∈ rq_calls r /\ w_tasks w !! t = Some tk /\ gev (SendVenue call) x ∈ tk_calls tk.

(** A message of the request to the enclave. *)
Definition sends (r : Request) (req : VsockRequest) : Prop := exists x, gev (RoundTrip req) x ∈ rq_calls r.

Lemma request_sends r req : request_ok r -> sends r req ->
  exists customer token, caller r = Some (customer, token) /\ message_ok app customer token (rq_calls r) req.
Proof using. intros Hr [x Hx]. by apply (request_calls r _ (RoundTrip req) x). Qed.

Lemma world_requests fs tfs ops r : r ∈ w_requests (wexec ops (wstart fs tfs)) -> request_ok r.
Proof using.
  pose proof (winv_exec fs ops _ (winv_start fs tfs)) as Hw. intros Hr. eapply Forall_forall; [apply Hw|done].
Qed.

(** C16: No confused deputy: whatever runs concurrently, every message a
    request sends to the enclave carries the bearer token the request itself
    authenticated with and, except for the heartbeat, a key blob stored under
    the tenant of that token, sealed under the key name it is sent with. *)
Theorem gateway_own_identity fs tfs ops r req :
  r ∈ w_requests (wexec ops (wstart fs tfs)) -> sends r req ->
  exists customer token, caller r = Some (customer, token) /\ own_credentials app customer token req.
Proof using.
  intros Hr Hs. destruct (request_sends r req (world_requests _ _ _ _ Hr) Hs) as (customer & token & Hc & Hm).
  exists customer, token. split; [done|apply Hm].
Qed.

(** C21: Whatever the enclave, the stores and the schedule do, every answer is
    of one of these kinds.  A refusal uses a code of the closed list with that
    code's status and says truthfully who decided it: "enclave" only when this
    request asked the enclave and got that refusal, with no receipt but the
    enclave's own.  A hedge that was not executed has the status of the refusal
    that dominates, never 200, and reports for each leg the label of its own
    refusal or that the other leg failed; one whose shape was refused has 400.
    A hedge that was executed is a 200 with what the execution came back with,
    or a 500 when awaiting the execution failed.  Everything else is a 200 after
    an enclave answer without error. *)
Theorem gateway_answers_honestly fs tfs ops r resp :
  r ∈ w_requests (wexec ops (wstart fs tfs)) -> rq_prog r = Some (GRet resp) -> honest (rq_calls r) resp.
Proof using. intros Hr. apply request_answer. by eapply world_requests. Qed.

(** ** Caps over whole histories *)

Definition order_message (token : string) (e : gevent) : bool :=
  match e with
  | existT _ (RoundTrip req, _) => is_order req && bool_decide (vq_opaque_token req = Some token)
  | _ => false
  end.
Definition order_charged (token : string) (d : Z) (e : gevent) : bool :=
  match e with
  | existT _ (c, x) =>
      match c in gcall X return X -> bool with
      | CountOrder t now => fun r => bool_decide (t = token) && bool_decide (r = Some Allow) && (today now =? d)
      | _ => fun _ => false
      end x
  end.
Definition sent_order (token : string) (r : Request) : bool := existsb (order_message token) (rq_calls r).
(** It sent an order under this token and was counted on day [d]. *)
Definition order_of_day (token : string) (d : Z) (r : Request) : bool :=
  sent_order token r && existsb (order_charged token d) (rq_calls r).

Lemma order_charged_grant token d e : order_charged token d e = true -> order_charge e = Some (hex_encode (token_key token), d, 1).
Proof using.
  destruct e as [X [c x]]. destruct c; try done. cbn. rewrite !andb_true_iff. intros [[Ht Hr] Hd].
  apply bool_decide_eq_true in Ht, Hr. apply Z.eqb_eq in Hd. by subst.
Qed.

Lemma granted_nonneg k d log : (forall x, x ∈ log -> 0 <= snd x) -> 0 <= granted k d log.
Proof using.
  induction log as [|[[k' d'] v] log IH]; intros Hp; cbn [granted]; [done|].
  pose proof (Hp (k', d', v) ltac:(by left)). specialize (IH ltac:(intros; apply Hp; by right)). cbn in *. case_decide; lia.
Qed.
Lemma granted_elem k d v log : (forall x, x ∈ log -> 0 <= snd x) -> (k, d, v) ∈ log -> v <= granted k d log.
Proof using.
  intros Hp Hin. apply list_elem_of_split in Hin as (l1 & l2 & ->). rewrite granted_app. cbn [granted]. rewrite decide_True by done.
  pose proof (granted_nonneg k d l1 ltac:(intros; apply Hp; set_solver)).
  pose proof (granted_nonneg k d l2 ltac:(intros; apply Hp; set_solver)). lia.
Qed.

Lemma charges_nonneg (calls : list gevent) x : x ∈ omap order_charge calls -> 0 <= snd x.
Proof using.
  intros (e & _ & He)%list_elem_of_omap. destruct e as [X [c y]]. destruct c; try done. cbn in He. destruct y as [[]|]; try done.
  by injection He as <-.
Qed.

Lemma count_le_charged token d rs :
  Z.of_nat (length (filter (fun r => order_of_day token d r = true) rs)) <= charged order_charge (hex_encode (token_key token)) d rs.
Proof using.
  induction rs as [|r rs IH]; [done|]. unfold charged in *. rewrite bind_cons, granted_app, filter_cons.
  pose proof (granted_nonneg (hex_encode (token_key token)) d (omap order_charge (rq_calls r)) (charges_nonneg _)).
  case_decide as Hr; [|lia]. apply andb_true_iff in Hr as [_ (e & Hin & He)%existsb_exists]. apply order_charged_grant in He.
  apply list_elem_of_In in Hin.
  pose proof (granted_elem (hex_encode (token_key token)) d 1 (omap order_charge (rq_calls r)) (charges_nonneg _)
    ltac:(apply list_elem_of_omap; eauto)). cbn [length]. lia.
Qed.

Context `{!DayStateLaws DailyState, !DayStateLaws X402SpendState}.

(** C13: The daily order cap, end to end: over every interleaving of
    requests, restarts, failing disks and clocks, each request that sent the
    enclave an order under a token was counted for that token on some day, and
    no day counts more such requests than the cap. *)
Theorem gateway_order_cap env cap fs tfs ops token :
  from_env env = Ok (limits app) -> dry_run (limits app) = false -> paths_apart (limits app) = true ->
  daily_cap (limits app) = Some cap ->
  let rs := w_requests (wexec ops (wstart fs tfs)) in
  (forall r, r ∈ rs -> sent_order token r = true -> exists d, order_of_day token d r = true) /\
  (forall d, Z.of_nat (length (filter (fun r => order_of_day token d r = true) rs)) <= cap).
Proof using DayStateLaws0 DayStateLaws1.
  intros He Hdry Hap Hcap rs. split.
  - intros r Hr Hs. pose proof Hs as (e & Hin & Hm)%existsb_exists. apply list_elem_of_In in Hin.
    destruct e as [X [c x]]. destruct c; try done. apply andb_true_iff in Hm as [Ho Ht%bool_decide_eq_true].
    destruct (request_sends r req (world_requests _ _ _ _ Hr) (ex_intro _ x Hin)) as (customer & token' & _ & (Hown & Hgr & _)).
    assert (token' = token) as -> by (destruct Hown as [Hown _]; congruence).
    destruct (Hgr Ho) as [_ Hcount]. destruct Hcount as [now Hnow]; [by rewrite Hcap|]. exists (today now).
    unfold order_of_day. rewrite Hs. apply existsb_exists. eexists. split; [apply list_elem_of_In; exact Hnow|].
    cbn. by rewrite !bool_decide_true, Z.eqb_refl.
  - intros d. pose proof (winv_exec fs ops _ (winv_start fs tfs)) as Hw. etrans; [apply count_le_charged|].
    etrans; [exact (inv_charges _ _ Hw _ _ _ d accounts_orders)|]. destruct (inv_limits _ _ Hw) as [lops Hl].
    change (w_events (wexec ops (wstart fs tfs))) with (fst (w_events (wexec ops (wstart fs tfs)), w_limits (wexec ops (wstart fs tfs)))).
    rewrite <- Hl. by eapply daily_order_cap_spec.
Qed.

(** The value a payment message asks the enclave to sign away. *)
Definition payment_value (req : VsockRequest) : option Z :=
  match vq_x402 req ≫= jget "value" with Some (JStr text) => parse_unsigned 128 (trim text) | _ => None end.
(** The value of a payment message under the key [key]. *)
Definition payment_of (key : string) (e : gevent) : option Z :=
  match e with
  | existT _ (RoundTrip req, _) =>
      if is_payment req && bool_decide (vq_key_blob_s3_key req = Some key) then payment_value req else None
  | _ => None
  end.
Definition spend_charged (scope : string) (d : Z) (e : gevent) : bool :=
  match e with
  | existT _ (c, x) =>
      match c in gcall X return X -> bool with
      | CountSpend s _ now => fun r => bool_decide (s = scope) && bool_decide (r = Some Allow) && (today now =? d)
      | _ => fun _ => false
      end x
  end.

Definition sum_Z (l : list Z) : Z := foldr Z.add 0 l.
(** What a request of [customer] sent for signing with key [stem], if it was
    charged on day [d]. *)
Definition paid (customer stem : string) (d : Z) (r : Request) : Z :=
  if bool_decide (fst <$> caller r = Some customer) && existsb (spend_charged (blob_key customer stem) d) (rq_calls r)
  then sum_Z (omap (payment_of (secrets_key stem)) (rq_calls r)) else 0.

Lemma secrets_key_inj s t : secrets_key s = secrets_key t -> s = t.
Proof using.
  unfold secrets_key. intros He%append_inj_prefix. pose proof (f_equal String.length He) as Hl. rewrite !length_append in Hl.
  by apply append_inj_length in He as [-> _]; [|lia].
Qed.

Lemma payment_events key tr : omap (payment_of key) tr = omap (payment_of key) (events_of payment_event tr).
Proof using.
  unfold events_of. induction tr as [|e tr IH]; [done|]. rewrite filter_cons. case_decide as E.
  - cbn [omap list_omap]. by rewrite IH.
  - cbn [omap list_omap]. destruct (payment_of key e) eqn:Hp; [|done]. exfalso. apply E. destruct e as [X [c x]].
    destruct c; try done. cbn in *. by destruct (is_payment req).
Qed.

(** At most one: two members are the same. *)
Lemma single_eq {A} (l : list A) x y : (length l <= 1)%nat -> x ∈ l -> y ∈ l -> x = y.
Proof using.
  intros Hl Hx Hy. destruct l as [|a [|]]; cbn in Hl; [by apply not_elem_of_nil in Hx| |lia].
  apply list_elem_of_singleton in Hx, Hy. congruence.
Qed.

Lemma request_once r : request_ok r ->
  (length (events_of spend_event (rq_calls r)) <= 1)%nat /\ (length (events_of payment_event (rq_calls r)) <= 1)%nat.
Proof using. intros (p & Hf & _). apply once_lawful. by destruct (gall_follows _ _ _ _ _ (serve_once _ _ _ _ _) Hf). Qed.

(** One payment message of a served request: who pays, from which key, how much, and
    the charge behind it. *)
Lemma payment_charged cap r req : x402_period_cap (limits app) = Some cap -> request_ok r -> sends r req -> is_payment req = true ->
  exists customer token stem value now, caller r = Some (customer, token) /\ vq_key_blob_s3_key req = Some (secrets_key stem) /\
    payment_value req = Some value /\ gev (CountSpend (blob_key customer stem) (Z.to_N value) now) (Some Allow) ∈ rq_calls r.
Proof using.
  intros Hcap Hr Hs Hp%bool_decide_eq_true. destruct (request_sends r req Hr Hs) as (customer & token & Hc & (_ & _ & Hpay & _)).
  destruct (Hpay Hp) as (stem & value & text & Hk & Hv & Hparse & Hgr). destruct Hgr as [now Hnow]; [by rewrite Hcap|].
  exists customer, token, stem, value, now. split_and!; [done|done| |exact Hnow]. unfold payment_value. by rewrite Hv.
Qed.

Lemma spend_charged_now scope d value now : spend_charged scope d (gev (CountSpend scope value now) (Some Allow)) = (today now =? d).
Proof using. cbn. by rewrite !bool_decide_true. Qed.

(** The payments of a request are the one message it sent. *)
Lemma payments_single r req value key : request_ok r -> sends r req -> is_payment req = true ->
  vq_key_blob_s3_key req = Some key -> payment_value req = Some value -> sum_Z (omap (payment_of key) (rq_calls r)) = value.
Proof using.
  intros Hr [x Hx] Hp Hk Hv. destruct (request_once r Hr) as [_ H1']. rewrite payment_events.
  assert (gev (RoundTrip req) x ∈ events_of payment_event (rq_calls r)) as Hin.
  { apply list_elem_of_filter. by split. }
  destruct (events_of payment_event (rq_calls r)) as [|e [|]]; cbn in H1'; [by apply not_elem_of_nil in Hin| |lia].
  apply list_elem_of_singleton in Hin as <-. cbn [omap list_omap payment_of gev]. rewrite Hp, bool_decide_true by done. rewrite Hv. cbn. lia.
Qed.

Lemma paid_le_granted cap r customer stem d : x402_period_cap (limits app) = Some cap -> request_ok r ->
  paid customer stem d r <= granted (hex_encode (token_key (blob_key customer stem))) d (omap spend_charge (rq_calls r)).
Proof using.
  intros Hcap Hr. unfold paid. set (log := omap spend_charge (rq_calls r)).
  assert (forall x, x ∈ log -> 0 <= snd x) as Hpos.
  { intros x (e & _ & He)%list_elem_of_omap. destruct e as [X [c y]]. destruct c; try done. cbn in He. destruct y as [[]|]; try done.
    injection He as <-. cbn. lia. }
  pose proof (granted_nonneg (hex_encode (token_key (blob_key customer stem))) d log Hpos) as Hnn.
  destruct (_ && _) eqn:E; [|done]. apply andb_true_iff in E as [Hc%bool_decide_eq_true (e & Hin & He)%existsb_exists].
  apply list_elem_of_In in Hin. destruct (omap (payment_of (secrets_key stem)) (rq_calls r)) as [|v vs] eqn:Ho; [done|]. rewrite <- Ho.
  assert (v ∈ omap (payment_of (secrets_key stem)) (rq_calls r)) as (m & Hm & Hv)%list_elem_of_omap by (rewrite Ho; by left).
  destruct m as [X [c x]]. destruct c; try done. cbn [payment_of] in Hv. destruct (is_payment req) eqn:Hp; [|done]. cbn [andb] in Hv.
  case_bool_decide as Hk; [|done]. assert (sends r req) as Hs by (by exists x).
  destruct (payment_charged cap r req Hcap Hr Hs Hp) as (customer' & token & stem' & v' & now & Hc' & Hk' & Hv' & Hnow).
  assert (v' = v) as -> by congruence. assert (stem' = stem) as -> by (apply secrets_key_inj; congruence).
  assert (customer' = customer) as -> by (rewrite Hc' in Hc; by injection Hc).
  rewrite (payments_single r req v _ Hr Hs Hp Hk Hv).
  assert (e = gev (CountSpend (blob_key customer stem) (Z.to_N v) now) (Some Allow)) as ->.
  { apply (single_eq _ _ _ (proj1 (request_once r Hr))); apply list_elem_of_filter; (split; [|done]); [|done].
    destruct e as [X' [c' x']]. by destruct c'. }
  rewrite spend_charged_now in He. apply Z.eqb_eq in He. subst d. trans (Z.of_N (Z.to_N v)); [lia|].
  apply granted_elem; [done|]. apply list_elem_of_omap. eexists. split; [exact Hnow|done].
Qed.

(** C14: The x402 cap, end to end: every payment message a request sends to
    the enclave is one whose full value was charged on some day to the key that
    will sign it, and the values sent on one day for one tenant's key add up to
    at most the cap, over every interleaving, restart and disk failure. *)
Theorem gateway_payment_cap env cap fs tfs ops :
  from_env env = Ok (limits app) -> dry_run (limits app) = false -> paths_apart (limits app) = true ->
  x402_period_cap (limits app) = Some cap ->
  let rs := w_requests (wexec ops (wstart fs tfs)) in
  (forall r req, r ∈ rs -> sends r req -> is_payment req = true ->
     exists customer token stem value d, caller r = Some (customer, token) /\ vq_key_blob_s3_key req = Some (secrets_key stem) /\
       payment_value req = Some value /\ paid customer stem d r = value) /\
  (forall customer stem d, sum_Z (paid customer stem d <$> rs) <= cap).
Proof using DayStateLaws0 DayStateLaws1.
  intros He Hdry Hap Hcap rs. pose proof (winv_exec fs ops _ (winv_start fs tfs)) as Hw. split.
  - intros r req Hr%world_requests Hs Hp.
    destruct (payment_charged cap r req Hcap Hr Hs Hp) as (customer & token & stem & value & now & Hc & Hk & Hv & Hnow).
    exists customer, token, stem, value, (today now). split_and!; [done..|]. unfold paid. rewrite Hc, bool_decide_true by done.
    assert (existsb (spend_charged (blob_key customer stem) (today now)) (rq_calls r) = true) as ->.
    { apply existsb_exists. eexists. split; [apply list_elem_of_In, Hnow|]. by rewrite spend_charged_now, Z.eqb_refl. }
    by apply (payments_single r req).
  - intros customer stem d. trans (charged spend_charge (hex_encode (token_key (blob_key customer stem))) d rs).
    + pose proof (inv_requests _ _ Hw) as Hall. fold rs in Hall. clear -Hall Hcap. unfold charged. induction Hall as [|r rs' Hr Hrs IH]; [done|].
      rewrite fmap_cons, bind_cons, granted_app. cbn [sum_Z foldr]. pose proof (paid_le_granted cap r customer stem d Hcap Hr).
      unfold sum_Z in IH. lia.
    + etrans; [exact (inv_charges _ _ Hw _ _ _ d accounts_spends)|]. destruct (inv_limits _ _ Hw) as [lops Hl].
      change (w_events (wexec ops (wstart fs tfs))) with (fst (w_events (wexec ops (wstart fs tfs)), w_limits (wexec ops (wstart fs tfs)))).
      rewrite <- Hl. by eapply x402_spend_cap_spec.
Qed.

(** ** A stop holds for every request that comes after it *)

Context `{TL : !TenantSerdeLaws}.

(** Nobody lifts [customer]'s stop, and the process is not restarted while the
    tenant file is known to be behind. *)
Definition calm_step (customer : string) (op : wop) (w : World) : Prop :=
  match op with
  | WSwitch op => calm_op customer op (w_tenants w)
  | WRestart _ _ _ tio => calm_op customer (TRestart tio) (w_tenants w)
  | _ => True
  end.
Fixpoint calm_history (customer : string) (ops : list wop) (w : World) : Prop :=
  match ops with [] => True | op :: rest => calm_step customer op w /\ calm_history customer rest (wstep op w) end.

(** Every reading of the tenant's state among the calls is at least [n]. *)
Definition reads_at_least (n : Z) (customer : string) (r : Request) : Prop :=
  forall s, gev (StateOf customer) s ∈ rq_calls r -> n <= level s.

(** The stop, and that the requests from number [start] on have seen it. *)
Definition stopped_from (start : nat) (n : Z) (customer : string) (w : World) : Prop :=
  at_least tenants_path n customer (w_tenants w) /\ (start <= length (w_requests w))%nat /\
  forall i r, (start <= i)%nat -> w_requests w !! i = Some r -> reads_at_least n customer r.

Lemma at_least_down n customer b :
  at_least tenants_path n customer b -> (forall s fs, b = (Some s, fs) -> ts_durable s = true) ->
  at_least tenants_path n customer (None, snd b).
Proof using.
  destruct b as [[s|] fs]; cbn [at_least snd]; [|done]. intros [[_ Hd] Hn] Hdur. exists (ts_inner s).
  rewrite <- level_in_state. split; [by eapply Hd, Hdur|done].
Qed.

(** What a call reads of a stopped tenant's state. *)
Lemma wanswer_reads n customer o w X (c : gcall X) s : at_least tenants_path n customer (w_tenants w) -> n <= 2 ->
  gev c (fst (wanswer o w c)) = gev (StateOf customer) s -> n <= level s.
Proof using.
  intros Ha Hn Hc. apply (f_equal (fun e : gevent => match e with existT _ (c, x) =>
    match c in gcall X return X -> Prop with StateOf c => fun s => c = customer -> n <= level s | _ => fun _ => True end x end)) in Hc.
  cbn in Hc. assert (customer = customer -> n <= level s) as Hs; [|by apply Hs]. rewrite <- Hc. clear Hc.
  destruct c; try exact I. cbn. intros ->. destruct (w_tenants w) as [[st|] fs]; cbn [at_least fst] in *; [apply Ha|done].
Qed.

Lemma wstep_tenants op w : w_tenants (wstep op w) = w_tenants w \/
  (exists top, op = WSwitch top /\ w_tenants (wstep op w) = tstep tenants_path top (w_tenants w)) \/
  (exists now io io2 tio, op = WRestart now io io2 tio /\
     (w_tenants (wstep op w) = tstep tenants_path (TRestart tio) (w_tenants w) \/ w_tenants (wstep op w) = (None, snd (w_tenants w)))).
Proof using.
  destruct op as [header r|i o|i|t o|t|op|now io io2 tio]; cbn [wstep]; [| |by left|by left|by left| |]; try (destruct (negb (up w)); [by left|]).
  - by left.
  - left. destruct (w_requests w !! i) as [r|]; [|done]. unfold advance. destruct (rq_prog r) as [[|X c k]|]; try done. destruct (negb (ready w c)); [done|].
    destruct (wanswer_frame ∅ o w c) as (_ & Ht & _). by destruct (wanswer o w c).
  - destruct op; [right; left; eauto..|by left].
  - right. right. exists now, io, io2, tio. split; [done|]. unfold boot. destruct (set_limits _ _) as [d w']. cbn [w_tenants].
    destruct (decide _); [left|by right]. by destruct (w_tenants w) as [[s|] fs].
Qed.

Lemma wexec_honest ops : forall w, store_honest tenants_path (w_tenants w) -> store_honest tenants_path (w_tenants (wexec ops w)).
Proof using TL.
  induction ops as [|op ops IH]; intros w Hh; [done|]. apply (IH (wstep op w)).
  destruct (wstep_tenants op w) as [->|[(top & _ & ->)|(now & io & io2 & tio & _ & [->| ->])]]; [done|by apply tstep_honest..|done].
Qed.

Lemma stopped_tenants n customer op w : at_least tenants_path n customer (w_tenants w) -> calm_step customer op w ->
  at_least tenants_path n customer (w_tenants (wstep op w)).
Proof using TL.
  intros Ha Hc. destruct (wstep_tenants op w) as [->|[(top & -> & ->)|(now & io & io2 & tio & -> & [->| ->])]]; [done|by apply tstep_at_least..|].
  apply at_least_down; [done|]. intros s fs Hb. cbn [calm_step calm_op] in Hc. by rewrite Hb in Hc.
Qed.

(** How one step changes the list of requests, and what is read of a stop. *)
Lemma wstep_requests n customer op w : at_least tenants_path n customer (w_tenants w) -> n <= 2 ->
  (length (w_requests w) <= length (w_requests (wstep op w)))%nat /\
  forall i r', w_requests (wstep op w) !! i = Some r' ->
    (rq_calls r' = [] \/ exists r, w_requests w !! i = Some r /\
      (forall s, gev (StateOf customer) s ∈ rq_calls r' -> gev (StateOf customer) s ∈ rq_calls r \/ n <= level s)).
Proof using.
  intros Ha Hn. destruct (wstep_calls op w) as [Hlen Hcalls]. split; [done|]. intros i r' Hi.
  destruct (Hcalls i r' Hi) as [Hnil|(r & Hr & [He|(o & X & c & k & _ & _ & He)])]; [by left|right; exists r; split; [done|]..].
  - rewrite He. auto.
  - rewrite He. intros s [Hs|Hs]%elem_of_cons; [right|by left]. by apply (wanswer_reads n customer o w X c).
Qed.

Lemma stopped_step start n customer op w : n <= 2 -> stopped_from start n customer w -> calm_step customer op w ->
  stopped_from start n customer (wstep op w).
Proof using TL.
  intros Hn (Ha & Hl & Hr) Hc. destruct (wstep_requests n customer op w Ha Hn) as [Hlen Hcalls].
  split; [by apply stopped_tenants|]. split; [lia|]. intros i r' Hi Hr' s Hs.
  destruct (Hcalls i r' Hr') as [Hnil|(r & Hri & Hin)]; [rewrite Hnil in Hs; by apply not_elem_of_nil in Hs|].
  destruct (Hin s Hs) as [Hold|]; [|done]. by apply (Hr i r Hi Hri).
Qed.
Lemma stopped_exec start n customer ops : n <= 2 -> forall w, stopped_from start n customer w -> calm_history customer ops w ->
  stopped_from start n customer (wexec ops w).
Proof using TL.
  intros Hn. induction ops as [|op ops IH]; intros w Hw Hc; [done|]. destruct Hc as [H1' H2']. apply (IH (wstep op w)); [|done].
  by apply stopped_step.
Qed.

(** C15: A stop, end to end: take any history, and any moment at which the
    store holds [customer] stopped.  As long as no operator lifts that stop and
    the process is not restarted while its file is behind, no request that
    arrives later for that customer sends the enclave anything but cancels,
    reads and heartbeats (only heartbeats when halted), and none calls a
    venue, itself or by an execution it starts: whatever runs concurrently, and
    through restarts. *)
Theorem gateway_stop_holds fs tfs before after customer token s sfs i r req :
  let w := wexec before (wstart fs tfs) in
  w_tenants w = (Some s, sfs) -> calm_history customer after w ->
  w_requests (wexec after w) !! i = Some r -> (length (w_requests w) <= i)%nat -> caller r = Some (customer, token) ->
  (sends r req -> state_of s customer <> Active -> harmless req = true) /\
  (sends r req -> state_of s customer = Halted -> vq_action req = "receipt_heartbeat") /\
  (forall call, calls_venue (wexec after w) r call -> state_of s customer = Active).
Proof using TL.
  intros w Hb Hcalm Hi Hlen Hc. set (n := level (state_of s customer)).
  assert (stopped_from (length (w_requests w)) n customer (wexec after w)) as (_ & _ & Hreads).
  { apply stopped_exec; [by subst n; destruct (state_of s customer)| |done]. split; [|split; [done|]].
    - rewrite Hb. split; [|done]. pose proof (wexec_honest before (wstart fs tfs) I) as Hh. fold w in Hh. by rewrite Hb in Hh.
    - intros j r0 Hj Hr0. apply lookup_lt_Some in Hr0. lia. }
  specialize (Hreads i r Hlen Hi). subst n.
  assert (request_ok r) as Hok.
  { apply (world_requests fs tfs (before ++ after)). unfold wexec. rewrite foldl_app. by eapply list_elem_of_lookup_2. }
  assert (active customer (rq_calls r) -> state_of s customer = Active) as Hact.
  { intros Ha. specialize (Hreads _ Ha). destruct (state_of s customer); cbn in Hreads; [done|lia..]. }
  assert (sends r req -> message_ok app customer token (rq_calls r) req) as Hmsg.
  { intros Hs. destruct (request_sends r req Hok Hs) as (c' & t' & Hc' & Hm). rewrite Hc in Hc'. by injection Hc' as <- <-. }
  split_and!.
  - intros Hs Hst. destruct (Hmsg Hs) as (_ & _ & _ & Ha & _). destruct (harmless req) eqn:Eh; [done|].
    destruct Hst. by apply Hact, Ha.
  - intros Hs Hst. destruct (Hmsg Hs) as (_ & _ & _ & _ & Hh). destruct (decide (vq_action req = "receipt_heartbeat")) as [|Hne]; [done|].
    destruct (Hh Hne) as (s0 & Hs0 & Hseen). specialize (Hreads _ Hseen). rewrite Hst in Hreads. by destruct s0; cbn in Hreads.
  - intros call [[x Hx]|(ca & cb & t & tk & x & Hx & _)]; destruct (request_calls r _ _ _ Hok Hx) as (c' & t' & Hc' & Hcall); [done|].
    destruct Hcall as [Ha _]. rewrite Hc in Hc'. injection Hc' as <- <-. by apply Hact.
Qed.
End World.

(** ** Instances *)

#[local] Existing Instance demo_crates.
#[local] Existing Instance demo_limits_serde.
#[local] Existing Instance demo_daily_laws.
#[local] Existing Instance demo_spend_laws.
#[local] Existing Instance demo_tenant_serde.
#[local] Existing Instance demo_tenant_laws.
#[local] Instance demo_json_text : JsonText := fun _ => None.

Definition demo_app : AppConfig :=
  {| blobs := {[blob_key "fund-a" "okx" := "sealed-okx"; blob_key "fund-a" "payer" := "sealed-payer"]}; limits := demo_config;
     data_signing_token := None; app_env := fun _ => None |}.

(** An enclave that signs whatever it is asked. *)
Definition demo_response : VsockResponse :=
  {| vs_signature_base64 := ""; vs_headers := Some {["signature" := "0xsig"; "from" := "0xpayer"]}; vs_hl_signature := None;
     vs_error := None; vs_plaintext_sha256 := None; vs_plaintext_len := None; vs_canonical_body := Some "{}"; vs_attested := None;
     vs_attestation_document_b64 := None; vs_receipt := None; vs_heartbeat := Some JNull |}.
Definition demo_answer (X : Type) (c : gcall X) : X :=
  match c in gcall X return X with
  | NowSecs => 864100 | NowMs => 864100000
  | BlanketRate _ _ | OrdersRate _ _ | CancelsRate _ _ => CounterUnavailable
  | CountOrder _ _ | CountSpend _ _ _ => None
  | StateOf _ => Halted
  | GetCreds => Some {| access_key_id := "id"; secret_access_key := "secret"; session_token := "session" |}
  | BackoffAllow _ => true | BackoffSuccess _ | BackoffLimited _ => () | RoundTrip _ => Some demo_response
  | Archive _ _ => () | SignHealthView => (true, true, None) | SendVenue _ => () | VenueReply _ => VenueTransportError true "down"
  | Schedule => true | SpawnExecution _ _ => 0%nat | JoinExecution _ => None
  end.
Definition demo_oracle : Oracle := {| o_io := io_fine; o_instant := 0; o_task := TaskReturns; o_answer := demo_answer |}.

Definition demo_order : Route := ROkxOrder
  {| so_key_id := "okx"; so_order := {| oq_symbol := "BTC-USDT-SWAP"; oq_side := "buy"; oq_qty := "1"; oq_ord_type := "market";
       oq_price := None; oq_reduce_only := false; oq_client_order_id := None |}; so_timestamp_ms := None; so_intent_signature := None |}.
Definition demo_payment : Route := RSignX402
  {| x4_key_id := "payer"; x4_x402 := {| xq_token_name := "USDC"; xq_token_version := "2"; xq_chain_id := 8453; xq_token_address := "0xt";
       xq_from := "0xf"; xq_to := "0xd"; xq_value := "60"; xq_valid_after := 0; xq_valid_before := 900000; xq_nonce := "0x1" |} |}.

Definition bearer_a : option string := Some "Bearer tok-a".
Definition demo_boot : wop := WRestart 864000 io_fine io_fine io_fine.
(** Requests [ids] in lockstep, [n] calls each. *)
Definition lockstep (n : nat) (ids : list nat) : list wop := concat (replicate n ((fun i => WCall i demo_oracle) <$> ids)).
(** Three orders and two payments at once, a restart in the middle, another order. *)
Definition demo_history : list wop :=
  [demo_boot] ++ replicate 3 (WAccept bearer_a demo_order) ++ replicate 2 (WAccept bearer_a demo_payment) ++ lockstep 14 [0; 1; 2; 3; 4]%nat ++
  [demo_boot; WAccept bearer_a demo_order] ++ lockstep 14 [5]%nat.

Abbreviation demo_exec := (wexec demo_app demo_vars demo_auth "/state/tenants.json").

Lemma gateway_order_cap_witness : let rs := w_requests (demo_exec demo_history (wstart ∅ ∅)) in
  sent_order "tok-a" <$> rs = [true; true; false; false; false; false] /\
  Z.of_nat (length (filter (fun r => order_of_day "tok-a" 10 r = true) rs)) <= 2.
Proof.
  split; [vm_compute; reflexivity|].
  apply (gateway_order_cap demo_app demo_vars demo_auth "/state/tenants.json" demo_env 2 ∅ ∅ demo_history "tok-a");
    [exact demo_from_env|reflexivity|vm_compute; reflexivity|reflexivity].
Defined.

Lemma gateway_payment_cap_witness : let rs := w_requests (demo_exec demo_history (wstart ∅ ∅)) in
  paid demo_vars demo_auth "fund-a" "payer" 10 <$> rs = [0; 0; 0; 60; 0; 0] /\
  sum_Z (paid demo_vars demo_auth "fund-a" "payer" 10 <$> rs) <= 100.
Proof.
  split; [vm_compute; reflexivity|].
  apply (gateway_payment_cap demo_app demo_vars demo_auth "/state/tenants.json" demo_env 100 ∅ ∅ demo_history);
    [exact demo_from_env|reflexivity|vm_compute; reflexivity|reflexivity].
Defined.

Definition messages (r : Request) : list VsockRequest :=
  omap (fun e : gevent => match e with existT _ (RoundTrip req, _) => Some req | _ => None end) (rq_calls r).
Lemma messages_sends r req : req ∈ messages r -> sends r req.
Proof. intros (e & He & Hm)%list_elem_of_omap. destruct e as [X [c x]]. destruct c; try done. injection Hm as ->. by exists x. Qed.

Lemma gateway_own_identity_witness :
  match w_requests (demo_exec demo_history (wstart ∅ ∅)) !! 3%nat with
  | Some r => match messages r with
      | [req] => vq_action req = "sign_x402_eip3009" /\
          exists customer token, caller demo_vars demo_auth r = Some (customer, token) /\ own_credentials demo_app customer token req
      | _ => False
      end
  | None => False
  end.
Proof.
  assert ((fun r => vq_action <$> messages r) <$> w_requests (demo_exec demo_history (wstart ∅ ∅)) !! 3%nat = Some ["sign_x402_eip3009"]) as Hm
    by (vm_compute; reflexivity).
  destruct (w_requests (demo_exec demo_history (wstart ∅ ∅)) !! 3%nat) as [r|] eqn:Hr; [|discriminate Hm]. injection Hm as Hm.
  destruct (messages r) as [|req [|]] eqn:E; try discriminate Hm. injection Hm as Hm. split; [exact Hm|].
  apply (gateway_own_identity demo_app demo_vars demo_auth "/state/tenants.json" ∅ ∅ demo_history r req).
  - exact (list_elem_of_lookup_2 _ _ _ Hr).
  - apply messages_sends. rewrite E. by left.
Defined.

Lemma gateway_answers_honestly_witness :
  match w_requests (demo_exec demo_history (wstart ∅ ∅)) !! 5%nat with
  | Some r => match rq_prog r with
      | Some (GRet resp) => h_status resp = 429 /\ honest (rq_calls r) resp
      | _ => False
      end
  | None => False
  end.
Proof.
  assert ((fun r => match rq_prog r with Some (GRet resp) => h_status resp | _ => 0 end) <$>
    w_requests (demo_exec demo_history (wstart ∅ ∅)) !! 5%nat = Some 429) as Hm by (vm_compute; reflexivity).
  destruct (w_requests (demo_exec demo_history (wstart ∅ ∅)) !! 5%nat) as [r|] eqn:Hr; [|discriminate Hm]. injection Hm as Hm.
  destruct (rq_prog r) as [[resp|X c k]|] eqn:Hp; try discriminate Hm. split; [exact Hm|].
  apply (gateway_answers_honestly demo_app demo_vars demo_auth "/state/tenants.json" ∅ ∅ demo_history r resp);
    [exact (list_elem_of_lookup_2 _ _ _ Hr)|exact Hp].
Defined.

(** A halt between two batches of requests, a restart after it. *)
Definition demo_before : list wop :=
  [demo_boot; WAccept bearer_a demo_order] ++ lockstep 5 [0]%nat ++ [WSwitch (THalt "fund-a" "halted" "odd fills" 864050 io_fine)].
Definition demo_after : list wop :=
  [WAccept bearer_a demo_order; WAccept bearer_a (RHeartbeat "0123456789abcdef0123456789abcdef")] ++ lockstep 14 [0; 1; 2]%nat ++
  [demo_boot; WAccept bearer_a demo_payment] ++ lockstep 14 [3]%nat.

Lemma gateway_stop_holds_witness :
  (fun r => vq_action <$> messages r) <$> w_requests (demo_exec demo_after (demo_exec demo_before (wstart ∅ ∅))) =
    [["sign_okx_order"]; []; ["receipt_heartbeat"]; []] /\
  match w_requests (demo_exec demo_after (demo_exec demo_before (wstart ∅ ∅))) !! 2%nat with
  | Some r => forall req, req ∈ messages r -> vq_action req = "receipt_heartbeat"
  | None => False
  end.
Proof.
  split; [vm_compute; reflexivity|].
  assert (board_state (w_tenants (demo_exec demo_before (wstart ∅ ∅))) "fund-a" = Some Halted) as Hb by (vm_compute; reflexivity).
  assert (length (w_requests (demo_exec demo_before (wstart ∅ ∅))) = 1%nat) as Hl by (vm_compute; reflexivity).
  assert (calm_history demo_app demo_vars demo_auth "/state/tenants.json" "fund-a" demo_after (demo_exec demo_before (wstart ∅ ∅))) as Hc
    by (vm_compute; repeat split).
  assert (caller demo_vars demo_auth <$> w_requests (demo_exec demo_after (demo_exec demo_before (wstart ∅ ∅))) !! 2%nat =
    Some (Some ("fund-a", "tok-a"))) as Hca by (vm_compute; reflexivity).
  destruct (w_requests (demo_exec demo_after (demo_exec demo_before (wstart ∅ ∅))) !! 2%nat) as [r|] eqn:Hr; [|discriminate Hca].
  injection Hca as Hca. destruct (w_tenants (demo_exec demo_before (wstart ∅ ∅))) as [[s|] sfs] eqn:Ht; [|discriminate Hb].
  injection Hb as Hb. intros req Hreq.
  apply (gateway_stop_holds demo_app demo_vars demo_auth "/state/tenants.json" ∅ ∅ demo_before demo_after "fund-a" "tok-a" s sfs 2 r req Ht Hc Hr);
    [rewrite Hl; lia|exact Hca|by apply messages_sends|exact Hb].
Defined.
