(* ===== verification/GwExecution.v ===== *)
(** * Hedges in the running gateway (gateway/src/hedge.rs)

    The requests of [GwWorld] and the executions they spawn, together: whose an
    execution is, what it sends and when it ends whatever becomes of the request
    that started it, and what that request may say about it. *)

From S2P Require Import Prelude RustStr Crates Proto Venue GwProto GwHost GwLimits GwTenant GwAuth GwBackoff GwWire GwCalls GwHandlers GwHedge GwGates GwServe GwHedgeFacts GwPayments GwWorld.

Open Scope string_scope.
Open Scope list_scope.
Open Scope Z_scope.

Section Executions.
Context `{Crates, Cbor, JsonText, LimitsSerde, TenantSerde} (app : AppConfig) (vars : Vars) (auth : AuthState) (tenants_path : string).

(** ** One request *)

Lemma refusal_answers legs tr code : spawned tr = [] -> hedge_answer app legs tr (error_response code).
Proof using. intros Hs. unfold hedge_answer. by rewrite Hs. Qed.

(** The layers before the handler start nothing. *)
Lemma serve_hedge header legs :
  match require_bearer vars auth header with
  | None => True
  | Some (customer, token) =>
      gall (hedge_pre app token legs) (serve app vars auth header (RHedge legs)) [] (hedge_answer app legs)
  end.
Proof using.
  unfold serve. destruct (require_bearer vars auth header) as [[customer token]|]; [|done].
  unfold tenant_layer, rate_layer. cbn [gbind gask gall]. split; [exact I|]. intros s.
  assert (forall tr, spawned tr = [] -> gall (hedge_pre app token legs)
    (if negb (blanket_rate_active (limits_new (limits app))) then route_handler app (RHedge legs) customer token
     else now <<- gask NowSecs;; d <<- gask (BlanketRate token now);;
       match limit_response d with Some resp => GRet resp | None => route_handler app (RHedge legs) customer token end) tr (hedge_answer app legs)) as Hrate.
  { intros tr Htr. destruct (negb _); [by apply post_hedge_spec|]. cbn [gbind gask gall]. split; [exact I|]. intros now. split; [exact I|]. intros d.
    destruct (limit_response d) as [resp|] eqn:E; [|by apply post_hedge_spec]. cbn [gall]. unfold hedge_answer.
    change (spawned _) with (spawned tr). rewrite Htr. destruct d; [done|injection E as <-; exact I..]. }
  destruct (bool_decide _); [by apply Hrate|]. destruct (tenant_decide _ _); [by apply Hrate|]. by apply refusal_answers.
Qed.

Abbreviation request_ok := (request_ok app vars auth).
Abbreviation caller := (caller vars auth).

Lemma quiet_unspawned tr : lawful (quiet no_execution) tr -> spawned tr = [].
Proof using.
  induction tr as [|[X [c x]] tr IH]; cbn [lawful]; [done|]. intros [Hc Hl]. rewrite <- (IH Hl). apply spawned_cons.
  unfold quiet in Hc. cbn in Hc. destruct (task_call c); [|done]. by rewrite andb_comm in Hc.
Qed.

Lemma signed_for_cons token leg tr e c : signed_for app token leg tr c -> signed_for app token leg (e :: tr) c.
Proof using. exact (leg_signed_for_stable app token leg tr (e :: tr) (Ok c) (sub_cons tr e)). Qed.

(** Of a request: its executions are those of a hedge. *)
Lemma request_spawns r ca cb t : request_ok r -> gev (SpawnExecution ca cb) t ∈ rq_calls r ->
  exists customer token a b, caller r = Some (customer, token) /\ rq_route r = RHedge [a; b] /\ spawned (rq_calls r) = [(ca, cb, t)] /\
    signed_for app token a (rq_calls r) ca /\ signed_for app token b (rq_calls r) cb.
Proof using.
  intros Hok Hin. pose proof Hin as Hsp%spawned_seen. destruct (request_calls app vars auth r _ _ _ Hok Hin) as (customer & token & Hc & _).
  destruct Hok as (p & Hf & _). destruct (hedges (rq_route r)) eqn:Eh.
  2:{ destruct (gall_follows _ _ _ _ _ (serve_spawnless app vars auth (rq_header r) (rq_route r) Eh) Hf) as [_ Hl].
      rewrite (quiet_unspawned _ Hl) in Hsp. by apply not_elem_of_nil in Hsp. }
  destruct (rq_route r) as [| | | | | | | | | | | | | |legs|] eqn:Er; try discriminate Eh.
  pose proof (serve_hedge (rq_header r) legs) as Hs. unfold caller in Hc. rewrite Hc in Hs.
  destruct (gall_follows _ _ _ _ _ Hs Hf) as [_ Hl]. clear Hf Hs.
  assert (exists a b, legs = [a; b] /\ spawned (rq_calls r) = [(ca, cb, t)] /\
    signed_for app token a (rq_calls r) ca /\ signed_for app token b (rq_calls r) cb) as (a & b & -> & Hrest).
  { clear Hin. revert Hl Hsp. induction (rq_calls r) as [|[X [c x]] tr IH]; cbn [lawful]; [intros _ Hsp; by apply not_elem_of_nil in Hsp|].
    intros [Hp Hl] Hsp. change (existT X (c, x)) with (gev c x) in *. destruct (task_call c) eqn:Et.
    - destruct c; try discriminate Et.
      + destruct Hp as (Hnone & a & b & -> & Ha & Hb). exists a, b. unfold spawned in Hsp, Hnone |- *. cbn in Hsp |- *. rewrite Hnone in Hsp |- *.
        apply list_elem_of_singleton in Hsp. injection Hsp as -> -> ->. split_and!; [done|done|by apply signed_for_cons..].
      + change (spawned (gev (JoinExecution handle) x :: tr)) with (spawned tr) in *. destruct (IH Hl Hsp) as (a & b & -> & Hs & Ha & Hb).
        exists a, b. split_and!; [done|done|by apply signed_for_cons..].
    - rewrite spawned_cons in * by done. destruct (IH Hl Hsp) as (a & b & -> & Hs & Ha & Hb).
      exists a, b. split_and!; [done|done|by apply signed_for_cons..]. }
  by exists customer, token, a, b.
Qed.

(** ** The executions of a world *)

Definition task_ok (tk : Task) : Prop :=
  exists p, gfollows (hedge_execution app (fst (tk_legs tk)) (snd (tk_legs tk))) (tk_calls tk) p /\ (forall q, tk_prog tk = Some q -> q = p).

(** Requests by the calls they made, and executions: each execution is of one
    request, each start and each join speaks of an execution, which has ended
    where it was joined. *)
Record tasks_inv (cs : list (list gevent)) (ts : list Task) : Prop := {
  ti_ok : Forall task_ok ts;
  ti_owned t tk : ts !! t = Some tk -> exists i c, cs !! i = Some c /\ gev (SpawnExecution (fst (tk_legs tk)) (snd (tk_legs tk))) t ∈ c;
  ti_spawned i c ca cb t : cs !! i = Some c -> gev (SpawnExecution ca cb) t ∈ c -> tk_legs <$> ts !! t = Some (ca, cb);
  ti_once i j c c' ca cb ca' cb' t : cs !! i = Some c -> cs !! j = Some c' ->
    gev (SpawnExecution ca cb) t ∈ c -> gev (SpawnExecution ca' cb') t ∈ c' -> i = j;
  ti_joined i c t x : cs !! i = Some c -> gev (JoinExecution t) x ∈ c ->
    exists tk, ts !! t = Some tk /\ ended tk = true /\ x = task_result tk
}.

(** What may become of an execution. *)
Definition evolves (tk tk' : Task) : Prop :=
  tk_legs tk' = tk_legs tk /\ (task_ok tk -> task_ok tk') /\ (ended tk = true -> tk' = tk).

Lemma evolves_refl tk : evolves tk tk.
Proof using. by split_and!. Qed.
Lemma evolves_lose tk : evolves tk (lose tk).
Proof using.
  unfold lose. destruct (ended tk) eqn:E; [apply evolves_refl|]. split_and!; [done| |congruence].
  intros (p & Hf & _). by exists p.
Qed.
Lemma evolves_run o tk : evolves tk (run_task o tk).
Proof using.
  unfold run_task. destruct (tk_prog tk) as [[res|X c k]|] eqn:E; [apply evolves_refl| |apply evolves_refl].
  split_and!; [done| |unfold ended; by rewrite E]. intros (p & Hf & Hp). specialize (Hp _ E) as <-. eexists. split; [by constructor|].
  cbn. by intros q [= <-].
Qed.

Lemma tasks_evolve cs ts ts' : Forall2 evolves ts ts' -> tasks_inv cs ts -> tasks_inv cs ts'.
Proof using.
  intros Hev [Hok Hown Hsp Honce Hj]. split; [| | |done|].
  - clear - Hev Hok. induction Hev as [|tk tk' ts ts' (_ & Ho & _) _ IH]; [constructor|]. apply Forall_cons in Hok as [Htk Hts].
    constructor; [by apply Ho|by apply IH].
  - intros t tk' Ht. destruct (Forall2_lookup_r _ _ _ _ _ Hev Ht) as (tk & Htk & Hl & _). rewrite Hl. by apply Hown.
  - intros i c ca cb t Hi Hin. specialize (Hsp i c ca cb t Hi Hin). apply fmap_Some in Hsp as (tk & Htk & Hl).
    destruct (Forall2_lookup_l _ _ _ _ _ Hev Htk) as (tk' & -> & Hl' & _). cbn. by rewrite Hl', Hl.
  - intros i c t x Hi Hin. destruct (Hj i c t x Hi Hin) as (tk & Htk & He & ->).
    destruct (Forall2_lookup_l _ _ _ _ _ Hev Htk) as (tk' & Htk' & _ & _ & Hsame). rewrite (Hsame He) in Htk'. by exists tk.
Qed.

Lemma tasks_accept cs ts : tasks_inv cs ts -> tasks_inv (cs ++ [[]]) ts.
Proof using.
  intros [Hok Hown Hsp Honce Hj].
  assert (forall i c e, (cs ++ [[]]) !! i = Some c -> e ∈ c -> cs !! i = Some c) as Hold.
  { intros i c e [Hi|[_ Hi]]%lookup_app_Some He; [done|]. apply list_lookup_singleton_Some in Hi as [_ <-]. by apply not_elem_of_nil in He. }
  split; [done| |eauto..].
  intros t tk Ht. destruct (Hown t tk Ht) as (i & c & Hi & Hin). exists i, c. split; [|done]. by apply lookup_app_l_Some.
Qed.

(** What a request's next call adds. *)
Lemma insert_event (cs : list (list gevent)) i c e j c' e' : cs !! i = Some c -> <[i := e :: c]> cs !! j = Some c' -> e' ∈ c' ->
  (j = i /\ e' = e) \/ exists c0, cs !! j = Some c0 /\ e' ∈ c0.
Proof using.
  intros Hi Hj Hin. destruct (decide (i = j)) as [<-|Hne]; [|rewrite list_lookup_insert_ne in Hj by done; eauto].
  rewrite list_lookup_insert_eq in Hj by (by eapply lookup_lt_Some). injection Hj as <-. apply elem_of_cons in Hin as [->|Hin]; eauto.
Qed.
Lemma insert_keeps (cs : list (list gevent)) i c e j c0 e' : cs !! i = Some c -> cs !! j = Some c0 -> e' ∈ c0 ->
  exists c', <[i := e :: c]> cs !! j = Some c' /\ e' ∈ c'.
Proof using.
  intros Hi Hj Hin. destruct (decide (i = j)) as [<-|Hne]; [|rewrite list_lookup_insert_ne by done; eauto].
  eexists. rewrite list_lookup_insert_eq by (by eapply lookup_lt_Some). split; [done|]. right. by simplify_eq.
Qed.
Lemma event_spawn {X} (g : gcall X) x ca cb t : gev (SpawnExecution ca cb) t = gev g x -> spawn_event (gev g x) = Some (ca, cb, t).
Proof using. by intros <-. Qed.

(** A request makes a call that is neither a start nor a join. *)
Lemma tasks_call cs ts i c X (g : gcall X) x : cs !! i = Some c -> task_call g = false -> tasks_inv cs ts -> tasks_inv (<[i := gev g x :: c]> cs) ts.
Proof using.
  intros Hi Hg [Hok Hown Hsp Honce Hj].
  assert (forall j c' Y (g' : gcall Y) y, task_call g' = true -> <[i := gev g x :: c]> cs !! j = Some c' -> gev g' y ∈ c' ->
    exists c0, cs !! j = Some c0 /\ gev g' y ∈ c0) as Hold.
  { intros j c' Y g' y Hg' Hj' Hin. destruct (insert_event _ _ _ _ _ _ _ Hi Hj' Hin) as [[_ He]|]; [|done].
    exfalso. pose proof (f_equal (fun e : gevent => match e with existT _ (h, _) => task_call h end) He) as Hb. cbn in Hb. congruence. }
  split; [done| | | |].
  - intros t tk Ht. destruct (Hown t tk Ht) as (j & c' & Hj' & Hin). exists j. by eapply insert_keeps.
  - intros j c' ca cb t Hj' Hin. destruct (Hold _ _ _ (SpawnExecution ca cb) _ eq_refl Hj' Hin) as (c0 & Hc0 & Hin0). eauto.
  - intros j j' c1 c2 ca cb ca' cb' t Hj1 Hj2 Hin1 Hin2. destruct (Hold _ _ _ (SpawnExecution ca cb) _ eq_refl Hj1 Hin1) as (d1 & Hd1 & Hi1).
    destruct (Hold _ _ _ (SpawnExecution ca' cb') _ eq_refl Hj2 Hin2) as (d2 & Hd2 & Hi2). eauto.
  - intros j c' t y Hj' Hin. destruct (Hold _ _ _ (JoinExecution t) _ eq_refl Hj' Hin) as (c0 & Hc0 & Hin0). eauto.
Qed.

(** It starts an execution, whose handle is new. *)
Lemma tasks_spawn cs ts i c a b : cs !! i = Some c -> tasks_inv cs ts ->
  tasks_inv (<[i := gev (SpawnExecution a b) (length ts) :: c]> cs) (ts ++ [new_task app a b]).
Proof using.
  intros Hi [Hok Hown Hsp Honce Hj].
  assert (forall j c' ca cb t, cs !! j = Some c' -> gev (SpawnExecution ca cb) t ∈ c' -> (t < length ts)%nat) as Hlt.
  { intros j c' ca cb t Hj' Hin. specialize (Hsp _ _ _ _ _ Hj' Hin). apply fmap_Some in Hsp as (tk & Htk & _). by eapply lookup_lt_Some. }
  assert (forall j c' ca cb t, <[i := gev (SpawnExecution a b) (length ts) :: c]> cs !! j = Some c' -> gev (SpawnExecution ca cb) t ∈ c' ->
    (j = i /\ ca = a /\ cb = b /\ t = length ts) \/ (t < length ts)%nat /\ exists c0, cs !! j = Some c0 /\ gev (SpawnExecution ca cb) t ∈ c0) as Hold.
  { intros j c' ca cb t Hj' Hin. destruct (insert_event _ _ _ _ _ _ _ Hi Hj' Hin) as [[-> He%event_spawn]|(c0 & Hc0 & Hin0)]; [left|right].
    - cbn in He. injection He as -> -> ->. done.
    - split; [by eapply Hlt|]. by exists c0. }
  split.
  - apply Forall_app. split; [done|]. constructor; [|done]. eexists. split; [constructor|]. by intros q [= <-].
  - intros t tk [Ht|[Hlen Ht]]%lookup_app_Some.
    + destruct (Hown t tk Ht) as (j & c' & Hj' & Hin). exists j. by eapply insert_keeps.
    + apply list_lookup_singleton_Some in Ht as [Ht <-]. exists i. eexists. rewrite list_lookup_insert_eq by (by eapply lookup_lt_Some).
      split; [done|]. replace t with (length ts) by lia. by left.
  - intros j c' ca cb t Hj' Hin. destruct (Hold _ _ _ _ _ Hj' Hin) as [(-> & -> & -> & ->)|(Hl & c0 & Hc0 & Hin0)].
    + by rewrite lookup_app_r, Nat.sub_diag by lia.
    + rewrite lookup_app_l by done. eauto.
  - intros j j' c1 c2 ca cb ca' cb' t Hj1 Hj2 Hin1 Hin2.
    destruct (Hold _ _ _ _ _ Hj1 Hin1) as [(-> & -> & -> & ->)|(Hl & d1 & Hd1 & Hi1)], (Hold _ _ _ _ _ Hj2 Hin2) as [(-> & -> & -> & Ht)|(Hl' & d2 & Hd2 & Hi2)];
      [done|lia|lia|eauto].
  - intros j c' t x Hj' Hin. destruct (insert_event _ _ _ _ _ _ _ Hi Hj' Hin) as [[-> He]|(c0 & Hc0 & Hin0)].
    + exfalso. pose proof (f_equal (fun e : gevent => match e with existT _ (JoinExecution _, _) => true | _ => false end) He) as Hb. discriminate Hb.
    + destruct (Hj _ _ _ _ Hc0 Hin0) as (tk & Htk & Hrest). exists tk. split; [|done]. by apply lookup_app_l_Some.
Qed.

(** It awaits one that has ended. *)
Lemma tasks_join cs ts i c t tk : cs !! i = Some c -> ts !! t = Some tk -> ended tk = true -> tasks_inv cs ts ->
  tasks_inv (<[i := gev (JoinExecution t) (task_result tk) :: c]> cs) ts.
Proof using.
  intros Hi Ht He [Hok Hown Hsp Honce Hj].
  assert (forall j c' ca cb t', <[i := gev (JoinExecution t) (task_result tk) :: c]> cs !! j = Some c' -> gev (SpawnExecution ca cb) t' ∈ c' ->
    exists c0, cs !! j = Some c0 /\ gev (SpawnExecution ca cb) t' ∈ c0) as Hold.
  { intros j c' ca cb t' Hj' Hin. destruct (insert_event _ _ _ _ _ _ _ Hi Hj' Hin) as [[_ Hev%event_spawn]|]; [discriminate Hev|done]. }
  split; [done| | | |].
  - intros t' tk' Ht'. destruct (Hown t' tk' Ht') as (j & c' & Hj' & Hin). exists j. by eapply insert_keeps.
  - intros j c' ca cb t' Hj' Hin. destruct (Hold _ _ _ _ _ Hj' Hin) as (c0 & Hc0 & Hin0). eauto.
  - intros j j' c1 c2 ca cb ca' cb' t' Hj1 Hj2 Hin1 Hin2. destruct (Hold _ _ _ _ _ Hj1 Hin1) as (d1 & Hd1 & Hi1).
    destruct (Hold _ _ _ _ _ Hj2 Hin2) as (d2 & Hd2 & Hi2). eauto.
  - intros j c' t' x Hj' Hin. destruct (insert_event _ _ _ _ _ _ _ Hi Hj' Hin) as [[-> Hev]|(c0 & Hc0 & Hin0)]; [|eauto].
    pose proof (f_equal (fun e : gevent => match e with existT _ (d, y) => match d in gcall X return X -> option (nat * option ExecutionResult) with
      | JoinExecution h => fun y => Some (h, y) | _ => fun _ => None end y end) Hev) as Hb. cbn in Hb. injection Hb as -> ->. by exists tk.
Qed.

(** ** Histories *)

Definition calls_of (w : World) : list (list gevent) := rq_calls <$> w_requests w.
Abbreviation world_inv w := (tasks_inv (calls_of w) (w_tasks w)).
Abbreviation gateway_step := (wstep app vars auth tenants_path).
Abbreviation gateway_exec := (wexec app vars auth tenants_path).

Lemma wanswer_tasks o w X (c : gcall X) :
  w_tasks (snd (wanswer app o w c)) = match c with SpawnExecution a b => w_tasks w ++ [new_task app a b] | _ => w_tasks w end.
Proof using.
  assert (forall op, w_tasks (snd (set_limits app w op)) = w_tasks w) as Hset by (intros op; unfold set_limits; by destruct (gstep _ _ _)).
  destruct c; cbn [wanswer snd]; try done.
  1-3: unfold rate_check; match goal with |- context [set_limits app ?v ?op] => specialize (Hset op); destruct (set_limits app v op) end; exact Hset.
  1-2: unfold count_task; destruct (o_task o); [apply Hset|done|apply Hset].
  by destruct (allow _ _ _).
Qed.

Lemma same_calls w rs : rq_calls <$> rs = calls_of w -> world_inv w -> world_inv (set_requests w rs).
Proof using. intros He Hw. unfold calls_of. cbn [set_requests w_requests w_tasks]. by rewrite He. Qed.

Lemma evolve_world w ts : Forall2 evolves (w_tasks w) ts -> world_inv w -> world_inv (set_tasks w ts).
Proof using. intros He Hw. by eapply tasks_evolve. Qed.

Lemma evolve_alter f t ts : (forall tk, evolves tk (f tk)) -> Forall2 evolves ts (alter f t ts).
Proof using.
  intros Hf. apply Forall2_same_length_lookup_2; [by rewrite length_alter|]. intros j tk tk' Hj Hj'.
  destruct (decide (t = j)) as [->|Hne].
  - rewrite list_lookup_alter_eq, Hj in Hj'. injection Hj' as <-. apply Hf.
  - rewrite list_lookup_alter_ne, Hj in Hj' by done. injection Hj' as <-. apply evolves_refl.
Qed.

(** A join the request may make is one of an execution it started. *)
Lemma joined_known w i r t k : request_ok r -> w_requests w !! i = Some r -> rq_prog r = Some (GDo (JoinExecution t) k) ->
  world_inv w -> is_Some (w_tasks w !! t).
Proof using.
  intros Hok Hi Hp [_ _ Hsp _ _].
  assert (request_ok {| rq_header := rq_header r; rq_route := rq_route r; rq_calls := gev (JoinExecution t) None :: rq_calls r; rq_prog := Some (k None) |}) as Hok'
    by (by eapply request_ok_call).
  destruct (request_calls app vars auth _ _ (JoinExecution t) None Hok') as (customer & token & _ & (ca & cb & Hs)); [by left|].
  cbn [rq_calls] in Hs. apply elem_of_cons in Hs as [Hs%event_spawn|Hs]; [discriminate Hs|].
  specialize (Hsp i (rq_calls r) ca cb t). unfold calls_of in Hsp. rewrite list_lookup_fmap, Hi in Hsp.
  specialize (Hsp eq_refl Hs). apply fmap_Some in Hsp as (tk & Htk & _). by exists tk.
Qed.

Lemma advance_tasks o w i r : request_ok r -> w_requests w !! i = Some r -> world_inv w -> world_inv (advance app o w i r).
Proof using.
  intros Hok Hi Hw. unfold advance. destruct (rq_prog r) as [[|X c k]|] eqn:Hp; [done| |done].
  destruct (ready w c) eqn:Hready; cbn [negb]; [|done]. destruct (wanswer_frame app ∅ o w c) as (Hr & _). pose proof (wanswer_tasks o w X c) as Ht.
  destruct (wanswer app o w c) as [x w'] eqn:Ea; cbn [snd] in Hr, Ht. unfold calls_of. cbn [set_requests w_requests w_tasks].
  rewrite Hr, list_fmap_insert. cbn [rq_calls]. fold (calls_of w).
  assert (calls_of w !! i = Some (rq_calls r)) as Hci by (unfold calls_of; by rewrite list_lookup_fmap, Hi).
  assert (task_call c = false -> world_inv {| w_limits := w_limits w'; w_events := w_events w'; w_tenants := w_tenants w'; w_circuits := w_circuits w';
    w_requests := w_requests w; w_tasks := w_tasks w |} -> tasks_inv (<[i := gev c x :: rq_calls r]> (calls_of w)) (w_tasks w)) as Hplain.
  { intros Hc _. by apply tasks_call. }
  destruct c; rewrite Ht; try (apply tasks_call; [done|reflexivity|done]).
  - cbn [wanswer] in Ea. injection Ea as <- _. by apply tasks_spawn.
  - cbn [wanswer] in Ea. injection Ea as <- _. destruct (joined_known w i r handle k Hok Hi Hp Hw) as [tk Htk]. rewrite Htk. cbn [mbind option_bind].
    unfold ready in Hready. rewrite Htk in Hready. by apply tasks_join.
Qed.

Lemma boot_tasks w now io io2 tio : world_inv w -> world_inv (boot app tenants_path w now io io2 tio).
Proof using.
  intros Hw. unfold boot. destruct (set_limits app w _) as [d w']. unfold calls_of. cbn [w_requests w_tasks]. rewrite <- list_fmap_compose.
  change (rq_calls ∘ drop_request) with rq_calls. fold (calls_of w). eapply tasks_evolve; [|exact Hw].
  apply Forall2_fmap_r, Forall2_same_length_lookup_2; [done|]. intros j tk tk' Hj Hj'. simplify_eq. apply evolves_lose.
Qed.

Lemma step_tasks op w : Forall request_ok (w_requests w) -> world_inv w -> world_inv (gateway_step op w).
Proof using.
  intros Hok Hw. destruct op as [header r|i o|i|t o|t|op|now io io2 tio]; cbn [wstep]; try (destruct (negb (up w)); [done|]).
  - unfold calls_of. cbn [set_requests w_requests w_tasks]. rewrite fmap_app. by apply tasks_accept.
  - destruct (w_requests w !! i) as [r|] eqn:Hi; [|done]. apply advance_tasks; [by eapply Forall_lookup_1|done..].
  - apply same_calls; [|done]. apply list_eq. intros j. unfold calls_of. rewrite !list_lookup_fmap.
    destruct (decide (i = j)) as [->|Hne]; [rewrite list_lookup_alter_eq|by rewrite list_lookup_alter_ne]. by destruct (w_requests w !! j).
  - apply evolve_world; [|done]. apply evolve_alter. apply evolves_run.
  - apply evolve_world; [|done]. apply evolve_alter. apply evolves_lose.
  - by destruct op.
  - by apply boot_tasks.
Qed.

Lemma exec_tasks fs ops : forall w, winv app vars auth fs w -> world_inv w -> world_inv (gateway_exec ops w).
Proof using.
  induction ops as [|op ops IH]; intros w Hi Hw; [done|]. apply (IH (gateway_step op w)); [by apply winv_step|]. apply step_tasks; [apply Hi|done].
Qed.
Lemma world_tasks fs tfs ops : world_inv (gateway_exec ops (wstart fs tfs)).
Proof using.
  apply (exec_tasks fs); [apply winv_start|]. split; cbn; [constructor|..]; intros; try (by rewrite ?lookup_nil in *).
Qed.

(** ** An execution left alone *)

(** A step that does not make execution [t] panic, nor end the process. *)
Definition spares (t : nat) (op : wop) : Prop := match op with WPanic t' => t' <> t | WRestart _ _ _ _ => False | _ => True end.
Definition turn (t : nat) (op : wop) : bool := match op with WTask t' _ => bool_decide (t' = t) | _ => false end.
Definition turns (t : nat) (ops : list wop) : nat := length (filter (fun op => turn t op = true) ops).

Lemma advance_keeps_task o w i r t tk : w_tasks w !! t = Some tk -> w_tasks (advance app o w i r) !! t = Some tk.
Proof using.
  intros Ht. unfold advance. destruct (rq_prog r) as [[|X c k]|]; [done| |done]. destruct (negb (ready w c)); [done|].
  pose proof (wanswer_tasks o w X c) as Hts. destruct (wanswer app o w c) as [x w']. cbn [snd set_requests w_tasks] in *. rewrite Hts.
  destruct c; try done. by apply lookup_app_l_Some.
Qed.

Lemma spared_step op w t tk : spares t op -> w_tasks w !! t = Some tk ->
  exists tk', w_tasks (gateway_step op w) !! t = Some tk' /\ tk' = (if turn t op then match op with WTask _ o => run_task o tk | _ => tk end else tk).
Proof using.
  intros Hop Ht. eexists. split; [|reflexivity].
  destruct op as [header r|i o|i|t' o|t'|op|now io io2 tio]; cbn [wstep turn]; try (destruct (negb (up w)); [done|]); try done.
  - destruct (w_requests w !! i) as [r|]; [by apply advance_keeps_task|done].
  - cbn [set_tasks w_tasks]. case_bool_decide as E; [subst; by rewrite list_lookup_alter_eq, Ht|by rewrite list_lookup_alter_ne].
  - cbn [set_tasks w_tasks]. cbn in Hop. by rewrite list_lookup_alter_ne.
  - by destruct op.
Qed.

Lemma run_ends n o p tk : tk_prog tk = Some p -> ends_within p (S n) -> exists q, tk_prog (run_task o tk) = Some q /\ ends_within q n.
Proof using.
  intros Hp He. unfold run_task. rewrite Hp. destruct p as [res|X c k]; [by exists (GRet res)|]. cbn [tk_prog]. eexists. split; [reflexivity|]. apply He.
Qed.

(** Enough turns end it, whatever else happens. *)
Lemma spared_ends ops : forall n w t tk p, Forall (spares t) ops -> w_tasks w !! t = Some tk -> tk_prog tk = Some p -> ends_within p n ->
  (n <= turns t ops)%nat -> exists tk' res, w_tasks (gateway_exec ops w) !! t = Some tk' /\ tk_legs tk' = tk_legs tk /\ task_result tk' = Some res.
Proof using.
  assert (forall ops w t tk res, Forall (spares t) ops -> w_tasks w !! t = Some tk -> tk_prog tk = Some (GRet res) ->
    w_tasks (gateway_exec ops w) !! t = Some tk) as Hdone.
  { clear. induction ops as [|op ops IH]; intros w t tk res Hs Ht Hp; [done|]. apply Forall_cons in Hs as [Hop Hs].
    destruct (spared_step op w t tk Hop Ht) as (tk' & Ht' & He). apply (IH (gateway_step op w) t tk res Hs); [|done]. rewrite Ht', He. f_equal.
    destruct (turn t op); [|done]. destruct op; try done. unfold run_task. by rewrite Hp. }
  induction ops as [|op ops IH]; intros n w t tk p Hs Ht Hp He Hn.
  - destruct p as [res|X c k]; [exists tk, res; split_and!; [done..|unfold task_result; by rewrite Hp]|]. destruct n; [done|]. cbn in Hn. lia.
  - destruct p as [res|X c k].
    { exists tk, res. split_and!; [by eapply Hdone|done|unfold task_result; by rewrite Hp]. }
    apply Forall_cons in Hs as [Hop Hs]. destruct (spared_step op w t tk Hop Ht) as (tk' & Ht' & Htk').
    unfold turns in Hn. rewrite filter_cons in Hn. destruct (turn t op) eqn:Eturn.
    + rewrite decide_True in Hn by done. cbn [length] in Hn. destruct op as [| | |t' o| | |]; try discriminate Eturn.
      destruct n as [|n]; [done|]. destruct (run_ends n o _ tk Hp He) as (q & Hq & Hqe). rewrite <- Htk' in Hq.
      destruct (IH n (gateway_step (WTask t' o) w) t tk' q Hs Ht' Hq Hqe) as (tk2 & res & H1' & H2' & H3'); [unfold turns; lia|].
      exists tk2, res. split_and!; [done| |done]. rewrite H2', Htk'. unfold run_task. by rewrite Hp.
    + rewrite decide_False in Hn by done. subst tk'. exact (IH n (gateway_step op w) t tk _ Hs Ht' Hp He Hn).
Qed.

Lemma ends_within_more {A} (p : gprog A) : forall n m, (n <= m)%nat -> ends_within p n -> ends_within p m.
Proof using.
  induction p as [a|X c k IH]; [done|]. intros [|n] [|m] Hle; cbn; try done; [lia|]. intros Hk x. apply (IH x n); [lia|apply Hk].
Qed.
Lemma follows_ends {A} (p0 p : gprog A) tr n : gfollows p0 tr p -> ends_within p0 n -> ends_within p n.
Proof using.
  intros Hf Hn. induction Hf as [|tr X c k x Hf IH]; [done|]. cbn in IH. destruct n as [|n]; [done|]. apply (ends_within_more _ n); [lia|apply IH].
Qed.

(** Of an execution, by what it did so far. *)
Lemma task_spec tk : task_ok tk -> let '(ca, cb) := tk_legs tk in
  sent (tk_calls tk) ⊆+ [ca; cb] /\
  (forall res, task_result tk = Some res -> execution_truth app ca cb (tk_calls tk) res) /\
  (forall p, tk_prog tk = Some p -> ends_within p 7).
Proof using.
  intros (p & Hf & Hp). destruct (tk_legs tk) as [ca cb]; cbn [fst snd] in Hf.
  destruct (gall_follows _ _ _ _ _ (execution_spec app ca cb) Hf) as [Hq Hl]. split_and!.
  - by apply (execution_sent ca cb).
  - intros res Hr. unfold task_result in Hr. destruct (tk_prog tk) as [[res'|]|]; try discriminate Hr. injection Hr as ->.
    specialize (Hp _ eq_refl) as <-. exact Hq.
  - intros q Hq'. rewrite (Hp q Hq'). eapply follows_ends; [exact Hf|apply execution_ends].
Qed.

(** What the request that started execution [t] may answer. *)
Definition tells (tk : Task) (resp : Response) : Prop :=
  match task_result tk with
  | Some (status, la, lb) => h_status resp = 200 /\ h_body resp = HedgeResponse status [la; lb]
  | None => tk_prog tk = None /\ h_status resp = 500 /\ h_body resp = HedgeUnknown
  end.

(** C17: A hedge is all or nothing, up to a panic or the end of the process.
    In every history of requests, drops (client gone, 30 second limit), panics
    and restarts: venues are called only by executions; each execution was
    started by one hedge request, after the enclave signed both of its legs,
    and sends at most once each of exactly those two requests.  It depends on
    nothing but its own turns: however its request ends, seven turns finish it
    unless it panics or the process ends.  A finished one sent both, had both
    answers, and its report is true: "executed" when both venues accepted,
    "failed" when both refused, "unknown" when an answer leaves open whether an
    order was placed.  The request answers with that report; with 500 and
    nothing claimed exactly when the execution was lost, where one leg alone may
    be live; and otherwise it started no execution and says "rejected" or
    refuses. *)
Theorem hedge_all_or_nothing fs tfs ops :
  let w := gateway_exec ops (wstart fs tfs) in
  (forall r call x, r ∈ w_requests w -> gev (SendVenue call) x ∉ rq_calls r) /\
  (forall t tk ca cb, w_tasks w !! t = Some tk -> tk_legs tk = (ca, cb) ->
     (exists i r customer token a b, w_requests w !! i = Some r /\ rq_route r = RHedge [a; b] /\ caller r = Some (customer, token) /\
        spawned (rq_calls r) = [(ca, cb, t)] /\ signed_for app token a (rq_calls r) ca /\ signed_for app token b (rq_calls r) cb /\
        (forall j r' ca' cb', w_requests w !! j = Some r' -> (ca', cb', t) ∈ spawned (rq_calls r') -> j = i)) /\
     sent (tk_calls tk) ⊆+ [ca; cb] /\
     (forall res, task_result tk = Some res -> execution_truth app ca cb (tk_calls tk) res) /\
     (tk_prog tk <> None -> forall later, Forall (spares t) later -> (7 <= turns t later)%nat ->
        exists tk' res, w_tasks (gateway_exec later w) !! t = Some tk' /\ tk_legs tk' = (ca, cb) /\ task_result tk' = Some res)) /\
  (forall r legs resp, r ∈ w_requests w -> rq_route r = RHedge legs -> rq_prog r = Some (GRet resp) ->
     match spawned (rq_calls r) with
     | [] => match h_body resp with
             | HedgeResponse status _ => status = "rejected"
             | HedgeRefused hint => validate_hedge_shape app legs = Err hint
             | HedgeUnknown => False
             | _ => True
             end
     | [(ca, cb, t)] => exists tk, w_tasks w !! t = Some tk /\ tk_legs tk = (ca, cb) /\ tells tk resp
     | _ => False
     end).
Proof using.
  intros w. pose proof (world_requests app vars auth tenants_path fs tfs ops) as Hreq. fold w in Hreq.
  destruct (world_tasks fs tfs ops) as [Hok Hown Hsp Honce Hjoin]. fold w in Hok, Hown, Hsp, Honce, Hjoin.
  assert (forall i r, w_requests w !! i = Some r -> calls_of w !! i = Some (rq_calls r)) as Hcalls
    by (intros i r Hi; unfold calls_of; by rewrite list_lookup_fmap, Hi).
  split_and!.
  - intros r call x Hr Hin. by destruct (request_calls app vars auth r _ _ _ (Hreq r Hr) Hin) as (? & ? & _ & []).
  - intros t tk ca cb Ht Hl. pose proof (task_spec tk (Forall_lookup_1 _ _ _ _ Hok Ht)) as Hts. rewrite Hl in Hts. destruct Hts as (Hsent & Htruth & Hends).
    split_and!; [|done|done|].
    + destruct (Hown t tk Ht) as (i & c & Hi & Hin). rewrite Hl in Hin. cbn [fst snd] in Hin.
      unfold calls_of in Hi. apply list_lookup_fmap_Some in Hi as (r & -> & Hi).
      destruct (request_spawns r ca cb t (Hreq r (list_elem_of_lookup_2 _ _ _ Hi)) Hin) as (customer & token & a & b & Hc & Hr & Hs & Ha & Hb).
      exists i, r, customer, token, a, b. split_and!; try done. intros j r' ca' cb' Hj Hin'%spawned_seen. by eapply (Honce j i); [by apply Hcalls|by apply Hcalls|..].
    + intros Hp later Hspare Hturns. destruct (tk_prog tk) as [p|] eqn:Ep; [|done].
      rewrite <- Hl. by apply (spared_ends later 7 w t tk p); [..|by apply Hends|].
  - intros r legs resp [i Hi]%list_elem_of_lookup Hroute Hp. pose proof (Hreq r (list_elem_of_lookup_2 _ _ _ Hi)) as (p & Hf & Hpp).
    specialize (Hpp _ Hp) as <-. rewrite Hroute in Hf. pose proof (serve_hedge (rq_header r) legs) as Hs.
    destruct (require_bearer vars auth (rq_header r)) as [[customer token]|] eqn:Eb.
    2:{ unfold serve in Hf. rewrite Eb in Hf. apply gfollows_ret in Hf as [-> [= ->]]. done. }
    destruct (gall_follows _ _ _ _ _ Hs Hf) as [Hans _]. cbn [gall] in Hans. unfold hedge_answer in Hans.
    destruct (spawned (rq_calls r)) as [|[[ca cb] t] [|]] eqn:Es; [done| |done].
    assert (gev (SpawnExecution ca cb) t ∈ rq_calls r) as Hsin by (apply spawned_seen; rewrite Es; by left).
    pose proof (Hsp i _ ca cb t (Hcalls i r Hi) Hsin) as Htk. apply fmap_Some in Htk as (tk & Htk & Hl). exists tk. split; [done|]. split; [done|].
    unfold tells. destruct Hans as [(status & la & lb & Hj & Hst & Hb)|(Hj & Hst & Hb)];
      destruct (Hjoin i _ t _ (Hcalls i r Hi) Hj) as (tk' & Htk' & Hended & Hres); rewrite Htk in Htk'; injection Htk' as <-; rewrite <- Hres; [done|].
    split; [|done]. unfold task_result in Hres. unfold ended in Hended. by destruct (tk_prog tk) as [[]|].
Qed.
End Executions.

(** ** A hedge whose client hangs up *)

#[local] Existing Instance demo_crates.
#[local] Existing Instance demo_limits_serde.
#[local] Existing Instance demo_tenant_serde.
#[local] Existing Instance demo_json_text.

Definition demo_leg (symbol side : string) : HedgeLegSpec :=
  {| hl_key_id := "okx"; hl_venue := None;
     hl_order := {| oq_symbol := symbol; oq_side := side; oq_qty := "1"; oq_ord_type := "market"; oq_price := None; oq_reduce_only := false;
                    oq_client_order_id := None |} |}.
Definition demo_hedge : Route := RHedge [demo_leg "BTC-USDT-SWAP" "buy"; demo_leg "ETH-USDT-SWAP" "sell"].

(** The legs are signed and the execution started; then the request is dropped. *)
Definition demo_hang_up : list wop := [demo_boot; WAccept bearer_a demo_hedge] ++ lockstep 23 [0%nat] ++ [WDrop 0].
Definition demo_turns : list wop := replicate 7 (WTask 0 demo_oracle).
Definition demo_dropped : World := wexec demo_app demo_vars demo_auth "/state/tenants.json" demo_hang_up (wstart ∅ ∅).

Lemma hedge_all_or_nothing_witness :
  match w_requests demo_dropped with [r] => bool_decide (length (spawned (rq_calls r)) = 1%nat) && negb (bool_decide (is_Some (rq_prog r))) | _ => false end = true /\
  exists tk res, w_tasks (wexec demo_app demo_vars demo_auth "/state/tenants.json" demo_turns demo_dropped) !! 0%nat = Some tk /\ task_result tk = Some res.
Proof.
  split; [vm_compute; reflexivity|].
  assert (match w_tasks demo_dropped !! 0%nat with Some tk => bool_decide (is_Some (tk_prog tk)) | None => false end = true) as Hrun by (vm_compute; reflexivity).
  destruct (w_tasks demo_dropped !! 0%nat) as [tk|] eqn:Ht; [|discriminate Hrun]. apply bool_decide_eq_true in Hrun as [p Hp].
  destruct (tk_legs tk) as [ca cb] eqn:Hl.
  destruct (hedge_all_or_nothing demo_app demo_vars demo_auth "/state/tenants.json" ∅ ∅ demo_hang_up) as (_ & Hex & _).
  destruct (Hex 0%nat tk ca cb Ht Hl) as (_ & _ & _ & Hlive).
  destruct (Hlive ltac:(rewrite Hp; discriminate) demo_turns) as (tk' & res & Htk' & _ & Hres);
    [apply Forall_replicate; exact I|vm_compute; lia|]. exists tk', res. split; [exact Htk'|exact Hres].
Defined.
