(* ===== verification/GwAnswers.v ===== *)
(** * What a success of the gateway says

    A postcondition of the routes that place orders and authorise payments,
    for every answer of the shared state: an HTTP 200 is made of the enclave's
    error-free answer to the one message described here, and of nothing else. *)

From S2P Require Import Prelude RustStr Crates Proto GwProto GwHost GwLimits GwTenant GwAuth GwWire GwCalls GwHandlers GwHedge GwGates GwServe.

Open Scope string_scope.
Open Scope list_scope.
Open Scope Z_scope.

(** ** Orders *)

(** Route, enclave action and signed path of the structured orders. *)
Definition order_route (r : Route) : option (string * string * SignOrderRequest) :=
  match r with
  | RBinanceOrder req => Some ("sign_binance_order", "/fapi/v1/order", req)
  | RBinanceSpotOrder req => Some ("sign_binance_order", BINANCE_SPOT_ORDER_PATH, req)
  | ROkxOrder req => Some ("sign_okx_order", "/api/v5/trade/order", req)
  | _ => None
  end.

Section Answers.
Context `{Crates, Cbor, JsonText} (app : AppConfig).

(** What is made of the signed order. *)
Definition order_finish (r : Route) : string * Headers * option json -> gprog Response :=
  match r with
  | RBinanceOrder _ => binance_post (binance_base_url (app_env app) +:+ "/fapi/v1/order")
  | RBinanceSpotOrder _ => binance_post (binance_spot_base_url (app_env app) +:+ BINANCE_SPOT_ORDER_PATH)
  | _ => okx_post app "/api/v5/trade/order"
  end.

(** No call is forbidden: only the end is of interest. *)
Definition ends {A} (p : gprog A) (tr : list gevent) (Q : list gevent -> A -> Prop) : Prop :=
  gall (fun _ _ _ => True) p tr (fun tr' a => tr ⊆ tr' /\ Q tr' a).

Lemma ends_bind {A B} (p : gprog A) (f : A -> gprog B) tr Q R :
  ends p tr R -> (forall tr' a, tr ⊆ tr' -> R tr' a -> ends (f a) tr' Q) -> ends (gbind p f) tr Q.
Proof using.
  intros Hp Hf. apply gall_bind. eapply gall_mono; [exact Hp|]. intros tr' a [Hs Ha].
  eapply gall_mono; [by apply Hf|]. intros tr'' b [Hs' Hb]. split; [by etrans|done].
Qed.
Lemma ends_ret {A} (a : A) tr (Q : list gevent -> A -> Prop) : Q tr a -> ends (GRet a) tr Q.
Proof using. by split. Qed.
Lemma ends_any {A} (p : gprog A) tr : ends p tr (fun _ _ => True).
Proof using.
  unfold ends. revert tr. induction p as [a|X c k IH]; intros tr; cbn; [done|]. split; [done|]. intros x.
  eapply gall_mono; [apply IH|]. intros tr' a [Hs _]. split; [|done]. etrans; [apply sub_cons|exact Hs].
Qed.
Lemma ends_ask {X} (c : gcall X) tr : ends (gask c) tr (fun tr' x => tr' = gev c x :: tr).
Proof using. cbn. split; [done|]. intros x. split; [apply sub_cons|done]. Qed.
Lemma ends_mono {A} (p : gprog A) tr (Q R : list gevent -> A -> Prop) :
  ends p tr Q -> (forall tr' a, tr ⊆ tr' -> Q tr' a -> R tr' a) -> ends p tr R.
Proof using. intros Hp Hr. eapply gall_mono; [exact Hp|]. intros tr' a [Hs Hq]. auto. Qed.

(** Not a success. *)
Definition declined (resp : Response) : Prop := h_status resp <> 200.
Lemma error_declined code : http_status_for code <> 200.
Proof using. unfold http_status_for, arm. by repeat case_decide. Qed.
Lemma limit_declined d resp : limit_response d = Some resp -> declined resp.
Proof using. by destruct d; intros [= <-]. Qed.

Lemma refusal_declined scope code receipt tr : ends (enclave_refusal scope code receipt) tr (fun _ resp => declined resp).
Proof using.
  unfold enclave_refusal. cbv zeta. case_decide; [|apply ends_ret, error_declined].
  eapply ends_bind; [apply ends_any|]. intros tr' a _ _. apply ends_ret, error_declined.
Qed.

(** A signed order is taken from an answer without an error. *)
Lemma structured_answer_ends customer scope v tr :
  ends (structured_answer customer scope v) tr (fun _ r => match r with
    | Err resp => declined resp
    | Ok (canonical, headers, _) => vs_error v = None /\ vs_canonical_body v = Some canonical /\ is_empty canonical = false /\
        headers = default ∅ (vs_headers v)
    end).
Proof using.
  unfold structured_answer. eapply ends_bind; [apply ends_any|]. intros tr1 receipt _ _. destruct (vs_error v) as [code|].
  { eapply ends_bind; [apply refusal_declined|]. intros tr2 resp _ Hd. by apply ends_ret. }
  destruct (vs_canonical_body v) as [canonical|]; [|apply ends_ret, error_declined].
  destruct (is_empty canonical) eqn:Hc; [apply ends_ret, error_declined|].
  eapply ends_bind; [apply ends_any|]. intros tr2 a _ _. by apply ends_ret.
Qed.

(** The order was sent with the caller's token and a key of the tenant, and the
    enclave answered it with this body and these headers. *)
Definition order_exchanged (customer token : string) (line : string * string * SignOrderRequest) (tr : list gevent)
    (canonical : string) (headers : Headers) : Prop :=
  let '(action, path, req) := line in
  exists blob creds ts v,
    blobs app !! blob_key customer (so_key_id req) = Some blob /\
    (forall t, so_timestamp_ms req = Some t -> ts = t) /\
    seen tr (RoundTrip (structured_request action "POST" path token (so_key_id req) blob creds ts
      (Some (order_to_value (normalize_order_case (so_order req)))) None (order_intent req))) (Some v) /\
    vs_error v = None /\ vs_canonical_body v = Some canonical /\ is_empty canonical = false /\ headers = default ∅ (vs_headers v).

Lemma order_request_ends customer token action path req tr :
  ends (sign_structured_request app customer token (so_key_id req) action "POST" path
      (order_payload (normalize_order_case (so_order req))) (order_intent req)) tr
    (fun tr' r => match r with
      | Err resp => declined resp
      | Ok (canonical, headers, _) => order_exchanged customer token (action, path, req) tr' canonical headers
      end).
Proof using.
  unfold sign_structured_request. destruct (negb _); [apply ends_ret, error_declined|].
  destruct (blobs app !! _) as [blob|] eqn:Hb; [|apply ends_ret, error_declined].
  eapply ends_bind; [apply ends_any|]. intros tr1 allowed _ _. destruct (negb allowed); [apply ends_ret, error_declined|].
  eapply ends_bind; [apply ends_any|]. intros tr2 [creds|] _ _; [|apply ends_ret, error_declined].
  change (split_structured _) with (Some (Some (order_to_value (normalize_order_case (so_order req))), @None json)). cbv iota.
  eapply (ends_bind _ _ _ _ (fun _ ts => forall t, so_timestamp_ms req = Some t -> ts = t)).
  { cbn [order_intent af_timestamp_ms]. destruct (so_timestamp_ms req) as [t|]; [apply ends_ret; by intros ? [= <-]|].
    eapply ends_mono; [apply ends_any|]. done. }
  intros tr3 ts _ Hts. eapply ends_bind; [apply ends_ask|]. intros tr4 [v|] _ ->; [|apply ends_ret, error_declined].
  eapply ends_mono; [apply structured_answer_ends|]. intros tr5 [[[canonical headers] receipt]|resp] Hsub Hr; [|exact Hr].
  exists blob, creds, ts, v. split; [done|]. split; [done|]. split; [|exact Hr]. by apply Hsub, seen_now.
Qed.

(** The whole of an order route's success. *)
Definition order_answered (customer token : string) (r : Route) (tr : list gevent) (resp : Response) : Prop :=
  h_status resp = 200 -> forall line, order_route r = Some line -> exists canonical headers receipt,
    order_exchanged customer token line tr canonical headers /\ order_finish r (canonical, headers, receipt) = GRet resp.

Lemma declined_answered customer token r tr resp : declined resp -> order_answered customer token r tr resp.
Proof using. intros Hd Hs. by destruct Hd. Qed.

Lemma gated_ends gate k tr Q :
  (forall tr resp, declined resp -> Q tr resp) -> ends gate tr (fun _ r => forall resp, r = Some resp -> declined resp) ->
  (forall tr', ends k tr' Q) -> ends (gated gate k) tr Q.
Proof using.
  intros HQ Hg Hk. unfold gated. eapply ends_bind; [exact Hg|]. intros tr1 [resp|] _ Hr; [|apply Hk]. apply ends_ret, HQ. by apply Hr.
Qed.

Lemma order_gate_declines token tr : ends (order_gate app token) tr (fun _ r => forall resp, r = Some resp -> declined resp).
Proof using.
  unfold order_gate. do 2 (eapply ends_bind; [apply ends_any|]; intros ? ? _ _).
  destruct (limit_response _) as [resp|] eqn:E; [apply ends_ret; intros ? [= <-]; by eapply limit_declined|].
  destruct (negb _); [by apply ends_ret|]. do 2 (eapply ends_bind; [apply ends_any|]; intros ? ? _ _).
  apply ends_ret. intros resp Hr. by eapply limit_declined.
Qed.

(** Whatever the finisher makes, it makes it without another call. *)
Lemma finish_returns r signed : exists resp, order_finish r signed = GRet resp.
Proof using.
  destruct signed as [[canonical headers] receipt]. destruct r; cbn [order_finish]; try (by eexists); unfold binance_post;
    destruct (build_binance_signed_qs canonical headers) as [[body hs]|]; by eexists.
Qed.

Lemma order_body_ends customer token r action path req tr : order_route r = Some (action, path, req) ->
  ends (gated (order_gate app token) (or_return (sign_structured_request app customer token (so_key_id req) action "POST" path
      (order_payload (normalize_order_case (so_order req))) (order_intent req)) (order_finish r))) tr
    (order_answered customer token r).
Proof using.
  intros Hr. apply gated_ends; [apply declined_answered|apply order_gate_declines|]. intros tr1. unfold or_return.
  eapply ends_bind; [apply order_request_ends|]. intros tr2 [[[canonical headers] receipt]|resp] _ Hx; [|by apply ends_ret, declined_answered].
  destruct (finish_returns r (canonical, headers, receipt)) as [resp Hf]. rewrite Hf. apply ends_ret. intros _ line Hl.
  rewrite Hr in Hl. injection Hl as <-. by exists canonical, headers, receipt.
Qed.

Lemma route_handler_ends customer token r tr : is_Some (order_route r) ->
  ends (route_handler app r customer token) tr (order_answered customer token r).
Proof using.
  intros [line Hr]. destruct r as [| | | | | | |req| | |req| |req| | |]; try discriminate Hr; cbn [route_handler].
  - exact (order_body_ends customer token (RBinanceOrder req) _ _ req tr eq_refl).
  - unfold post_sign_binance_spot_order. cbv zeta. destruct (oq_reduce_only _); [apply ends_ret, declined_answered, error_declined|].
    exact (order_body_ends customer token (RBinanceSpotOrder req) _ _ req tr eq_refl).
  - exact (order_body_ends customer token (ROkxOrder req) _ _ req tr eq_refl).
Qed.

(** The layers before the handler can only decline. *)
Lemma layers_end r customer token tr (Q : list gevent -> Response -> Prop) :
  (forall tr resp, declined resp -> Q tr resp) -> (forall tr, ends (route_handler app r customer token) tr Q) ->
  ends (tenant_layer customer (route_line r) (rate_layer app token (route_handler app r customer token))) tr Q.
Proof using.
  intros HQ Hh. unfold tenant_layer. eapply ends_bind; [apply ends_any|]. intros tr1 s _ _.
  assert (forall tr, ends (rate_layer app token (route_handler app r customer token)) tr Q) as Hrate.
  { intros tr2. unfold rate_layer. destruct (negb _); [apply Hh|].
    do 2 (eapply ends_bind; [apply ends_any|]; intros ? ? _ _).
    destruct (limit_response _) as [resp|] eqn:E; [|apply Hh]. apply ends_ret, HQ. by eapply limit_declined. }
  destruct (bool_decide _); [apply Hrate|]. destruct (tenant_decide _ _); [apply Hrate|]. apply ends_ret, HQ, error_declined.
Qed.

(** ** Payments *)

(** The payment was sent with the caller's token and a key of the tenant, and
    the client gets the two fields of the enclave's answer. *)
Definition payment_answered (customer token : string) (req : SignX402Request) (tr : list gevent) (resp : Response) : Prop :=
  h_status resp = 200 -> exists blob creds now v signature from receipt,
    blobs app !! blob_key customer (x4_key_id req) = Some blob /\
    seen tr (RoundTrip (key_request "sign_x402_eip3009" token (x4_key_id req) blob creds (Some now)
      (Some (x402_to_value (x4_x402 req))) None None None)) (Some v) /\
    vs_error v = None /\ default ∅ (vs_headers v) !! "signature" = Some signature /\ default ∅ (vs_headers v) !! "from" = Some from /\
    h_body resp = SignX402Response signature from receipt.

Lemma declined_payment customer token req tr resp : declined resp -> payment_answered customer token req tr resp.
Proof using. intros Hd Hs. by destruct Hd. Qed.

Lemma two_headers_ends customer scope mk v tr :
  ends (two_headers_answer customer scope "signature" "from" mk v) tr (fun _ resp => declined resp \/
    exists signature from receipt, vs_error v = None /\ default ∅ (vs_headers v) !! "signature" = Some signature /\
      default ∅ (vs_headers v) !! "from" = Some from /\ h_body resp = mk signature from receipt).
Proof using.
  unfold two_headers_answer. eapply ends_bind; [apply ends_any|]. intros tr1 receipt _ _. destruct (vs_error v) as [code|].
  { eapply ends_mono; [apply refusal_declined|]. auto. }
  cbv zeta. destruct (_ !! "signature") as [signature|]; [|apply ends_ret; left; apply error_declined].
  destruct (_ !! "from") as [from|]; [|apply ends_ret; left; apply error_declined].
  eapply ends_bind; [apply ends_any|]. intros tr2 a _ _. apply ends_ret. right. by exists signature, from, receipt.
Qed.

Lemma spend_gate_declines scope value tr : ends (x402_spend_gate app scope value) tr (fun _ r => forall resp, r = Some resp -> declined resp).
Proof using.
  unfold x402_spend_gate. destruct (negb _); [by apply ends_ret|]. do 2 (eapply ends_bind; [apply ends_any|]; intros ? ? _ _).
  apply ends_ret. intros resp Hr. by eapply limit_declined.
Qed.

Lemma post_sign_x402_ends customer token req tr :
  ends (post_sign_x402 app customer token req) tr (payment_answered customer token req).
Proof using.
  assert (forall tr resp, declined resp -> payment_answered customer token req tr resp) as HQ by (intros; by apply declined_payment).
  unfold post_sign_x402. destruct (negb _); [apply ends_ret, HQ, error_declined|]. cbv zeta.
  destruct (blobs app !! _) as [blob|] eqn:Hb; [|apply ends_ret, HQ, error_declined].
  destruct (parse_unsigned _ _) as [value|]; [|apply ends_ret, HQ, error_declined].
  apply gated_ends; [exact HQ|apply spend_gate_declines|]. intros tr1.
  eapply ends_bind; [apply ends_any|]. intros tr2 [creds|] _ _; [|apply ends_ret, HQ, error_declined].
  eapply ends_bind; [apply ends_any|]. intros tr3 now _ _.
  eapply ends_bind; [apply ends_any|]. intros tr4 allowed _ _. destruct (negb allowed); [apply ends_ret, HQ, error_declined|].
  eapply ends_bind; [apply ends_ask|]. intros tr5 [v|] _ ->; [|apply ends_ret, HQ, error_declined].
  eapply ends_mono; [apply two_headers_ends|]. intros tr6 resp Hsub [Hd|(signature & from & receipt & He & Hs & Hf & Hbody)]; [by apply HQ|].
  intros _. exists blob, creds, now, v, signature, from, receipt. split; [done|]. split; [by apply Hsub, seen_now|done].
Qed.
End Answers.
