(* ===== verification/System.v ===== *)
(** * Gateway and enclave together

    The two machines as one transition system: the gateway takes the steps of
    [GwWorld], the enclave those of [Program], and a round trip of the gateway
    that succeeds brings back what a finished request of the enclave answered,
    through the frames of [Framing].  Anybody who reaches the enclave's socket
    may add requests of their own, and the enclave may be restarted at any time. *)

From S2P Require Import Prelude RustStr Crates Decimal Proto DateTime Venue Jcs Evm Ledger Registry Intent.
From S2P Require Import PolicyGate Caps Generic Asterdex Allowance Stores DekCache Limiter Eip712 Receipt.
From S2P Require Import Program Handler Enclave Scenario GwProto GwWire Framing.
From S2P Require Import GwHost GwLimits GwTenant GwAuth GwBackoff GwCalls GwHandlers GwHedge GwGates GwServe GwAnswers GwHandoff GwPayments GwWorld.

Open Scope string_scope.
Open Scope list_scope.
Open Scope Z_scope.

(** ** The two sides' types *)

(** The enclave's reading of the gateway's typed parameters. *)
Definition order_read (o : OrderParams) : OrderRequest :=
  {| o_symbol := oq_symbol o; o_side := oq_side o; o_qty := oq_qty o; o_ord_type := oq_ord_type o; o_price := oq_price o;
     o_reduce_only := oq_reduce_only o; o_client_order_id := oq_client_order_id o |}.
Definition x402_read (x : X402Params) : X402Request :=
  {| x_token_name := xq_token_name x; x_token_version := xq_token_version x; x_chain_id := xq_chain_id x;
     x_token_address := xq_token_address x; x_from := xq_from x; x_to := xq_to x; x_value := xq_value x;
     x_valid_after := xq_valid_after x; x_valid_before := xq_valid_before x; x_nonce := xq_nonce x |}.

(** The enclave read the gateway's message field by field. *)
Record request_read (q : VsockRequest) (s : SignRequest) : Prop := {
  rd_action : r_action s = vq_action q;
  rd_version : r_proto_version s = vq_proto_version q;
  rd_token : r_opaque_token s = vq_opaque_token q;
  rd_timestamp : r_timestamp_ms s = vq_timestamp_ms q;
  rd_blob : r_ciphertext_blob_base64 s = vq_ciphertext_blob_base64 q;
  rd_intent : r_intent_signature s = vq_intent_signature q;
  rd_order o : vq_order q = Some (order_to_value o) -> r_order s = Some (order_read o);
  rd_x402 x : vq_x402 q = Some (x402_to_value x) -> r_x402 s = Some (x402_read x)
}.
(** And the gateway the enclave's answer. *)
Record response_read (resp : SignResponse) (v : VsockResponse) : Prop := {
  rd_error : vs_error v = s_error resp;
  rd_headers : vs_headers v = s_headers resp;
  rd_canonical : vs_canonical_body v = s_canonical_body resp
}.

(** serde on both ends of the channel: a field is read as the field of its name
    was written. *)
Class ChannelLaws `{ChannelSerde} : Prop := {
  request_roundtrip q body s : vsock_request_to_vec q = Some body -> sign_request_of_slice body = Some s -> request_read q s;
  response_roundtrip resp answer v : sign_response_to_vec resp = Some answer -> vsock_response_of_slice answer = Some v -> response_read resp v
}.

(** ** The joint system *)

Record Joint := { j_world : World; j_enclave : Config }.

(** What the enclave has answered, or answers itself, to this message. *)
Definition relayed `{ChannelSerde} (cf : Config) (q : VsockRequest) (v : VsockResponse) : Prop :=
  exists handler, round_trip (handle_connection handler) q = Some v /\
    forall body sreq, vsock_request_to_vec q = Some body -> sign_request_of_slice body = Some sreq ->
      (sreq, Ret (handler sreq)) ∈ cf_threads cf.

Section System.
Context `{Crates, RegistryEnv, ReceiptEnv, Kms, PolicyEnv, BlobSerde, HandlerSerde, Msgpack} {SL : SizeLaws}.
Context `{Cbor, JsonText, LimitsSerde, TenantSerde, ChannelSerde} {CL : ChannelLaws}.
Context (limiter : RateLimiter) (app : AppConfig) (vars : Vars) (auth : AuthState) (tenants_path : string).

Abbreviation gateway_step := (wstep app vars auth tenants_path).

(** A step of the gateway whose round trip, if it makes one that succeeds, is
    answered by the enclave. *)
Definition carried (op : wop) (j : Joint) : Prop :=
  match op with
  | WCall i o => forall r q k v, w_requests (j_world j) !! i = Some r -> rq_prog r = Some (GDo (RoundTrip q) k) ->
      o_answer o _ (RoundTrip q) = Some v -> relayed (j_enclave j) q v
  | _ => True
  end.

Inductive jstep : Joint -> Joint -> Prop :=
| gateway_moves j op : carried op j -> jstep j {| j_world := gateway_step op (j_world j); j_enclave := j_enclave j |}
| enclave_moves j cf : cstep limiter handle (j_enclave j) cf -> jstep j {| j_world := j_world j; j_enclave := cf |}
| enclave_restarts j ttl max :
    jstep j {| j_world := j_world j; j_enclave := {| cf_state := enclave_boot ttl max; cf_threads := [] |} |}.

Definition jstart (fs tenants_fs : Fs) (ttl max : Z) : Joint :=
  {| j_world := wstart fs tenants_fs; j_enclave := {| cf_state := enclave_boot ttl max; cf_threads := [] |} |}.
Definition joint_reachable (fs tenants_fs : Fs) (ttl max : Z) (j : Joint) : Prop := rtc jstep (jstart fs tenants_fs ttl max) j.

(** ** Every answer has an enclave behind it *)

(** Some enclave gave this answer to this message. *)
Definition vouched (q : VsockRequest) (v : VsockResponse) : Prop :=
  exists ttl max cf, reachable limiter ttl max cf /\ relayed cf q v.

Record joint_inv (fs tenants_fs : Fs) (j : Joint) : Prop := {
  ji_world : exists ops, j_world j = wexec app vars auth tenants_path ops (wstart fs tenants_fs);
  ji_enclave : exists ttl max, reachable limiter ttl max (j_enclave j);
  ji_answers r q v : r ∈ w_requests (j_world j) -> gev (RoundTrip q) (Some v) ∈ rq_calls r -> vouched q v
}.

(** The round trip among the events. *)
Definition exchange (e : gevent) : option (VsockRequest * option VsockResponse) :=
  match e with
  | existT _ (c, x) => match c in gcall X return X -> option (VsockRequest * option VsockResponse) with
                       | RoundTrip q => fun v => Some (q, v) | _ => fun _ => None end x
  end.
Lemma exchange_inv {X} (c : gcall X) x q v : gev (RoundTrip q) v = gev c x ->
  exists He : X = option VsockResponse, eq_rect X gcall c _ He = RoundTrip q /\ eq_rect X id x _ He = v.
Proof using.
  intros He. pose proof (f_equal exchange He) as Hx. destruct c; try discriminate Hx. injection Hx as -> ->. by exists eq_refl.
Qed.

Lemma joint_inv_start fs tfs ttl max : joint_inv fs tfs (jstart fs tfs ttl max).
Proof using. split; [by exists []|by exists ttl, max; apply rtc_refl|]. intros r q v Hr. by apply not_elem_of_nil in Hr. Qed.

(** A step adds to the answers only what the enclave relayed. *)
Lemma gateway_answers fs tfs op j : joint_inv fs tfs j -> carried op j -> forall r' q v,
  r' ∈ w_requests (gateway_step op (j_world j)) -> gev (RoundTrip q) (Some v) ∈ rq_calls r' -> vouched q v.
Proof using.
  intros [_ (ttl & max & Hcf) Hold] Hc r' q v [i Hi]%list_elem_of_lookup Hin.
  destruct (proj2 (wstep_calls app vars auth tenants_path op (j_world j)) i r' Hi) as [Hn|(r & Hr & Hcalls)].
  { rewrite Hn in Hin. by apply not_elem_of_nil in Hin. }
  pose proof (list_elem_of_lookup_2 _ _ _ Hr) as Hrin.
  destruct Hcalls as [He|(o & X & c & k & -> & Hp & He)]; rewrite He in Hin; [by eapply Hold|].
  apply elem_of_cons in Hin as [Hev|Hin]; [|by eapply Hold].
  apply exchange_inv in Hev as (-> & Hcq & Hx). cbn in Hcq, Hx. subst c. cbn in Hx.
  exists ttl, max, (j_enclave j). split; [done|]. by eapply (Hc r q k v).
Qed.

Lemma joint_inv_step fs tfs j j' : jstep j j' -> joint_inv fs tfs j -> joint_inv fs tfs j'.
Proof using.
  intros Hs Hj. pose proof Hj as [[ops Hw] (ttl & max & Hcf) Hans]. destruct Hs as [j op Hc|j cf Hc|j ttl' max']; split; cbn [j_world j_enclave].
  - exists (ops ++ [op]). unfold wexec. rewrite foldl_app. cbn [foldl]. by rewrite Hw.
  - by exists ttl, max.
  - by eapply gateway_answers.
  - by exists ops.
  - exists ttl, max. eapply rtc_r; [exact Hcf|done].
  - exact Hans.
  - by exists ops.
  - exists ttl', max'. apply rtc_refl.
  - exact Hans.
Qed.

Lemma joint_inv_reachable fs tfs ttl max j : joint_reachable fs tfs ttl max j -> joint_inv fs tfs j.
Proof using.
  intros Hr. pose proof (joint_inv_start fs tfs ttl max) as Hs. unfold joint_reachable in Hr.
  revert Hs. induction Hr as [|j1 j2 j3 Hs _ IH]; [done|]. intros Hi. apply IH. by eapply joint_inv_step.
Qed.

(** The enclave may run alone, and so may the gateway while the enclave's
    answers stand. *)
Lemma enclave_runs w cf cf' : rtc (cstep limiter handle) cf cf' ->
  rtc jstep {| j_world := w; j_enclave := cf |} {| j_world := w; j_enclave := cf' |}.
Proof using.
  induction 1 as [cf|cf1 cf2 cf3 Hs _ IH]; [apply rtc_refl|]. eapply rtc_l; [|exact IH].
  exact (enclave_moves {| j_world := w; j_enclave := cf1 |} cf2 Hs).
Qed.
Definition relays (cf : Config) (op : wop) : Prop :=
  match op with WCall _ o => forall q v, o_answer o _ (RoundTrip q) = Some v -> relayed cf q v | _ => True end.
Lemma gateway_runs cf ops : Forall (relays cf) ops -> forall w,
  rtc jstep {| j_world := w; j_enclave := cf |} {| j_world := wexec app vars auth tenants_path ops w; j_enclave := cf |}.
Proof using.
  induction 1 as [|op ops Hop _ IH]; intros w; [apply rtc_refl|]. eapply rtc_l; [|apply IH].
  apply (gateway_moves {| j_world := w; j_enclave := cf |} op). destruct op; try done. intros r q k v _ _ Hv. by apply Hop.
Qed.

(** An answer without an error is that of a finished request of the enclave,
    which read the message as it was sent. *)
Lemma vouched_signed q v : vouched q v -> vs_error v = None ->
  exists ttl max cf sreq resp, reachable limiter ttl max cf /\ (sreq, Ret resp) ∈ cf_threads cf /\
    request_read q sreq /\ response_read resp v.
Proof using CL.
  intros (ttl & max & cf & Hcf & handler & Hrt & Hth) He.
  destruct (round_trip_inv _ _ _ Hrt) as (resp & answer & Hv & Ha & Hor). pose proof (response_roundtrip _ _ _ Hv Ha) as Hrd.
  destruct Hor as [Herr|(body & sreq & Hb & Hs & ->)].
  { rewrite <- (rd_error _ _ Hrd), He in Herr. by destruct Herr. }
  exists ttl, max, cf, sreq, (handler sreq). split_and!; [done|by eapply Hth|by eapply request_roundtrip|done].
Qed.
End System.

(** ** End to end *)

Section EndToEnd.
Context `{Crates, RegistryEnv, ReceiptEnv, Kms, PolicyEnv, BlobSerde, HandlerSerde, Msgpack} {SL : SizeLaws}.
Context `{Cbor, JsonText, LimitsSerde, TenantSerde, ChannelSerde} {CL : ChannelLaws}.
Context (limiter : RateLimiter) (app : AppConfig) (vars : Vars) (auth : AuthState) (tenants_path : string).

(** The request the client may send to the venue: the order the enclave built,
    authenticated with the sealed credentials. *)
Definition client_order (r : Route) (secret : json) (ts : Z) (canonical : string) (resp : Response) : Prop :=
  match r with
  | ROkxOrder _ => exists s headers receipt, okx_of_json secret = Some s /\
      h_body resp = SignVenueResponse "okx" "POST" (okx_base_url +:+ "/api/v5/trade/order") headers (Some canonical) receipt /\
      headers !! "OK-ACCESS-KEY" = Some (ok_key s) /\ headers !! "OK-ACCESS-TIMESTAMP" = Some (okx_iso8601_from_ms ts) /\
      headers !! "OK-ACCESS-SIGN" =
        Some (sign_okx (ok_secret s) (okx_iso8601_from_ms ts) "POST" "/api/v5/trade/order" canonical)
  | _ => exists s url headers receipt, binance_of_json secret = Some s /\
      let query := binance_full_query ts canonical in
      h_body resp = SignVenueResponse "binance" "POST" url headers
        (Some (query +:+ "&signature=" +:+ signature_of (bn_secret s) query)) receipt /\
      headers !! "X-MBX-APIKEY" = Some (bn_key s)
  end.

Lemma signed_qs_inv secret key ts q body headers :
  build_binance_signed_qs q (compute_binance_headers secret key ts q "") = Ok (body, headers) ->
  body = binance_full_query ts q +:+ "&signature=" +:+ signature_of secret (binance_full_query ts q) /\
  headers = {["X-MBX-APIKEY" := key]}.
Proof using.
  destruct (headers_lookup secret key ts q) as (Hs & Ht & Hr & Hd). unfold build_binance_signed_qs. rewrite Hs, Ht, Hr, Hd.
  destruct (negb _); [done|]. destruct (is_empty q) eqn:Hq; [done|]. destruct (bytes_any _ _); [done|]. cbn [orb].
  intros [= <- <-]. by rewrite <- (tail_text q ts _ Hq).
Qed.

Lemma okx_headers_inv secret passphrase key ts method path body hs :
  compute_okx_headers secret passphrase key ts method path body = Ok hs ->
  hs !! "OK-ACCESS-KEY" = Some key /\ hs !! "OK-ACCESS-TIMESTAMP" = Some (okx_iso8601_from_ms ts) /\
  hs !! "OK-ACCESS-SIGN" = Some (sign_okx secret (okx_iso8601_from_ms ts) method path body).
Proof using.
  unfold compute_okx_headers. destruct (negb _); [done|]. intros Hh.
  assert (forall a b : headers, @Ok string _ a = Ok b -> a = b) as Hinj by congruence. apply Hinj in Hh as <-. split_and!; by simplify_map_eq.
Qed.

(** What the gateway makes of the enclave's body and headers. *)
Lemma finish_client r action path req secret ts body hs receipt resp :
  order_route r = Some (action, path, req) -> order_headers_of action secret ts body hs ->
  order_finish app r (body, hs, receipt) = GRet resp -> h_status resp = 200 -> client_order r secret ts body resp.
Proof using.
  assert (forall s url, binance_of_json secret = Some s ->
    binance_post url (body, compute_binance_headers (bn_secret s) (bn_key s) ts body "", receipt) = GRet resp -> h_status resp = 200 ->
    client_order (RBinanceOrder req) secret ts body resp) as Hbin.
  { intros s url Hs Hf Hst. unfold binance_post in Hf. destruct (build_binance_signed_qs _ _) as [[qs hs']|] eqn:E.
    - apply signed_qs_inv in E as [-> ->]. injection Hf as <-. exists s, url. do 2 eexists. split; [done|]. split; [reflexivity|].
      by rewrite lookup_insert_ne, lookup_singleton_eq.
    - injection Hf as <-. by apply error_declined in Hst. }
  intros Hr Hh Hf Hst. destruct r; try discriminate Hr; injection Hr as <- <- ->; cbn [order_finish] in Hf; unfold order_headers_of in Hh.
  - destruct Hh as (s & Hs & ->). by eapply Hbin.
  - destruct Hh as (s & Hs & ->). by eapply Hbin.
  - rewrite decide_False in Hh by done. destruct Hh as (s & Hs & Hh). injection Hf as <-. exists s. do 2 eexists. split; [done|]. split; [reflexivity|].
    assert (forall k, k <> "Content-Type" -> k <> "x-simulated-trading" -> forall m : Headers,
      <["Content-Type" := "application/json"]> (demo_header (app_env app) m) !! k = m !! k) as Hk.
    { intros k Hk1 Hk2 m. rewrite lookup_insert_ne by done. unfold demo_header. destruct (okx_is_demo _); [|done]. by rewrite lookup_insert_ne. }
    rewrite !Hk by done. by eapply okx_headers_inv.
Qed.

(** The end of a request that succeeded. *)
Lemma request_ended r resp Q : request_ok app vars auth r -> rq_prog r = Some (GRet resp) -> h_status resp = 200 ->
  (forall tr resp, declined resp -> Q tr resp) ->
  (forall customer token tr, caller vars auth r = Some (customer, token) -> ends (route_handler app (rq_route r) customer token) tr Q) ->
  exists customer token, caller vars auth r = Some (customer, token) /\ Q (rq_calls r) resp.
Proof using.
  intros (p & Hf & Hp) Hr Hst HQ Hh. specialize (Hp _ Hr) as <-. unfold caller in *. unfold serve in Hf.
  destruct (require_bearer vars auth (rq_header r)) as [[customer token]|].
  - exists customer, token. split; [done|].
    by destruct (gall_follows _ _ _ _ _ (layers_end app _ customer token [] Q HQ (fun tr => Hh _ _ tr eq_refl)) Hf) as [[_ Hq] _].
  - apply gfollows_ret in Hf as [_ [= ->]]. discriminate Hst.
Qed.

(** What [dispatch] guarantees of an action holds of every answer to it that
    reaches the gateway without an error. *)
Lemma answer_authorised (P : string -> Prop) `{!forall a, Decision (P a)} (R : SignRequest -> ResolvedIdentity -> SignResponse -> Prop) q v :
  (forall req identity, P (r_action req) -> identity_ok identity ->
     wp call_pre call_post (dispatch req identity) (Enclave.answered (R req identity))) ->
  vouched limiter q v -> vs_error v = None -> P (vq_action q) -> vq_action q ∈ signing_actions ->
  exists sreq identity resp0, request_read q sreq /\ Enclave.admitted sreq identity /\ R sreq identity resp0 /\
    vs_headers v = s_headers resp0 /\ vs_canonical_body v = s_canonical_body resp0.
Proof using CL SL.
  intros Hd Hv Herr HP Hs. destruct (vouched_signed limiter q v Hv Herr) as (ttl & max & cf & sreq & eresp & Hcf & Hin & Hreq & Hresp).
  rewrite <- (rd_action _ _ Hreq) in HP, Hs.
  destruct (reachable_answers limiter P R ttl max cf sreq eresp Hd Hcf Hin HP (signing_not_bypassed _ Hs))
    as (identity & resp0 & Had & HR & Hrec); [by rewrite <- (rd_error _ _ Hresp)|].
  exists sreq, identity, resp0. rewrite (rd_headers _ _ Hresp), (rd_canonical _ _ Hresp). split_and!; try done; by destruct Hrec as [->|[rc ->]].
Qed.

(** Of a request's message that was answered: the gateway's checks on it, and
    the enclave behind the answer. *)
Lemma joint_message fs tfs ttl max j r q v customer token :
  joint_reachable limiter app vars auth tenants_path fs tfs ttl max j -> r ∈ w_requests (j_world j) ->
  caller vars auth r = Some (customer, token) -> seen (rq_calls r) (RoundTrip q) (Some v) ->
  message_ok app customer token (rq_calls r) q /\ vouched limiter q v.
Proof using.
  intros [[ops Hw] _ Hvouched]%joint_inv_reachable Hr Hc Hs. split; [|by eapply Hvouched].
  rewrite Hw in Hr. apply world_requests in Hr.
  destruct (request_sends app vars auth r q Hr (ex_intro _ _ Hs)) as (customer' & token' & Hc' & Hm). rewrite Hc in Hc'. by injection Hc' as <- <-.
Qed.
Lemma joint_request fs tfs ttl max j r :
  joint_reachable limiter app vars auth tenants_path fs tfs ttl max j -> r ∈ w_requests (j_world j) -> request_ok app vars auth r.
Proof using. intros [[ops Hw] _ _]%joint_inv_reachable Hr. rewrite Hw in Hr. by eapply world_requests. Qed.

Lemma ordered_end r resp line : request_ok app vars auth r -> rq_prog r = Some (GRet resp) -> h_status resp = 200 ->
  order_route (rq_route r) = Some line -> exists customer token canonical headers receipt,
    caller vars auth r = Some (customer, token) /\ order_exchanged app customer token line (rq_calls r) canonical headers /\
    order_finish app (rq_route r) (canonical, headers, receipt) = GRet resp.
Proof using.
  intros Hok Hp Hst Ho. destruct (request_ended r resp (fun tr resp => forall customer token,
      caller vars auth r = Some (customer, token) -> order_answered app customer token (rq_route r) tr resp) Hok Hp Hst)
    as (customer & token & Hc & Hans); [intros; by apply declined_answered| |].
  { intros c t tr Hc. eapply ends_mono; [by apply route_handler_ends; eexists|]. intros tr' a _ Ha c' t'. rewrite Hc. by intros [= <- <-]. }
  destruct (Hans _ _ Hc Hst _ Ho) as (canonical & headers & receipt & Hex & Hfin). by exists customer, token, canonical, headers, receipt.
Qed.

Lemma payment_end r resp req : request_ok app vars auth r -> rq_prog r = Some (GRet resp) -> h_status resp = 200 ->
  rq_route r = RSignX402 req -> exists customer token, caller vars auth r = Some (customer, token) /\
    payment_answered app customer token req (rq_calls r) resp.
Proof using.
  intros Hok Hp Hst Hr. destruct (request_ended r resp (fun tr resp => forall customer token,
      caller vars auth r = Some (customer, token) -> payment_answered app customer token req tr resp) Hok Hp Hst)
    as (customer & token & Hc & Hans); [intros; by apply declined_payment| |].
  { intros c t tr Hc. rewrite Hr. eapply ends_mono; [apply post_sign_x402_ends|]. intros tr' a _ Ha c' t'. rewrite Hc. by intros [= <- <-]. }
  exists customer, token. split; [done|]. by apply Hans.
Qed.

(** C11: From the client to the venue: in every run of the gateway and the
    enclave together, with any other clients of either and restarts of both, a
    structured order is handed back as signed only if the caller's token was
    granted it by the gateway's limits while the tenant was active, and the
    enclave, reading the same token, order and key blob, resolved the token in
    a registry the control plane signed to an active tenant, opened the blob for
    that tenant and venue, and found exactly this order within the caps sealed
    in it and signed by the agent where the policy asks; what the client gets is
    the enclave's body, whose signature under the sealed key covers all of it. *)
Theorem order_end_to_end fs tfs ttl max j r resp action path req :
  joint_reachable limiter app vars auth tenants_path fs tfs ttl max j -> r ∈ w_requests (j_world j) ->
  order_route (rq_route r) = Some (action, path, req) -> rq_prog r = Some (GRet resp) -> h_status resp = 200 ->
  let order := order_read (normalize_order_case (so_order req)) in
  exists customer token blob sreq identity venue policy secret ts build body,
    caller vars auth r = Some (customer, token) /\ order_granted app token (rq_calls r) /\ active customer (rq_calls r) /\
    blobs app !! blob_key customer (so_key_id req) = Some blob /\
    r_action sreq = action /\ r_opaque_token sreq = Some token /\ r_order sreq = Some order /\
    r_ciphertext_blob_base64 sreq = Some (b64_encode blob) /\ (forall t, so_timestamp_ms req = Some t -> ts = t) /\
    Enclave.admitted sreq identity /\ id_mode identity = Registry.Active /\ blob_ok sreq identity venue policy secret /\
    within_order_cap policy (o_symbol order) (o_qty order) (o_price order) /\
    order_intended policy sreq identity venue ts order /\
    order_builder action = Some build /\ build order = Ok body /\
    client_order (rq_route r) secret ts body resp.
Proof using CL SL.
  intros Hj Hr Ho Hp Hst order. destruct (ordered_end r resp _ (joint_request _ _ _ _ _ _ Hj Hr) Hp Hst Ho)
    as (customer & token & canonical & headers & receipt & Hc & Hex & Hfin).
  destruct Hex as (blob & creds & ts & v & Hb & Hts & Hseen & Herr & Hcan & _ & ->).
  set (q := structured_request _ _ _ _ _ _ _ _ _ _ _) in Hseen.
  assert (is_order q = true /\ harmless q = false /\ action ∈ ["sign_binance_order"; "sign_okx_order"]) as (Hiso & Hharm & Hact).
  { subst q. destruct (rq_route r); try discriminate Ho; injection Ho as <- <- <-; split_and!; try reflexivity; set_solver. }
  destruct (joint_message _ _ _ _ _ _ _ _ _ _ Hj Hr Hc Hseen) as [(_ & Hgr & _ & Hactive & _) Hv].
  destruct (answer_authorised (fun a => a ∈ ["sign_binance_order"; "sign_okx_order"]) order_signed q v)
    as (sreq & identity & resp0 & Hreq & Had & Hsig & Hhd & Hcb);
    [intros; by apply wp_structured_order|done..|unfold signing_actions; set_unfold; tauto|].
  destruct Hsig as (venue & policy & secret & h & o & ts' & build & body & hs & Hblob & _ & Hord & Hts' & Hcap & Hint & Hbu & Hbody & Hhs & ->).
  rewrite (rd_order _ _ Hreq _ eq_refl) in Hord. injection Hord as <-. rewrite (rd_timestamp _ _ Hreq) in Hts'. injection Hts' as <-.
  rewrite Hcb in Hcan. injection Hcan as <-. rewrite Hhd in Hfin. rewrite (rd_action _ _ Hreq) in *. change (vq_action q) with action in *.
  exists customer, token, blob, sreq, identity, venue, policy, secret, ts, build, body. split_and!; try done.
  - by apply Hgr.
  - by apply Hactive.
  - exact (rd_action _ _ Hreq).
  - by rewrite (rd_token _ _ Hreq).
  - by apply (rd_order _ _ Hreq).
  - by rewrite (rd_blob _ _ Hreq).
  - apply (admitted_active _ _ Had). rewrite (rd_action _ _ Hreq). unfold exposure_actions. set_unfold. tauto.
  - by eapply finish_client.
Qed.

(** Where both ends read an amount, they read the same one. *)
Lemma amounts_agree s n w : parse_unsigned 128 (trim s) = Some n -> parse_u256_be_decimal s = Ok w -> be_val w = n.
Proof using.
  intros Hn Hw. pose proof (parse_u256_spec s) as Hs. cbv zeta in Hs. case_decide as Hd; [|destruct Hs as [e He]; congruence].
  destruct Hs as (w' & Hw' & _ & _ & Hv). assert (w' = w) as -> by congruence. rewrite Hv. destruct Hd as (He & Hdig & _).
  unfold parse_unsigned in Hn. assert (strip_prefix "+" (trim s) = None) as Hp.
  { destruct (trim s) as [|c t]; [done|]. cbn [strip_prefix]. case_decide as Hc; [|done]. by subst c. }
  rewrite Hp in Hn. cbn [default] in Hn. rewrite He, Hdig in Hn. cbn [negb orb] in Hn. destruct (_ <? _); congruence.
Qed.

(** C12: From the client to the chain: in every run of the gateway and the enclave
    together, an x402 payment authorisation is handed back only if the tenant
    was active, the gateway counted exactly the amount that is signed against
    the spend cap of one key name, the enclave was sent the token of the caller,
    the payment, and the very blob stored for that tenant under that key name,
    and the enclave resolved the token to the active x402 tenant, opened that
    blob, and found the payment within the policy sealed in it; the client gets
    the signature over exactly the fields it asked for, made with the secret
    sealed in that same blob, and the address of that secret. *)
Theorem payment_end_to_end fs tfs ttl max j r resp req :
  joint_reachable limiter app vars auth tenants_path fs tfs ttl max j -> r ∈ w_requests (j_world j) ->
  rq_route r = RSignX402 req -> rq_prog r = Some (GRet resp) -> h_status resp = 200 ->
  let x := x402_read (x4_x402 req) in
  exists customer token blob sreq identity venue policy secret pk contract from to value nonce sig receipt,
    caller vars auth r = Some (customer, token) /\ active customer (rq_calls r) /\
    blobs app !! blob_key customer (x4_key_id req) = Some blob /\ r_ciphertext_blob_base64 sreq = Some (b64_encode blob) /\
    (is_Some (x402_period_cap (limits app)) -> exists now,
       seen (rq_calls r) (CountSpend (blob_key customer (x4_key_id req)) (Z.to_N (be_val value)) now) (Some Allow)) /\
    r_opaque_token sreq = Some token /\ r_x402 sreq = Some x /\ Enclave.admitted sreq identity /\
    id_mode identity = Registry.Active /\ id_customer_id identity = X402_CUSTOMER_ID /\ blob_ok sreq identity venue policy secret /\
    parse_evm_address (x_token_address x) = Ok contract /\ parse_evm_address (x_to x) = Ok to /\
    parse_u256_be_decimal (x_value x) = Ok value /\ parse_bytes32_hex (x_nonce x) = Ok nonce /\
    within_x402 policy (x_chain_id x) contract to value /\ evm_key secret pk from /\
    sign_x402_eip3009 pk (x_token_name x) (x_token_version x) (x_chain_id x) contract from to value
      (x_valid_after x) (x_valid_before x) nonce = Ok sig /\
    h_body resp = SignX402Response sig ("0x" +:+ hex_encode from) receipt.
Proof using CL SL.
  intros Hj Hr Ho Hp Hst x. destruct (payment_end r resp req (joint_request _ _ _ _ _ _ Hj Hr) Hp Hst Ho) as (customer & token & Hc & Hans).
  destruct (Hans Hst) as (blob & creds & now & v & signature & payer & receipt & Hb & Hseen & Herr & Hsg & Hfr & Hbody).
  set (q := key_request _ _ _ _ _ _ _ _ _ _) in Hseen.
  destruct (joint_message _ _ _ _ _ _ _ _ _ _ Hj Hr Hc Hseen) as [(_ & _ & Hspend & Hactive & _) Hv].
  destruct (Hspend eq_refl) as (stem & n & text & Hstem & Htext & Hn & Hcount). cbn in Htext. injection Htext as <-.
  assert (x4_key_id req = stem) as <- by (apply secrets_key_inj; change (Some (secrets_key (x4_key_id req)) = Some (secrets_key stem)) in Hstem; congruence).
  destruct (answer_authorised (fun a => a = "sign_x402_eip3009") x402_signed q v) as (sreq & identity & resp0 & Hreq & Had & Hsig & Hhd & _);
    [intros; by apply wp_x402|done..|apply (bool_decide_unpack _); vm_compute; exact I|].
  destruct Hsig as (venue & policy & secret & h & x' & pk & contract & from & to & value & nonce & sig & Hblob & _ & Hx & _ & Htk & _ & Hto & Hval &
    Hno & Hin & Hkey & Hsign & ->).
  rewrite (rd_x402 _ _ Hreq _ eq_refl) in Hx. injection Hx as <-. fold x in Htk, Hto, Hval, Hno, Hin, Hsign.
  pose proof (rd_action _ _ Hreq) as Ha. change (vq_action q) with "sign_x402_eip3009" in Ha.
  rewrite Hhd in Hsg, Hfr. change (hex_header "signature" sig "from" from !! "signature" = Some signature) in Hsg.
  change (hex_header "signature" sig "from" from !! "from" = Some payer) in Hfr.
  assert (hex_header "signature" sig "from" from !! "signature" = Some sig /\
    hex_header "signature" sig "from" from !! "from" = Some ("0x" +:+ hex_encode from)) as [H1' H2'] by (unfold hex_header; split; by simplify_map_eq).
  assert (signature = sig /\ payer = "0x" +:+ hex_encode from) as [-> ->] by (split; congruence).
  exists customer, token, blob, sreq, identity, venue, policy, secret, pk, contract, from, to, value, nonce, sig, receipt.
  split_and!; try done.
  - by apply Hactive.
  - by rewrite (rd_blob _ _ Hreq).
  - rewrite (amounts_agree _ n _ Hn Hval). exact Hcount.
  - by rewrite (rd_token _ _ Hreq).
  - by apply (rd_x402 _ _ Hreq).
  - apply (admitted_active _ _ Had). rewrite Ha. by apply (bool_decide_unpack _).
  - destruct Hblob as [Hven _ [_ Hown] _ _]. rewrite Ha in Hven. injection Hven as <-. by symmetry.
Qed.
End EndToEnd.

(** ** One order and one payment, end to end *)

#[local] Existing Instance demo_crates.
#[local] Existing Instance demo_msgpack.
#[local] Existing Instance demo_registry_env.
#[local] Existing Instance demo_receipt_env.
#[local] Existing Instance demo_kms.
#[local] Existing Instance demo_policy_env.
#[local] Existing Instance demo_blob_serde.
#[local] Existing Instance demo_handler_serde.
#[local] Existing Instance demo_size_laws.
#[local] Existing Instance demo_limits_serde.
#[local] Existing Instance demo_tenant_serde.
#[local] Existing Instance demo_json_text.

(** The order of [Scenario.ask_order], as a client of the gateway writes it. *)
Definition asked_order : OrderParams :=
  {| oq_symbol := "BTCUSDT"; oq_side := "BUY"; oq_qty := "0.5"; oq_ord_type := "LIMIT"; oq_price := Some "100"; oq_reduce_only := false;
     oq_client_order_id := Some "coid-1" |}.
Definition asked : SignOrderRequest :=
  {| so_key_id := "binance"; so_order := asked_order; so_timestamp_ms := Some 1700000000000;
     so_intent_signature := r_intent_signature ask_order |}.

(** [Scenario.ask_x402]. *)
Definition asked_payment : SignX402Request :=
  {| x4_key_id := "x402"; x4_x402 :=
       {| xq_token_name := "USDC"; xq_token_version := "2"; xq_chain_id := 8453; xq_token_address := demo_addr; xq_from := toy_address;
          xq_to := demo_addr; xq_value := "1000000"; xq_valid_after := 0; xq_valid_before := 1700000600;
          xq_nonce := "0x" +:+ RustStr.zeros 64 |} |}.

(** A channel that carries the one message [ask] and the enclave's answer to it. *)
Definition order_of (v : json) : option OrderParams :=
  match v with
  | JObj [(_, JStr symbol); (_, JStr side); (_, JStr qty); (_, JStr ord_type); (_, JStr price); (_, JBool reduce_only); (_, JStr coid)] =>
      Some {| oq_symbol := symbol; oq_side := side; oq_qty := qty; oq_ord_type := ord_type; oq_price := Some price;
              oq_reduce_only := reduce_only; oq_client_order_id := Some coid |}
  | _ => None
  end.
Definition x402_of (v : json) : option X402Params :=
  match v with
  | JObj [(_, JStr name); (_, JStr version); (_, JNum (PosInt chain)); (_, JStr token); (_, JStr from); (_, JStr to); (_, JStr value);
          (_, JNum (PosInt after)); (_, JNum (PosInt before)); (_, JStr nonce)] =>
      Some {| xq_token_name := name; xq_token_version := version; xq_chain_id := chain; xq_token_address := token; xq_from := from;
              xq_to := to; xq_value := value; xq_valid_after := after; xq_valid_before := before; xq_nonce := nonce |}
  | _ => None
  end.
#[local] Instance order_request_eq_dec : EqDecision OrderRequest.
Proof. solve_decision. Defined.
#[local] Instance x402_request_eq_dec : EqDecision X402Request.
Proof. solve_decision. Defined.

(** The member, where there is one, is the one [ask] has. *)
Definition member_is {A B} `{EqDecision B} (parse : json -> option A) (read : A -> B) (v : option json) (b : option B) : bool :=
  match v with None => true | Some v => match parse v with Some a => bool_decide (b = Some (read a)) | None => false end end.
Definition is_message (ask : SignRequest) (q : VsockRequest) : bool :=
  bool_decide (vq_action q = r_action ask) && bool_decide (vq_proto_version q = r_proto_version ask) &&
  bool_decide (vq_opaque_token q = r_opaque_token ask) && bool_decide (vq_timestamp_ms q = r_timestamp_ms ask) &&
  bool_decide (vq_ciphertext_blob_base64 q = r_ciphertext_blob_base64 ask) &&
  bool_decide (vq_intent_signature q = r_intent_signature ask) &&
  member_is order_of order_read (vq_order q) (r_order ask) && member_is x402_of x402_read (vq_x402 q) (r_x402 ask).
Definition is_answer (answer resp : SignResponse) : bool :=
  bool_decide (s_error resp = s_error answer) && bool_decide (s_headers resp = s_headers answer) &&
  bool_decide (s_canonical_body resp = s_canonical_body answer).
Definition answer_read (answer : SignResponse) : VsockResponse :=
  {| vs_signature_base64 := ""; vs_headers := s_headers answer; vs_hl_signature := None; vs_error := s_error answer;
     vs_plaintext_sha256 := None; vs_plaintext_len := None; vs_canonical_body := s_canonical_body answer; vs_attested := None;
     vs_attestation_document_b64 := None; vs_receipt := None; vs_heartbeat := None |}.

Definition one_message (ask : SignRequest) (answer : SignResponse) : ChannelSerde := {|
  vsock_request_to_vec q := if is_message ask q then Some "message" else None;
  sign_request_of_slice s := if String.eqb s "message" then Some ask else None;
  sign_response_to_vec resp := if is_answer answer resp then Some "answer" else None;
  vsock_response_of_slice s := if String.eqb s "answer" then Some (answer_read answer) else None
|}.

Lemma order_of_value o p : order_of (order_to_value o) = Some p -> p = o.
Proof. destruct o as [sy si qt ot [pr|] ro [co|]]; cbn; congruence. Qed.
Lemma x402_of_value x p : x402_of (x402_to_value x) = Some p -> p = x.
Proof. destruct x. cbn. congruence. Qed.
Lemma member_is_read {A B} `{EqDecision B} (parse : json -> option A) (read : A -> B) to v b a :
  (forall a p, parse (to a) = Some p -> p = a) -> member_is parse read v b = true -> v = Some (to a) -> b = Some (read a).
Proof.
  intros Hof Hm ->. cbn in Hm. destruct (parse (to a)) as [p|] eqn:Hp; [|done]. apply Hof in Hp as ->. by apply bool_decide_eq_true in Hm.
Qed.

Lemma one_message_laws ask answer : @ChannelLaws (one_message ask answer).
Proof.
  constructor.
  - intros q body s. cbn [vsock_request_to_vec sign_request_of_slice one_message]. destruct (is_message ask q) eqn:E; [|done].
    intros [= <-] [= <-]. unfold is_message in E. apply andb_true_iff in E as [E Hx]. apply andb_true_iff in E as [E Ho].
    repeat (apply andb_true_iff in E as [E ?Hc]).
    repeat match goal with Hb : bool_decide _ = true |- _ => apply bool_decide_eq_true in Hb end. split; try congruence; intros a Ha.
    + exact (member_is_read _ _ _ _ _ _ order_of_value Ho Ha).
    + exact (member_is_read _ _ _ _ _ _ x402_of_value Hx Ha).
  - intros resp text v. cbn [sign_response_to_vec vsock_response_of_slice one_message].
    destruct (is_answer answer resp) eqn:E; [|done]. intros [= <-] [= <-]. unfold is_answer in E.
    apply andb_true_iff in E as [[E1%bool_decide_eq_true E2%bool_decide_eq_true]%andb_true_iff E3%bool_decide_eq_true].
    by split.
Qed.

(** A gateway that holds the blobs of both requests for the bearers of their
    tokens, and asks the enclave through that channel. *)
Definition sys_app : AppConfig :=
  {| blobs := {[blob_key "fund-a" "binance" := toy_seal "cust" "binance" "binance";
                blob_key "fund-b" "x402" := toy_seal X402_CUSTOMER_ID "x402" "x402"]};
     limits := {| daily_cap := Some 2; counter_path := Some "/state/orders.json"; rate_per_min := Some 60; orders_per_min := None;
                  cancels_per_min := None; dry_run := false; x402_period_cap := Some 1500000; x402_spend_path := Some "/state/spend.json" |};
     data_signing_token := None; app_env := fun _ => None |}.
Definition sys_auth : AuthState := [(sha256 "tok", "fund-a"); (sha256 "pay", "fund-b")].
Definition relaying (ask : SignRequest) (answer : SignResponse) (X : Type) (c : gcall X) : X :=
  match c in gcall X return X with
  | RoundTrip q => @round_trip (one_message ask answer) (@handle_connection (one_message ask answer) (fun _ => answer)) q
  | NowMs => 1700000000000
  | c => GwWorld.demo_answer _ c
  end.
Definition sys_oracle (ask : SignRequest) (answer : SignResponse) : GwWorld.Oracle :=
  {| o_io := io_fine; o_instant := 0; o_task := TaskReturns; o_answer := relaying ask answer |}.
Definition sys_ops (ask : SignRequest) (answer : SignResponse) (header : string) (route : Route) : list wop :=
  [GwWorld.demo_boot; WAccept (Some header) route] ++ replicate 14 (WCall 0 (sys_oracle ask answer)).

Abbreviation sys_exec := (wexec sys_app demo_vars sys_auth "/state/tenants.json").
Abbreviation sys_reachable ask answer :=
  (@joint_reachable _ _ _ _ _ _ _ _ _ _ _ (one_message ask answer) demo_limiter sys_app demo_vars sys_auth "/state/tenants.json" ∅ ∅ 60 16).

(** The one request of a world, with its answer. *)
Definition served (w : World) : option (Request * Response) :=
  match w_requests w with [r] => match rq_prog r with Some (GRet resp) => Some (r, resp) | _ => None end | _ => None end.
Definition glance (x : Request * Response) : Z * Route * option (string * string) :=
  (h_status (snd x), rq_route (fst x), caller demo_vars sys_auth (fst x)).

Lemma served_inv w r resp : served w = Some (r, resp) -> r ∈ w_requests w /\ rq_prog r = Some (GRet resp).
Proof.
  unfold served. destruct (w_requests w) as [|r' [|]]; [done| |done]. destruct (rq_prog r') as [[resp'|]|] eqn:Hp; [|done..].
  intros [= <- <-]. split; [by left|done].
Qed.

(** The enclave's run of [Scenario], then the gateway's. *)
Lemma sys_run ask answer header route customer token :
  (ask, Ret answer) ∈ cf_threads demo_run_cf ->
  option_map glance (served (sys_exec (sys_ops ask answer header route) (wstart ∅ ∅))) = Some (200, route, Some (customer, token)) ->
  exists j r resp, sys_reachable ask answer j /\ r ∈ w_requests (j_world j) /\ rq_route r = route /\ rq_prog r = Some (GRet resp) /\
    h_status resp = 200 /\ caller demo_vars sys_auth r = Some (customer, token).
Proof.
  intros Hin Hs. assert (sys_reachable ask answer {| j_world := sys_exec (sys_ops ask answer header route) (wstart ∅ ∅); j_enclave := demo_run_cf |}) as Hj.
  { unfold joint_reachable, jstart. transitivity {| j_world := wstart ∅ ∅; j_enclave := demo_run_cf |};
      [exact (enclave_runs _ _ _ _ _ _ _ _ demo_reachable)|apply gateway_runs].
    unfold sys_ops. apply Forall_app. split; [by repeat constructor|]. apply Forall_replicate. intros q v Hv. exists (fun _ => answer).
    split; [exact Hv|]. intros body sreq _ Hp.
    change (sign_request_of_slice body) with (if String.eqb body "message" then Some ask else None) in Hp.
    destruct (String.eqb body "message"); [|discriminate Hp]. injection Hp as <-. exact Hin. }
  revert Hs Hj. generalize (sys_exec (sys_ops ask answer header route) (wstart ∅ ∅)). intros w Hs Hj.
  destruct (served w) as [[r resp]|] eqn:E; [|discriminate Hs]. apply served_inv in E as [Hr Hp]. injection Hs as Hst Hro Hc.
  exists {| j_world := w; j_enclave := demo_run_cf |}, r, resp. by split_and!.
Qed.

Definition order_reply : SignResponse := Eval vm_compute in Scenario.demo_response 2.
Definition payment_reply : SignResponse := Eval vm_compute in Scenario.demo_response 3.
Lemma order_replied : (ask_order, Ret order_reply) ∈ cf_threads demo_run_cf.
Proof. assert (Scenario.demo_response 2 = order_reply) as <- by (vm_compute; reflexivity). exact (proj1 (demo_served 2 ask_order eq_refl)). Qed.
Lemma payment_replied : (ask_x402, Ret payment_reply) ∈ cf_threads demo_run_cf.
Proof. assert (Scenario.demo_response 3 = payment_reply) as <- by (vm_compute; reflexivity). exact (proj1 (demo_served 3 ask_x402 eq_refl)). Qed.

Lemma order_served :
  option_map glance (served (sys_exec (sys_ops ask_order order_reply "Bearer tok" (RBinanceOrder asked)) (wstart ∅ ∅))) =
  Some (200, RBinanceOrder asked, Some ("fund-a", "tok")).
Proof. vm_compute. reflexivity. Qed.
Lemma payment_served :
  option_map glance (served (sys_exec (sys_ops ask_x402 payment_reply "Bearer pay" (RSignX402 asked_payment)) (wstart ∅ ∅))) =
  Some (200, RSignX402 asked_payment, Some ("fund-b", "pay")).
Proof. vm_compute. reflexivity. Qed.

Lemma order_end_to_end_witness :
  exists r resp, rq_prog r = Some (GRet resp) /\ h_status resp = 200 /\
    exists sreq identity venue policy secret ts body,
      r_opaque_token sreq = Some "tok" /\ Enclave.admitted sreq identity /\ blob_ok sreq identity venue policy secret /\
      within_order_cap policy "BTCUSDT" "0.5" (Some "100") /\ client_order (rq_route r) secret ts body resp.
Proof.
  destruct (sys_run _ _ _ _ _ _ order_replied order_served) as (j & r & resp & Hj & Hin & Hr & Hp & Hst & Hcaller).
  destruct (order_end_to_end (CL := one_message_laws ask_order order_reply)
      demo_limiter sys_app demo_vars sys_auth "/state/tenants.json" ∅ ∅ 60 16 j r resp
      "sign_binance_order" "/fapi/v1/order" asked Hj Hin (f_equal order_route Hr) Hp Hst)
    as (customer & token & blob & sreq & identity & venue & policy & secret & ts & build & body & Hc & _ & _ & _ & _ & Ht & _ & _ & _ & Had & _ & Hb &
        Hcap & _ & _ & _ & Hclient).
  exists r, resp. split; [exact Hp|]. split; [exact Hst|]. exists sreq, identity, venue, policy, secret, ts, body.
  split; [|exact (conj Had (conj Hb (conj Hcap Hclient)))]. rewrite Ht. rewrite Hcaller in Hc. injection Hc as _ <-. reflexivity.
Defined.

Lemma payment_end_to_end_witness :
  exists r resp, rq_prog r = Some (GRet resp) /\ h_status resp = 200 /\
    exists sreq value, r_ciphertext_blob_base64 sreq = Some (b64_encode (toy_seal X402_CUSTOMER_ID "x402" "x402")) /\
      parse_u256_be_decimal "1000000" = Ok value /\
      exists now, seen (rq_calls r) (CountSpend (blob_key "fund-b" "x402") (Z.to_N (be_val value)) now) (Some Allow).
Proof.
  destruct (sys_run _ _ _ _ _ _ payment_replied payment_served) as (j & r & resp & Hj & Hin & Hr & Hp & Hst & Hcaller).
  destruct (payment_end_to_end (CL := one_message_laws ask_x402 payment_reply)
      demo_limiter sys_app demo_vars sys_auth "/state/tenants.json" ∅ ∅ 60 16 j r resp asked_payment Hj Hin Hr Hp Hst)
    as (customer & token & blob & sreq & identity & venue & policy & secret & pk & contract & from & to & value & nonce & sig & receipt & Hc & _ &
        Hb & Hsb & Hcount & _ & _ & _ & _ & _ & _ & _ & _ & Hval & _).
  exists r, resp. split; [exact Hp|]. split; [exact Hst|]. exists sreq, value. rewrite Hcaller in Hc. injection Hc as <- <-.
  assert (blobs sys_app !! blob_key "fund-b" (x4_key_id asked_payment) = Some (toy_seal X402_CUSTOMER_ID "x402" "x402")) as Hsb' by reflexivity.
  rewrite Hb in Hsb'. injection Hsb' as ->. split; [exact Hsb|]. split; [exact Hval|]. apply Hcount. by eexists.
Defined.
